(** * Combo Surge: the gameplay core

    A shallow embedding of the rhythm game and the theorems about it: the
    seeded generator and the level generator with the level names
    (lib/game/levels.ts), the type catalog (lib/types.ts), the engine
    (lib/game/engine.ts) with its hit judgement, miss handling, level start
    and end, per-frame update, input handlers, frame loop, particle and
    floating-text queues and the saving and loading of the progression, and
    what the renderer (lib/game/renderer.ts) decides from the state.  The
    definitions come first, the theorems after them.

    Numbers.  A JavaScript number is an IEEE-754 double.  Where a discrete
    result depends on the rounding, the rounding is written out: the seeded
    generator multiplies a 31-bit seed by a 30-bit constant and rounds to 53
    significant bits on [Z]; the score of a hit, the combo and score
    multipliers, the hit window and the life of a floating text or a particle
    are computed with [JSNumber.round64], the nearest double of a rational.
    Positions, times, note speeds and chances are exact rationals ([Q]): two
    doubles that differ in their last bits are not told apart there, and a
    comparison of such a quantity can fall the other way in the code when the
    two sides are within a rounding error of each other.  Scores, counters
    and level numbers are integers ([Z]), exact on doubles below 2^53.

    Left out.  The canvas calls of the renderer, the scheduling of the frames
    by the host and the registration of the event listeners. *)

From Stdlib Require Import ZArith QArith Qround Qabs Qpower List Bool Lia Lqa String Ascii
  DecimalString DecimalZ DecimalPos.
Import ListNotations.

Local Open Scope Z_scope.

(* ------------------------------------------------------------------------- *)
(** ** JavaScript number primitives used by the engine *)

Module JSNumber.

(** An integer result of a double operation: exact below 2^53 in magnitude,
    otherwise rounded to 53 significant bits, ties to the even significand. *)
Definition round53 (x : Z) : Z :=
  let a := Z.abs x in
  if a <? 2 ^ 53 then x
  else
    let e := Z.log2 a - 52 in
    let q := Z.shiftr a e in
    let r := a - Z.shiftl q e in
    let half := Z.shiftl 1 (e - 1) in
    let q' := if r <? half then q
              else if half <? r then q + 1
              else if Z.even q then q else q + 1 in
    Z.sgn x * Z.shiftl q' e.

(** [x * y] and [x + y] on integer-valued doubles. *)
Definition mul (x y : Z) : Z := round53 (x * y).
Definition add (x y : Z) : Z := round53 (x + y).

(** [x & 0x7fffffff]: ToInt32 keeps the low 32 bits of the two's complement
    representation, the mask then keeps the low 31. *)
Definition mask31 (x : Z) : Z := Z.land x 0x7fffffff.

(** [Math.floor] on a rational. *)
Definition floor (q : Q) : Z := Qfloor q.

(** *** Doubles

    A finite double is a rational [m * 2^k] with [|m| < 2^53].  [round64 q]
    is the double nearest to [q], a tie going to the even significand.  The
    range of the exponent is not limited: the numbers of the game stay far
    from overflow and from the subnormal doubles. *)

(** The [e] with [2^e <= a < 2^(e+1)], for [0 < a]. *)
Definition ilog2 (a : Q) : Z :=
  let e0 := Z.log2 (Qnum a) - Z.log2 (Zpos (Qden a)) in
  if Qle_bool (Qpower 2 e0) a then e0 else e0 - 1.

(** The nearest integer, a tie going to the even one. *)
Definition roundEven (y : Q) : Z :=
  let f := Qfloor y in
  let r := (y - inject_Z f)%Q in
  if Qle_bool r (1 # 2)
  then if Qle_bool (1 # 2) r then (if Z.even f then f else f + 1) else f
  else f + 1.

Definition round64 (q : Q) : Q :=
  if Qeq_bool q 0 then 0%Q
  else
    let a := Qabs q in
    let e := ilog2 a in
    let m := roundEven (a * Qpower 2 (52 - e)) in
    let r := Qred (inject_Z m * Qpower 2 (e - 52)) in
    if Qle_bool 0 q then r else (- r)%Q.

(** [x + y], [x - y] and [x * y] on doubles.  An operand that is written
    as a decimal literal in the source ([0.1], [0.15]) is the double
    nearest to it, so the operands are rounded first; on a double that
    changes nothing. *)
Definition fadd (x y : Q) : Q := round64 (round64 x + round64 y).
Definition fsub (x y : Q) : Q := round64 (round64 x - round64 y).
Definition fmul (x y : Q) : Q := round64 (round64 x * round64 y).

Arguments round64 q : simpl never.
Arguments fadd x y : simpl never.
Arguments fsub x y : simpl never.
Arguments fmul x y : simpl never.

End JSNumber.

(* ------------------------------------------------------------------------- *)
(** ** SeededRandom (engine.ts and levels.ts carry the same class) *)

Module SeededRandom.

Record t := mk { seed : Z }.

Definition multiplier : Z := 1103515245.
Definition increment : Z := 12345.

(** [this.seed = (this.seed * 1103515245 + 12345) & 0x7fffffff] *)
Definition advance (s : Z) : Z :=
  JSNumber.mask31 (JSNumber.add (JSNumber.mul s multiplier) increment).

(** [return this.seed / 0x7fffffff] *)
Definition output (s : Z) : Q := inject_Z s / inject_Z 0x7fffffff.

(** [next()]: the returned float and the generator after the call. *)
Definition next (g : t) : Q * t :=
  let s := advance (seed g) in (output s, mk s).



End SeededRandom.

(* ------------------------------------------------------------------------- *)
(** ** Comparisons on rationals as the booleans the code branches on *)

Module QBool.

Definition ltb (x y : Q) : bool := negb (Qle_bool y x).
Definition leb (x y : Q) : bool := Qle_bool x y.
Definition gtb (x y : Q) : bool := ltb y x.
Definition geb (x y : Q) : bool := leb y x.

(** [Math.min], [Math.max], [Math.abs]. *)
Definition min (x y : Q) : Q := if leb x y then x else y.
Definition max (x y : Q) : Q := if leb x y then y else x.
Definition abs (x : Q) : Q := Qabs x.

(** [x % y] on numbers: the remainder takes the sign of the dividend. *)
Definition trunc (x : Q) : Z := if leb 0 x then Qfloor x else Qceiling x.
Definition rem (x y : Q) : Q := (x - y * inject_Z (trunc (x / y)))%Q.

End QBool.

(* ------------------------------------------------------------------------- *)
(** ** Type definitions and constant tables (types.ts)

    Every record comes with the field updates the engine performs on it. *)

Inductive NoteType := Normal | Double | Hold.

Inductive HitRating := Perfect | Great | Good | Miss.

Inductive Screen := Menu | Playing | Results.

Module Note.
(** [id] is the number [k] of the identifier [note_k]. *)
Record t := mk {
  id : Z;
  lane : Z;
  type : NoteType;
  spawnTime : Q;
  hitTime : Q;
  y : Q;
  hit : bool;
  missed : bool;
  rating : option HitRating }.
Definition set_y (v : Q) (r : t) : t :=
  mk (id r) (lane r) (type r) (spawnTime r) (hitTime r) v (hit r) (missed r) (rating r).
Definition set_hit (v : bool) (r : t) : t :=
  mk (id r) (lane r) (type r) (spawnTime r) (hitTime r) (y r) v (missed r) (rating r).
Definition set_missed (v : bool) (r : t) : t :=
  mk (id r) (lane r) (type r) (spawnTime r) (hitTime r) (y r) (hit r) v (rating r).
Definition set_rating (v : option HitRating) (r : t) : t :=
  mk (id r) (lane r) (type r) (spawnTime r) (hitTime r) (y r) (hit r) (missed r) v.
End Note.

Module Lane.
Record t := mk {
  x : Q;
  width : Q;
  key : string;
  color : string;
  glowColor : string;
  pressed : bool;
  hitEffect : Q }.
Definition set_x (v : Q) (r : t) : t :=
  mk v (width r) (key r) (color r) (glowColor r) (pressed r) (hitEffect r).
Definition set_key (v : string) (r : t) : t :=
  mk (x r) (width r) v (color r) (glowColor r) (pressed r) (hitEffect r).
Definition set_pressed (v : bool) (r : t) : t :=
  mk (x r) (width r) (key r) (color r) (glowColor r) v (hitEffect r).
Definition set_hitEffect (v : Q) (r : t) : t :=
  mk (x r) (width r) (key r) (color r) (glowColor r) (pressed r) v.
End Lane.

Module ComboState.
Record t := mk {
  current : Z;
  max : Z;
  multiplier : Q }.
Definition set_current (v : Z) (r : t) : t :=
  mk v (max r) (multiplier r).
Definition set_max (v : Z) (r : t) : t :=
  mk (current r) v (multiplier r).
Definition set_multiplier (v : Q) (r : t) : t :=
  mk (current r) (max r) v.
End ComboState.

Module ScoreState.
Record t := mk {
  current : Z;
  display : Q;
  perfectCount : Z;
  greatCount : Z;
  goodCount : Z;
  missCount : Z }.
Definition set_current (v : Z) (r : t) : t :=
  mk v (display r) (perfectCount r) (greatCount r) (goodCount r) (missCount r).
Definition set_display (v : Q) (r : t) : t :=
  mk (current r) v (perfectCount r) (greatCount r) (goodCount r) (missCount r).
Definition set_perfectCount (v : Z) (r : t) : t :=
  mk (current r) (display r) v (greatCount r) (goodCount r) (missCount r).
Definition set_greatCount (v : Z) (r : t) : t :=
  mk (current r) (display r) (perfectCount r) v (goodCount r) (missCount r).
Definition set_goodCount (v : Z) (r : t) : t :=
  mk (current r) (display r) (perfectCount r) (greatCount r) v (missCount r).
Definition set_missCount (v : Z) (r : t) : t :=
  mk (current r) (display r) (perfectCount r) (greatCount r) (goodCount r) v.
End ScoreState.

Module Upgrade.
Record t := mk {
  id : string;
  name : string;
  description : string;
  baseCost : Z;
  maxLevel : Z;
  currentLevel : Z;
  effect : Q }.
Definition set_currentLevel (v : Z) (r : t) : t :=
  mk (id r) (name r) (description r) (baseCost r) (maxLevel r) v (effect r).
End Upgrade.

Module NotePattern.
Record t := mk {
  time : Q;
  lanes : list Z;
  type : NoteType }.
End NotePattern.

Module LevelConfig.
Record t := mk {
  bpm : Z;
  duration : Z;
  difficulty : Q;
  patterns : list NotePattern.t }.
End LevelConfig.

Module GameConfig.
Record t := mk {
  laneCount : Z;
  hitLineY : Q;
  baseHitWindow : Q;
  baseNoteSpeed : Q;
  perfectWindow : Q;
  greatWindow : Q;
  goodWindow : Q }.
End GameConfig.

Module GameState.
(** The aggregate state.  [levelHighScores] and [levelMaxCombos] are the
    entries of the two [Map]s in insertion order.  The particle and
    floating-text queues, which only the renderer reads, are left out. *)
Record t := mk {
  screen : Screen;
  currentLevelNum : Z;
  highestLevel : Z;
  gameTime : Q;
  notes : list Note.t;
  lanes : list Lane.t;
  combo : ComboState.t;
  score : ScoreState.t;
  totalPoints : Z;
  upgrades : list Upgrade.t;
  isPaused : bool;
  hitWindow : Q;
  noteSpeed : Q;
  beatPulse : Q;
  levelHighScores : list (Z * Z);
  levelMaxCombos : list (Z * Z);
  keybinds : list string;
  rebindingLane : option nat }.
Definition set_screen (v : Screen) (r : t) : t :=
  mk v (currentLevelNum r) (highestLevel r) (gameTime r) (notes r) (lanes r) (combo r) (score r) (totalPoints r) (upgrades r) (isPaused r) (hitWindow r) (noteSpeed r) (beatPulse r) (levelHighScores r) (levelMaxCombos r) (keybinds r) (rebindingLane r).
Definition set_currentLevelNum (v : Z) (r : t) : t :=
  mk (screen r) v (highestLevel r) (gameTime r) (notes r) (lanes r) (combo r) (score r) (totalPoints r) (upgrades r) (isPaused r) (hitWindow r) (noteSpeed r) (beatPulse r) (levelHighScores r) (levelMaxCombos r) (keybinds r) (rebindingLane r).
Definition set_highestLevel (v : Z) (r : t) : t :=
  mk (screen r) (currentLevelNum r) v (gameTime r) (notes r) (lanes r) (combo r) (score r) (totalPoints r) (upgrades r) (isPaused r) (hitWindow r) (noteSpeed r) (beatPulse r) (levelHighScores r) (levelMaxCombos r) (keybinds r) (rebindingLane r).
Definition set_gameTime (v : Q) (r : t) : t :=
  mk (screen r) (currentLevelNum r) (highestLevel r) v (notes r) (lanes r) (combo r) (score r) (totalPoints r) (upgrades r) (isPaused r) (hitWindow r) (noteSpeed r) (beatPulse r) (levelHighScores r) (levelMaxCombos r) (keybinds r) (rebindingLane r).
Definition set_notes (v : list Note.t) (r : t) : t :=
  mk (screen r) (currentLevelNum r) (highestLevel r) (gameTime r) v (lanes r) (combo r) (score r) (totalPoints r) (upgrades r) (isPaused r) (hitWindow r) (noteSpeed r) (beatPulse r) (levelHighScores r) (levelMaxCombos r) (keybinds r) (rebindingLane r).
Definition set_lanes (v : list Lane.t) (r : t) : t :=
  mk (screen r) (currentLevelNum r) (highestLevel r) (gameTime r) (notes r) v (combo r) (score r) (totalPoints r) (upgrades r) (isPaused r) (hitWindow r) (noteSpeed r) (beatPulse r) (levelHighScores r) (levelMaxCombos r) (keybinds r) (rebindingLane r).
Definition set_combo (v : ComboState.t) (r : t) : t :=
  mk (screen r) (currentLevelNum r) (highestLevel r) (gameTime r) (notes r) (lanes r) v (score r) (totalPoints r) (upgrades r) (isPaused r) (hitWindow r) (noteSpeed r) (beatPulse r) (levelHighScores r) (levelMaxCombos r) (keybinds r) (rebindingLane r).
Definition set_score (v : ScoreState.t) (r : t) : t :=
  mk (screen r) (currentLevelNum r) (highestLevel r) (gameTime r) (notes r) (lanes r) (combo r) v (totalPoints r) (upgrades r) (isPaused r) (hitWindow r) (noteSpeed r) (beatPulse r) (levelHighScores r) (levelMaxCombos r) (keybinds r) (rebindingLane r).
Definition set_totalPoints (v : Z) (r : t) : t :=
  mk (screen r) (currentLevelNum r) (highestLevel r) (gameTime r) (notes r) (lanes r) (combo r) (score r) v (upgrades r) (isPaused r) (hitWindow r) (noteSpeed r) (beatPulse r) (levelHighScores r) (levelMaxCombos r) (keybinds r) (rebindingLane r).
Definition set_upgrades (v : list Upgrade.t) (r : t) : t :=
  mk (screen r) (currentLevelNum r) (highestLevel r) (gameTime r) (notes r) (lanes r) (combo r) (score r) (totalPoints r) v (isPaused r) (hitWindow r) (noteSpeed r) (beatPulse r) (levelHighScores r) (levelMaxCombos r) (keybinds r) (rebindingLane r).
Definition set_isPaused (v : bool) (r : t) : t :=
  mk (screen r) (currentLevelNum r) (highestLevel r) (gameTime r) (notes r) (lanes r) (combo r) (score r) (totalPoints r) (upgrades r) v (hitWindow r) (noteSpeed r) (beatPulse r) (levelHighScores r) (levelMaxCombos r) (keybinds r) (rebindingLane r).
Definition set_beatPulse (v : Q) (r : t) : t :=
  mk (screen r) (currentLevelNum r) (highestLevel r) (gameTime r) (notes r) (lanes r) (combo r) (score r) (totalPoints r) (upgrades r) (isPaused r) (hitWindow r) (noteSpeed r) v (levelHighScores r) (levelMaxCombos r) (keybinds r) (rebindingLane r).
Definition set_levelHighScores (v : list (Z * Z)) (r : t) : t :=
  mk (screen r) (currentLevelNum r) (highestLevel r) (gameTime r) (notes r) (lanes r) (combo r) (score r) (totalPoints r) (upgrades r) (isPaused r) (hitWindow r) (noteSpeed r) (beatPulse r) v (levelMaxCombos r) (keybinds r) (rebindingLane r).
Definition set_levelMaxCombos (v : list (Z * Z)) (r : t) : t :=
  mk (screen r) (currentLevelNum r) (highestLevel r) (gameTime r) (notes r) (lanes r) (combo r) (score r) (totalPoints r) (upgrades r) (isPaused r) (hitWindow r) (noteSpeed r) (beatPulse r) (levelHighScores r) v (keybinds r) (rebindingLane r).
Definition set_keybinds (v : list string) (r : t) : t :=
  mk (screen r) (currentLevelNum r) (highestLevel r) (gameTime r) (notes r) (lanes r) (combo r) (score r) (totalPoints r) (upgrades r) (isPaused r) (hitWindow r) (noteSpeed r) (beatPulse r) (levelHighScores r) (levelMaxCombos r) v (rebindingLane r).
Definition set_rebindingLane (v : option nat) (r : t) : t :=
  mk (screen r) (currentLevelNum r) (highestLevel r) (gameTime r) (notes r) (lanes r) (combo r) (score r) (totalPoints r) (upgrades r) (isPaused r) (hitWindow r) (noteSpeed r) (beatPulse r) (levelHighScores r) (levelMaxCombos r) (keybinds r) v.
End GameState.

Definition DEFAULT_CONFIG : GameConfig.t :=
  GameConfig.mk 4 (85 # 100) 150 400 40 80 120.

Definition LANE_COLORS : list (string * string) :=
  [ ("#ff00ff", "#ff00ff44"); ("#00ffff", "#00ffff44");
    ("#ffff00", "#ffff0044"); ("#00ff00", "#00ff0044") ]%string.

Definition LANE_KEYS : list string := ["D"; "F"; "J"; "K"]%string.

(** The catalog; the engine's constructor adds [currentLevel: 0] to each. *)
Definition UPGRADE_DEFINITIONS : list Upgrade.t :=
  [ Upgrade.mk "timing" "Better Timing" "+10% hit window" 100 10 0 (1 # 10);
    Upgrade.mk "multiplier" "Score Boost" "+15% base score" 150 10 0 (15 # 100);
    Upgrade.mk "combo_shield" "Combo Shield" "+8% save chance" 200 10 0 (8 # 100);
    Upgrade.mk "perfect_bonus" "Perfect Master" "+20% perfect pts" 250 10 0 (2 # 10);
    Upgrade.mk "slow_notes" "Focus Mode" "-5% note speed" 120 10 0 (5 # 100) ]%string.

(* ------------------------------------------------------------------------- *)
(** ** Computations that draw from a seeded generator

    The generator object is mutated by every [next()]; a computation threads
    it.  The only loop without a bound of its own is the [do ... while] that
    redraws the second lane of a double note: it is given fuel, and a
    computation that exhausts it has no result. *)

Module Gen.

Definition t (A : Type) : Type := SeededRandom.t -> option (A * SeededRandom.t).

Definition ret {A} (a : A) : t A := fun g => Some (a, g).

Definition bind {A B} (m : t A) (k : A -> t B) : t B :=
  fun g => match m g with
           | Some (a, g') => k a g'
           | None => None
           end.

Definition diverge {A} : t A := fun _ => None.

(** [rng.next()] *)
Definition next : t Q := fun g => Some (SeededRandom.next g).

(** [Math.floor(rng.next() * 4)] *)
Definition nextLane : t Z :=
  bind next (fun v => ret (JSNumber.floor (v * 4))).

(** [do { secondLane = Math.floor(rng.next() * 4) } while (secondLane === first)] *)
Fixpoint secondLane (fuel : nat) (first : Z) : t Z :=
  match fuel with
  | O => diverge
  | S fuel' =>
      bind nextLane (fun l =>
        if l =? first then secondLane fuel' first else ret l)
  end.

End Gen.

Declare Scope gen_scope.
Delimit Scope gen_scope with gen.
Notation "x <- m ;; k" := (Gen.bind m (fun x => k))
  (at level 61, m at next level, right associativity) : gen_scope.

(* ------------------------------------------------------------------------- *)
(** ** The level generator (levels.ts) *)

Module Levels.
Import QBool.
Local Open Scope gen_scope.

(** The chances, as functions of the difficulty. *)
Definition baseNoteChance (difficulty : Q) : Q :=
  ((5 # 10) + min (difficulty * (8 # 100)) (4 # 10))%Q.
Definition doubleChance (difficulty : Q) : Q :=
  min ((5 # 100) + difficulty * (5 # 100)) (4 # 10)%Q.
Definition offBeatChance (difficulty : Q) : Q :=
  min (difficulty * (8 # 100)) (5 # 10)%Q.

Definition push (patterns : list NotePattern.t) (p : NotePattern.t) :=
  patterns ++ [p].

(** One triplet note, [t] = 1 or 2. *)
Definition triplet (beatDuration duration time : Q) (t : Z)
    (patterns : list NotePattern.t) : Gen.t (list NotePattern.t) :=
  let tripletTime := (time + (inject_Z t * beatDuration / 3) / duration)%Q in
  if ltb tripletTime (95 # 100) then
    l <- Gen.nextLane ;;
    Gen.ret (push patterns (NotePattern.mk tripletTime [l] Normal))
  else Gen.ret patterns.

(** The body of the loop over beats. *)
Definition beatBody (fuel : nat) (beatDuration duration difficulty : Q)
    (beat : Z) (patterns : list NotePattern.t) : Gen.t (list NotePattern.t) :=
  let time := (inject_Z beat * beatDuration / duration)%Q in
  if beat <? 4 then Gen.ret patterns
  else
    v <- Gen.next ;;
    patterns <-
      (if ltb v (baseNoteChance difficulty) then
         first <- Gen.nextLane ;;
         d <- Gen.next ;;
         lanes <-
           (if ltb d (doubleChance difficulty) then
              second <- Gen.secondLane fuel first ;;
              Gen.ret [first; second]
            else Gen.ret [first]) ;;
         Gen.ret (push patterns (NotePattern.mk time lanes Normal))
       else Gen.ret patterns) ;;
    o <- Gen.next ;;
    patterns <-
      (if ltb o (offBeatChance difficulty) then
         let offBeatTime := (time + ((5 # 10) * beatDuration) / duration)%Q in
         if ltb offBeatTime (95 # 100) then
           l <- Gen.nextLane ;;
           Gen.ret (push patterns (NotePattern.mk offBeatTime [l] Normal))
         else Gen.ret patterns
       else Gen.ret patterns) ;;
    if gtb difficulty 2 then
      w <- Gen.next ;;
      if ltb w (1 # 10) then
        patterns <- triplet beatDuration duration time 1 patterns ;;
        triplet beatDuration duration time 2 patterns
      else Gen.ret patterns
    else Gen.ret patterns.

(** [for (let beat = from; ...; beat++)], [n] iterations. *)
Fixpoint beatLoop (fuel : nat) (beatDuration duration difficulty : Q)
    (n : nat) (beat : Z) (patterns : list NotePattern.t)
    : Gen.t (list NotePattern.t) :=
  match n with
  | O => Gen.ret patterns
  | S n' =>
      patterns <- beatBody fuel beatDuration duration difficulty beat patterns ;;
      beatLoop fuel beatDuration duration difficulty n' (beat + 1) patterns
  end.

(** [patterns.sort((a, b) => a.time - b.time)]: ascending by time, and
    stable, as the language requires of [Array.prototype.sort]. *)
Fixpoint insertByTime (p : NotePattern.t) (l : list NotePattern.t) :=
  match l with
  | [] => [p]
  | q :: l' =>
      if ltb (NotePattern.time p) (NotePattern.time q) then p :: q :: l'
      else q :: insertByTime p l'
  end.

Definition sortByTime (l : list NotePattern.t) : list NotePattern.t :=
  fold_left (fun acc p => insertByTime p acc) l [].

Definition generatePatterns (fuel : nat) (bpm duration : Z) (difficulty : Q)
    : Gen.t (list NotePattern.t) :=
  let beatDuration := (60 / inject_Z bpm)%Q in
  let totalBeats := JSNumber.floor (inject_Z duration / beatDuration) in
  patterns <- beatLoop fuel beatDuration (inject_Z duration) difficulty
                (Z.to_nat totalBeats) 0 [] ;;
  Gen.ret (sortByTime patterns).

Definition levelSeed (levelNum : Z) : Z := JSNumber.mul levelNum 12345.

Definition levelBpm (levelNum : Z) : Z :=
  let baseBpm := 80 in
  let bpmIncrease := Z.min (JSNumber.mul levelNum 5) 120 in
  JSNumber.add baseBpm bpmIncrease.

Definition levelDuration (levelNum : Z) : Z :=
  Z.min (JSNumber.add 20 (JSNumber.mul levelNum 2)) 60.

Definition levelDifficulty (levelNum : Z) : Q :=
  (1 + (inject_Z levelNum - 1) * (15 # 100))%Q.

(** [generateLevel(levelNum)]; [None] when the fuel does not suffice. *)
Definition generateLevel (fuel : nat) (levelNum : Z) : option LevelConfig.t :=
  let rng := SeededRandom.mk (levelSeed levelNum) in
  let bpm := levelBpm levelNum in
  let duration := levelDuration levelNum in
  let difficulty := levelDifficulty levelNum in
  match generatePatterns fuel bpm duration difficulty rng with
  | Some (patterns, _) => Some (LevelConfig.mk bpm duration difficulty patterns)
  | None => None
  end.

End Levels.

(* ------------------------------------------------------------------------- *)
(** ** List and string helpers for the array and string operations used *)

Module JSArray.

(** [arr[i] = f(arr[i])] on an existing index. *)
Fixpoint updateAt {A} (i : nat) (f : A -> A) (l : list A) : list A :=
  match l, i with
  | [], _ => []
  | a :: l', O => f a :: l'
  | a :: l', S i' => a :: updateAt i' f l'
  end.

(** [arr.indexOf(k)], [None] for -1. *)
Fixpoint indexOf (k : string) (l : list string) : option nat :=
  match l with
  | [] => None
  | a :: l' => if String.eqb a k then Some O
               else option_map S (indexOf k l')
  end.

(** [map.get(k)] and [map.set(k, v)] on the entries of a [Map]. *)
Fixpoint mapGet (k : Z) (m : list (Z * Z)) : option Z :=
  match m with
  | [] => None
  | (k', v) :: m' => if k' =? k then Some v else mapGet k m'
  end.

Fixpoint mapSet (k v : Z) (m : list (Z * Z)) : list (Z * Z) :=
  match m with
  | [] => [(k, v)]
  | (k', v') :: m' => if k' =? k then (k, v) :: m' else (k', v') :: mapSet k v m'
  end.

(** [s.toUpperCase()] on ASCII text. *)
Definition upperAscii (c : Ascii.ascii) : Ascii.ascii :=
  let n := Ascii.nat_of_ascii c in
  if (97 <=? n)%nat && (n <=? 122)%nat then Ascii.ascii_of_nat (n - 32) else c.

(** [String.prototype.toUpperCase] on a string of ASCII characters, which
    is what the keys of a US keyboard give.  On other characters the
    source maps by the Unicode tables ([e.key] of a key that types an
    accented letter), which this definition leaves as they are: a theorem
    about a key says where it needs the key to be ASCII. *)
Fixpoint toUpperCase (s : string) : string :=
  match s with
  | EmptyString => EmptyString
  | String c s' => String (upperAscii c) (toUpperCase s')
  end.

End JSArray.

(* ------------------------------------------------------------------------- *)
(** ** The engine (engine.ts)

    An engine value is the [GameEngine] object together with the module-level
    [noteIdCounter].  Methods take the engine and return the engine after the
    call.  [Math.random()] is an input: a method that may call it receives the
    sequence of its future results.  [saveProgress] writes to the host's
    storage only and leaves the engine as it is, so it does not appear. *)

Module Engine.
Import QBool JSArray.

Record t := mk {
  canvasWidth : Q;
  canvasHeight : Q;
  state : GameState.t;
  config : GameConfig.t;
  currentLevelConfig : option LevelConfig.t;
  nextBeatTime : Q;
  levelRng : option SeededRandom.t;
  noteIdCounter : Z }.
Definition set_canvasWidth (v : Q) (r : t) : t :=
  mk v (canvasHeight r) (state r) (config r) (currentLevelConfig r) (nextBeatTime r) (levelRng r) (noteIdCounter r).
Definition set_canvasHeight (v : Q) (r : t) : t :=
  mk (canvasWidth r) v (state r) (config r) (currentLevelConfig r) (nextBeatTime r) (levelRng r) (noteIdCounter r).
Definition set_state (v : GameState.t) (r : t) : t :=
  mk (canvasWidth r) (canvasHeight r) v (config r) (currentLevelConfig r) (nextBeatTime r) (levelRng r) (noteIdCounter r).
Definition set_currentLevelConfig (v : option LevelConfig.t) (r : t) : t :=
  mk (canvasWidth r) (canvasHeight r) (state r) (config r) v (nextBeatTime r) (levelRng r) (noteIdCounter r).
Definition set_nextBeatTime (v : Q) (r : t) : t :=
  mk (canvasWidth r) (canvasHeight r) (state r) (config r) (currentLevelConfig r) v (levelRng r) (noteIdCounter r).
Definition set_levelRng (v : option SeededRandom.t) (r : t) : t :=
  mk (canvasWidth r) (canvasHeight r) (state r) (config r) (currentLevelConfig r) (nextBeatTime r) v (noteIdCounter r).
Definition set_noteIdCounter (v : Z) (r : t) : t :=
  mk (canvasWidth r) (canvasHeight r) (state r) (config r) (currentLevelConfig r) (nextBeatTime r) (levelRng r) v.

Definition modify_state (f : GameState.t -> GameState.t) (e : t) : t :=
  set_state (f (state e)) e.

Definition laneWidth : Q := 80.

Definition laneX (canvasWidth : Q) (laneCount : Z) (i : nat) : Q :=
  let totalWidth := (laneWidth * inject_Z laneCount)%Q in
  let startX := ((canvasWidth - totalWidth) / 2)%Q in
  (startX + inject_Z (Z.of_nat i) * laneWidth)%Q.

(** The constructor up to its call of [loadProgress] (engine.ts:116): the
    engine that is constructed when no progress is stored.  What
    [loadProgress] then assigns from a stored save is [Store.loadProgress];
    the listeners registered last are left out. *)
Definition create (canvasWidth canvasHeight : Q) : t :=
  let config := DEFAULT_CONFIG in
  let lanes :=
    map (fun i =>
           Lane.mk (laneX canvasWidth (GameConfig.laneCount config) i) laneWidth
                   (nth i LANE_KEYS EmptyString)
                   (fst (nth i LANE_COLORS (EmptyString, EmptyString)))
                   (snd (nth i LANE_COLORS (EmptyString, EmptyString)))
                   false 0)
        (seq 0 (Z.to_nat (GameConfig.laneCount config))) in
  let upgrades := map (Upgrade.set_currentLevel 0) UPGRADE_DEFINITIONS in
  mk canvasWidth canvasHeight
     (GameState.mk Menu 1 1 0 [] lanes
        (ComboState.mk 0 0 1)
        (ScoreState.mk 0 0 0 0 0 0)
        0 upgrades false
        (GameConfig.baseHitWindow config) (GameConfig.baseNoteSpeed config)
        0 [] [] LANE_KEYS None)
     config None 0 None 0.

(** [updateLanePositions] and [resize]. *)
Definition updateLanePositions (e : t) : t :=
  let n := List.length (GameState.lanes (state e)) in
  modify_state
    (fun s =>
       GameState.set_lanes
         (fold_left
            (fun lanes i =>
               updateAt i (Lane.set_x (laneX (canvasWidth e)
                                         (GameConfig.laneCount (config e)) i)) lanes)
            (seq 0 n) (GameState.lanes s)) s) e.

Definition resize (width height : Q) (e : t) : t :=
  updateLanePositions (set_canvasHeight height (set_canvasWidth width e)).

(** [this.state.upgrades.find(u => u.id === id)] *)
Definition findUpgrade (id : string) (e : t) : option Upgrade.t :=
  find (fun u => String.eqb (Upgrade.id u) id) (GameState.upgrades (state e)).

(** [currentLevel * effect] of the upgrade [id], [None] if it is absent:
    the exact product, for the note speed and the shield chance. *)
Definition upgradeBonus (id : string) (e : t) : option Q :=
  option_map (fun u => (inject_Z (Upgrade.currentLevel u) * Upgrade.effect u)%Q)
             (findUpgrade id e).

Definition getHitLineY (e : t) : Q :=
  (canvasHeight e * GameConfig.hitLineY (config e))%Q.

(** [getUpgradeCost]: [Math.floor(baseCost * Math.pow(1.5, currentLevel))] *)
Definition rawCost (baseCost level : Z) : Q :=
  (inject_Z baseCost * Qpower (15 # 10) level)%Q.

Definition getUpgradeCost (upgrade : Upgrade.t) : Z :=
  JSNumber.floor (rawCost (Upgrade.baseCost upgrade) (Upgrade.currentLevel upgrade)).

(** *** Hit judgement *)

Definition updNote (i : nat) (f : Note.t -> Note.t) (e : t) : t :=
  modify_state (fun s => GameState.set_notes (updateAt i f (GameState.notes s)) s) e.

Definition updLane (i : nat) (f : Lane.t -> Lane.t) (e : t) : t :=
  modify_state (fun s => GameState.set_lanes (updateAt i f (GameState.lanes s)) s) e.

(** [this.state.lanes[laneIndex]] updated, for a lane index held as a number;
    an index without a lane raises in the source and changes nothing here. *)
Definition updLaneAt (laneIndex : Z) (f : Lane.t -> Lane.t) (e : t) : t :=
  if 0 <=? laneIndex then updLane (Z.to_nat laneIndex) f e else e.

Definition updCombo (f : ComboState.t -> ComboState.t) (e : t) : t :=
  modify_state (fun s => GameState.set_combo (f (GameState.combo s)) s) e.

Definition updScore (f : ScoreState.t -> ScoreState.t) (e : t) : t :=
  modify_state (fun s => GameState.set_score (f (GameState.score s)) s) e.

(** The rating of a hit at [distance], its base score and its counter. *)
Definition rate (config : GameConfig.t) (distance : Q) : HitRating :=
  if leb distance (GameConfig.perfectWindow config) then Perfect
  else if leb distance (GameConfig.greatWindow config) then Great
  else Good.

Definition baseScoreOf (r : HitRating) : Z :=
  match r with Perfect => 100 | Great => 75 | _ => 50 end.

Definition countRating (r : HitRating) (sc : ScoreState.t) : ScoreState.t :=
  match r with
  | Perfect => ScoreState.set_perfectCount (ScoreState.perfectCount sc + 1) sc
  | Great => ScoreState.set_greatCount (ScoreState.greatCount sc + 1) sc
  | _ => ScoreState.set_goodCount (ScoreState.goodCount sc + 1) sc
  end.

(** The three assignments to the combo in [hitNote]: [current += 1],
    [max = Math.max(max, current)] and
    [multiplier = 1 + Math.floor(current / 10) * 0.1], on doubles. *)
Definition bumpCombo (c : ComboState.t) : ComboState.t :=
  let current := ComboState.current c + 1 in
  ComboState.mk current (Z.max (ComboState.max c) current)
                (JSNumber.fadd 1 (JSNumber.fmul (inject_Z (current / 10)) (1 # 10))).

(** [upgrade.currentLevel * upgrade.effect] on doubles, for the score and
    the hit window. *)
Definition upgradeProduct (id : string) (e : t) : option Q :=
  option_map (fun u => JSNumber.fmul (inject_Z (Upgrade.currentLevel u))
                                     (Upgrade.effect u))
             (findUpgrade id e).

(** The local [scoreMultiplier] of [hitNote]: 1, plus the product of the
    score upgrade, plus that of the perfect bonus on a perfect hit. *)
Definition scoreMultiplier (rating : HitRating) (e : t) : Q :=
  let m := match upgradeProduct "multiplier" e with
           | Some b => JSNumber.fadd 1 b
           | None => 1%Q
           end in
  match rating with
  | Perfect => match upgradeProduct "perfect_bonus" e with
               | Some b => JSNumber.fadd m b
               | None => m
               end
  | _ => m
  end.

(** [hitNote(note, distance)], the note given by its index in [notes].
    The awarded points are the floor of the product of doubles
    [baseScore * multiplier * scoreMultiplier], multiplied from the left. *)
Definition hitNote (i : nat) (distance : Q) (e : t) : t :=
  let e := updNote i (Note.set_hit true) e in
  let rating := rate (config e) distance in
  let baseScore := baseScoreOf rating in
  let e := updScore (countRating rating) e in
  let e := updNote i (Note.set_rating (Some rating)) e in
  let e := updCombo bumpCombo e in
  let finalScore :=
    JSNumber.floor
      (JSNumber.fmul (JSNumber.fmul (inject_Z baseScore)
                                    (ComboState.multiplier (GameState.combo (state e))))
                     (scoreMultiplier rating e)) in
  let e := updScore (fun sc => ScoreState.set_current
                                 (ScoreState.current sc + finalScore) sc) e in
  let e := match nth_error (GameState.notes (state e)) i with
           | Some note => updLaneAt (Note.lane note) (Lane.set_hitEffect 1) e
           | None => e
           end in
  modify_state (fun s => GameState.set_beatPulse
                           (min 1 (GameState.beatPulse s + (3 # 10))%Q) s) e.

Definition unresolved (n : Note.t) : bool :=
  negb (Note.hit n) && negb (Note.missed n).

(** The loop of [tryHitNote]: [acc] is the pair [closestNote, closestDist],
    [None] while they are [null] and [Infinity]. *)
Fixpoint closest (laneIndex : Z) (hitLineY effectiveWindow : Q)
    (i : nat) (notes : list Note.t) (acc : option (nat * Q)) : option (nat * Q) :=
  match notes with
  | [] => acc
  | note :: rest =>
      let acc' :=
        if (Note.lane note =? laneIndex) && unresolved note then
          let dist := abs (Note.y note - hitLineY)%Q in
          let closer := match acc with
                        | Some (_, closestDist) => ltb dist closestDist
                        | None => true
                        end in
          if closer && ltb dist effectiveWindow then Some (i, dist) else acc
        else acc in
      closest laneIndex hitLineY effectiveWindow (S i) rest acc'
  end.

(** [baseHitWindow * windowMultiplier] of [tryHitNote], on doubles. *)
Definition effectiveWindow (e : t) : Q :=
  let windowMultiplier := match upgradeProduct "timing" e with
                          | Some b => JSNumber.fadd 1 b
                          | None => 1%Q
                          end in
  JSNumber.fmul (GameConfig.baseHitWindow (config e)) windowMultiplier.

Definition tryHitNote (laneIndex : Z) (e : t) : t :=
  let hitLineY := getHitLineY e in
  match closest laneIndex hitLineY (effectiveWindow e) 0
                (GameState.notes (state e)) None with
  | Some (i, closestDist) => hitNote i closestDist e
  | None => updLaneAt laneIndex (Lane.set_hitEffect (3 # 10)) e
  end.

(** *** Misses *)

(** [missNote(note)]; [roll] is the result of its [Math.random()]. *)
Definition missNote (i : nat) (roll : Q) (e : t) : t :=
  let e := updNote i (fun n => Note.set_rating (Some Miss) (Note.set_missed true n)) e in
  let e := updScore (fun sc => ScoreState.set_missCount
                                 (ScoreState.missCount sc + 1) sc) e in
  let shieldChance := match upgradeBonus "combo_shield" e with
                      | Some b => b
                      | None => 0%Q
                      end in
  if ltb roll shieldChance then e
  else updCombo (fun c => ComboState.set_multiplier 1
                            (ComboState.set_current 0 c)) e.

(** *** Level start and end *)

Definition startLevel (fuel : nat) (levelNum : Z) (e : t) : option t :=
  match Levels.generateLevel fuel levelNum with
  | None => None
  | Some levelConfig =>
      let e := set_currentLevelConfig (Some levelConfig) e in
      let e := set_levelRng (Some (SeededRandom.mk (JSNumber.mul levelNum 12345))) e in
      let e := set_nextBeatTime 0 e in
      Some (modify_state
              (fun s =>
                 GameState.set_isPaused false
                   (GameState.set_score (ScoreState.mk 0 0 0 0 0 0)
                      (GameState.set_combo (ComboState.mk 0 0 1)
                         (GameState.set_notes []
                            (GameState.set_gameTime (-2)
                               (GameState.set_screen Playing
                                  (GameState.set_currentLevelNum levelNum s)))))))
              e)
  end.

(** [map.get(k) || 0] *)
Definition getOrZero (k : Z) (m : list (Z * Z)) : Z :=
  match mapGet k m with Some v => v | None => 0 end.

Definition endLevel (e : t) : t :=
  let s := state e in
  let levelNum := GameState.currentLevelNum s in
  let scoreNow := ScoreState.current (GameState.score s) in
  let currentHigh := getOrZero levelNum (GameState.levelHighScores s) in
  let s := if currentHigh <? scoreNow
           then GameState.set_levelHighScores
                  (mapSet levelNum scoreNow (GameState.levelHighScores s)) s
           else s in
  let currentMaxCombo := getOrZero levelNum (GameState.levelMaxCombos s) in
  let comboMax := ComboState.max (GameState.combo s) in
  let s := if currentMaxCombo <? comboMax
           then GameState.set_levelMaxCombos
                  (mapSet levelNum comboMax (GameState.levelMaxCombos s)) s
           else s in
  let unlockThreshold := 1000 * levelNum in
  let s := if (GameState.highestLevel s <=? levelNum) && (unlockThreshold <=? scoreNow)
           then GameState.set_highestLevel (levelNum + 1) s
           else s in
  let pointsEarned := scoreNow / 10 in
  let s := GameState.set_totalPoints (GameState.totalPoints s + pointsEarned) s in
  let s := GameState.set_screen Results s in
  set_currentLevelConfig None (set_state s e).

(** *** The per-frame update *)

Definition updateDisplayScore (deltaTime : Q) (e : t) : t :=
  updScore
    (fun sc =>
       let diff := (inject_Z (ScoreState.current sc) - ScoreState.display sc)%Q in
       if ltb (abs diff) 1
       then ScoreState.set_display (inject_Z (ScoreState.current sc)) sc
       else ScoreState.set_display (ScoreState.display sc + diff * deltaTime * 5)%Q sc)
    e.

(** The chances of the live spawner, from the level's difficulty. *)
Definition noteChance (difficulty : Q) : Q :=
  ((5 # 10) + min (difficulty * (8 # 100)) (4 # 10))%Q.
Definition doubleChance (difficulty : Q) : Q :=
  min ((5 # 100) + difficulty * (5 # 100)) (4 # 10)%Q.
Definition offBeatChance (difficulty : Q) : Q :=
  min (difficulty * (8 # 100)) (5 # 10)%Q.

Definition newNote (id laneIndex : Z) (spawnTime hitTime : Q) : Note.t :=
  Note.mk id laneIndex Normal spawnTime hitTime (-30) false false None.

(** [notes.push(note)] with [id: note_${noteIdCounter++}], once per lane. *)
Definition pushNotes (lanes : list Z) (spawnTime hitTime : Q)
    (nc : list Note.t * Z) : list Note.t * Z :=
  fold_left
    (fun (nc : list Note.t * Z) laneIndex =>
       (fst nc ++ [newNote (snd nc) laneIndex spawnTime hitTime], snd nc + 1))
    lanes nc.

Local Open Scope gen_scope.

(** The body of the spawning loop for a beat after time 0. *)
Definition spawnBeat (fuel : nat) (difficulty beatInterval travelTime nextBeatTime : Q)
    (nc : list Note.t * Z) : Gen.t (list Note.t * Z) :=
  v <- Gen.next ;;
  nc <-
    (if ltb v (noteChance difficulty) then
       first <- Gen.nextLane ;;
       d <- Gen.next ;;
       lanes <-
         (if ltb d (doubleChance difficulty) then
            second <- Gen.secondLane fuel first ;;
            Gen.ret [first; second]
          else Gen.ret [first]) ;;
       Gen.ret (pushNotes lanes (nextBeatTime - travelTime)%Q nextBeatTime nc)
     else Gen.ret nc) ;;
  o <- Gen.next ;;
  if ltb o (offBeatChance difficulty) then
    let offBeatTime := (nextBeatTime + beatInterval / 2)%Q in
    l <- Gen.nextLane ;;
    Gen.ret (pushNotes [l] (offBeatTime - travelTime)%Q offBeatTime nc)
  else Gen.ret nc.

(** [while (nextBeatTime < limit) { ...; nextBeatTime += beatInterval }];
    every iteration takes one unit of fuel. *)
Fixpoint spawnLoop (fuel loopFuel : nat) (difficulty beatInterval travelTime limit : Q)
    (nextBeatTime : Q) (nc : list Note.t * Z) : Gen.t (Q * (list Note.t * Z)) :=
  match loopFuel with
  | O => Gen.diverge
  | S loopFuel' =>
      if ltb nextBeatTime limit then
        nc <- (if gtb nextBeatTime 0
               then spawnBeat fuel difficulty beatInterval travelTime nextBeatTime nc
               else Gen.ret nc) ;;
        spawnLoop fuel loopFuel' difficulty beatInterval travelTime limit
                  (nextBeatTime + beatInterval)%Q nc
      else Gen.ret (nextBeatTime, nc)
  end.

Local Close Scope gen_scope.

(** One turn of the loop over the notes: the note at index [i] is moved if
    unresolved, and missed when it passed the hit line by more than 50.
    [k] counts the results of [Math.random()] consumed so far.  The game
    time and the position are exact rationals: on a frame where the
    position is within a rounding error of [hitLineY + 50], the doubles of
    the source can fall on the other side and count the miss a frame
    earlier or later. *)
Definition moveNote (effectiveSpeed hitLineY : Q) (rolls : nat -> Q)
    (ek : t * nat) (i : nat) : t * nat :=
  let (e, k) := ek in
  match nth_error (GameState.notes (state e)) i with
  | None => ek
  | Some note =>
      if unresolved note then
        let timeSinceSpawn := (GameState.gameTime (state e) - Note.spawnTime note)%Q in
        let y := (-30 + timeSinceSpawn * effectiveSpeed)%Q in
        let e := updNote i (Note.set_y y) e in
        if gtb y (hitLineY + 50)%Q then (missNote i (rolls k) e, S k) else (e, k)
      else ek
  end.

Definition moveNotes (effectiveSpeed hitLineY : Q) (rolls : nat -> Q) (e : t) : t * nat :=
  fold_left (moveNote effectiveSpeed hitLineY rolls)
            (seq 0 (List.length (GameState.notes (state e)))) (e, O).

(** [this.state.notes.filter(n => n.y < this.canvas.height + 50)] *)
Definition cleanUp (e : t) : t :=
  modify_state
    (fun s => GameState.set_notes
                (filter (fun n => ltb (Note.y n) (canvasHeight e + 50)%Q)
                        (GameState.notes s)) s) e.

Definition pulseOnBeat (beatInterval : Q) (e : t) : t :=
  let beatPhase := (rem (GameState.gameTime (state e)) beatInterval / beatInterval)%Q in
  if ltb beatPhase (1 # 10)
  then modify_state (fun s => GameState.set_beatPulse
                                (max (GameState.beatPulse s) (1 - beatPhase * 10)%Q) s) e
  else e.

Definition effectiveSpeed (e : t) : Q :=
  let speedMultiplier := match upgradeBonus "slow_notes" e with
                         | Some b => (1 - b)%Q
                         | None => 1%Q
                         end in
  (GameConfig.baseNoteSpeed (config e) * speedMultiplier)%Q.

(** [updateGameplay(deltaTime)].  The effective speed is not 0 in a state
    the game reaches (the slow-notes upgrade stops at level 10). *)
Definition updateGameplay (fuel : nat) (deltaTime : Q) (rolls : nat -> Q) (e : t)
    : option t :=
  match currentLevelConfig e, levelRng e with
  | Some levelConfig, Some rng =>
      let e := modify_state (fun s => GameState.set_gameTime
                                        (GameState.gameTime s + deltaTime)%Q s) e in
      let speed := effectiveSpeed e in
      let beatInterval := (60 / inject_Z (LevelConfig.bpm levelConfig))%Q in
      let hitLineY := getHitLineY e in
      let travelTime := (hitLineY / speed)%Q in
      let limit := (GameState.gameTime (state e) + travelTime + beatInterval)%Q in
      match spawnLoop fuel fuel (LevelConfig.difficulty levelConfig) beatInterval
                      travelTime limit (nextBeatTime e)
                      (GameState.notes (state e), noteIdCounter e) rng with
      | None => None
      | Some ((nextBeat, (notes, counter)), rng') =>
          let e := set_levelRng (Some rng') e in
          let e := set_noteIdCounter counter e in
          let e := set_nextBeatTime nextBeat e in
          let e := modify_state (GameState.set_notes notes) e in
          let e := fst (moveNotes speed hitLineY rolls e) in
          let e := cleanUp e in
          let e := pulseOnBeat beatInterval e in
          if 10 <=? ScoreState.missCount (GameState.score (state e))
          then Some (endLevel e)
          else Some e
      end
  | _, _ => Some e
  end.

Definition decay (rate deltaTime v : Q) : Q :=
  if gtb v 0 then max 0 (v - deltaTime * rate)%Q else v.

(** [update(deltaTime)] *)
Definition update (fuel : nat) (deltaTime : Q) (rolls : nat -> Q) (e : t) : option t :=
  match (if match GameState.screen (state e) with Playing => true | _ => false end
            && negb (GameState.isPaused (state e))
         then updateGameplay fuel deltaTime rolls e
         else Some e) with
  | None => None
  | Some e =>
      let e := updateDisplayScore deltaTime e in
      let e := modify_state (fun s => GameState.set_beatPulse
                                        (decay 4 deltaTime (GameState.beatPulse s)) s) e in
      Some (modify_state
              (fun s => GameState.set_lanes
                          (map (fun lane => Lane.set_hitEffect
                                              (decay 5 deltaTime (Lane.hitEffect lane)) lane)
                               (GameState.lanes s)) s) e)
  end.

(** *** Input *)

Definition purchase (i : nat) (e : t) : t :=
  match nth_error (GameState.upgrades (state e)) i with
  | None => e
  | Some upgrade =>
      if Upgrade.currentLevel upgrade <? Upgrade.maxLevel upgrade then
        let cost := getUpgradeCost upgrade in
        if cost <=? GameState.totalPoints (state e) then
          modify_state
            (fun s =>
               GameState.set_upgrades
                 (updateAt i (fun u => Upgrade.set_currentLevel
                                         (Upgrade.currentLevel u + 1) u)
                           (GameState.upgrades s))
                 (GameState.set_totalPoints (GameState.totalPoints s - cost) s)) e
        else e
      else e
  end.

(** The index of the first of [n] stacked panel buttons that contains the point. *)
Definition buttonAt (panelX x y : Q) (n : nat) : option nat :=
  find (fun i => let btnY := (180 + inject_Z (Z.of_nat i) * (50 + 8))%Q in
                 geb x panelX && leb x (panelX + 200)%Q
                 && geb y btnY && leb y (btnY + 50)%Q)
       (seq 0 n).

Definition levelDown (e : t) : t :=
  modify_state (fun s => GameState.set_currentLevelNum
                           (Z.max 1 (GameState.currentLevelNum s - 1)) s) e.

Definition levelUp (e : t) : t :=
  modify_state (fun s => GameState.set_currentLevelNum
                           (Z.min (GameState.currentLevelNum s + 1)
                                  (GameState.highestLevel s)) s) e.

Definition handleMenuClick (fuel : nat) (x y : Q) (e : t) : option t :=
  let centerX := (canvasWidth e / 2)%Q in
  let leftPanelX := 40%Q in
  let rightPanelX := (canvasWidth e - 240)%Q in
  let playBtnY := 280%Q in
  let playBtnW := 250%Q in
  let playBtnH := 60%Q in
  let arrowY := 370%Q in
  let arrowSize := 40%Q in
  if geb x (centerX - playBtnW / 2)%Q && leb x (centerX + playBtnW / 2)%Q
     && geb y playBtnY && leb y (playBtnY + playBtnH)%Q
  then startLevel fuel (GameState.currentLevelNum (state e)) e
  else if geb x (centerX - 100)%Q && leb x (centerX - 60)%Q
          && geb y arrowY && leb y (arrowY + arrowSize)%Q
  then Some (levelDown e)
  else if geb x (centerX + 60)%Q && leb x (centerX + 100)%Q
          && geb y arrowY && leb y (arrowY + arrowSize)%Q
  then Some (levelUp e)
  else
    match buttonAt leftPanelX x y (List.length (GameState.upgrades (state e))) with
    | Some i => Some (purchase i e)
    | None =>
        match buttonAt rightPanelX x y (List.length (GameState.keybinds (state e))) with
        | Some i => Some (modify_state (GameState.set_rebindingLane (Some i)) e)
        | None => Some e
        end
    end.

Definition handleClick (fuel : nat) (x y : Q) (e : t) : option t :=
  match GameState.screen (state e) with
  | Menu => handleMenuClick fuel x y e
  | Results => Some (modify_state (GameState.set_screen Menu) e)
  | Playing => Some e
  end.

(** [handleKeyDown]; [eKey] is [e.key]. *)
Definition handleKeyDown (fuel : nat) (eKey : string) (e : t) : option t :=
  let key := toUpperCase eKey in
  match GameState.rebindingLane (state e) with
  | Some lane =>
      let e := if negb (String.eqb eKey "Escape")
               then updLane lane (Lane.set_key key)
                      (modify_state
                         (fun s => GameState.set_keybinds
                                     (updateAt lane (fun _ => key) (GameState.keybinds s)) s) e)
               else e in
      Some (modify_state (GameState.set_rebindingLane None) e)
  | None =>
      match GameState.screen (state e) with
      | Playing =>
          let e :=
            match indexOf key (GameState.keybinds (state e)) with
            | Some laneIndex =>
                match nth_error (GameState.lanes (state e)) laneIndex with
                | Some lane =>
                    if negb (Lane.pressed lane)
                    then tryHitNote (Z.of_nat laneIndex)
                           (updLane laneIndex (Lane.set_pressed true) e)
                    else e
                | None => e
                end
            | None => e
            end in
          Some (if String.eqb eKey "Escape"
                then modify_state (fun s => GameState.set_isPaused
                                              (negb (GameState.isPaused s)) s) e
                else e)
      | Menu =>
          if String.eqb eKey " "
          then startLevel fuel (GameState.currentLevelNum (state e)) e
          else if String.eqb eKey "ArrowUp" || String.eqb key "W"
          then Some (levelUp e)
          else if String.eqb eKey "ArrowDown" || String.eqb key "S"
          then Some (levelDown e)
          else Some e
      | Results =>
          Some (if String.eqb eKey " "
                then modify_state (GameState.set_screen Menu) e
                else e)
      end
  end.

Definition handleKeyUp (eKey : string) (e : t) : t :=
  let key := toUpperCase eKey in
  match indexOf key (GameState.keybinds (state e)) with
  | Some laneIndex => updLane laneIndex (Lane.set_pressed false) e
  | None => e
  end.

(** *** Runs of the engine *)

(** What the host calls on an engine: a frame of the loop, the key and
    click listeners, and [resize], which the component calls when the
    window is resized. *)
Inductive Event :=
| Frame (deltaTime : Q) (rolls : nat -> Q)
| KeyDown (key : string)
| KeyUp (key : string)
| Click (x y : Q)
| Resize (width height : Q).

Definition step (fuel : nat) (ev : Event) (e : t) : option t :=
  match ev with
  | Frame deltaTime rolls => update fuel deltaTime rolls e
  | KeyDown key => handleKeyDown fuel key e
  | KeyUp key => Some (handleKeyUp key e)
  | Click x y => handleClick fuel x y e
  | Resize width height => Some (resize width height e)
  end.

Fixpoint run (fuel : nat) (evs : list Event) (e : t) : option t :=
  match evs with
  | [] => Some e
  | ev :: evs' => match step fuel ev e with
                  | Some e' => run fuel evs' e'
                  | None => None
                  end
  end.

End Engine.

(* ------------------------------------------------------------------------- *)
(** ** Run-time values of the persisted blob

    [loadProgress] reads whatever [JSON.parse] returns; the declared type
    [SaveData] is not checked at run time.  The values and the operations the
    loader applies to them are modelled here. *)

Module JS.

#[local] Unset Elimination Schemes.
Inductive Value :=
| Undefined
| Null
| Bool (b : bool)
| Num (q : Q)
| Str (s : string)
| Arr (items : list Value)
| Obj (fields : list (string * Value)).
#[local] Set Elimination Schemes.

(** Truthiness, as tested by [!v], [v || d], [v && w] and [if (v)]. *)
Definition truthy (v : Value) : bool :=
  match v with
  | Undefined | Null => false
  | Bool b => b
  | Num q => negb (Qeq_bool q 0)
  | Str s => negb (String.eqb s EmptyString)
  | Arr _ | Obj _ => true
  end.

(** [v || d] *)
Definition orElse (v d : Value) : Value := if truthy v then v else d.

Fixpoint lookup (k : string) (fields : list (string * Value)) : Value :=
  match fields with
  | [] => Undefined
  | (k', v) :: rest => if String.eqb k' k then v else lookup k rest
  end.

Definition ofNat (n : nat) : Value := Num (inject_Z (Z.of_nat n)).

Definition chars (s : string) : list Value :=
  map (fun c => Str (String c EmptyString)) (list_ascii_of_string s).

(** [v.k] for a property name that is not an array index; [None] is the
    TypeError raised on [undefined] and [null]. *)
Definition prop (v : Value) (k : string) : option Value :=
  match v with
  | Undefined | Null => None
  | Obj fields => Some (lookup k fields)
  | Arr items => Some (if String.eqb k "length" then ofNat (List.length items)
                       else Undefined)
  | Str s => Some (if String.eqb k "length" then ofNat (String.length s)
                   else Undefined)
  | Bool _ | Num _ => Some Undefined
  end.

(** [v[i]] *)
Definition index (v : Value) (i : nat) : option Value :=
  match v with
  | Undefined | Null => None
  | Obj fields => Some (lookup (NilZero.string_of_uint (Nat.to_uint i)) fields)
  | Arr items => Some (nth i items Undefined)
  | Str s => Some (nth i (chars s) Undefined)
  | Bool _ | Num _ => Some Undefined
  end.

(** The items a [for ... of] or a constructor iterates; [None] is the
    TypeError for a value that is not iterable. *)
Definition iterate (v : Value) : option (list Value) :=
  match v with
  | Arr items => Some items
  | Str s => Some (chars s)
  | _ => None
  end.

(** [a === b] where [b] is a string. *)
Definition eqStr (a : Value) (b : string) : bool :=
  match a with Str s => String.eqb s b | _ => false end.

(** [a === n] where [n] is a number. *)
Definition eqNum (a : Value) (n : Q) : bool :=
  match a with Num q => Qeq_bool q n | _ => false end.

(** Key equality of a [Map].  Arrays and objects are compared by identity,
    and every array or object of a parsed text is a new one. *)
Definition sameKey (a b : Value) : bool :=
  match a, b with
  | Undefined, Undefined | Null, Null => true
  | Bool x, Bool y => Bool.eqb x y
  | Num x, Num y => Qeq_bool x y
  | Str x, Str y => String.eqb x y
  | _, _ => false
  end.

Fixpoint mapSet (k v : Value) (m : list (Value * Value)) : list (Value * Value) :=
  match m with
  | [] => [(k, v)]
  | (k', v') :: m' => if sameKey k' k then (k', v) :: m' else (k', v') :: mapSet k v m'
  end.

Definition isObject (v : Value) : bool :=
  match v with Arr _ | Obj _ => true | _ => false end.

(** [new Map(v)]: every item has to be an object, its entries 0 and 1 are
    the key and the value. *)
Fixpoint mapOfItems (items : list Value) (m : list (Value * Value))
    : option (list (Value * Value)) :=
  match items with
  | [] => Some m
  | item :: rest =>
      if isObject item then
        match index item 0, index item 1 with
        | Some k, Some v => mapOfItems rest (mapSet k v m)
        | _, _ => None
        end
      else None
  end.

Definition newMap (v : Value) : option (list (Value * Value)) :=
  match iterate v with
  | Some items => mapOfItems items []
  | None => None
  end.

End JS.

(* ------------------------------------------------------------------------- *)
(** ** The progression store (loadProgress in engine.ts) *)

Module Store.
Import JS.

(** The fields of the engine that [loadProgress] assigns, holding whatever
    value was assigned. *)
Record Progress := mkProgress {
  totalPoints : Value;
  highestLevel : Value;
  upgradeLevels : list (string * Value);
  levelHighScores : list (Value * Value);
  levelMaxCombos : list (Value * Value);
  keybinds : Value;
  laneKeys : list Value }.

(** The progression fields of an engine. *)
Definition numEntries (m : list (Z * Z)) : list (Value * Value) :=
  map (fun kv => (Num (inject_Z (fst kv)), Num (inject_Z (snd kv)))) m.

Definition view (e : Engine.t) : Progress :=
  let s := Engine.state e in
  mkProgress
    (Num (inject_Z (GameState.totalPoints s)))
    (Num (inject_Z (GameState.highestLevel s)))
    (map (fun u => (Upgrade.id u, Num (inject_Z (Upgrade.currentLevel u))))
         (GameState.upgrades s))
    (numEntries (GameState.levelHighScores s))
    (numEntries (GameState.levelMaxCombos s))
    (Arr (map Str (GameState.keybinds s)))
    (map (fun l => Str (Lane.key l)) (GameState.lanes s)).

(** The stored item: absent ([null]), or a text with the result of
    [JSON.parse] on it, [None] when the text is rejected. *)
Inductive Stored :=
| NoItem
| Item (text : string) (json : option Value).

(** A statement sequence over the progression fields that can raise: the
    fields keep what was assigned before the exception. *)
Definition Exec (A : Type) : Type := Progress -> option A * Progress.

Definition ret {A} (a : A) : Exec A := fun p => (Some a, p).

Definition bind {A B} (m : Exec A) (k : A -> Exec B) : Exec B :=
  fun p => match m p with
           | (Some a, p') => k a p'
           | (None, p') => (None, p')
           end.

(** The result of an operation that raises when it has none. *)
Definition try {A} (o : option A) : Exec A := fun p => (o, p).

Definition assign (f : Progress -> Progress) : Exec unit := fun p => (Some tt, f p).

Definition read {A} (f : Progress -> A) : Exec A := fun p => (Some (f p), p).

Fixpoint forEach {A} (items : list A) (body : A -> Exec unit) : Exec unit :=
  match items with
  | [] => ret tt
  | a :: rest => bind (body a) (fun _ => forEach rest body)
  end.

Definition set_totalPoints v p :=
  mkProgress v (highestLevel p) (upgradeLevels p) (levelHighScores p)
             (levelMaxCombos p) (keybinds p) (laneKeys p).
Definition set_highestLevel v p :=
  mkProgress (totalPoints p) v (upgradeLevels p) (levelHighScores p)
             (levelMaxCombos p) (keybinds p) (laneKeys p).
Definition set_upgradeLevels v p :=
  mkProgress (totalPoints p) (highestLevel p) v (levelHighScores p)
             (levelMaxCombos p) (keybinds p) (laneKeys p).
Definition set_levelHighScores v p :=
  mkProgress (totalPoints p) (highestLevel p) (upgradeLevels p) v
             (levelMaxCombos p) (keybinds p) (laneKeys p).
Definition set_levelMaxCombos v p :=
  mkProgress (totalPoints p) (highestLevel p) (upgradeLevels p) (levelHighScores p)
             v (keybinds p) (laneKeys p).
Definition set_keybinds v p :=
  mkProgress (totalPoints p) (highestLevel p) (upgradeLevels p) (levelHighScores p)
             (levelMaxCombos p) v (laneKeys p).
Definition set_laneKeys v p :=
  mkProgress (totalPoints p) (highestLevel p) (upgradeLevels p) (levelHighScores p)
             (levelMaxCombos p) (keybinds p) v.

(** [upgrade.currentLevel = level] on the first upgrade whose id is [id]. *)
Fixpoint setLevel (id : Value) (level : Value) (ups : list (string * Value))
    : list (string * Value) :=
  match ups with
  | [] => []
  | (k, v) :: rest => if eqStr id k then (k, level) :: rest
                      else (k, v) :: setLevel id level rest
  end.

Definition hasUpgrade (id : Value) (ups : list (string * Value)) : bool :=
  existsb (fun kv => eqStr id (fst kv)) ups.

Declare Scope exec_scope.
Delimit Scope exec_scope with exec.
Notation "x <- m ;; k" := (bind m (fun x => k))
  (at level 61, m at next level, right associativity) : exec_scope.
Notation "m ;;; k" := (bind m (fun _ => k))
  (at level 61, right associativity) : exec_scope.
Local Open Scope exec_scope.

Definition loadUpgrade (savedUpgrade : Value) : Exec unit :=
  ups <- read upgradeLevels ;;
  match ups with
  | [] => ret tt
  | _ =>
      id <- try (prop savedUpgrade "id") ;;
      if hasUpgrade id ups then
        level <- try (prop savedUpgrade "level") ;;
        assign (set_upgradeLevels (setLevel id level ups))
      else ret tt
  end.

Definition loadMap (data : Value) (field : string)
    (set : list (Value * Value) -> Progress -> Progress) : Exec unit :=
  v <- try (prop data field) ;;
  if truthy v then
    m <- try (newMap v) ;;
    assign (set m)
  else ret tt.

Definition loadKeybinds (laneCount : Z) (data : Value) : Exec unit :=
  kb <- try (prop data "keybinds") ;;
  if truthy kb then
    len <- try (prop kb "length") ;;
    if eqNum len (inject_Z laneCount) then
      assign (set_keybinds kb) ;;;
      lanes <- read laneKeys ;;
      forEach (seq 0 (List.length lanes))
        (fun i =>
           k <- try (index kb i) ;;
           assign (fun p => set_laneKeys
                              (JSArray.updateAt i (fun _ => k) (laneKeys p)) p))
    else ret tt
  else ret tt.

(** The statements inside [try { ... }]. *)
Definition loadBody (laneCount : Z) (stored : Stored) : Exec unit :=
  match stored with
  | NoItem => ret tt
  | Item text json =>
      if String.eqb text EmptyString then ret tt
      else
        data <- try json ;;
        tp <- try (prop data "totalPoints") ;;
        assign (set_totalPoints (orElse tp (Num 0))) ;;;
        hl <- try (prop data "highestLevel") ;;
        assign (set_highestLevel (orElse hl (Num 1))) ;;;
        ups <- try (prop data "upgrades") ;;
        items <- try (iterate (orElse ups (Arr []))) ;;
        forEach items loadUpgrade ;;;
        loadMap data "levelHighScores" set_levelHighScores ;;;
        loadMap data "levelMaxCombos" set_levelMaxCombos ;;;
        loadKeybinds laneCount data
  end.

(** [try { ... } catch (e) { console.warn(...) }]: the handler swallows the
    exception. *)
Definition catch (m : Exec unit) : Exec unit :=
  fun p => (Some tt, snd (m p)).

Definition loadProgress (laneCount : Z) (stored : Stored) : Exec unit :=
  catch (loadBody laneCount stored).

(** The progression fields after [loadProgress]. *)
Definition loaded (laneCount : Z) (stored : Stored) (p : Progress) : Progress :=
  snd (loadProgress laneCount stored p).

(** The progression fields of a newly constructed engine. *)
Definition defaults : Progress := view (Engine.create 800 600).

End Store.

(* ------------------------------------------------------------------------- *)
(** ** Level names (getLevelName in levels.ts) *)

Module LevelNames.
Local Open Scope string_scope.
Local Open Scope Z_scope.

Definition names : list string :=
  ["First Steps"; "Warm Up"; "Getting Started"; "Neon Nights";
   "Electric Dreams"; "Cyber Rush"; "Synthwave"; "Overdrive";
   "Hyperspeed"; "Lightspeed"; "Warp Zone"; "Infinity";
   "Beyond"; "Transcend"; "Ascension"; "Godlike"].

(** The text of an integer in a template literal: its decimal digits (for
    a magnitude below 10^21, where JavaScript changes to the exponent
    notation). *)
Definition decimal (n : Z) : string := NilZero.string_of_int (Z.to_int n).

(** [names[i]] for an integer [i]; [None] is [undefined]. *)
Definition nameAt (i : Z) : option string :=
  if i <? 0 then None else nth_error names (Z.to_nat i).

Definition getLevelName (levelNum : Z) : option string :=
  if levelNum <=? Z.of_nat (List.length names)
  then nameAt (levelNum - 1)
  else Some ("Level " ++ decimal levelNum).

End LevelNames.

(* ------------------------------------------------------------------------- *)
(** ** What the renderer decides from the state (renderer.ts)

    The drawing itself is a sequence of canvas calls; the conditions and the
    texts it computes from the state are functions of the state. *)

Module NEON_COLORS.
Local Open Scope string_scope.
Local Open Scope Z_scope.
Definition cyan : string := "#00ffff".
Definition green : string := "#00ff00".
Definition red : string := "#ff0044".
End NEON_COLORS.

Module View.
Import QBool LevelNames.
Local Open Scope string_scope.
Local Open Scope Z_scope.

(** *** drawMenu *)

(** [Math.floor(upgrade.baseCost * Math.pow(1.5, upgrade.currentLevel))] *)
Definition cost (upgrade : Upgrade.t) : Z :=
  JSNumber.floor (Engine.rawCost (Upgrade.baseCost upgrade) (Upgrade.currentLevel upgrade)).

Definition isMaxed (upgrade : Upgrade.t) : bool :=
  Upgrade.maxLevel upgrade <=? Upgrade.currentLevel upgrade.

Definition canAfford (s : GameState.t) (upgrade : Upgrade.t) : bool :=
  cost upgrade <=? GameState.totalPoints s.

(** The stroke colour of an upgrade button. *)
Definition upgradeBorder (s : GameState.t) (upgrade : Upgrade.t) : string :=
  if isMaxed upgrade then NEON_COLORS.green
  else if canAfford s upgrade then NEON_COLORS.cyan else "#333".

(** The colour and the text of the last line of an upgrade button. *)
Definition upgradeLine (s : GameState.t) (upgrade : Upgrade.t) : string * string :=
  if isMaxed upgrade then (NEON_COLORS.green, "MAXED")
  else (if canAfford s upgrade then NEON_COLORS.green else NEON_COLORS.red,
        "Cost: " ++ decimal (cost upgrade)).

(** The colours of the two level arrows. *)
Definition leftArrow (s : GameState.t) : string :=
  if 1 <? GameState.currentLevelNum s then NEON_COLORS.cyan else "#333".

Definition rightArrow (s : GameState.t) : string :=
  if GameState.currentLevelNum s <? GameState.highestLevel s
  then NEON_COLORS.cyan else "#333".

(** *** drawGameplay *)

(** The text of the countdown, if one is drawn. *)
Definition countdownText (gameTime : Q) : option string :=
  if ltb gameTime 0 then
    let countdown := Qceiling (- gameTime) in
    Some (if 0 <? countdown then decimal countdown else "GO!")
  else None.

(** *** drawResults *)

Definition pointsEarned (s : GameState.t) : Z :=
  ScoreState.current (GameState.score s) / 10.

Definition isNewHighScore (s : GameState.t) : bool :=
  Engine.getOrZero (GameState.currentLevelNum s) (GameState.levelHighScores s)
  <? ScoreState.current (GameState.score s).

Definition newHighScoreLine (s : GameState.t) : option string :=
  if isNewHighScore s && (0 <? ScoreState.current (GameState.score s))
  then Some "NEW HIGH SCORE!" else None.

Definition unlockThreshold (s : GameState.t) : Z := 1000 * GameState.currentLevelNum s.

Definition unlockedNext (s : GameState.t) : bool :=
  (unlockThreshold s <=? ScoreState.current (GameState.score s))
  && (GameState.highestLevel s - 1 <=? GameState.currentLevelNum s).

(** The colour and the text of the line on the next level, if one is drawn. *)
Definition unlockLine (s : GameState.t) : option (string * string) :=
  if unlockedNext s then
    Some (NEON_COLORS.green,
          "Level " ++ decimal (GameState.currentLevelNum s + 1) ++ " Unlocked!")
  else if GameState.highestLevel s <=? GameState.currentLevelNum s then
    Some ("#666",
          "Need " ++ decimal (unlockThreshold s) ++ " pts to unlock Level "
          ++ decimal (GameState.currentLevelNum s + 1))
  else None.

End View.

(* ------------------------------------------------------------------------- *)
(** ** Particles and floating texts (engine.ts)

    The two queues are written by the engine and read by the renderer; no
    other part of the state depends on them. *)

Module Particle.
Record t := mk {
  x : Q;
  y : Q;
  vx : Q;
  vy : Q;
  life : Q;
  maxLife : Q;
  color : string;
  size : Q }.
End Particle.

Module FloatingText.
Record t := mk {
  x : Q;
  y : Q;
  text : string;
  color : string;
  life : Q;
  maxLife : Q;
  scale : Q }.
End FloatingText.

Module Visuals.
Import QBool JSArray.

(** [list.splice(i, 1)] *)
Definition splice1 {A} (i : nat) (l : list A) : list A :=
  firstn i l ++ skipn (S i) l.

(** The indices [n - 1, ..., 0] of a loop that counts down. *)
Definition downFrom (n : nat) : list nat := rev (seq 0 n).





(** The assignments to a particle in [updateParticles]: the position moves
    by the velocity before the velocity changes. *)
Definition ageParticle (deltaTime : Q) (p : Particle.t) : Particle.t :=
  Particle.mk (Particle.x p + Particle.vx p * deltaTime)
              (Particle.y p + Particle.vy p * deltaTime)
              (Particle.vx p)
              (Particle.vy p + 200 * deltaTime)
              (Particle.life p - deltaTime) (Particle.maxLife p)
              (Particle.color p) (Particle.size p).

Definition particleTurn (deltaTime : Q) (particles : option (list Particle.t)) (i : nat)
    : option (list Particle.t) :=
  match particles with
  | None => None
  | Some particles =>
      match nth_error particles i with
      | None => None
      | Some p =>
          let p := ageParticle deltaTime p in
          let particles := updateAt i (fun _ => p) particles in
          Some (if leb (Particle.life p) 0 then splice1 i particles else particles)
      end
  end.

(** [while (list.length > cap) list.shift()] *)
Fixpoint shiftWhileOver {A} (cap : nat) (l : list A) : list A :=
  match l with
  | [] => []
  | _ :: rest => if (cap <? List.length l)%nat then shiftWhileOver cap rest else l
  end.

Definition updateParticles (deltaTime : Q) (particles : list Particle.t)
    : option (list Particle.t) :=
  option_map (shiftWhileOver 200)
    (fold_left (particleTurn deltaTime) (downFrom (List.length particles))
               (Some particles)).

(** [spawnHitParticles(x, y, color)].  [cos], [sin] and [pi] stand for
    [Math.cos], [Math.sin] and [Math.PI], and [rolls] for the results of the
    calls of [Math.random()], five for each particle in the order of the
    source: angle, speed, life, maxLife, size. *)
Section Spawn.
Variables (cos sin : Q -> Q) (pi : Q).

Definition count : nat := 12.

Definition hitParticle (x y : Q) (color : string) (rolls : nat -> Q) (i : nat)
    : Particle.t :=
  let angle := ((pi * 2 * inject_Z (Z.of_nat i)) / inject_Z (Z.of_nat count)
                + rolls (5 * i)%nat * (3 # 10))%Q in
  let speed := (150 + rolls (5 * i + 1)%nat * 100)%Q in
  Particle.mk x y (cos angle * speed) (sin angle * speed - 50)
              ((1 # 2) + rolls (5 * i + 2)%nat * (3 # 10))
              ((1 # 2) + rolls (5 * i + 3)%nat * (3 # 10))
              color
              (3 + rolls (5 * i + 4)%nat * 4).

Definition spawnHitParticles (x y : Q) (color : string) (rolls : nat -> Q)
    (particles : list Particle.t) : list Particle.t :=
  particles ++ map (hitParticle x y color rolls) (seq 0 count).
End Spawn.

(** [p.life / p.maxLife], the opacity and the size factor in [drawParticles]. *)
Definition alpha (p : Particle.t) : Q := (Particle.life p / Particle.maxLife p)%Q.

End Visuals.

(* ------------------------------------------------------------------------- *)
(** ** Saving the progression (saveProgress in engine.ts) *)

Module Save.
Import JS.
Local Open Scope string_scope.
Local Open Scope Z_scope.

Definition num (z : Z) : Value := Num (inject_Z z).

(** [Array.from(map.entries())] *)
Definition entries (m : list (Z * Z)) : Value :=
  Arr (map (fun kv => Arr [num (fst kv); num (snd kv)]) m).

Definition saveData (e : Engine.t) : Value :=
  let s := Engine.state e in
  Obj [("totalPoints", num (GameState.totalPoints s));
       ("highestLevel", num (GameState.highestLevel s));
       ("upgrades",
        Arr (map (fun u => Obj [("id", Str (Upgrade.id u));
                                ("level", num (Upgrade.currentLevel u))])
                 (GameState.upgrades s)));
       ("levelHighScores", entries (GameState.levelHighScores s));
       ("levelMaxCombos", entries (GameState.levelMaxCombos s));
       ("keybinds", Arr (map Str (GameState.keybinds s)))].

(** [saveProgress()].  [text] is [JSON.stringify(saveData)], which
    [JSON.parse] reads back as the data: its numbers are integers and its
    keys strings.  [written] tells whether [setItem] stored it; when it
    throws, the handler swallows the exception and the old item stays. *)
Definition saveProgress (written : bool) (text : string) (e : Engine.t)
    (old : Store.Stored) : Store.Stored :=
  if written then Store.Item text (Some (saveData e)) else old.

End Save.

(* ------------------------------------------------------------------------- *)
(** ** The frame loop (start and gameLoop in engine.ts) *)

Module Loop.
Import QBool.

(** The engine with the time stamp of the last frame, in milliseconds. *)
Record t := mk {
  engine : Engine.t;
  lastTime : Q }.

Definition frameDelta (lastTime currentTime : Q) : Q :=
  min ((currentTime - lastTime) / 1000)%Q (1 # 10).

(** [gameLoop(currentTime)]; [rolls] are the results of [Math.random()] in
    this frame. *)
Definition gameLoop (fuel : nat) (currentTime : Q) (rolls : nat -> Q) (l : t) : option t :=
  let deltaTime := frameDelta (lastTime l) currentTime in
  match Engine.update fuel deltaTime rolls (engine l) with
  | Some e => Some (mk e currentTime)
  | None => None
  end.

(** [start()] at the time [now]. *)
Definition start (fuel : nat) (now : Q) (rolls : nat -> Q) (e : Engine.t) : option t :=
  gameLoop fuel now rolls (mk e now).

(** The frames the host requests after that, each with its time stamp. *)
Fixpoint frames (fuel : nat) (ticks : list (Q * (nat -> Q))) (l : t) : option t :=
  match ticks with
  | [] => Some l
  | (currentTime, rolls) :: rest =>
      match gameLoop fuel currentTime rolls l with
      | Some l' => frames fuel rest l'
      | None => None
      end
  end.

End Loop.
(* ------------------------------------------------------------------------- *)
(** ** Doubles

    What the theorems use of [JSNumber.round64]: it keeps the sign, it does
    not cross a double, and it is off by at most 2^-53 of the number. *)

Module DoubleFacts.
Import JSNumber.
Local Open Scope Q_scope.

Lemma pow2_pos e : 0 < 2 ^ e.
Proof. apply Qpower_0_lt. reflexivity. Qed.

Lemma pow2_plus a b : 2 ^ (a + b) == 2 ^ a * 2 ^ b.
Proof. apply Qpower_plus. intros H. discriminate H. Qed.

Lemma pow2_le a b : (a <= b)%Z -> 2 ^ a <= 2 ^ b.
Proof. intros H. apply Qpower_le_compat_l; [exact H | discriminate]. Qed.

Lemma pow2_Z n : (0 <= n)%Z -> 2 ^ n == inject_Z (2 ^ n).
Proof. intros H. symmetry. apply (Zpower_Qpower 2 n H). Qed.

Lemma pow2_exp a b : a = b -> 2 ^ a == 2 ^ b.
Proof. intros ->. reflexivity. Qed.

Lemma pow2_split a b : 2 ^ a == 2 ^ (a - b) * 2 ^ b.
Proof. rewrite <- pow2_plus. apply pow2_exp. lia. Qed.

Lemma roundEven_floor y : (Qfloor y <= roundEven y <= Qfloor y + 1)%Z.
Proof.
  unfold roundEven. cbv zeta.
  destruct (Qle_bool _ _); [destruct (Qle_bool _ _); [destruct (Z.even _)|]|]; lia.
Qed.

Lemma roundEven_ge K y : inject_Z K <= y -> (K <= roundEven y)%Z.
Proof.
  intros H. apply Qfloor_resp_le in H. rewrite Qfloor_Z in H.
  pose proof (roundEven_floor y). lia.
Qed.

Lemma Qle_bool_false x y : Qle_bool x y = false -> y < x.
Proof.
  intros E. apply Qnot_le_lt. intros H. apply Qle_bool_iff in H. congruence.
Qed.

Lemma roundEven_le K y : y <= inject_Z K -> (roundEven y <= K)%Z.
Proof.
  intros H. pose proof (Qfloor_resp_le _ _ H) as Hf. rewrite Qfloor_Z in Hf.
  destruct (Z_lt_le_dec (Qfloor y) K) as [Hlt|Hge].
  - pose proof (roundEven_floor y). lia.
  - assert (E : Qfloor y = K) by lia.
    pose proof (Qfloor_le y) as Hl. rewrite E in Hl.
    unfold roundEven. cbv zeta. rewrite E.
    destruct (Qle_bool (y - inject_Z K) (1 # 2)) eqn:E1.
    + destruct (Qle_bool (1 # 2) (y - inject_Z K)) eqn:E2; [|lia].
      apply Qle_bool_iff in E2. lra.
    + apply Qle_bool_false in E1. lra.
Qed.

Lemma roundEven_err y : Qabs (inject_Z (roundEven y) - y) <= 1 # 2.
Proof.
  pose proof (Qfloor_le y) as Hl. pose proof (Qlt_floor y) as Hu.
  rewrite inject_Z_plus in Hu. change (inject_Z 1) with 1 in Hu.
  assert (Hs : inject_Z (Qfloor y + 1) == inject_Z (Qfloor y) + 1)
    by (rewrite inject_Z_plus; reflexivity).
  apply Qabs_Qle_condition.
  unfold roundEven. cbv zeta.
  destruct (Qle_bool (y - inject_Z (Qfloor y)) (1 # 2)) eqn:E1.
  - apply Qle_bool_iff in E1.
    destruct (Qle_bool (1 # 2) (y - inject_Z (Qfloor y))) eqn:E2.
    + apply Qle_bool_iff in E2.
      destruct (Z.even (Qfloor y)); [|rewrite Hs]; split; lra.
    + split; lra.
  - apply Qle_bool_false in E1. rewrite Hs. split; lra.
Qed.

Lemma ilog2_le a : 0 < a -> 2 ^ ilog2 a <= a.
Proof.
  intros Ha. unfold ilog2. cbv zeta.
  destruct (Qle_bool _ a) eqn:E; [now apply Qle_bool_iff in E|]. clear E.
  destruct a as [n d]. cbn [Qnum Qden].
  assert (Hn : (0 < n)%Z) by (unfold Qlt in Ha; cbn in Ha; lia).
  destruct (Z.log2_spec n Hn) as [Hn1 _].
  destruct (Z.log2_spec (Zpos d) ltac:(lia)) as [_ Hd2].
  pose proof (Z.log2_nonneg n) as H0n. pose proof (Z.log2_nonneg (Zpos d)) as H0d.
  set (ln := Z.log2 n) in *. set (ld := Z.log2 (Z.pos d)) in *.
  rewrite (pow2_exp (ln - ld - 1) (ln + - (ld + 1))) by lia.
  rewrite pow2_plus, Qpower_opp, !pow2_Z by lia.
  change (inject_Z (2 ^ ln) / inject_Z (2 ^ (ld + 1)) <= n # d).
  assert (Hp : (0 < 2 ^ (ld + 1))%Z) by (apply Z.pow_pos_nonneg; lia).
  apply Qle_shift_div_r; [change 0 with (inject_Z 0); rewrite <- Zlt_Qlt; exact Hp|].
  unfold Qle, Qmult, inject_Z. cbn [Qnum Qden].
  replace (Z.succ ld) with (ld + 1)%Z in Hd2 by lia.
  assert (H1 : (2 ^ ln * Z.pos d <= n * Z.pos d)%Z) by (apply Z.mul_le_mono_nonneg_r; lia).
  assert (H2 : (n * Z.pos d <= n * 2 ^ (ld + 1))%Z) by (apply Z.mul_le_mono_nonneg_l; lia).
  rewrite Pos.mul_1_r. lia.
Qed.

Lemma pow2_mul a b c : (a + b = c)%Z -> 2 ^ a * 2 ^ b == 2 ^ c.
Proof. intros <-. symmetry. apply pow2_plus. Qed.

Lemma pow2_nonneg e : 0 <= 2 ^ e.
Proof. apply Qlt_le_weak, pow2_pos. Qed.

(** The double nearest to a positive [a]. *)
Definition mag (a : Q) : Q :=
  inject_Z (roundEven (a * 2 ^ (52 - ilog2 a))) * 2 ^ (ilog2 a - 52).

Lemma Qabs_pos_eq q : 0 < q -> Qabs q = q.
Proof.
  destruct q as [[|p|p] d]; intros H; try reflexivity; unfold Qlt in H; cbn in H; lia.
Qed.

Lemma Qabs_neg_eq q : q < 0 -> Qabs q = - q.
Proof.
  destruct q as [[|p|p] d]; intros H; try reflexivity; unfold Qlt in H; cbn in H; lia.
Qed.

Lemma round64_cases q :
  (q == 0 /\ round64 q = 0)
  \/ (0 < q /\ round64 q == mag q)
  \/ (q < 0 /\ round64 q == - mag (- q)).
Proof.
  unfold round64. cbv zeta.
  destruct (Qeq_bool q 0) eqn:E0; [left; split; [now apply Qeq_bool_iff | reflexivity]|].
  apply Qeq_bool_neq in E0.
  destruct (Qle_bool 0 q) eqn:E1.
  - apply Qle_bool_iff in E1. right; left.
    assert (Hq : 0 < q).
    { apply Qle_lteq in E1. destruct E1 as [H|H]; [exact H|].
      exfalso. apply E0. symmetry. exact H. }
    split; [exact Hq|]. rewrite Qred_correct, (Qabs_pos_eq q Hq). reflexivity.
  - apply Qle_bool_false in E1. right; right. split; [exact E1|].
    rewrite Qred_correct, (Qabs_neg_eq q E1). reflexivity.
Qed.

Lemma mag_lower a : 0 < a -> 2 ^ ilog2 a <= mag a.
Proof.
  intros Ha. pose proof (ilog2_le a Ha) as He. unfold mag.
  set (e := ilog2 a) in *.
  assert (Hy : inject_Z (2 ^ 52) <= a * 2 ^ (52 - e)).
  { rewrite <- pow2_Z by lia. rewrite <- (pow2_mul e (52 - e) 52) by lia.
    apply Qmult_le_compat_r; [exact He | apply pow2_nonneg]. }
  apply roundEven_ge in Hy.
  rewrite <- (pow2_mul 52 (e - 52) e) by lia. rewrite (pow2_Z 52) by lia.
  apply Qmult_le_compat_r; [rewrite <- Zle_Qle; exact Hy | apply pow2_nonneg].
Qed.

Lemma mag_ge K j a :
  0 < a -> (0 < K <= 2 ^ 53)%Z ->
  inject_Z K * 2 ^ j <= a -> inject_Z K * 2 ^ j <= mag a.
Proof.
  intros Ha HK Hd. pose proof (mag_lower a Ha) as Hl.
  destruct (Z_le_gt_dec (ilog2 a - 52) j) as [Hj|Hj].
  - unfold mag. set (e := ilog2 a) in *.
    assert (Hy : inject_Z (K * 2 ^ (j + 52 - e)) <= a * 2 ^ (52 - e)).
    { rewrite inject_Z_mult, <- pow2_Z by lia.
      rewrite <- (pow2_mul j (52 - e) (j + 52 - e)) by lia.
      rewrite Qmult_assoc.
      apply Qmult_le_compat_r; [exact Hd | apply pow2_nonneg]. }
    apply roundEven_ge in Hy.
    apply Qle_trans with (inject_Z (K * 2 ^ (j + 52 - e)) * 2 ^ (e - 52)).
    + rewrite inject_Z_mult, <- pow2_Z by lia.
      rewrite <- Qmult_assoc, (pow2_mul (j + 52 - e) (e - 52) j) by lia.
      apply Qle_refl.
    + apply Qmult_le_compat_r; [rewrite <- Zle_Qle; exact Hy | apply pow2_nonneg].
  - apply Qle_trans with (2 ^ ilog2 a); [|exact Hl].
    apply Qle_trans with (inject_Z (2 ^ 53) * 2 ^ j).
    + apply Qmult_le_compat_r; [rewrite <- Zle_Qle; lia | apply pow2_nonneg].
    + rewrite <- pow2_Z by lia. rewrite (pow2_mul 53 j (53 + j)) by lia.
      apply pow2_le. lia.
Qed.

Lemma mag_le K j a :
  0 < a -> (0 < K < 2 ^ 53)%Z ->
  a <= inject_Z K * 2 ^ j -> mag a <= inject_Z K * 2 ^ j.
Proof.
  intros Ha HK Hd. pose proof (ilog2_le a Ha) as He.
  assert (Hj : (ilog2 a <= 52 + j)%Z).
  { destruct (Z_le_gt_dec (ilog2 a) (52 + j)) as [H|H]; [exact H|exfalso].
    assert (H1 : 2 ^ (53 + j) <= 2 ^ ilog2 a) by (apply pow2_le; lia).
    assert (H2 : inject_Z K * 2 ^ j < 2 ^ (53 + j)).
    { rewrite <- (pow2_mul 53 j (53 + j)) by lia. rewrite (pow2_Z 53) by lia.
      apply Qmult_lt_compat_r; [apply pow2_pos | rewrite <- Zlt_Qlt; lia]. }
    apply (Qlt_irrefl (2 ^ (53 + j))).
    eapply Qle_lt_trans; [exact H1|]. eapply Qle_lt_trans; [exact He|].
    eapply Qle_lt_trans; [exact Hd | exact H2]. }
  unfold mag. set (e := ilog2 a) in *.
  assert (Hy : a * 2 ^ (52 - e) <= inject_Z (K * 2 ^ (j + 52 - e))).
  { rewrite inject_Z_mult, <- pow2_Z by lia.
    rewrite <- (pow2_mul j (52 - e) (j + 52 - e)) by lia.
    rewrite Qmult_assoc.
    apply Qmult_le_compat_r; [exact Hd | apply pow2_nonneg]. }
  apply roundEven_le in Hy.
  apply Qle_trans with (inject_Z (K * 2 ^ (j + 52 - e)) * 2 ^ (e - 52)).
  - apply Qmult_le_compat_r; [rewrite <- Zle_Qle; exact Hy | apply pow2_nonneg].
  - rewrite inject_Z_mult, <- pow2_Z by lia.
    rewrite <- Qmult_assoc, (pow2_mul (j + 52 - e) (e - 52) j) by lia.
    apply Qle_refl.
Qed.

Lemma mag_err a : 0 < a -> Qabs (mag a - a) <= a * 2 ^ (-53).
Proof.
  intros Ha. pose proof (ilog2_le a Ha) as He. unfold mag.
  set (e := ilog2 a) in *. set (y := a * 2 ^ (52 - e)).
  pose proof (roundEven_err y) as Hr.
  assert (Ea : y * 2 ^ (e - 52) == a).
  { unfold y. rewrite <- Qmult_assoc, (pow2_mul (52 - e) (e - 52) 0) by lia.
    change (2 ^ 0) with 1. ring. }
  assert (E : inject_Z (roundEven y) * 2 ^ (e - 52) - a
              == (inject_Z (roundEven y) - y) * 2 ^ (e - 52)).
  { rewrite <- Ea at 1. ring. }
  rewrite E, Qabs_Qmult, (Qabs_pos (2 ^ (e - 52))) by apply pow2_nonneg.
  apply Qle_trans with ((1 # 2) * 2 ^ (e - 52));
    [apply Qmult_le_compat_r; [exact Hr | apply pow2_nonneg]|].
  assert (Eh : (1 # 2) * 2 ^ (e - 52) == 2 ^ e * 2 ^ (-53)).
  { change (1 # 2) with (2 ^ (-1)).
    rewrite (pow2_mul (-1) (e - 52) (e - 53)), (pow2_mul e (-53) (e - 53)) by lia.
    reflexivity. }
  rewrite Eh. apply Qmult_le_compat_r; [exact He | apply pow2_nonneg].
Qed.

Lemma mag_pos a : 0 < a -> 0 < mag a.
Proof.
  intros Ha. eapply Qlt_le_trans; [apply (pow2_pos (ilog2 a)) | now apply mag_lower].
Qed.

Lemma round64_nonneg q : 0 <= q -> 0 <= round64 q.
Proof.
  intros H. destruct (round64_cases q) as [[_ ->]|[[Hq ->]|[Hq _]]].
  - apply Qle_refl.
  - apply Qlt_le_weak, mag_pos, Hq.
  - lra.
Qed.

Lemma round64_nonpos q : q <= 0 -> round64 q <= 0.
Proof.
  intros H. destruct (round64_cases q) as [[_ ->]|[[Hq _]|[Hq ->]]].
  - apply Qle_refl.
  - lra.
  - assert (Hm : 0 < mag (- q)) by (apply mag_pos; lra). lra.
Qed.

(** Rounding does not cross a double: a double below [q] stays below the
    double of [q], and one above stays above. *)
Lemma round64_ge K j q :
  (0 < K <= 2 ^ 53)%Z ->
  inject_Z K * 2 ^ j <= q -> inject_Z K * 2 ^ j <= round64 q.
Proof.
  intros HK Hd.
  assert (Hp : 0 < inject_Z K * 2 ^ j).
  { apply Qmult_lt_0_compat; [change 0 with (inject_Z 0); rewrite <- Zlt_Qlt; lia
                             | apply pow2_pos]. }
  destruct (round64_cases q) as [[Hq _]|[[Hq ->]|[Hq _]]]; [lra| |lra].
  now apply mag_ge.
Qed.

Lemma round64_le K j q :
  (0 < K < 2 ^ 53)%Z ->
  q <= inject_Z K * 2 ^ j -> round64 q <= inject_Z K * 2 ^ j.
Proof.
  intros HK Hd.
  assert (Hp : 0 < inject_Z K * 2 ^ j).
  { apply Qmult_lt_0_compat; [change 0 with (inject_Z 0); rewrite <- Zlt_Qlt; lia
                             | apply pow2_pos]. }
  destruct (round64_cases q) as [[Hq ->]|[[Hq ->]|[Hq ->]]].
  - lra.
  - now apply mag_le.
  - assert (Hm : 0 < mag (- q)) by (apply mag_pos; lra). lra.
Qed.

Lemma round64_err q : Qabs (round64 q - q) <= Qabs q * 2 ^ (-53).
Proof.
  destruct (round64_cases q) as [[Hq ->]|[[Hq ->]|[Hq ->]]].
  - rewrite Hq. cbn. discriminate.
  - rewrite (Qabs_pos q) by lra. now apply mag_err.
  - rewrite (Qabs_neg q) by lra.
    assert (E : - mag (- q) - q == - (mag (- q) - - q)) by ring.
    rewrite E, Qabs_opp. apply mag_err. lra.
Qed.

Lemma round64_ge_Z K q :
  (0 < K <= 2 ^ 53)%Z -> inject_Z K <= q -> inject_Z K <= round64 q.
Proof.
  intros HK H. pose proof (round64_ge K 0 q HK) as H0.
  change (2 ^ 0) with 1 in H0. rewrite Qmult_1_r in H0. auto.
Qed.

Lemma round64_le_Z K q :
  (0 < K < 2 ^ 53)%Z -> q <= inject_Z K -> round64 q <= inject_Z K.
Proof.
  intros HK H. pose proof (round64_le K 0 q HK) as H0.
  change (2 ^ 0) with 1 in H0. rewrite Qmult_1_r in H0. auto.
Qed.

Lemma fmul_nonneg x y : 0 <= x -> 0 <= y -> 0 <= fmul x y.
Proof.
  intros Hx Hy. unfold fmul. apply round64_nonneg.
  apply Qmult_le_0_compat; now apply round64_nonneg.
Qed.

Lemma fadd_ge_1 x y : 1 <= x -> 0 <= y -> 1 <= fadd x y.
Proof.
  intros Hx Hy. unfold fadd. apply (round64_ge_Z 1); [lia|].
  pose proof (round64_ge_Z 1 x ltac:(lia) Hx) as H1.
  pose proof (round64_nonneg y Hy) as H2.
  change (inject_Z 1) with 1 in *. lra.
Qed.

Lemma fmul_ge K x y :
  (0 < K <= 2 ^ 53)%Z -> inject_Z K <= x -> 1 <= y -> inject_Z K <= fmul x y.
Proof.
  intros HK Hx Hy. unfold fmul. apply (round64_ge_Z K _ HK).
  pose proof (round64_ge_Z K x HK Hx) as H1.
  pose proof (round64_ge_Z 1 y ltac:(lia) Hy) as H2.
  change (inject_Z 1) with 1 in H2.
  assert (H0 : 0 <= inject_Z K)
    by (change 0 with (inject_Z 0); rewrite <- Zle_Qle; lia).
  apply Qle_trans with (1 * round64 x); [lra|].
  rewrite (Qmult_comm (round64 x) (round64 y)).
  apply Qmult_le_compat_r; [exact H2 | lra].
Qed.

End DoubleFacts.

(** From here on a double operation is a black box to the proof engine: the
    proofs go through the lemmas above or compute closed terms. *)
Opaque JSNumber.round64.

(* ------------------------------------------------------------------------- *)
(** ** Properties of the double rounding *)

Module JSNumberFacts.
Import JSNumber.

Lemma round53_exact x : Z.abs x < 2 ^ 53 -> round53 x = x.
Proof.
  intros H. unfold round53.
  destruct (Z.ltb_spec (Z.abs x) (2 ^ 53)); [reflexivity | lia].
Qed.

Lemma round53_even x : 2 ^ 53 <= Z.abs x -> Z.even (round53 x) = true.
Proof.
  intros H. unfold round53.
  destruct (Z.ltb_spec (Z.abs x) (2 ^ 53)); [lia|].
  cbv zeta.
  assert (He : 1 <= Z.log2 (Z.abs x) - 52).
  { assert (53 <= Z.log2 (Z.abs x)); [|lia].
    apply Z.log2_le_pow2; lia. }
  set (e := Z.log2 (Z.abs x) - 52) in *.
  match goal with |- Z.even (_ * Z.shiftl ?q _) = true => generalize q end.
  intros q. rewrite Z.shiftl_mul_pow2 by lia.
  replace (2 ^ e) with (2 * 2 ^ (e - 1)).
  2:{ rewrite <- Z.pow_succ_r by lia. f_equal. lia. }
  rewrite !Z.even_mul. cbn. rewrite !orb_true_r. reflexivity.
Qed.

Lemma round53_big x : 2 ^ 53 <= Z.abs x -> 2 ^ 53 <= Z.abs (round53 x).
Proof.
  intros H. unfold round53.
  destruct (Z.ltb_spec (Z.abs x) (2 ^ 53)); [lia|].
  cbv zeta.
  assert (Hl : 53 <= Z.log2 (Z.abs x)) by (apply Z.log2_le_pow2; lia).
  set (a := Z.abs x) in *.
  set (e := Z.log2 a - 52) in *.
  assert (Hq : 2 ^ 52 <= Z.shiftr a e).
  { rewrite Z.shiftr_div_pow2 by lia.
    apply Z.div_le_lower_bound; [apply Z.pow_pos_nonneg; lia|].
    rewrite Z.mul_comm, <- Z.pow_add_r by lia.
    replace (52 + e) with (Z.log2 a) by lia.
    apply Z.log2_spec. lia. }
  set (q := Z.shiftr a e) in *.
  match goal with |- _ <= Z.abs (_ * Z.shiftl ?q' _) =>
    assert (Hq' : 2 ^ 52 <= q') by
      (destruct (_ <? _); [lia|]; destruct (_ <? _); [lia|];
       destruct (Z.even q); lia);
    generalize dependent q' end.
  intros q' Hq'. rewrite Z.shiftl_mul_pow2 by lia.
  assert (Hpe : 2 <= 2 ^ e).
  { change 2 with (2 ^ 1) at 1. apply Z.pow_le_mono_r; lia. }
  rewrite Z.abs_mul.
  assert (Z.abs (Z.sgn x) = 1) by (unfold a in *; lia).
  change (2 ^ 53) with (2 ^ 52 * 2). nia.
Qed.



Lemma mask31_mod x : mask31 x = x mod 2 ^ 31.
Proof.
  unfold mask31. change 0x7fffffff with (Z.ones 31).
  apply Z.land_ones. lia.
Qed.

Lemma mask31_range x : 0 <= mask31 x < 2 ^ 31.
Proof. rewrite mask31_mod. apply Z.mod_pos_bound. lia. Qed.

Lemma even_mod31_not_ones x :
  Z.even x = true -> x mod 2 ^ 31 <> 2 ^ 31 - 1.
Proof.
  intros He Hm. apply Z.even_spec in He. destruct He as [k Hk].
  pose proof (Z.div_mod x (2 ^ 31) ltac:(lia)) as Hd.
  rewrite Hm in Hd.
  change (2 ^ 31) with 2147483648 in Hd. lia.
Qed.

End JSNumberFacts.

Module SeededRandomFacts.
Import JSNumber JSNumberFacts SeededRandom.

(** With an unrounded product and sum the masked result is never the
    all-ones pattern: the only seeds mapped there by the exact recurrence
    are congruent to 230538014 modulo 2^31, too large for an exact product. *)
Lemma exact_step_not_ones s :
  Z.abs (s * multiplier) < 2 ^ 53 ->
  (s * multiplier + increment) mod 2 ^ 31 <> 2 ^ 31 - 1.
Proof.
  unfold multiplier, increment. intros Hs Hm.
  pose proof (Z.div_mod (s * 1103515245 + 12345) (2 ^ 31) ltac:(lia)) as Hd.
  rewrite Hm in Hd.
  set (k := (s * 1103515245 + 12345) / 2 ^ 31) in *.
  change (2 ^ 31) with 2147483648 in *. change (2 ^ 53) with 9007199254740992 in *.
  (* 1103515245 * 1857678181 = 1 + 2^31 * 954604428 *)
  assert (Hinv : s = 1857678181 * (2147483647 - 12345)
                     + 2147483648 * (1857678181 * k - 954604428 * s)) by lia.
  set (t := 1857678181 * k - 954604428 * s) in *.
  lia.
Qed.

Lemma advance_not_ones s : advance s <> 2 ^ 31 - 1.
Proof.
  unfold advance, add, mul. rewrite mask31_mod.
  set (p := round53 (s * multiplier)).
  destruct (Z_lt_le_dec (Z.abs (p + increment)) (2 ^ 53)) as [Hsum|Hsum].
  - rewrite (round53_exact _ Hsum).
    destruct (Z_lt_le_dec (Z.abs (s * multiplier)) (2 ^ 53)) as [Hp|Hp].
    + subst p. rewrite (round53_exact _ Hp). now apply exact_step_not_ones.
    + pose proof (round53_big _ Hp) as Hb. fold p in Hb.
      intros Hm.
      pose proof (Z.div_mod (p + increment) (2 ^ 31) ltac:(lia)) as Hd.
      rewrite Hm in Hd. unfold increment in *.
      change (2 ^ 31) with 2147483648 in *.
      change (2 ^ 53) with 9007199254740992 in *.
      lia.
  - apply even_mod31_not_ones. now apply round53_even.
Qed.

Lemma advance_range s : 0 <= advance s < 2 ^ 31 - 1.
Proof.
  pose proof (advance_not_ones s).
  pose proof (mask31_range (add (mul s multiplier) increment)).
  unfold advance in *. lia.
Qed.


Lemma output_range s : 0 <= s < 2 ^ 31 - 1 -> (0 <= output s < 1)%Q.
Proof.
  intros [H0 H1]. unfold output. split.
  - apply Qle_shift_div_l; [reflexivity|].
    rewrite Qmult_0_l. change 0%Q with (inject_Z 0).
    rewrite <- Zle_Qle. exact H0.
  - apply Qlt_shift_div_r; [reflexivity|].
    rewrite Qmult_1_l. rewrite <- Zlt_Qlt.
    change 0x7fffffff with (2 ^ 31 - 1). exact H1.
Qed.




End SeededRandomFacts.

(* ------------------------------------------------------------------------- *)
(** ** The level generator *)

Module GenFacts.

(** [le m1 m2]: whatever [m1] returns, [m2] returns too. *)
Definition le {A} (m1 m2 : Gen.t A) : Prop :=
  forall g r, m1 g = Some r -> m2 g = Some r.

Lemma le_refl {A} (m : Gen.t A) : le m m.
Proof. intros g r H. exact H. Qed.



(** [post m Q]: every result of [m] satisfies [Q]. *)
Definition post {A} (m : Gen.t A) (Q : A -> Prop) : Prop :=
  forall g a g', m g = Some (a, g') -> Q a.

Lemma post_ret {A} (a : A) (Q : A -> Prop) : Q a -> post (Gen.ret a) Q.
Proof. intros H g a' g' [= <- _]. exact H. Qed.

Lemma post_diverge {A} (Q : A -> Prop) : post Gen.diverge Q.
Proof. intros g a g' H. discriminate. Qed.

Lemma post_true {A} (m : Gen.t A) : post m (fun _ => True).
Proof. intros g a g' _. exact I. Qed.

Lemma post_bind {A B} (m : Gen.t A) (k : A -> Gen.t B) (P : A -> Prop) (Q : B -> Prop) :
  post m P -> (forall a, P a -> post (k a) Q) -> post (Gen.bind m k) Q.
Proof.
  intros Hm Hk g b g'. unfold Gen.bind.
  destruct (m g) as [[a g1]|] eqn:E; [|discriminate].
  apply (Hk a (Hm _ _ _ E)).
Qed.

Lemma post_weaken {A} (m : Gen.t A) (P Q : A -> Prop) :
  post m P -> (forall a, P a -> Q a) -> post m Q.
Proof. intros Hm HPQ g a g' E. apply HPQ. exact (Hm _ _ _ E). Qed.

(** [sim R m1 m2]: from every generator state either both computations
    have no result, or both return, leave the same generator state and
    their values are related by [R]. *)
Definition sim {A B} (R : A -> B -> Prop) (m1 : Gen.t A) (m2 : Gen.t B) : Prop :=
  forall g,
    match m1 g, m2 g with
    | Some (a, g1), Some (b, g2) => g1 = g2 /\ R a b
    | None, None => True
    | _, _ => False
    end.

Lemma sim_ret {A B} (R : A -> B -> Prop) a b : R a b -> sim R (Gen.ret a) (Gen.ret b).
Proof. intros H g. cbn. auto. Qed.

Lemma sim_same {A} (m : Gen.t A) : sim eq m m.
Proof. intros g. destruct (m g) as [[a g1]|]; auto. Qed.

Lemma sim_bind {A B C D} (P : A -> B -> Prop) (R : C -> D -> Prop)
    (m1 : Gen.t A) (m2 : Gen.t B) (k1 : A -> Gen.t C) (k2 : B -> Gen.t D) :
  sim P m1 m2 -> (forall a b, P a b -> sim R (k1 a) (k2 b)) ->
  sim R (Gen.bind m1 k1) (Gen.bind m2 k2).
Proof.
  intros Hm Hk g. unfold Gen.bind. specialize (Hm g).
  destruct (m1 g) as [[a g1]|], (m2 g) as [[b g2]|]; try contradiction; [|exact I].
  destruct Hm as [<- HP]. apply (Hk a b HP).
Qed.

Lemma sim_bind_ret {A B} (R : A -> B -> Prop) (m1 : Gen.t A) (m2 : Gen.t B) :
  sim R m1 m2 -> sim R (Gen.bind m1 (fun a => Gen.ret a)) m2.
Proof.
  intros Hm g. unfold Gen.bind, Gen.ret. specialize (Hm g).
  destruct (m1 g) as [[a g1]|], (m2 g) as [[b g2]|]; auto.
Qed.

End GenFacts.


Module LevelsFacts.
Import JSNumber JSNumberFacts Levels GenFacts.














Definition level1 : LevelConfig.t :=
  Eval vm_compute in
    match generateLevel 4 1 with
    | Some lvl => lvl
    | None => LevelConfig.mk 0 0 0 []
    end.


End LevelsFacts.

(* ------------------------------------------------------------------------- *)
(** ** Boolean comparisons on rationals *)

Module QBoolFacts.
Import QBool.

Lemma ltb_lt x y : ltb x y = true <-> (x < y)%Q.
Proof.
  unfold ltb. rewrite negb_true_iff. split; intros H.
  - apply Qnot_le_lt. intros Hle. apply Qle_bool_iff in Hle. congruence.
  - destruct (Qle_bool y x) eqn:E; [|reflexivity].
    apply Qle_bool_iff in E. exfalso. exact (Qlt_not_le _ _ H E).
Qed.

Lemma ltb_ge x y : ltb x y = false <-> (y <= x)%Q.
Proof.
  unfold ltb. rewrite negb_false_iff. apply Qle_bool_iff.
Qed.

Lemma leb_le x y : leb x y = true <-> (x <= y)%Q.
Proof. apply Qle_bool_iff. Qed.

Lemma leb_gt x y : leb x y = false <-> (y < x)%Q.
Proof.
  unfold leb. split; intros H.
  - apply Qnot_le_lt. intros Hle. apply Qle_bool_iff in Hle. congruence.
  - destruct (Qle_bool x y) eqn:E; [|reflexivity].
    apply Qle_bool_iff in E. exfalso. exact (Qlt_not_le _ _ H E).
Qed.

End QBoolFacts.

(* ------------------------------------------------------------------------- *)
(** ** The upgrade economy *)

Module UpgradeFacts.
Import Engine.

(** The cost of the next level of [u] when it stands at [level]. *)
Definition costAt (u : Upgrade.t) (level : Z) : Z :=
  getUpgradeCost (Upgrade.set_currentLevel level u).

Lemma rawCost_succ b level :
  0 <= level -> (rawCost b (level + 1) == (15 # 10) * rawCost b level)%Q.
Proof.
  intros Hl. unfold rawCost.
  rewrite Qpower_plus by discriminate.
  change ((15 # 10) ^ 1)%Q with (15 # 10)%Q. ring.
Qed.

Lemma rawCost_lower b level :
  0 <= b -> 0 <= level -> (inject_Z b <= rawCost b level)%Q.
Proof.
  intros Hb Hl. unfold rawCost.
  setoid_replace (inject_Z b) with (1 * inject_Z b)%Q at 1 by ring.
  rewrite (Qmult_comm (inject_Z b)).
  apply Qmult_le_compat_r.
  - apply Qpower_1_le; [discriminate | exact Hl].
  - change 0%Q with (inject_Z 0). rewrite <- Zle_Qle. exact Hb.
Qed.

Lemma costAt_increasing u level :
  2 <= Upgrade.baseCost u -> 0 <= level -> costAt u level < costAt u (level + 1).
Proof.
  intros Hb Hl. unfold costAt, getUpgradeCost, JSNumber.floor.
  cbn [Upgrade.baseCost Upgrade.currentLevel Upgrade.set_currentLevel].
  pose proof (rawCost_succ (Upgrade.baseCost u) level Hl) as Hs.
  pose proof (rawCost_lower (Upgrade.baseCost u) level ltac:(lia) Hl) as Hlow.
  set (r := rawCost (Upgrade.baseCost u) level) in *.
  set (r1 := rawCost (Upgrade.baseCost u) (level + 1)) in *.
  assert (H2 : (2 <= inject_Z (Upgrade.baseCost u))%Q).
  { change 2%Q with (inject_Z 2). rewrite <- Zle_Qle. exact Hb. }
  pose proof (Qfloor_le r) as Hf.
  assert (Hstep : (inject_Z (Qfloor r + 1) <= r1)%Q).
  { rewrite inject_Z_plus. change (inject_Z 1) with 1%Q. lra. }
  apply Qfloor_resp_le in Hstep. rewrite Qfloor_Z in Hstep. lia.
Qed.

Lemma catalog_bounds u :
  In u UPGRADE_DEFINITIONS -> 100 <= Upgrade.baseCost u /\ Upgrade.maxLevel u = 10.
Proof.
  cbn. intros H.
  repeat (destruct H as [<-|H]; [cbn; lia|]). contradiction.
Qed.

(** C8, as the code has it.  For every upgrade of the catalog and every
    level below its maximum, the cost is the floor of baseCost * 1.5^level
    and is strictly smaller than the cost one level up.  The factor 1.5
    relates the prices before the floor is taken: the cost one level up is
    the floor of 1.5 times the unfloored price. *)
Theorem upgrade_cost_growth (u : Upgrade.t) (level : Z) :
  In u UPGRADE_DEFINITIONS ->
  0 <= level < Upgrade.maxLevel u ->
  costAt u level = Qfloor (inject_Z (Upgrade.baseCost u) * (15 # 10) ^ level)
  /\ costAt u level < costAt u (level + 1)
  /\ (rawCost (Upgrade.baseCost u) (level + 1)
      == (15 # 10) * rawCost (Upgrade.baseCost u) level)%Q
  /\ costAt u (level + 1)
     = Qfloor ((15 # 10) * rawCost (Upgrade.baseCost u) level).
Proof.
  intros Hin [Hl Hmax]. destruct (catalog_bounds u Hin) as [Hb _].
  split; [reflexivity|].
  split; [apply costAt_increasing; lia|].
  split; [now apply rawCost_succ|].
  unfold costAt, getUpgradeCost, JSNumber.floor.
  cbn [Upgrade.baseCost Upgrade.currentLevel Upgrade.set_currentLevel].
  apply Qfloor_comp. now apply rawCost_succ.
Qed.

Definition timing : Upgrade.t :=
  Upgrade.mk "timing" "Better Timing" "+10% hit window" 100 10 0 (1 # 10).

Lemma upgrade_cost_growth_witness :
  In timing UPGRADE_DEFINITIONS
  /\ 0 <= 2 < Upgrade.maxLevel timing
  /\ costAt timing 2 < costAt timing (2 + 1).
Proof.
  assert (Hin : In timing UPGRADE_DEFINITIONS) by (left; reflexivity).
  assert (Hl : 0 <= 2 < Upgrade.maxLevel timing) by (cbn; lia).
  split; [exact Hin|]. split; [exact Hl|].
  apply (upgrade_cost_growth timing 2 Hin Hl).
Defined.

(** C8, counterexample.  The timing upgrade costs 225 at level 2 and 337 at
    level 3, which is not 1.5 * 225 = 337.5: the floor breaks the exact
    factor. *)
Lemma upgrade_cost_factor_counterexample :
  In timing UPGRADE_DEFINITIONS
  /\ costAt timing 2 = 225
  /\ costAt timing 3 = 337
  /\ ~ (inject_Z (costAt timing 3) == (15 # 10) * inject_Z (costAt timing 2))%Q.
Proof.
  split; [left; reflexivity|].
  split; [reflexivity|]. split; [reflexivity|].
  intros H. vm_compute in H. discriminate.
Qed.

End UpgradeFacts.

(* ------------------------------------------------------------------------- *)
(** ** Level end and unlocking *)

Module UnlockFacts.
Import Engine.

Lemma endLevel_highestLevel e :
  GameState.highestLevel (state (endLevel e))
  = if (GameState.highestLevel (state e) <=? GameState.currentLevelNum (state e))
       && (1000 * GameState.currentLevelNum (state e)
           <=? ScoreState.current (GameState.score (state e)))
    then GameState.currentLevelNum (state e) + 1
    else GameState.highestLevel (state e).
Proof.
  unfold endLevel. cbv zeta.
  destruct (getOrZero _ (GameState.levelHighScores _) <? _); cbn;
    destruct (getOrZero _ _ <? _); cbn;
    destruct (_ && _); reflexivity.
Qed.

Lemma endLevel_screen e : GameState.screen (state (endLevel e)) = Results.
Proof. reflexivity. Qed.

(** C6, as the code has it.  At the end of a level attempt [highestLevel] is
    raised if and only if the score is at least 1000 * levelNum and the
    finished level is at least [highestLevel] (the frontier itself, not the
    level below it); it is then levelNum + 1, and otherwise it keeps its
    value.  On the frontier level a score of exactly 1000 * levelNum unlocks
    and a score one below does not. *)
Theorem endLevel_unlock (e : Engine.t) :
  let levelNum := GameState.currentLevelNum (state e) in
  let highest := GameState.highestLevel (state e) in
  let final := ScoreState.current (GameState.score (state e)) in
  let highest' := GameState.highestLevel (state (endLevel e)) in
  (highest < highest' <-> 1000 * levelNum <= final /\ highest <= levelNum)
  /\ (highest < highest' -> highest' = levelNum + 1)
  /\ (~ highest < highest' -> highest' = highest)
  /\ (levelNum = highest -> final = 1000 * levelNum -> highest' = levelNum + 1)
  /\ (levelNum = highest -> final = 1000 * levelNum - 1 -> highest' = highest).
Proof.
  cbv zeta. rewrite endLevel_highestLevel.
  destruct (Z.leb_spec (GameState.highestLevel (state e))
                       (GameState.currentLevelNum (state e)));
    destruct (Z.leb_spec (1000 * GameState.currentLevelNum (state e))
                         (ScoreState.current (GameState.score (state e))));
    cbn [andb]; repeat split; intros; lia.
Qed.

(** An engine in play on level [levelNum] with the given frontier and score. *)
Definition playing (levelNum highest final : Z) : Engine.t :=
  modify_state
    (fun s =>
       GameState.set_score (ScoreState.mk final 0 0 0 0 10)
         (GameState.set_highestLevel highest
            (GameState.set_currentLevelNum levelNum
               (GameState.set_screen Playing s))))
    (create 800 600).

Lemma endLevel_unlock_witness :
  GameState.highestLevel (state (endLevel (playing 3 3 3000))) = 4
  /\ GameState.highestLevel (state (endLevel (playing 3 3 2999))) = 3.
Proof.
  split.
  - apply (endLevel_unlock (playing 3 3 3000)); reflexivity.
  - apply (endLevel_unlock (playing 3 3 2999)); reflexivity.
Defined.

(** C6, counterexample.  With levels 1 and 2 unlocked, level 1 is finished
    with score 1000: the score reaches 1000 * levelNum and the level is
    [highestLevel - 1], yet [highestLevel] is not raised: it keeps the value
    2 and level 3 stays locked.  (That value is levelNum + 1 before and
    after, also when level 1 is finished with score 0: the equivalence
    fails as well when "raised to" is read as "equal to afterwards".)
    Finishing level 2 with 2000 is what raises it. *)
Lemma unlock_below_frontier_counterexample :
  let e := playing 1 2 1000 in
  1000 * GameState.currentLevelNum (state e)
    <= ScoreState.current (GameState.score (state e))
  /\ GameState.highestLevel (state e) - 1 <= GameState.currentLevelNum (state e)
  /\ GameState.highestLevel (state e) = 2
  /\ GameState.highestLevel (state (endLevel e)) = 2
  /\ GameState.highestLevel (state (endLevel (playing 1 2 0))) = 2
  /\ GameState.highestLevel (state (endLevel (playing 2 2 2000))) = 3.
Proof. cbv zeta. vm_compute. repeat split; discriminate. Qed.

End UnlockFacts.

(* ------------------------------------------------------------------------- *)
(** ** What the engine's operations leave alone *)

Module EngineFacts.
Import QBool QBoolFacts JSArray Engine.

Definition comboOf (e : Engine.t) : ComboState.t := GameState.combo (state e).
Definition scoreOf (e : Engine.t) : ScoreState.t := GameState.score (state e).
Definition notesOf (e : Engine.t) : list Note.t := GameState.notes (state e).
Definition screenOf (e : Engine.t) : Screen := GameState.screen (state e).
Definition missesOf (e : Engine.t) : Z := ScoreState.missCount (scoreOf e).

(** The multiplier of a combo count, [1 + Math.floor(current / 10) * 0.1]
    on doubles, and the points of a hit,
    [Math.floor(baseScore * multiplier * scoreMultiplier)]. *)
Definition comboMultiplier (current : Z) : Q :=
  JSNumber.fadd 1 (JSNumber.fmul (inject_Z (current / 10)) (1 # 10)).

Definition pointsFor (baseScore : Z) (multiplier scoreMultiplier : Q) : Z :=
  Qfloor (JSNumber.fmul (JSNumber.fmul (inject_Z baseScore) multiplier) scoreMultiplier).

(** The fields that neither a note update nor a lane update touches. *)
Record Keeps (e e' : Engine.t) : Prop := mkKeeps {
  keeps_screen : screenOf e' = screenOf e;
  keeps_upgrades : GameState.upgrades (state e') = GameState.upgrades (state e);
  keeps_config : config e' = config e;
  keeps_canvas : canvasHeight e' = canvasHeight e;
  keeps_time : GameState.gameTime (state e') = GameState.gameTime (state e);
  keeps_level : GameState.currentLevelNum (state e') = GameState.currentLevelNum (state e);
  keeps_paused : GameState.isPaused (state e') = GameState.isPaused (state e);
  keeps_levelConfig : currentLevelConfig e' = currentLevelConfig e;
  keeps_levelRng : levelRng e' = levelRng e }.

Lemma Keeps_refl e : Keeps e e.
Proof. constructor; reflexivity. Qed.

Lemma Keeps_trans e1 e2 e3 : Keeps e1 e2 -> Keeps e2 e3 -> Keeps e1 e3.
Proof. intros [] []. constructor; congruence. Qed.

Lemma Keeps_updNote i f e : Keeps e (updNote i f e).
Proof. constructor; reflexivity. Qed.

Lemma Keeps_updLane i f e : Keeps e (updLane i f e).
Proof. constructor; reflexivity. Qed.

Lemma Keeps_updLaneAt l f e : Keeps e (updLaneAt l f e).
Proof. unfold updLaneAt. destruct (0 <=? l); [apply Keeps_updLane | apply Keeps_refl]. Qed.

Lemma Keeps_updScore f e : Keeps e (updScore f e).
Proof. constructor; reflexivity. Qed.

Lemma Keeps_updCombo f e : Keeps e (updCombo f e).
Proof. constructor; reflexivity. Qed.


Lemma upgradeProduct_Keeps id e e' :
  Keeps e e' -> upgradeProduct id e' = upgradeProduct id e.
Proof. intros F. unfold upgradeProduct, findUpgrade. now rewrite (keeps_upgrades _ _ F). Qed.

(** *** Combo and score across a hit *)

Lemma comboOf_updLaneAt l f e : comboOf (updLaneAt l f e) = comboOf e.
Proof. unfold updLaneAt. destruct (0 <=? l); reflexivity. Qed.

Lemma scoreOf_updLaneAt l f e : scoreOf (updLaneAt l f e) = scoreOf e.
Proof. unfold updLaneAt. destruct (0 <=? l); reflexivity. Qed.

Lemma notesOf_updLaneAt l f e : notesOf (updLaneAt l f e) = notesOf e.
Proof. unfold updLaneAt. destruct (0 <=? l); reflexivity. Qed.

Lemma comboOf_hitNote i d e : comboOf (hitNote i d e) = bumpCombo (comboOf e).
Proof.
  unfold hitNote. cbv zeta.
  match goal with |- comboOf (modify_state _ ?x) = _ =>
    change (comboOf x = bumpCombo (comboOf e)) end.
  destruct (nth_error _ i); [rewrite comboOf_updLaneAt|]; reflexivity.
Qed.

Lemma notesOf_hitNote i d e :
  notesOf (hitNote i d e)
  = updateAt i (fun n => Note.set_rating (Some (rate (config e) d)) (Note.set_hit true n))
             (notesOf e).
Proof.
  unfold hitNote. cbv zeta.
  match goal with |- notesOf (modify_state _ ?x) = _ =>
    change (notesOf x = updateAt i
              (fun n => Note.set_rating (Some (rate (config e) d)) (Note.set_hit true n))
              (notesOf e)) end.
  assert (Hupd : forall (f g : Note.t -> Note.t) (l : list Note.t),
             updateAt i g (updateAt i f l) = updateAt i (fun n => g (f n)) l).
  { intros f g l. revert i. induction l as [|a l IH]; intros [|i]; cbn; try reflexivity.
    now rewrite IH. }
  destruct (nth_error _ i); [rewrite notesOf_updLaneAt|]; cbn; apply Hupd.
Qed.

Lemma scoreOf_hitNote i d e :
  let r := rate (config e) d in
  scoreOf (hitNote i d e)
  = ScoreState.set_current
      (ScoreState.current (scoreOf e)
       + pointsFor (baseScoreOf r)
                   (comboMultiplier (ComboState.current (comboOf e) + 1))
                   (scoreMultiplier r e))
      (countRating r (scoreOf e)).
Proof.
  cbv zeta. unfold hitNote. cbv zeta.
  match goal with |- scoreOf (modify_state _ ?x) = ?rhs =>
    change (scoreOf x = rhs) end.
  destruct (nth_error _ i); [rewrite scoreOf_updLaneAt|]; cbn;
    destruct (rate (config e) d); reflexivity.
Qed.

Lemma Keeps_hitNote i d e : Keeps e (hitNote i d e).
Proof.
  unfold hitNote. cbv zeta.
  match goal with |- Keeps e (modify_state _ ?x) =>
    apply (Keeps_trans e x); [|constructor; reflexivity] end.
  destruct (nth_error _ i).
  - eapply Keeps_trans; [|apply Keeps_updLaneAt]. constructor; reflexivity.
  - constructor; reflexivity.
Qed.

(** *** The search for the closest note *)

Section Closest.
Variables (laneIndex : Z) (hitLineY window : Q).

Definition distance (n : Note.t) : Q := Qabs (Note.y n - hitLineY).

(** An unresolved note of the pressed lane. *)
Definition candidate (n : Note.t) : Prop :=
  Note.lane n = laneIndex /\ Note.hit n = false /\ Note.missed n = false.

Lemma candidate_test n :
  (Note.lane n =? laneIndex) && unresolved n = true <-> candidate n.
Proof.
  unfold candidate, unresolved.
  rewrite !andb_true_iff, !negb_true_iff, Z.eqb_eq. tauto.
Qed.

Definition accOK (acc : option (nat * Q)) : Prop :=
  match acc with Some (_, d) => (d < window)%Q | None => True end.

Definition accLe (d : Q) (acc : option (nat * Q)) : Prop :=
  match acc with Some (_, d') => (d <= d')%Q | None => True end.

(** One turn of the loop. *)
Definition turn (i : nat) (note : Note.t) (acc : option (nat * Q)) :=
  if (Note.lane note =? laneIndex) && unresolved note then
    let dist := abs (Note.y note - hitLineY)%Q in
    let closer := match acc with
                  | Some (_, closestDist) => ltb dist closestDist
                  | None => true
                  end in
    if closer && ltb dist window then Some (i, dist) else acc
  else acc.

Lemma closest_cons i note rest acc :
  closest laneIndex hitLineY window i (note :: rest) acc
  = closest laneIndex hitLineY window (S i) rest (turn i note acc).
Proof. reflexivity. Qed.

Lemma turn_cases i note acc :
  (turn i note acc = acc
   /\ (candidate note -> (distance note < window)%Q ->
       exists j dj, acc = Some (j, dj) /\ (dj <= distance note)%Q))
  \/ (turn i note acc = Some (i, distance note)
      /\ candidate note /\ (distance note < window)%Q
      /\ match acc with Some (_, d) => (distance note < d)%Q | None => True end).
Proof.
  unfold turn. cbv zeta.
  destruct ((Note.lane note =? laneIndex) && unresolved note) eqn:Ec.
  - apply candidate_test in Ec.
    change (abs (Note.y note - hitLineY)) with (distance note).
    destruct (ltb (distance note) window) eqn:Ew.
    + apply ltb_lt in Ew. destruct acc as [[j dj]|].
      * destruct (ltb (distance note) dj) eqn:Ed; cbn [andb].
        -- right. apply ltb_lt in Ed. auto.
        -- left. apply ltb_ge in Ed. split; [reflexivity|].
           intros _ _. exists j, dj. split; [reflexivity | exact Ed].
      * right. cbn. auto.
    + rewrite andb_false_r. left. split; [reflexivity|].
      intros _ Hw. apply ltb_ge in Ew. exfalso. exact (Qlt_not_le _ _ Hw Ew).
  - left. split; [reflexivity|]. intros Hc. apply candidate_test in Hc. congruence.
Qed.

Lemma turn_accOK i note acc : accOK acc -> accOK (turn i note acc).
Proof.
  intros H. destruct (turn_cases i note acc) as [[-> _]|(-> & _ & Hw & _)];
    [exact H | exact Hw].
Qed.

Lemma turn_accLe i note acc d : accLe d (turn i note acc) -> accLe d acc.
Proof.
  destruct (turn_cases i note acc) as [[-> _]|(-> & _ & _ & Hlt)]; [trivial|].
  cbn. intros Hd. destruct acc as [[j dj]|]; cbn; [|trivial].
  apply Qlt_le_weak. eapply Qle_lt_trans; eassumption.
Qed.

(** The result is within the window and no farther than the accumulator
    and than any candidate. *)
Lemma closest_min notes : forall i acc k d,
  accOK acc ->
  closest laneIndex hitLineY window i notes acc = Some (k, d) ->
  (d < window)%Q /\ accLe d acc
  /\ forall m, In m notes -> candidate m -> (d <= distance m)%Q.
Proof.
  induction notes as [|note rest IH]; intros i acc k d Hok H.
  - cbn in H. subst acc. cbn in Hok |- *. split; [exact Hok|].
    split; [apply Qle_refl | intros m []].
  - rewrite closest_cons in H.
    destruct (IH _ _ _ _ (turn_accOK i note acc Hok) H) as (Hw & Hle & Hmin).
    split; [exact Hw|]. split; [now apply (turn_accLe i note)|].
    intros m [<-|Hin] Hc; [|now apply Hmin].
    destruct (Qlt_le_dec (distance note) window) as [Hin|Hout].
    + destruct (turn_cases i note acc) as [[E Hacc]|(E & _)]; rewrite E in Hle.
      * destruct (Hacc Hc Hin) as (j & dj & -> & Hle').
        cbn in Hle. eapply Qle_trans; eassumption.
      * exact Hle.
    + apply Qlt_le_weak. eapply Qlt_le_trans; eassumption.
Qed.

(** The result is the accumulator or a candidate of the list, at its index. *)
Lemma closest_origin notes : forall i acc k d,
  closest laneIndex hitLineY window i notes acc = Some (k, d) ->
  acc = Some (k, d)
  \/ exists n, (i <= k)%nat /\ nth_error notes (k - i) = Some n
               /\ candidate n /\ d = distance n.
Proof.
  induction notes as [|note rest IH]; intros i acc k d H.
  - left. exact H.
  - rewrite closest_cons in H. destruct (IH _ _ _ _ H) as [E|(n & Hle & Hn & Hc & Hd)].
    + destruct (turn_cases i note acc) as [[E' _]|(E' & Hc & _)]; rewrite E' in E.
      * left. exact E.
      * right. injection E as <- <-. exists note.
        rewrite Nat.sub_diag. repeat split; try apply Hc. lia.
    + right. exists n. split; [lia|].
      replace (k - i)%nat with (S (k - S i)) by lia. repeat split; try apply Hc.
      exact Hn. exact Hd.
Qed.

(** No result: there was no accumulator and no candidate within the window. *)
Lemma closest_none notes : forall i acc,
  closest laneIndex hitLineY window i notes acc = None ->
  acc = None
  /\ forall m, In m notes -> candidate m -> ~ (distance m < window)%Q.
Proof.
  induction notes as [|note rest IH]; intros i acc H.
  - split; [exact H | intros m []].
  - rewrite closest_cons in H. destruct (IH _ _ H) as [Hacc Hrest].
    destruct (turn_cases i note acc) as [[E Hno]|(E & _)]; rewrite E in Hacc;
      [|discriminate].
    split; [exact Hacc|].
    intros m [<-|Hin] Hc Hw; [|exact (Hrest m Hin Hc Hw)].
    destruct (Hno Hc Hw) as (j & dj & Hsome & _). congruence.
Qed.

End Closest.

Lemma rate_default d :
  ((d <= 40)%Q -> rate DEFAULT_CONFIG d = Perfect)
  /\ ((40 < d)%Q -> (d <= 80)%Q -> rate DEFAULT_CONFIG d = Great)
  /\ ((80 < d)%Q -> rate DEFAULT_CONFIG d = Good).
Proof.
  unfold rate. cbn [GameConfig.perfectWindow GameConfig.greatWindow DEFAULT_CONFIG].
  repeat split.
  - intros H. apply leb_le in H. now rewrite H.
  - intros H1 H2. apply leb_gt in H1. apply leb_le in H2. now rewrite H1, H2.
  - intros H. assert (H' : (40 < d)%Q) by lra.
    apply leb_gt in H, H'. now rewrite H', H.
Qed.

(** The hit window at a level of the timing upgrade, on doubles, and how
    far it lies from the exact 150 * (1 + level / 10). *)
Definition windowAt (level : Z) : Q :=
  JSNumber.fmul 150 (JSNumber.fadd 1 (JSNumber.fmul (inject_Z level) (1 # 10))).

Lemma effectiveWindow_default e u :
  config e = DEFAULT_CONFIG ->
  findUpgrade "timing" e = Some u ->
  Upgrade.effect u = (1 # 10)%Q ->
  effectiveWindow e = windowAt (Upgrade.currentLevel u).
Proof.
  intros Hc Hu He. unfold effectiveWindow, upgradeProduct, windowAt.
  rewrite Hu, Hc. cbn [option_map GameConfig.baseHitWindow DEFAULT_CONFIG].
  rewrite He. reflexivity.
Qed.

Lemma upTo (P : Z -> Prop) (n : nat) :
  (forall k, In k (map Z.of_nat (seq 0 n)) -> P k) ->
  forall level, 0 <= level < Z.of_nat n -> P level.
Proof.
  intros H level Hl. apply H. apply in_map_iff. exists (Z.to_nat level).
  split; [lia | apply in_seq; lia].
Qed.

Lemma windowAt_near level :
  0 <= level <= 10 ->
  (Qabs (windowAt level - 150 * (1 + inject_Z level * (1 # 10))) <= 1 # 1000000000000)%Q
  /\ (150 <= windowAt level <= 300)%Q.
Proof.
  intros Hl. pattern level. apply (upTo _ 11); [|lia]. intros k Hk.
  assert (Hb : forallb
                 (fun k => Qle_bool (Qabs (windowAt k - 150 * (1 + inject_Z k * (1 # 10))))
                                    (1 # 1000000000000)
                           && Qle_bool 150 (windowAt k) && Qle_bool (windowAt k) 300)
                 (map Z.of_nat (seq 0 11)) = true) by (vm_compute; reflexivity).
  rewrite forallb_forall in Hb. specialize (Hb k Hk).
  apply andb_prop in Hb. destruct Hb as [Hb H3]. apply andb_prop in Hb.
  destruct Hb as [H1 H2]. apply Qle_bool_iff in H1, H2, H3. auto.
Qed.

(** The note at index [i] after a hit at distance [d]. *)
Definition judged (config : GameConfig.t) (d : Q) (n : Note.t) : Note.t :=
  Note.set_rating (Some (rate config d)) (Note.set_hit true n).

Lemma tryHitNote_hit laneIndex e :
  (exists m, In m (notesOf e) /\ candidate laneIndex m
             /\ (distance (getHitLineY e) m < effectiveWindow e)%Q) ->
  exists i n,
    nth_error (notesOf e) i = Some n
    /\ candidate laneIndex n
    /\ (distance (getHitLineY e) n < effectiveWindow e)%Q
    /\ (forall m, In m (notesOf e) -> candidate laneIndex m ->
                  (distance (getHitLineY e) n <= distance (getHitLineY e) m)%Q)
    /\ tryHitNote laneIndex e = hitNote i (distance (getHitLineY e) n) e.
Proof.
  intros (m & Hin & Hc & Hw). unfold tryHitNote. cbv zeta.
  destruct (closest _ _ _ _ _ _) as [[i d]|] eqn:E.
  - destruct (closest_origin _ _ _ _ _ _ _ _ E) as [?|(n & _ & Hn & Hcn & ->)];
      [discriminate|].
    destruct (closest_min _ _ _ _ _ None _ _ I E) as (Hwn & _ & Hmin).
    rewrite Nat.sub_0_r in Hn. exists i, n. repeat split; try apply Hcn; auto.
  - destruct (closest_none _ _ _ _ _ _ E) as [_ Hno].
    exfalso. exact (Hno m Hin Hc Hw).
Qed.

Lemma tryHitNote_whiff laneIndex e :
  (forall m, In m (notesOf e) -> candidate laneIndex m ->
             ~ (distance (getHitLineY e) m < effectiveWindow e)%Q) ->
  tryHitNote laneIndex e = updLaneAt laneIndex (Lane.set_hitEffect (3 # 10)) e.
Proof.
  intros Hno. unfold tryHitNote. cbv zeta.
  destruct (closest _ _ _ _ _ _) as [[i d]|] eqn:E; [|reflexivity].
  destruct (closest_origin _ _ _ _ _ _ _ _ E) as [?|(n & _ & Hn & Hcn & ->)];
    [discriminate|].
  destruct (closest_min _ _ _ _ _ None _ _ I E) as (Hwn & _).
  exfalso. apply (Hno n); auto. eapply nth_error_In; eassumption.
Qed.

Lemma missCount_hit r v sc :
  ScoreState.missCount (ScoreState.set_current v (countRating r sc))
  = ScoreState.missCount sc.
Proof. destruct r; reflexivity. Qed.

(** C1.  A press on a lane, with the effective window
    150 * (1 + timingLevel * 0.1) computed on doubles, which lies within
    10^-12 of the exact value for the levels 0 to 10 of the upgrade.  If
    some unresolved note of the lane is
    closer to the hit line than the window, the press marks one of them
    hit: it lies within the window, no unresolved note of the lane is
    closer, it is rated Perfect (base 100) at distance at most 40, Great
    (base 75) at most 80 and Good (base 50) otherwise, and the points added
    are the floor of the product of doubles
    base * combo multiplier * score multiplier; no other note
    changes and the miss counter keeps its value.  If no unresolved note of
    the lane is within the window, the notes, the combo and the score with
    its counters are unchanged.  With two notes at distances 30 and 80 the
    note at 30 is hit and rated Perfect; with the note at 80 alone it is
    rated Great. *)
Theorem tryHitNote_judgement (laneIndex : Z) (e : Engine.t) :
  let window := effectiveWindow e in
  let dist := distance (getHitLineY e) in
  let e' := tryHitNote laneIndex e in
  (* the window *)
  (config e = DEFAULT_CONFIG ->
   forall u, findUpgrade "timing" e = Some u -> Upgrade.effect u = (1 # 10)%Q ->
     window = JSNumber.fmul 150 (JSNumber.fadd 1
                (JSNumber.fmul (inject_Z (Upgrade.currentLevel u)) (1 # 10)))
     /\ (0 <= Upgrade.currentLevel u <= 10 ->
         (Qabs (window - 150 * (1 + inject_Z (Upgrade.currentLevel u) * (1 # 10)))
          <= 1 # 1000000000000)%Q))
  (* a note within the window *)
  /\ ((exists m, In m (notesOf e) /\ candidate laneIndex m /\ (dist m < window)%Q) ->
      exists i n,
        nth_error (notesOf e) i = Some n
        /\ candidate laneIndex n
        /\ (dist n < window)%Q
        /\ (forall m, In m (notesOf e) -> candidate laneIndex m -> (dist n <= dist m)%Q)
        /\ notesOf e' = updateAt i (judged (config e) (dist n)) (notesOf e)
        /\ ScoreState.current (scoreOf e')
           = ScoreState.current (scoreOf e)
             + Qfloor (JSNumber.fmul
                         (JSNumber.fmul
                            (inject_Z (baseScoreOf (rate (config e) (dist n))))
                            (ComboState.multiplier (comboOf e')))
                         (scoreMultiplier (rate (config e) (dist n)) e))
        /\ (ComboState.multiplier (comboOf e')
            = JSNumber.fadd 1 (JSNumber.fmul
                                 (inject_Z ((ComboState.current (comboOf e) + 1) / 10))
                                 (1 # 10)))
        /\ missesOf e' = missesOf e
        /\ ComboState.current (comboOf e') = ComboState.current (comboOf e) + 1)
  (* the ratings and their base scores *)
  /\ (config e = DEFAULT_CONFIG ->
      forall d, ((d <= 40)%Q -> rate (config e) d = Perfect)
                /\ ((40 < d)%Q -> (d <= 80)%Q -> rate (config e) d = Great)
                /\ ((80 < d)%Q -> rate (config e) d = Good))
  /\ (baseScoreOf Perfect = 100 /\ baseScoreOf Great = 75 /\ baseScoreOf Good = 50)
  (* no note within the window *)
  /\ ((forall m, In m (notesOf e) -> candidate laneIndex m -> ~ (dist m < window)%Q) ->
      notesOf e' = notesOf e /\ comboOf e' = comboOf e /\ scoreOf e' = scoreOf e)
  (* distances 30 and 80 *)
  /\ (config e = DEFAULT_CONFIG -> (80 < window)%Q ->
      forall n30 n80,
        candidate laneIndex n30 -> candidate laneIndex n80 ->
        (dist n30 == 30)%Q -> (dist n80 == 80)%Q ->
        (notesOf e = [n30; n80] -> notesOf e' = [judged (config e) (dist n30) n30; n80])
        /\ (notesOf e = [n80; n30] -> notesOf e' = [n80; judged (config e) (dist n30) n30])
        /\ (notesOf e = [n80] -> notesOf e' = [judged (config e) (dist n80) n80])
        /\ rate (config e) (dist n30) = Perfect
        /\ rate (config e) (dist n80) = Great).
Proof.
  cbv zeta.
  assert (Hhit := tryHitNote_hit laneIndex e).
  split.
  { intros Hc u Hu He. rewrite (effectiveWindow_default e u Hc Hu He).
    split; [reflexivity | intros Hl; exact (proj1 (windowAt_near _ Hl))]. }
  split.
  { intros Hex. destruct (Hhit Hex) as (i & n & Hn & Hc & Hw & Hmin & ->).
    exists i, n. repeat split; try apply Hc; auto.
    - apply notesOf_hitNote.
    - rewrite scoreOf_hitNote, comboOf_hitNote. reflexivity.
    - rewrite comboOf_hitNote. reflexivity.
    - unfold missesOf. rewrite scoreOf_hitNote. apply missCount_hit.
    - rewrite comboOf_hitNote. reflexivity. }
  split; [intros -> d; apply rate_default|].
  split; [repeat split|].
  split.
  { intros Hno. rewrite (tryHitNote_whiff _ _ Hno).
    rewrite notesOf_updLaneAt, comboOf_updLaneAt, scoreOf_updLaneAt. auto. }
  intros Hcfg Hw n30 n80 C30 C80 D30 D80.
  assert (W30 : (distance (getHitLineY e) n30 < effectiveWindow e)%Q) by (rewrite D30; lra).
  assert (W80 : (distance (getHitLineY e) n80 < effectiveWindow e)%Q) by (rewrite D80; lra).
  assert (Hlt : ~ (distance (getHitLineY e) n80 <= distance (getHitLineY e) n30)%Q)
    by (rewrite D30, D80; lra).
  repeat split.
  - intros Hns.
    destruct Hhit as (i & n & Hn & _ & _ & Hmin & ->).
    { exists n30. rewrite Hns. cbn. auto. }
    rewrite notesOf_hitNote, Hns in *.
    destruct i as [|[|i]]; cbn in Hn.
    + injection Hn as <-. reflexivity.
    + injection Hn as <-. exfalso. apply Hlt. apply Hmin; cbn; auto.
    + destruct i; discriminate.
  - intros Hns.
    destruct Hhit as (i & n & Hn & _ & _ & Hmin & ->).
    { exists n30. rewrite Hns. cbn. auto. }
    rewrite notesOf_hitNote, Hns in *.
    destruct i as [|[|i]]; cbn in Hn.
    + injection Hn as <-. exfalso. apply Hlt. apply Hmin; cbn; auto.
    + injection Hn as <-. reflexivity.
    + destruct i; discriminate.
  - intros Hns.
    destruct Hhit as (i & n & Hn & _ & _ & Hmin & ->).
    { exists n80. rewrite Hns. cbn. auto. }
    rewrite notesOf_hitNote, Hns in *.
    destruct i as [|i]; cbn in Hn.
    + injection Hn as <-. reflexivity.
    + destruct i; discriminate.
  - rewrite Hcfg. apply rate_default. rewrite D30. lra.
  - rewrite Hcfg. apply rate_default; rewrite D80; lra.
Qed.

End EngineFacts.

(* ------------------------------------------------------------------------- *)
(** ** The per-frame update, taken apart *)

Module UpdateFacts.
Import QBool QBoolFacts JSArray Engine EngineFacts.

(** The engine after the spawning loop of a frame. *)
Definition spawned (deltaTime nextBeat : Q) (notes : list Note.t) (counter : Z)
    (rng : SeededRandom.t) (e : Engine.t) : Engine.t :=
  modify_state (GameState.set_notes notes)
    (set_nextBeatTime nextBeat
       (set_noteIdCounter counter
          (set_levelRng (Some rng)
             (modify_state (fun s => GameState.set_gameTime
                                       (GameState.gameTime s + deltaTime)%Q s) e)))).

(** The engine after the notes were moved, judged missed and cleaned up. *)
Definition settled (rolls : nat -> Q) (beatInterval : Q) (e1 : Engine.t) : Engine.t :=
  pulseOnBeat beatInterval
    (cleanUp (fst (moveNotes (effectiveSpeed e1) (getHitLineY e1) rolls e1))).

Definition closeFrame (e2 : Engine.t) : Engine.t :=
  if 10 <=? missesOf e2 then endLevel e2 else e2.

Definition beatIntervalOf (levelConfig : LevelConfig.t) : Q :=
  (60 / inject_Z (LevelConfig.bpm levelConfig))%Q.

(** *** The spawning loop only appends notes *)

Definition extends (notes : list Note.t) (nc : list Note.t * Z) : Prop :=
  exists added, fst nc = notes ++ added.

Lemma extends_refl nc : extends (fst nc) nc.
Proof. exists []. now rewrite app_nil_r. Qed.

Lemma pushNotes_extends lanes spawnTime hitTime notes nc :
  extends notes nc -> extends notes (pushNotes lanes spawnTime hitTime nc).
Proof.
  unfold pushNotes. revert nc.
  induction lanes as [|l lanes IH]; intros nc H; cbn [fold_left]; [exact H|].
  apply IH. destruct H as [added H]. exists (added ++ [newNote (snd nc) l spawnTime hitTime]).
  cbn [fst]. rewrite H. now rewrite app_assoc.
Qed.

Lemma spawnBeat_extends fuel difficulty beatInterval travelTime nextBeat notes nc :
  extends notes nc ->
  GenFacts.post (spawnBeat fuel difficulty beatInterval travelTime nextBeat nc)
                (extends notes).
Proof.
  intros H. unfold spawnBeat.
  eapply GenFacts.post_bind; [apply GenFacts.post_true|]. intros v _.
  eapply GenFacts.post_bind with (P := extends notes).
  - destruct (ltb v _); [|now apply GenFacts.post_ret].
    eapply GenFacts.post_bind; [apply GenFacts.post_true|]. intros first _.
    eapply GenFacts.post_bind; [apply GenFacts.post_true|]. intros d _.
    eapply GenFacts.post_bind; [apply GenFacts.post_true|]. intros lanes _.
    apply GenFacts.post_ret. now apply pushNotes_extends.
  - intros nc1 H1.
    eapply GenFacts.post_bind; [apply GenFacts.post_true|]. intros o _.
    destruct (ltb o _); [|now apply GenFacts.post_ret].
    cbv zeta.
    eapply GenFacts.post_bind; [apply GenFacts.post_true|]. intros l _.
    apply GenFacts.post_ret. now apply pushNotes_extends.
Qed.

Lemma spawnLoop_extends fuel loopFuel difficulty beatInterval travelTime limit notes :
  forall nextBeat nc,
    extends notes nc ->
    GenFacts.post (spawnLoop fuel loopFuel difficulty beatInterval travelTime limit
                             nextBeat nc)
                  (fun r => extends notes (snd r)).
Proof.
  induction loopFuel as [|loopFuel IH]; intros nextBeat nc H; cbn [spawnLoop].
  - apply GenFacts.post_diverge.
  - destruct (ltb nextBeat limit); [|now apply GenFacts.post_ret].
    eapply GenFacts.post_bind with (P := extends notes).
    + destruct (gtb nextBeat 0); [now apply spawnBeat_extends | now apply GenFacts.post_ret].
    + intros nc1 H1. now apply IH.
Qed.

Lemma updateGameplay_cases fuel deltaTime rolls e e' :
  updateGameplay fuel deltaTime rolls e = Some e' ->
  ((currentLevelConfig e = None \/ levelRng e = None) /\ e' = e)
  \/ exists levelConfig rng nextBeat notes counter rng',
       currentLevelConfig e = Some levelConfig
       /\ levelRng e = Some rng
       /\ (exists added, notes = notesOf e ++ added)
       /\ e' = closeFrame (settled rolls (beatIntervalOf levelConfig)
                             (spawned deltaTime nextBeat notes counter rng' e)).
Proof.
  unfold updateGameplay.
  destruct (currentLevelConfig e) as [levelConfig|] eqn:Ec; [|intros [= <-]; auto].
  destruct (levelRng e) as [rng|] eqn:Er; [|intros [= <-]; auto].
  cbv zeta.
  destruct (spawnLoop _ _ _ _ _ _ _ _ _) as [[[nextBeat [notes counter]] rng']|] eqn:Es;
    [|discriminate].
  intros H. right. exists levelConfig, rng, nextBeat, notes, counter, rng'.
  split; [reflexivity|]. split; [reflexivity|].
  split.
  2:{ unfold closeFrame, settled, missesOf, scoreOf.
      destruct (10 <=? _); injection H as <-; reflexivity. }
  clear H.
  apply (spawnLoop_extends _ _ _ _ _ _ (notesOf e) _ _ (extends_refl (notesOf e, _)))
    in Es.
  exact Es.
Qed.

(** *** Misses *)

(** The chance [comboShieldLevel * effect] that a miss keeps the combo. *)
Definition shieldChance (e : Engine.t) : Q :=
  match upgradeBonus "combo_shield" e with Some b => b | None => 0%Q end.

Definition resetCombo (c : ComboState.t) : ComboState.t :=
  ComboState.set_multiplier 1 (ComboState.set_current 0 c).

Lemma missNote_eq i roll e :
  missNote i roll e
  = let e1 := updScore (fun sc => ScoreState.set_missCount (ScoreState.missCount sc + 1) sc)
                (updNote i (fun n => Note.set_rating (Some Miss) (Note.set_missed true n)) e) in
    if ltb roll (shieldChance e) then e1 else updCombo resetCombo e1.
Proof. reflexivity. Qed.

Lemma comboOf_missNote i roll e :
  comboOf (missNote i roll e)
  = if ltb roll (shieldChance e) then comboOf e else resetCombo (comboOf e).
Proof. rewrite missNote_eq. cbv zeta. destruct (ltb roll _); reflexivity. Qed.

Lemma missesOf_missNote i roll e : missesOf (missNote i roll e) = missesOf e + 1.
Proof. rewrite missNote_eq. cbv zeta. destruct (ltb roll _); reflexivity. Qed.

Lemma notesOf_missNote i roll e :
  notesOf (missNote i roll e)
  = updateAt i (fun n => Note.set_rating (Some Miss) (Note.set_missed true n)) (notesOf e).
Proof. rewrite missNote_eq. cbv zeta. destruct (ltb roll _); reflexivity. Qed.

Lemma Keeps_missNote i roll e : Keeps e (missNote i roll e).
Proof.
  rewrite missNote_eq. cbv zeta. destruct (ltb roll _); constructor; reflexivity.
Qed.

(** *** The loop over the notes *)

Lemma moveNotes_preserves (P : Engine.t -> Prop) speed hitLineY rolls :
  (forall e k i, P e -> P (fst (moveNote speed hitLineY rolls (e, k) i))) ->
  forall e, P e -> P (fst (moveNotes speed hitLineY rolls e)).
Proof.
  intros Hstep e. unfold moveNotes.
  generalize (seq 0 (List.length (GameState.notes (state e)))) as l.
  generalize O as k. intros k l. revert e k.
  induction l as [|i l IH]; intros e k HP; cbn [fold_left]; [exact HP|].
  destruct (moveNote speed hitLineY rolls (e, k) i) as [e1 k1] eqn:E.
  apply IH. specialize (Hstep e k i HP). now rewrite E in Hstep.
Qed.

Lemma moveNote_cases speed hitLineY rolls e k i :
  fst (moveNote speed hitLineY rolls (e, k) i) = e
  \/ exists note y,
       nth_error (notesOf e) i = Some note /\ unresolved note = true
       /\ (fst (moveNote speed hitLineY rolls (e, k) i) = updNote i (Note.set_y y) e
           \/ fst (moveNote speed hitLineY rolls (e, k) i)
              = missNote i (rolls k) (updNote i (Note.set_y y) e)).
Proof.
  unfold moveNote. fold (notesOf e).
  destruct (nth_error (notesOf e) i) as [note|] eqn:En; [|now left].
  destruct (unresolved note) eqn:Eu; [|now left].
  cbv zeta. right. eexists note, _. split; [reflexivity|]. split; [exact Eu|].
  destruct (gtb _ _); [right | left]; reflexivity.
Qed.

Lemma Keeps_moveNotes speed hitLineY rolls e :
  Keeps e (fst (moveNotes speed hitLineY rolls e)).
Proof.
  apply (moveNotes_preserves (Keeps e)); [|apply Keeps_refl].
  intros e1 k i H.
  destruct (moveNote_cases speed hitLineY rolls e1 k i) as [->|(n & y & _ & _ & [->| ->])].
  - exact H.
  - eapply Keeps_trans; [exact H | apply Keeps_updNote].
  - eapply Keeps_trans; [exact H|].
    eapply Keeps_trans; [apply Keeps_updNote | apply Keeps_missNote].
Qed.

Lemma Keeps_cleanUp e : Keeps e (cleanUp e).
Proof. constructor; reflexivity. Qed.

Lemma Keeps_pulseOnBeat b e : Keeps e (pulseOnBeat b e).
Proof. unfold pulseOnBeat. destruct (ltb _ _); constructor; reflexivity. Qed.

Lemma Keeps_settled rolls b e : Keeps e (settled rolls b e).
Proof.
  unfold settled.
  eapply Keeps_trans; [|apply Keeps_pulseOnBeat].
  eapply Keeps_trans; [|apply Keeps_cleanUp].
  apply Keeps_moveNotes.
Qed.

Lemma comboOf_endLevel e : comboOf (endLevel e) = comboOf e.
Proof.
  unfold endLevel. cbv zeta.
  destruct (getOrZero _ (GameState.levelHighScores _) <? _); cbn;
    destruct (getOrZero _ _ <? _); cbn;
    destruct (_ && _); reflexivity.
Qed.

Lemma scoreOf_endLevel e : scoreOf (endLevel e) = scoreOf e.
Proof.
  unfold endLevel. cbv zeta.
  destruct (getOrZero _ (GameState.levelHighScores _) <? _); cbn;
    destruct (getOrZero _ _ <? _); cbn;
    destruct (_ && _); reflexivity.
Qed.

Lemma notesOf_endLevel e : notesOf (endLevel e) = notesOf e.
Proof.
  unfold endLevel. cbv zeta.
  destruct (getOrZero _ (GameState.levelHighScores _) <? _); cbn;
    destruct (getOrZero _ _ <? _); cbn;
    destruct (_ && _); reflexivity.
Qed.

End UpdateFacts.

(* ------------------------------------------------------------------------- *)
(** ** Events, one at a time *)

Module StepFacts.
Import QBool QBoolFacts JSArray Engine EngineFacts UpdateFacts.

(** The visual decay at the end of [update]. *)
Definition effects (deltaTime : Q) (e : Engine.t) : Engine.t :=
  modify_state
    (fun s => GameState.set_lanes
                (map (fun lane => Lane.set_hitEffect
                                    (decay 5 deltaTime (Lane.hitEffect lane)) lane)
                     (GameState.lanes s)) s)
    (modify_state (fun s => GameState.set_beatPulse
                              (decay 4 deltaTime (GameState.beatPulse s)) s)
       (updateDisplayScore deltaTime e)).

Definition running (e : Engine.t) : bool :=
  match screenOf e with Playing => true | _ => false end
  && negb (GameState.isPaused (state e)).

Lemma update_cases fuel deltaTime rolls e e' :
  update fuel deltaTime rolls e = Some e' ->
  exists e1, (if running e then updateGameplay fuel deltaTime rolls e else Some e) = Some e1
             /\ e' = effects deltaTime e1.
Proof.
  unfold update. fold (screenOf e). fold (running e).
  destruct (if running e then _ else _) as [e1|]; [|discriminate].
  intros [= <-]. exists e1. split; reflexivity.
Qed.

Lemma Keeps_effects deltaTime e : Keeps e (effects deltaTime e).
Proof. constructor; reflexivity. Qed.

Lemma comboOf_effects deltaTime e : comboOf (effects deltaTime e) = comboOf e.
Proof. reflexivity. Qed.

Lemma missesOf_effects deltaTime e : missesOf (effects deltaTime e) = missesOf e.
Proof.
  unfold effects, updateDisplayScore, missesOf, scoreOf. cbn.
  destruct (ltb _ 1); reflexivity.
Qed.

Lemma notesOf_effects deltaTime e : notesOf (effects deltaTime e) = notesOf e.
Proof. reflexivity. Qed.

Lemma Keeps_spawned deltaTime nextBeat notes counter rng e :
  screenOf (spawned deltaTime nextBeat notes counter rng e) = screenOf e
  /\ GameState.upgrades (state (spawned deltaTime nextBeat notes counter rng e))
     = GameState.upgrades (state e)
  /\ config (spawned deltaTime nextBeat notes counter rng e) = config e
  /\ canvasHeight (spawned deltaTime nextBeat notes counter rng e) = canvasHeight e
  /\ comboOf (spawned deltaTime nextBeat notes counter rng e) = comboOf e
  /\ scoreOf (spawned deltaTime nextBeat notes counter rng e) = scoreOf e
  /\ notesOf (spawned deltaTime nextBeat notes counter rng e) = notes.
Proof. repeat split. Qed.

Lemma Keeps_tryHitNote laneIndex e : Keeps e (tryHitNote laneIndex e).
Proof.
  unfold tryHitNote. cbv zeta.
  destruct (closest _ _ _ _ _ _) as [[i d]|]; [apply Keeps_hitNote | apply Keeps_updLaneAt].
Qed.

(** A key bound to a lane that is not held down, pressed while playing
    and not rebinding: the lane is marked pressed and judged by
    [tryHitNote]. *)
Lemma handleKeyDown_press fuel key laneIndex lane e :
  screenOf e = Playing ->
  GameState.rebindingLane (state e) = None ->
  indexOf (toUpperCase key) (GameState.keybinds (state e)) = Some laneIndex ->
  nth_error (GameState.lanes (state e)) laneIndex = Some lane ->
  Lane.pressed lane = false ->
  String.eqb key "Escape" = false ->
  handleKeyDown fuel key e
  = Some (tryHitNote (Z.of_nat laneIndex)
                     (updLane laneIndex (Lane.set_pressed true) e)).
Proof.
  intros Hp Hr Hi Hl Hpr He. unfold handleKeyDown. cbv zeta.
  unfold screenOf in Hp. now rewrite Hr, Hp, Hi, Hl, Hpr, He.
Qed.

(** *** The combo invariant *)

(** The multiplier is [1 + Math.floor(current / 10) * 0.1], on doubles. *)
Definition comboInv (c : ComboState.t) : Prop :=
  (ComboState.multiplier c
   == JSNumber.fadd 1 (JSNumber.fmul (inject_Z (ComboState.current c / 10)) (1 # 10)))%Q.

(** On doubles the multiplier is not the rational 1 + k / 10, but within
    10^-12 of it for the combos below 1000, and 1 below 10. *)
Lemma comboMultiplier_near current :
  0 <= current < 1000 ->
  (Qabs (comboMultiplier current - (1 + inject_Z (current / 10) * (1 # 10)))
   <= 1 # 1000000000000)%Q
  /\ (current < 10 -> comboMultiplier current = 1%Q).
Proof.
  intros Hc. unfold comboMultiplier.
  assert (Hk : 0 <= current / 10 < Z.of_nat 100)
    by (split; [apply Z.div_pos; lia | apply Z.div_lt_upper_bound; lia]).
  split.
  - generalize (current / 10) Hk. clear. intros k Hk. pattern k.
    apply (upTo _ 100); [|exact Hk]. intros j Hj.
    assert (Hb : forallb
                   (fun j => Qle_bool
                               (Qabs (JSNumber.fadd 1 (JSNumber.fmul (inject_Z j) (1 # 10))
                                      - (1 + inject_Z j * (1 # 10))))
                               (1 # 1000000000000))
                   (map Z.of_nat (seq 0 100)) = true) by (vm_compute; reflexivity).
    rewrite forallb_forall in Hb. apply Qle_bool_iff. exact (Hb j Hj).
  - intros Hlt. rewrite (Z.div_small current 10) by lia. vm_compute. reflexivity.
Qed.

Lemma comboInv_bump c : comboInv (bumpCombo c).
Proof. unfold comboInv, bumpCombo. cbn. reflexivity. Qed.

Lemma comboInv_reset c : comboInv (resetCombo c).
Proof. unfold comboInv, resetCombo. cbn. vm_compute. reflexivity. Qed.

Lemma comboInv_start : comboInv (ComboState.mk 0 0 1).
Proof. unfold comboInv. cbn. vm_compute. reflexivity. Qed.

Lemma comboInv_tryHitNote laneIndex e :
  comboInv (comboOf e) -> comboInv (comboOf (tryHitNote laneIndex e)).
Proof.
  intros H. unfold tryHitNote. cbv zeta.
  destruct (closest _ _ _ _ _ _) as [[i d]|].
  - rewrite comboOf_hitNote. apply comboInv_bump.
  - now rewrite comboOf_updLaneAt.
Qed.

Lemma comboInv_moveNotes speed hitLineY rolls e :
  comboInv (comboOf e) -> comboInv (comboOf (fst (moveNotes speed hitLineY rolls e))).
Proof.
  apply (moveNotes_preserves (fun x => comboInv (comboOf x))).
  intros e1 k i H.
  destruct (moveNote_cases speed hitLineY rolls e1 k i) as [->|(n & y & _ & _ & [->| ->])].
  - exact H.
  - exact H.
  - rewrite comboOf_missNote. destruct (ltb _ _); [exact H | apply comboInv_reset].
Qed.

Lemma comboOf_pulseOnBeat b e : comboOf (pulseOnBeat b e) = comboOf e.
Proof. unfold pulseOnBeat. destruct (ltb _ _); reflexivity. Qed.

Lemma comboInv_updateGameplay fuel deltaTime rolls e e' :
  comboInv (comboOf e) -> updateGameplay fuel deltaTime rolls e = Some e' ->
  comboInv (comboOf e').
Proof.
  intros H Hu.
  destruct (updateGameplay_cases _ _ _ _ _ Hu)
    as [[_ ->]|(lc & rng & nb & notes & c & rng' & _ & _ & _ & ->)]; [exact H|].
  unfold closeFrame. destruct (10 <=? _); [rewrite comboOf_endLevel|];
    unfold settled; rewrite comboOf_pulseOnBeat;
    change (comboOf (cleanUp ?x)) with (comboOf x);
    apply comboInv_moveNotes; exact H.
Qed.

Lemma startLevel_combo fuel levelNum e e' :
  startLevel fuel levelNum e = Some e' -> comboOf e' = ComboState.mk 0 0 1.
Proof.
  unfold startLevel. destruct (Levels.generateLevel fuel levelNum); [|discriminate].
  intros [= <-]. reflexivity.
Qed.

Lemma comboOf_purchase i e : comboOf (purchase i e) = comboOf e.
Proof.
  unfold purchase. destruct (nth_error _ i); [|reflexivity].
  destruct (_ <? _); [|reflexivity]. destruct (_ <=? _); reflexivity.
Qed.

Lemma comboInv_handleMenuClick fuel x y e e' :
  comboInv (comboOf e) -> handleMenuClick fuel x y e = Some e' -> comboInv (comboOf e').
Proof.
  intros H. unfold handleMenuClick. cbv zeta.
  destruct (_ && _).
  { intros Hs. rewrite (startLevel_combo _ _ _ _ Hs). apply comboInv_start. }
  destruct (_ && _); [intros [= <-]; exact H|].
  destruct (_ && _); [intros [= <-]; exact H|].
  destruct (buttonAt _ _ _ _); [intros [= <-]; now rewrite comboOf_purchase|].
  destruct (buttonAt _ _ _ _); intros [= <-]; exact H.
Qed.

Lemma comboInv_handleKeyDown fuel key e e' :
  comboInv (comboOf e) -> handleKeyDown fuel key e = Some e' -> comboInv (comboOf e').
Proof.
  intros H. unfold handleKeyDown. cbv zeta.
  destruct (GameState.rebindingLane (state e)) as [lane|].
  { destruct (negb _); intros [= <-]; exact H. }
  destruct (GameState.screen (state e)).
  - destruct (String.eqb key " ").
    { intros Hs. rewrite (startLevel_combo _ _ _ _ Hs). apply comboInv_start. }
    destruct (_ || _); [intros [= <-]; exact H|].
    destruct (_ || _); intros [= <-]; exact H.
  - intros [= <-].
    match goal with |- comboInv (comboOf (if _ then modify_state _ ?x else ?x)) =>
      assert (Hx : comboInv (comboOf x)) end.
    { destruct (indexOf _ _) as [laneIndex|]; [|exact H].
      destruct (nth_error _ laneIndex) as [lane|]; [|exact H].
      destruct (negb _); [|exact H].
      apply comboInv_tryHitNote. exact H. }
    destruct (String.eqb key "Escape"); exact Hx.
  - intros [= <-]. destruct (String.eqb key " "); exact H.
Qed.

Lemma comboInv_step fuel ev e e' :
  comboInv (comboOf e) -> step fuel ev e = Some e' -> comboInv (comboOf e').
Proof.
  intros H. destruct ev as [deltaTime rolls|key|key|x y|width height]; cbn [step].
  - intros Hu. destruct (update_cases _ _ _ _ _ Hu) as (e1 & H1 & ->).
    rewrite comboOf_effects.
    destruct (running e); [|injection H1 as <-; exact H].
    eapply comboInv_updateGameplay; eassumption.
  - now apply comboInv_handleKeyDown.
  - intros [= <-]. unfold handleKeyUp. cbv zeta.
    destruct (indexOf _ _); exact H.
  - unfold handleClick. destruct (GameState.screen (state e)).
    + now apply comboInv_handleMenuClick.
    + intros [= <-]. exact H.
    + intros [= <-]. exact H.
  - intros [= <-]. exact H.
Qed.

(** C5.  The multiplier is 1 + floor(current / 10) * 0.1, computed on
    doubles, after every hit and after every level start, and every event
    of the engine (a frame with its misses, a key, a click, a resize)
    keeps that equation.  A hit adds 1 to the combo.  A miss whose roll is
    not below the shield chance sets the combo to 0 and the multiplier to
    1; a miss whose roll is below it leaves the combo as it was.  The
    double is within 10^-12 of the rational 1 + floor(current / 10) / 10
    for the combos below 1000. *)
Theorem combo_multiplier_invariant (e : Engine.t) :
  let law := fun c : ComboState.t =>
    (ComboState.multiplier c
     == JSNumber.fadd 1 (JSNumber.fmul (inject_Z (ComboState.current c / 10))
                                       (1 # 10)))%Q in
  (forall i d,
      ComboState.current (comboOf (hitNote i d e)) = ComboState.current (comboOf e) + 1
      /\ ComboState.max (comboOf (hitNote i d e))
         = Z.max (ComboState.max (comboOf e)) (ComboState.current (comboOf e) + 1)
      /\ law (comboOf (hitNote i d e)))
  /\ (forall i roll,
        (roll < shieldChance e)%Q -> comboOf (missNote i roll e) = comboOf e)
  /\ (forall i roll,
        ~ (roll < shieldChance e)%Q ->
        ComboState.current (comboOf (missNote i roll e)) = 0
        /\ ComboState.multiplier (comboOf (missNote i roll e)) = 1%Q
        /\ law (comboOf (missNote i roll e)))
  /\ (forall fuel levelNum e',
        startLevel fuel levelNum e = Some e' ->
        comboOf e' = ComboState.mk 0 0 1 /\ law (comboOf e'))
  /\ (forall fuel ev e',
        law (comboOf e) -> step fuel ev e = Some e' -> law (comboOf e'))
  /\ (forall c, law c -> 0 <= ComboState.current c < 1000 ->
        (Qabs (ComboState.multiplier c
               - (1 + inject_Z (ComboState.current c / 10) * (1 # 10)))
         <= 1 # 1000000000000)%Q).
Proof.
  cbv zeta. split.
  { intros i d. rewrite comboOf_hitNote.
    split; [reflexivity|]. split; [reflexivity | apply comboInv_bump]. }
  split.
  { intros i roll Hr. rewrite comboOf_missNote. apply ltb_lt in Hr. now rewrite Hr. }
  split.
  { intros i roll Hr. rewrite comboOf_missNote.
    destruct (ltb roll (shieldChance e)) eqn:E; [apply ltb_lt in E; contradiction|].
    split; [reflexivity|]. split; [reflexivity | apply comboInv_reset]. }
  split.
  { intros fuel levelNum e' Hs. rewrite (startLevel_combo _ _ _ _ Hs).
    split; [reflexivity | apply comboInv_start]. }
  split; [intros fuel ev e'; apply comboInv_step|].
  intros c Hlaw Hc. rewrite Hlaw.
  exact (proj1 (comboMultiplier_near (ComboState.current c) Hc)).
Qed.

Definition shielded : Engine.t :=
  purchase 2 (modify_state (GameState.set_totalPoints 1000) (create 800 600)).

Lemma combo_multiplier_invariant_witness :
  (0 < shieldChance shielded)%Q
  /\ comboOf (missNote 0 0 shielded) = comboOf shielded
  /\ ComboState.current (comboOf (missNote 0 (1 # 2) shielded)) = 0
  /\ (exists e', step 4 (KeyDown " ") shielded = Some e' /\ comboInv (comboOf e')).
Proof.
  destruct (combo_multiplier_invariant shielded) as (_ & Hs & Hu & _ & Hstep & _).
  split; [reflexivity|].
  split; [apply Hs; reflexivity|].
  split; [apply Hu; intros H; vm_compute in H; discriminate|].
  destruct (step 4 (KeyDown " ") shielded) as [e'|] eqn:E.
  - exists e'. split; [reflexivity|].
    apply (Hstep 4%nat (KeyDown " ") e'); [reflexivity | exact E].
  - vm_compute in E. discriminate.
Defined.

(** *** Leaving the playing screen *)

Lemma screenOf_startLevel fuel levelNum e e' :
  startLevel fuel levelNum e = Some e' -> screenOf e' = Playing.
Proof.
  unfold startLevel. destruct (Levels.generateLevel fuel levelNum); [|discriminate].
  intros [= <-]. reflexivity.
Qed.

Lemma handleKeyDown_playing fuel key e e' :
  screenOf e = Playing -> handleKeyDown fuel key e = Some e' -> screenOf e' = Playing.
Proof.
  intros Hp. unfold handleKeyDown. cbv zeta.
  destruct (GameState.rebindingLane (state e)) as [lane|].
  { destruct (negb _); intros [= <-]; exact Hp. }
  unfold screenOf in Hp. rewrite Hp. intros [= <-].
  match goal with |- screenOf (if _ then modify_state _ ?x else ?x) = _ =>
    assert (Hx : screenOf x = Playing) end.
  { destruct (indexOf _ _) as [laneIndex|]; [|exact Hp].
    destruct (nth_error _ laneIndex) as [lane|]; [|exact Hp].
    destruct (negb _); [|exact Hp].
    rewrite (keeps_screen _ _ (Keeps_tryHitNote _ _)). exact Hp. }
  destruct (String.eqb key "Escape"); exact Hx.
Qed.

Lemma closeFrame_screen e2 :
  screenOf e2 = Playing ->
  (screenOf (closeFrame e2) = Results <-> 10 <= missesOf (closeFrame e2))
  /\ (screenOf (closeFrame e2) = Playing \/ screenOf (closeFrame e2) = Results).
Proof.
  intros Hp. unfold closeFrame.
  destruct (Z.leb_spec 10 (missesOf e2)) as [H|H].
  - unfold missesOf. rewrite scoreOf_endLevel. fold (missesOf e2).
    change (screenOf (endLevel e2)) with Results. tauto.
  - rewrite Hp. split; [|now left]. split; [discriminate | lia].
Qed.

Lemma leave_playing fuel ev e e' :
  screenOf e = Playing ->
  step fuel ev e = Some e' ->
  (screenOf e' = Results <->
     (exists deltaTime rolls, ev = Frame deltaTime rolls)
     /\ GameState.isPaused (state e) = false
     /\ currentLevelConfig e <> None /\ levelRng e <> None
     /\ 10 <= missesOf e')
  /\ (screenOf e' = Playing \/ screenOf e' = Results)
  /\ (missesOf e' < 10 -> screenOf e' = Playing).
Proof.
  intros Hp Hs.
  assert (Hstay : screenOf e' = Playing ->
            (screenOf e' = Results <->
               (exists deltaTime rolls, ev = Frame deltaTime rolls)
               /\ GameState.isPaused (state e) = false
               /\ currentLevelConfig e <> None /\ levelRng e <> None
               /\ 10 <= missesOf e')
            -> (screenOf e' = Results <->
                  (exists deltaTime rolls, ev = Frame deltaTime rolls)
                  /\ GameState.isPaused (state e) = false
                  /\ currentLevelConfig e <> None /\ levelRng e <> None
                  /\ 10 <= missesOf e')
               /\ (screenOf e' = Playing \/ screenOf e' = Results)
               /\ (missesOf e' < 10 -> screenOf e' = Playing)) by tauto.
  destruct ev as [deltaTime rolls|key|key|x y|width height]; cbn [step] in Hs.
  - destruct (update_cases _ _ _ _ _ Hs) as (e1 & H1 & ->).
    rewrite (keeps_screen _ _ (Keeps_effects deltaTime e1)), missesOf_effects.
    unfold running in H1. rewrite Hp in H1. cbn [andb] in H1.
    destruct (GameState.isPaused (state e)) eqn:Epause; cbn [negb] in H1.
    { injection H1 as <-. rewrite Hp.
      split; [split; [discriminate | intros (_ & ? & _); discriminate]|].
      split; [now left | reflexivity]. }
    destruct (updateGameplay_cases _ _ _ _ _ H1)
      as [[Hnone ->]|(lc & rng & nb & notes & c & rng' & Hc & Hr & _ & ->)].
    { rewrite Hp.
      split; [split; [discriminate | intros (_ & _ & ? & ? & _); tauto]|].
      split; [now left | reflexivity]. }
    match goal with |- context [closeFrame ?x] =>
      assert (Hp2 : screenOf x = Playing)
        by (rewrite (keeps_screen _ _ (Keeps_settled _ _ _)); exact Hp);
      destruct (closeFrame_screen x Hp2) as [Hiff Hor]
    end.
    split.
    { rewrite Hiff. rewrite Hc, Hr. split.
      - intros H. repeat split; try discriminate; [eauto | exact H].
      - intros (_ & _ & _ & _ & H). exact H. }
    split; [exact Hor|].
    intros Hlt. destruct Hor as [Hor|Hor]; [exact Hor|].
    apply Hiff in Hor. lia.
  - pose proof (handleKeyDown_playing _ _ _ _ Hp Hs) as Hp'.
    apply Hstay in Hp'; [exact Hp'|].
    rewrite (handleKeyDown_playing _ _ _ _ Hp Hs).
    split; [discriminate | intros ((? & ? & ?) & _); discriminate].
  - injection Hs as <-.
    assert (Hp' : screenOf (handleKeyUp key e) = Playing).
    { unfold handleKeyUp. cbv zeta. destruct (indexOf _ _); exact Hp. }
    rewrite Hp'.
    split; [split; [discriminate | intros ((? & ? & ?) & _); discriminate]|].
    split; [now left | reflexivity].
  - unfold handleClick in Hs. unfold screenOf in Hp. rewrite Hp in Hs.
    injection Hs as <-. fold (screenOf e) in Hp. rewrite Hp.
    split; [split; [discriminate | intros ((? & ? & ?) & _); discriminate]|].
    split; [now left | reflexivity].
  - injection Hs as <-.
    change (screenOf (resize width height e)) with (screenOf e).
    change (missesOf (resize width height e)) with (missesOf e). rewrite Hp.
    split; [split; [discriminate | intros ((? & ? & ?) & _); discriminate]|].
    split; [now left | reflexivity].
Qed.

(** Outside the playing screen an event starts a level or leaves the miss
    counter as it is. *)
Lemma missesOf_purchase i e : missesOf (purchase i e) = missesOf e.
Proof.
  unfold purchase. destruct (nth_error _ i); [|reflexivity].
  destruct (_ <? _); [|reflexivity]. destruct (_ <=? _); reflexivity.
Qed.

Lemma idle_step fuel ev e e' :
  screenOf e <> Playing ->
  step fuel ev e = Some e' ->
  screenOf e' = Playing \/ missesOf e' = missesOf e.
Proof.
  intros Hp. destruct ev as [deltaTime rolls|key|key|x y|width height]; cbn [step].
  - intros Hs. destruct (update_cases _ _ _ _ _ Hs) as (e1 & H1 & ->).
    rewrite missesOf_effects. right.
    unfold running in H1. destruct (screenOf e); try contradiction;
      cbn [andb] in H1; injection H1 as <-; reflexivity.
  - unfold handleKeyDown. cbv zeta.
    destruct (GameState.rebindingLane (state e)) as [lane|].
    { destruct (negb _); intros [= <-]; now right. }
    fold (screenOf e). destruct (screenOf e); try contradiction.
    + destruct (String.eqb key " ").
      { intros Hs. left. eapply screenOf_startLevel; eassumption. }
      destruct (_ || _); [intros [= <-]; now right|].
      destruct (_ || _); intros [= <-]; now right.
    + intros [= <-]. destruct (String.eqb key " "); now right.
  - intros [= <-]. unfold handleKeyUp. cbv zeta.
    destruct (indexOf _ _); now right.
  - unfold handleClick. fold (screenOf e). destruct (screenOf e); try contradiction.
    + unfold handleMenuClick. cbv zeta.
      destruct (_ && _).
      { intros Hs. left. eapply screenOf_startLevel; eassumption. }
      destruct (_ && _); [intros [= <-]; now right|].
      destruct (_ && _); [intros [= <-]; now right|].
      destruct (buttonAt _ _ _ _); [intros [= <-]; right; apply missesOf_purchase|].
      destruct (buttonAt _ _ _ _); intros [= <-]; now right.
    + intros [= <-]. now right.
  - intros [= <-]. now right.
Qed.

Lemma playing_or_missed fuel evs : forall e e',
  screenOf e = Playing \/ 10 <= missesOf e ->
  run fuel evs e = Some e' ->
  screenOf e' = Playing \/ 10 <= missesOf e'.
Proof.
  induction evs as [|ev evs IH]; intros e e' HI; cbn [run].
  - intros [= <-]. exact HI.
  - destruct (step fuel ev e) as [e1|] eqn:Es; [|discriminate].
    apply IH.
    assert (Hdec : screenOf e = Playing \/ screenOf e <> Playing)
      by (destruct (screenOf e); [right | left | right]; congruence).
    destruct Hdec as [Hp|Hnp].
    + destruct (leave_playing _ _ _ _ Hp Es) as (Hiff & [H|H] & _); [now left|].
      right. apply Hiff in H. tauto.
    + destruct HI as [?|HI]; [contradiction|].
      destruct (idle_step _ _ _ _ Hnp Es) as [H|H]; [now left | right; lia].
Qed.

(** *** While playing, a level and its generator are present *)

Definition hasLevel (e : Engine.t) : Prop :=
  screenOf e = Playing -> currentLevelConfig e <> None /\ levelRng e <> None.

Lemma hasLevel_Keeps e e' : Keeps e e' -> hasLevel e -> hasLevel e'.
Proof.
  intros K H Hp. rewrite (keeps_screen _ _ K) in Hp.
  rewrite (keeps_levelConfig _ _ K), (keeps_levelRng _ _ K). now apply H.
Qed.

Lemma hasLevel_idle e : screenOf e <> Playing -> hasLevel e.
Proof. intros H Hp. contradiction. Qed.

Lemma hasLevel_startLevel fuel levelNum e e' :
  startLevel fuel levelNum e = Some e' -> hasLevel e'.
Proof.
  unfold startLevel. destruct (Levels.generateLevel fuel levelNum); [|discriminate].
  intros [= <-] _. split; discriminate.
Qed.

Lemma hasLevel_step fuel ev e e' :
  hasLevel e -> step fuel ev e = Some e' -> hasLevel e'.
Proof.
  intros H. destruct ev as [deltaTime rolls|key|key|x y|width height]; cbn [step].
  - intros Hs. destruct (update_cases _ _ _ _ _ Hs) as (e1 & H1 & ->).
    apply (hasLevel_Keeps e1); [apply Keeps_effects|].
    destruct (running e); [|injection H1 as <-; exact H].
    destruct (updateGameplay_cases _ _ _ _ _ H1)
      as [[_ ->]|(lc & rng & nb & notes & c & rng' & Hc & Hr & _ & ->)]; [exact H|].
    unfold closeFrame. destruct (10 <=? _).
    + apply hasLevel_idle. change (screenOf (endLevel ?x)) with Results. discriminate.
    + intros _.
      rewrite (keeps_levelConfig _ _ (Keeps_settled _ _ _)),
        (keeps_levelRng _ _ (Keeps_settled _ _ _)).
      cbn. rewrite Hc. split; discriminate.
  - unfold handleKeyDown. cbv zeta.
    destruct (GameState.rebindingLane (state e)) as [lane|].
    { destruct (negb _); intros [= <-]; exact H. }
    fold (screenOf e). destruct (screenOf e) eqn:Es.
    + destruct (String.eqb key " ").
      { apply hasLevel_startLevel. }
      destruct (_ || _); [intros [= <-]; apply hasLevel_idle; unfold screenOf in *; cbn; congruence|].
      destruct (_ || _); intros [= <-]; apply hasLevel_idle; unfold screenOf in *; cbn; congruence.
    + intros [= <-].
      match goal with |- hasLevel (if _ then modify_state _ ?x else ?x) =>
        assert (Hx : hasLevel x) end.
      { destruct (indexOf _ _) as [laneIndex|]; [|exact H].
        destruct (nth_error _ laneIndex) as [lane|]; [|exact H].
        destruct (negb _); [|exact H].
        eapply hasLevel_Keeps; [apply Keeps_tryHitNote|]. exact H. }
      destruct (String.eqb key "Escape"); exact Hx.
    + intros [= <-]. apply hasLevel_idle. unfold screenOf in *.
      destruct (String.eqb key " "); cbn; congruence.
  - intros [= <-]. unfold handleKeyUp. cbv zeta.
    destruct (indexOf _ _); exact H.
  - unfold handleClick. fold (screenOf e). destruct (screenOf e) eqn:Es.
    + unfold handleMenuClick. cbv zeta.
      destruct (_ && _); [apply hasLevel_startLevel|].
      destruct (_ && _); [intros [= <-]; apply hasLevel_idle; unfold screenOf in *; cbn; congruence|].
      destruct (_ && _); [intros [= <-]; apply hasLevel_idle; unfold screenOf in *; cbn; congruence|].
      destruct (buttonAt _ _ _ _).
      { intros [= <-]. apply hasLevel_idle. unfold purchase, screenOf in *.
        destruct (nth_error _ _); [|congruence].
        destruct (_ <? _); [|congruence]. destruct (_ <=? _); cbn; congruence. }
      destruct (buttonAt _ _ _ _); intros [= <-]; apply hasLevel_idle; unfold screenOf in *; cbn; congruence.
    + intros [= <-]. exact H.
    + intros [= <-]. apply hasLevel_idle. cbn. discriminate.
  - intros [= <-]. exact H.
Qed.

(** The engines reached from a newly constructed one. *)
Definition reachable (fuel : nat) (e : Engine.t) : Prop :=
  exists width height evs, run fuel evs (create width height) = Some e.

Lemma hasLevel_run fuel evs : forall e e',
  hasLevel e -> run fuel evs e = Some e' -> hasLevel e'.
Proof.
  induction evs as [|ev evs IH]; intros e e' H; cbn [run].
  - now intros [= <-].
  - destruct (step fuel ev e) as [e1|] eqn:Es; [|discriminate].
    apply IH. eapply hasLevel_step; eassumption.
Qed.

Lemma hasLevel_reachable fuel e : reachable fuel e -> hasLevel e.
Proof.
  intros (w & h & evs & Hr). apply (hasLevel_run fuel evs (create w h)); [|exact Hr].
  apply hasLevel_idle. cbn. discriminate.
Qed.

(** C10.  From the playing screen an event leads to the results screen
    exactly when it is a frame of the unpaused level after which the miss
    counter is at least 10; otherwise the screen is still the playing one.
    Neither the game time nor the level's duration takes part; and after
    any sequence of events, while the miss counter is below 10 the engine
    is on the playing screen. *)
Theorem level_ends_on_misses (fuel : nat) (e : Engine.t) :
  screenOf e = Playing ->
  (forall ev e',
      step fuel ev e = Some e' ->
      (screenOf e' = Results <->
         (exists deltaTime rolls, ev = Frame deltaTime rolls)
         /\ GameState.isPaused (state e) = false
         /\ currentLevelConfig e <> None /\ levelRng e <> None
         /\ 10 <= missesOf e')
      /\ (reachable fuel e ->
          (screenOf e' = Results <->
             (exists deltaTime rolls, ev = Frame deltaTime rolls)
             /\ GameState.isPaused (state e) = false
             /\ 10 <= missesOf e'))
      /\ (screenOf e' = Playing \/ screenOf e' = Results)
      /\ (missesOf e' < 10 -> screenOf e' = Playing))
  /\ (forall evs e',
        run fuel evs e = Some e' -> missesOf e' < 10 -> screenOf e' = Playing).
Proof.
  intros Hp. split.
  - intros ev e' Hs.
    destruct (leave_playing fuel ev e e' Hp Hs) as (Hiff & Hor & Hlt).
    split; [exact Hiff|]. split; [|split; assumption].
    intros Hreach. destruct (hasLevel_reachable fuel e Hreach Hp) as [Hc Hr].
    rewrite Hiff. tauto.
  - intros evs e' Hr Hlt.
    destruct (playing_or_missed fuel evs e e' (or_introl Hp) Hr) as [H|H];
      [exact H | lia].
Qed.

End StepFacts.

(* ------------------------------------------------------------------------- *)
(** ** Sample engines *)

Module Samples.
Import Engine EngineFacts.

(** Level 1 just started on an 800 x 600 canvas. *)
Definition started : Engine.t :=
  Eval vm_compute in
    match startLevel 8 1 (create 800 600) with
    | Some e => e
    | None => create 800 600
    end.

(** The same level at game time 100, far beyond its duration of 22 s, with
    the next beat out of reach and [misses] misses so far. *)
Definition late (misses : Z) (notes : list Note.t) : Engine.t :=
  set_nextBeatTime 1000
    (modify_state
       (fun s => GameState.set_notes notes
                   (GameState.set_score (ScoreState.mk 0 0 0 0 0 misses)
                      (GameState.set_gameTime 100 s)))
       started).

(** A note of lane 0 at height [y]. *)
Definition noteAt (id : Z) (y : Q) (hit missed : bool) : Note.t :=
  Note.mk id 0 Normal 90 91 y hit missed (if hit then Some Perfect else None).

Definition tick : Event := Frame (1 # 10) (fun _ => 1 # 2).

End Samples.

Module StepWitness.
Import Engine EngineFacts UpdateFacts StepFacts Samples.

(** One frame later, with 3 misses and with the tenth miss. *)
Definition lateNext : Engine.t :=
  Eval vm_compute in
    match step 8 tick (late 3 []) with Some e => e | None => late 3 [] end.

Definition lastMiss : Engine.t :=
  Eval vm_compute in
    match step 8 tick (late 9 [noteAt 0 0 false false]) with
    | Some e => e
    | None => late 9 []
    end.

Lemma level_ends_on_misses_witness :
  screenOf (late 3 []) = Playing
  /\ step 8 tick (late 3 []) = Some lateNext
  /\ screenOf lateNext = Playing
  /\ (22 < GameState.gameTime (state lateNext))%Q
  /\ step 8 tick (late 9 [noteAt 0 0 false false]) = Some lastMiss
  /\ missesOf lastMiss = 10
  /\ screenOf lastMiss = Results.
Proof.
  assert (E3 : step 8 tick (late 3 []) = Some lateNext) by (vm_compute; reflexivity).
  assert (E9 : step 8 tick (late 9 [noteAt 0 0 false false]) = Some lastMiss)
    by (vm_compute; reflexivity).
  split; [reflexivity|]. split; [exact E3|].
  split.
  { destruct (proj1 (level_ends_on_misses 8 (late 3 []) eq_refl) tick lateNext E3)
      as (_ & _ & _ & Hlt).
    apply Hlt. vm_compute. reflexivity. }
  split; [vm_compute; reflexivity|]. split; [exact E9|].
  split; [vm_compute; reflexivity|].
  destruct (proj1 (level_ends_on_misses 8 (late 9 [noteAt 0 0 false false]) eq_refl)
                  tick lastMiss E9) as (Hiff & _).
  apply Hiff.
  split; [unfold tick; eauto|].
  split; [reflexivity|].
  split; [intros H; inversion H|].
  split; [intros H; inversion H|].
  vm_compute. intros H; inversion H.
Defined.

Lemma tryHitNote_judgement_witness :
  let n30 := noteAt 0 540 false false in
  let n80 := noteAt 1 430 false false in
  let e2 := late 0 [n30; n80] in
  let e1 := late 0 [n80] in
  (distance (getHitLineY e2) n30 == 30)%Q
  /\ (distance (getHitLineY e2) n80 == 80)%Q
  /\ (effectiveWindow e2 == 150)%Q
  /\ notesOf (tryHitNote 0 e2)
     = [judged (config e2) (distance (getHitLineY e2) n30) n30; n80]
  /\ rate (config e2) (distance (getHitLineY e2) n30) = Perfect
  /\ notesOf (tryHitNote 0 e1)
     = [judged (config e1) (distance (getHitLineY e1) n80) n80]
  /\ rate (config e1) (distance (getHitLineY e1) n80) = Great.
Proof.
  cbv zeta.
  set (n30 := noteAt 0 540 false false). set (n80 := noteAt 1 430 false false).
  destruct (tryHitNote_judgement 0 (late 0 [n30; n80])) as (_ & _ & _ & _ & _ & H2).
  destruct (tryHitNote_judgement 0 (late 0 [n80])) as (_ & _ & _ & _ & _ & H1).
  assert (C30 : candidate 0 n30) by (repeat split).
  assert (C80 : candidate 0 n80) by (repeat split).
  assert (D30 : (distance (getHitLineY (late 0 [n30; n80])) n30 == 30)%Q)
    by (vm_compute; reflexivity).
  assert (D80 : (distance (getHitLineY (late 0 [n30; n80])) n80 == 80)%Q)
    by (vm_compute; reflexivity).
  assert (W : (effectiveWindow (late 0 [n30; n80]) == 150)%Q)
    by (vm_compute; reflexivity).
  assert (W80 : (80 < effectiveWindow (late 0 [n30; n80]))%Q)
    by (vm_compute; reflexivity).
  specialize (H2 eq_refl W80 n30 n80 C30 C80 D30 D80).
  specialize (H1 eq_refl W80 n30 n80 C30 C80 D30 D80).
  destruct H2 as (Ha & _ & _ & Hp & _). destruct H1 as (_ & _ & Hb & _ & Hg).
  split; [exact D30|]. split; [exact D80|]. split; [exact W|].
  split; [apply Ha; reflexivity|]. split; [exact Hp|].
  split; [apply Hb; reflexivity | exact Hg].
Defined.

End StepWitness.

(* ------------------------------------------------------------------------- *)
(** ** Cleaning up old notes *)

Module CleanUpFacts.
Import QBool QBoolFacts JSArray Engine EngineFacts UpdateFacts StepFacts Samples.

Lemma In_updateAt_other {A} (f : A -> A) (n : A) (l : list A) : forall i,
  In n l ->
  (forall m, nth_error l i = Some m -> m <> n) ->
  In n (updateAt i f l).
Proof.
  induction l as [|a l IH]; intros i Hin Hne; [contradiction|].
  destruct i as [|i]; cbn [updateAt].
  - destruct Hin as [->|Hin]; [|now right].
    exfalso. now apply (Hne n).
  - destruct Hin as [->|Hin]; [now left|]. right. apply IH; [exact Hin|].
    intros m Hm. apply Hne. exact Hm.
Qed.

Lemma nth_error_updateAt {A} (f : A -> A) (l : list A) : forall i m,
  nth_error l i = Some m -> nth_error (updateAt i f l) i = Some (f m).
Proof.
  induction l as [|a l IH]; intros [|i] m H; cbn in *; try discriminate.
  - now injection H as <-.
  - now apply IH.
Qed.

(** A resolved note is not touched by the loop over the notes. *)
Lemma moveNote_keeps_resolved speed hitLineY rolls n e k i :
  unresolved n = false ->
  In n (notesOf e) ->
  In n (notesOf (fst (moveNote speed hitLineY rolls (e, k) i))).
Proof.
  intros Hres Hin.
  destruct (moveNote_cases speed hitLineY rolls e k i)
    as [->|(note & y & Hn & Hu & [->| ->])]; [exact Hin| |].
  - apply In_updateAt_other; [exact Hin|].
    intros m Hm. fold (notesOf e) in Hm. congruence.
  - rewrite notesOf_missNote. apply In_updateAt_other.
    + apply In_updateAt_other; [exact Hin|].
      intros m Hm. fold (notesOf e) in Hm. congruence.
    + intros m Hm.
      change (notesOf (updNote i (Note.set_y y) e))
        with (updateAt i (Note.set_y y) (notesOf e)) in Hm.
      rewrite (nth_error_updateAt _ _ _ _ Hn) in Hm. injection Hm as <-.
      intros <-. unfold unresolved in *. cbn in Hres. congruence.
Qed.

Lemma settled_keeps_resolved rolls b n e :
  unresolved n = false ->
  (Note.y n < canvasHeight e + 50)%Q ->
  In n (notesOf e) ->
  In n (notesOf (settled rolls b e)).
Proof.
  intros Hres Hy Hin. unfold settled.
  assert (Hin' : In n (notesOf (fst (moveNotes (effectiveSpeed e) (getHitLineY e) rolls e)))).
  { apply (moveNotes_preserves (fun x => In n (notesOf x))); [|exact Hin].
    intros e1 k i H. now apply moveNote_keeps_resolved. }
  pose proof (keeps_canvas _ _ (Keeps_moveNotes (effectiveSpeed e) (getHitLineY e) rolls e))
    as Hc.
  set (e2 := fst (moveNotes _ _ _ e)) in *.
  assert (Hclean : In n (notesOf (cleanUp e2))).
  { unfold cleanUp, notesOf. cbn. apply filter_In. split; [exact Hin'|].
    apply ltb_lt. rewrite Hc. exact Hy. }
  unfold pulseOnBeat. destruct (ltb _ _); exact Hclean.
Qed.

Lemma update_keeps_resolved fuel deltaTime rolls n e e' :
  update fuel deltaTime rolls e = Some e' ->
  unresolved n = false ->
  (Note.y n < canvasHeight e + 50)%Q ->
  In n (notesOf e) ->
  In n (notesOf e') /\ canvasHeight e' = canvasHeight e.
Proof.
  intros Hu Hres Hy Hin.
  destruct (update_cases _ _ _ _ _ Hu) as (e1 & H1 & ->).
  rewrite notesOf_effects, (keeps_canvas _ _ (Keeps_effects deltaTime e1)).
  destruct (running e); [|injection H1 as <-; auto].
  destruct (updateGameplay_cases _ _ _ _ _ H1)
    as [[_ ->]|(lc & rng & nb & notes & c & rng' & _ & _ & (added & ->) & ->)]; [auto|].
  set (e1' := spawned deltaTime nb (notesOf e ++ added) c rng' e).
  assert (H2 : In n (notesOf (settled rolls (beatIntervalOf lc) e1'))).
  { apply settled_keeps_resolved; [exact Hres | exact Hy|].
    unfold e1', notesOf. cbn. apply in_or_app. now left. }
  assert (Hc : canvasHeight (settled rolls (beatIntervalOf lc) e1') = canvasHeight e).
  { now rewrite (keeps_canvas _ _ (Keeps_settled _ _ _)). }
  unfold closeFrame. destruct (10 <=? _); [rewrite notesOf_endLevel|]; auto.
Qed.

(** The filter of the clean-up looks at the height only. *)
Lemma cleanUp_by_height n e :
  In n (notesOf (cleanUp e))
  <-> In n (notesOf e) /\ (Note.y n < canvasHeight e + 50)%Q.
Proof.
  unfold cleanUp, notesOf. cbn. rewrite filter_In, ltb_lt. reflexivity.
Qed.

(** A run that consists of frames only. *)
Definition framesOnly (evs : list Event) : Prop :=
  Forall (fun ev => exists deltaTime rolls, ev = Frame deltaTime rolls) evs.

(** C7, what the code does.  A note that was hit or missed at a height
    above the clean-up line (canvas height + 50) stays in the active set
    through any number of frames: only unresolved notes are moved, so the
    filter of the clean-up never reaches it. *)
Theorem resolved_note_never_collected (fuel : nat) (evs : list Event)
    (n : Note.t) (e e' : Engine.t) :
  framesOnly evs ->
  run fuel evs e = Some e' ->
  unresolved n = false ->
  (Note.y n < canvasHeight e + 50)%Q ->
  In n (notesOf e) ->
  In n (notesOf e').
Proof.
  intros Hf. revert e. induction Hf as [|ev evs (deltaTime & rolls & ->) _ IH];
    intros e Hr Hres Hy Hin; cbn [run] in Hr.
  - now injection Hr as <-.
  - cbn [step] in Hr.
    destruct (update fuel deltaTime rolls e) as [e1|] eqn:Eu; [|discriminate].
    destruct (update_keeps_resolved _ _ _ n _ _ Eu Hres Hy Hin) as [Hin1 Hc].
    apply (IH e1 Hr Hres); [now rewrite Hc | exact Hin1].
Qed.

(** A note hit exactly on the hit line of a 600 pixel canvas. *)
Definition hitOnLine : Note.t := noteAt 0 510 true false.

(** Forty frames, four seconds, after the hit. *)
Definition fourSecondsLater : Engine.t :=
  Eval vm_compute in
    match run 8 (repeat tick 40) (late 0 [hitOnLine]) with
    | Some e => e
    | None => late 0 []
    end.

Lemma resolved_note_never_collected_witness :
  run 8 (repeat tick 40) (late 0 [hitOnLine]) = Some fourSecondsLater
  /\ (GameState.gameTime (state fourSecondsLater) == 104)%Q
  /\ In hitOnLine (notesOf fourSecondsLater).
Proof.
  assert (E : run 8 (repeat tick 40) (late 0 [hitOnLine]) = Some fourSecondsLater)
    by (vm_compute; reflexivity).
  split; [exact E|]. split; [vm_compute; reflexivity|].
  apply (resolved_note_never_collected 8 (repeat tick 40) hitOnLine
           (late 0 [hitOnLine]) fourSecondsLater).
  - apply Forall_forall. intros ev Hev. apply repeat_spec in Hev.
    exists (1 # 10)%Q, (fun _ => (1 # 2)%Q). exact Hev.
  - exact E.
  - reflexivity.
  - vm_compute. reflexivity.
  - left. reflexivity.
Defined.

(** The same in play from the start: level 1 is started, the first note
    (lane 3, key K) is hit after 48 frames, and 40 frames later the hit note
    is still in the active set, at the height where it was hit. *)
Definition inPlay : Engine.t :=
  Eval vm_compute in
    match run 8 (KeyDown " " :: repeat tick 48 ++ KeyDown "k" :: repeat tick 40)
              (create 800 600) with
    | Some e => e
    | None => create 800 600
    end.

Lemma hit_note_stays_in_play :
  run 8 (KeyDown " " :: repeat tick 48 ++ KeyDown "k" :: repeat tick 40)
      (create 800 600) = Some inPlay
  /\ screenOf inPlay = Playing
  /\ (GameState.gameTime (state inPlay) == 68 # 10)%Q
  /\ exists n, nth_error (notesOf inPlay) 0 = Some n
               /\ Note.id n = 0 /\ Note.hit n = true
               /\ Note.rating n = Some Perfect
               /\ (Note.y n < getHitLineY inPlay)%Q.
Proof.
  split; [vm_compute; reflexivity|].
  split; [reflexivity|]. split; [vm_compute; reflexivity|].
  eexists. split; [reflexivity|].
  split; [reflexivity|]. split; [reflexivity|]. split; [reflexivity|].
  vm_compute. reflexivity.
Qed.

End CleanUpFacts.

(* ------------------------------------------------------------------------- *)
(** ** Pre-generated patterns and live spawning *)

Module SpawnFacts.
Import QBool QBoolFacts JSArray Engine EngineFacts UpdateFacts StepFacts Samples.

(** A note to play: the time at which it is to be hit, and its lane. *)
Definition Key : Type := (Q * Z)%type.

(** The keys of a pattern list, at absolute times. *)
Definition patternKeys (duration : Q) (patterns : list NotePattern.t) : list Key :=
  flat_map (fun p => map (fun l => ((NotePattern.time p * duration)%Q, l))
                         (NotePattern.lanes p))
           patterns.

(** The keys of the notes spawned. *)
Definition noteKeys (notes : list Note.t) : list Key :=
  map (fun n => (Note.hitTime n, Note.lane n)) notes.

Definition sameKey (a b : Key) : Prop := (fst a == fst b)%Q /\ snd a = snd b.

Definition keyIn (k : Key) (ks : list Key) : bool :=
  existsb (fun k' => Qeq_bool (fst k) (fst k') && (snd k =? snd k')) ks.

Section Beat.
Variables (fuel : nat) (bpm duration : Z) (difficulty travelTime : Q).
Variables (beat counter : Z).

Let beatDuration : Q := (60 / inject_Z bpm)%Q.
Let time : Q := (inject_Z beat * beatDuration / inject_Z duration)%Q.

Hypothesis duration_pos : 0 < duration.
Hypothesis after_warmup : 4 <= beat.
Hypothesis no_triplets : gtb difficulty 2 = false.
Hypothesis before_cutoff :
  ltb (time + (5 # 10) * beatDuration / inject_Z duration)%Q (95 # 100) = true.

Lemma main_time : (time * inject_Z duration == inject_Z beat * beatDuration)%Q.
Proof.
  unfold time. generalize beatDuration as b. intros b. field. intros H.
  unfold Qeq in H. cbn in H. lia.
Qed.

Lemma off_time :
  ((time + (5 # 10) * beatDuration / inject_Z duration) * inject_Z duration
   == inject_Z beat * beatDuration + beatDuration / 2)%Q.
Proof.
  unfold time. generalize beatDuration as b. intros b. field. intros H.
  unfold Qeq in H. cbn in H. lia.
Qed.

Definition keysAgree (patterns : list NotePattern.t) (nc : list Note.t * Z) : Prop :=
  Forall2 sameKey (patternKeys (inject_Z duration) patterns) (noteKeys (fst nc)).

Lemma noteKeys_pushNotes lanes spawnTime hitTime nc :
  noteKeys (fst (pushNotes lanes spawnTime hitTime nc))
  = noteKeys (fst nc) ++ map (fun l => (hitTime, l)) lanes.
Proof.
  unfold pushNotes. revert nc.
  induction lanes as [|l lanes IH]; intros nc; cbn [fold_left map].
  - now rewrite app_nil_r.
  - rewrite IH. cbn [fst snd]. unfold noteKeys at 1. rewrite map_app.
    cbn [map newNote Note.hitTime Note.lane]. rewrite <- app_assoc. reflexivity.
Qed.

Lemma keysAgree_push patterns nc t lanes spawnTime hitTime :
  keysAgree patterns nc ->
  (t * inject_Z duration == hitTime)%Q ->
  keysAgree (Levels.push patterns (NotePattern.mk t lanes Normal))
            (pushNotes lanes spawnTime hitTime nc).
Proof.
  intros H Ht. unfold keysAgree, Levels.push, patternKeys in *.
  rewrite noteKeys_pushNotes, flat_map_app. apply Forall2_app; [exact H|].
  cbn [flat_map NotePattern.time NotePattern.lanes]. rewrite app_nil_r.
  induction lanes as [|l lanes IH]; cbn [map]; constructor; [|exact IH].
  split; [exact Ht | reflexivity].
Qed.

(** From the same generator state, the body of the pre-generating loop
    and the body of the live loop draw the same numbers and emit the same
    keys. *)
Lemma beat_agreement :
  GenFacts.sim keysAgree
    (Levels.beatBody fuel beatDuration (inject_Z duration) difficulty beat [])
    (spawnBeat fuel difficulty beatDuration travelTime
               (inject_Z beat * beatDuration)%Q ([], counter)).
Proof.
  unfold Levels.beatBody, spawnBeat.
  destruct (Z.ltb_spec beat 4) as [?|_]; [lia|].
  rewrite no_triplets. fold time.
  eapply GenFacts.sim_bind; [apply GenFacts.sim_same|]. intros v ? <-.
  apply GenFacts.sim_bind with (P := keysAgree).
  - change (Levels.baseNoteChance difficulty) with (noteChance difficulty).
    destruct (ltb v (noteChance difficulty)).
    + eapply GenFacts.sim_bind; [apply GenFacts.sim_same|]. intros first ? <-.
      eapply GenFacts.sim_bind; [apply GenFacts.sim_same|]. intros d ? <-.
      eapply GenFacts.sim_bind; [apply GenFacts.sim_same|]. intros lanes ? <-.
      apply GenFacts.sim_ret. apply keysAgree_push; [constructor | apply main_time].
    + apply GenFacts.sim_ret. constructor.
  - intros patterns nc Hagree.
    eapply GenFacts.sim_bind; [apply GenFacts.sim_same|]. intros o ? <-.
    apply GenFacts.sim_bind_ret.
    change (Levels.offBeatChance difficulty) with (offBeatChance difficulty).
    destruct (ltb o (offBeatChance difficulty)).
    + cbv zeta. rewrite before_cutoff.
      eapply GenFacts.sim_bind; [apply GenFacts.sim_same|]. intros l ? <-.
      apply GenFacts.sim_ret. apply keysAgree_push; [exact Hagree | apply off_time].
    + apply GenFacts.sim_ret. exact Hagree.
Qed.

End Beat.

(** C3, as the code has it.  A level start gives the live spawner a
    generator with the seed of [generateLevel], levelNum * 12345, and the
    live chances are the same functions of the difficulty.  Beat by beat
    the two agree: from one generator state, on a beat after the warm-up of a
    level without triplets (difficulty at most 2) and before the cut-off at
    0.95 of the duration, the pre-generating loop and the live loop leave
    the same generator state and emit the same (hit time, lane) pairs, or
    neither returns. *)
Theorem live_spawn_beat_agreement (fuel : nat) (levelNum : Z) (e e' : Engine.t) :
  startLevel fuel levelNum e = Some e' ->
  (exists lvl, Levels.generateLevel fuel levelNum = Some lvl
               /\ currentLevelConfig e' = Some lvl)
  /\ levelRng e' = Some (SeededRandom.mk (Levels.levelSeed levelNum))
  /\ (forall d, noteChance d = Levels.baseNoteChance d
                /\ doubleChance d = Levels.doubleChance d
                /\ offBeatChance d = Levels.offBeatChance d)
  /\ (forall bpm duration difficulty travelTime beat counter,
        0 < duration ->
        4 <= beat ->
        gtb difficulty 2 = false ->
        ltb (inject_Z beat * (60 / inject_Z bpm) / inject_Z duration
             + (5 # 10) * (60 / inject_Z bpm) / inject_Z duration)%Q (95 # 100) = true ->
        GenFacts.sim
          (fun patterns nc =>
             Forall2 sameKey (patternKeys (inject_Z duration) patterns)
                             (noteKeys (fst nc)))
          (Levels.beatBody fuel (60 / inject_Z bpm)%Q (inject_Z duration)
                           difficulty beat [])
          (spawnBeat fuel difficulty (60 / inject_Z bpm)%Q travelTime
                     (inject_Z beat * (60 / inject_Z bpm))%Q ([], counter))).
Proof.
  intros Hs. unfold startLevel in Hs.
  destruct (Levels.generateLevel fuel levelNum) as [lvl|] eqn:El; [|discriminate].
  injection Hs as <-.
  split; [exists lvl; split; reflexivity|].
  split; [reflexivity|].
  split; [intros d; repeat split|].
  intros. now apply beat_agreement.
Qed.

Lemma live_spawn_beat_agreement_witness :
  startLevel 8 1 (create 800 600) = Some started
  /\ levelRng started = Some (SeededRandom.mk 12345)
  /\ GenFacts.sim
       (fun patterns nc =>
          Forall2 sameKey (patternKeys (inject_Z 22) patterns) (noteKeys (fst nc)))
       (Levels.beatBody 8 (60 / inject_Z 85)%Q (inject_Z 22) 1 4 [])
       (spawnBeat 8 1 (60 / inject_Z 85)%Q (51 # 40)
                  (inject_Z 4 * (60 / inject_Z 85))%Q ([], 0)).
Proof.
  assert (Hs : startLevel 8 1 (create 800 600) = Some started) by reflexivity.
  destruct (live_spawn_beat_agreement 8 1 (create 800 600) started Hs)
    as (_ & Hrng & _ & Hbeat).
  split; [exact Hs|]. split; [exact Hrng|].
  apply (Hbeat 85 22 1%Q (51 # 40)%Q 4 0);
    [lia | lia | reflexivity | reflexivity].
Defined.

(** Level 1 after three seconds of play (game time 1). *)
Definition threeSeconds : Engine.t :=
  Eval vm_compute in
    match run 8 (KeyDown " " :: repeat tick 30) (create 800 600) with
    | Some e => e
    | None => create 800 600
    end.

Definition reduced (ks : list Key) : list Key :=
  map (fun k => (Qred (fst k), snd k)) ks.

(** C3, counterexample.  On level 1 the live loop has spawned, three
    seconds into the level, a note of lane 3 to be hit at 48/17 s (beat 4).
    The pattern list of [generateLevel 1] has no note at that time: its first
    pattern is the same draw placed on beat 7, at 84/17 s, because the live
    loop skips beat 0 only and the pre-generating loop the first four. *)
Lemma live_spawn_differs_counterexample :
  run 8 (KeyDown " " :: repeat tick 30) (create 800 600) = Some threeSeconds
  /\ Levels.generateLevel 8 1 = Some LevelsFacts.level1
  /\ currentLevelConfig threeSeconds = Some LevelsFacts.level1
  /\ reduced (noteKeys (notesOf threeSeconds)) = [((48 # 17)%Q, 3)]
  /\ keyIn ((48 # 17)%Q, 3)
           (patternKeys (inject_Z (LevelConfig.duration LevelsFacts.level1))
                        (LevelConfig.patterns LevelsFacts.level1)) = false
  /\ hd_error (reduced (patternKeys (inject_Z (LevelConfig.duration LevelsFacts.level1))
                                    (LevelConfig.patterns LevelsFacts.level1)))
     = Some ((84 # 17)%Q, 3).
Proof.
  split; [vm_compute; reflexivity|].
  split; [vm_compute; reflexivity|].
  split; [vm_compute; reflexivity|].
  split; [vm_compute; reflexivity|].
  split; vm_compute; reflexivity.
Qed.

End SpawnFacts.

(* ------------------------------------------------------------------------- *)
(** ** Loading the persisted progression *)

Module StoreFacts.
Import JS Store.
Local Open Scope exec_scope.

(** [keeps f m]: the statements [m] leave the field [f] as it is, whether
    they complete or raise. *)
Definition keeps {A B} (f : Progress -> A) (m : Exec B) : Prop :=
  forall p, f (snd (m p)) = f p.

Lemma keeps_ret {A B} (f : Progress -> A) (b : B) : keeps f (ret b).
Proof. intros p. reflexivity. Qed.

Lemma keeps_try {A B} (f : Progress -> A) (o : option B) : keeps f (try o).
Proof. intros p. reflexivity. Qed.

Lemma keeps_read {A B} (f : Progress -> A) (g : Progress -> B) : keeps f (read g).
Proof. intros p. reflexivity. Qed.

Lemma keeps_assign {A} (f : Progress -> A) (g : Progress -> Progress) :
  (forall p, f (g p) = f p) -> keeps f (assign g).
Proof. intros H p. apply H. Qed.

Lemma keeps_bind {A B C} (f : Progress -> A) (m : Exec B) (k : B -> Exec C) :
  keeps f m -> (forall b, keeps f (k b)) -> keeps f (bind m k).
Proof.
  intros Hm Hk p. unfold bind. specialize (Hm p).
  destruct (m p) as [[b|] p1]; cbn [snd] in *; [|exact Hm].
  rewrite (Hk b p1). exact Hm.
Qed.

Lemma keeps_forEach {A B} (f : Progress -> A) (items : list B) (body : B -> Exec unit) :
  (forall b, keeps f (body b)) -> keeps f (forEach items body).
Proof.
  intros Hb. induction items as [|b items IH]; cbn [forEach].
  - apply keeps_ret.
  - apply keeps_bind; [apply Hb | intros _; exact IH].
Qed.

Lemma keeps_loadUpgrade {A} (f : Progress -> A) su :
  (forall v p, f (set_upgradeLevels v p) = f p) -> keeps f (loadUpgrade su).
Proof.
  intros H. unfold loadUpgrade.
  apply keeps_bind; [apply keeps_read|]. intros ups.
  destruct ups as [|u ups]; [apply keeps_ret|].
  apply keeps_bind; [apply keeps_try|]. intros id.
  destruct (hasUpgrade id (u :: ups)); [|apply keeps_ret].
  apply keeps_bind; [apply keeps_try|]. intros level.
  apply keeps_assign. intros p. apply H.
Qed.

Lemma keeps_loadMap {A} (f : Progress -> A) data field set :
  (forall v p, f (set v p) = f p) -> keeps f (loadMap data field set).
Proof.
  intros H. unfold loadMap.
  apply keeps_bind; [apply keeps_try|]. intros v.
  destruct (truthy v); [|apply keeps_ret].
  apply keeps_bind; [apply keeps_try|]. intros m.
  apply keeps_assign. intros p. apply H.
Qed.

(** The keybind value of the blob is taken: it is truthy and its [length]
    is the lane count. *)
Definition keybindsAccepted (laneCount : Z) (data : Value) : bool :=
  match prop data "keybinds" with
  | Some kb => truthy kb
               && match prop kb "length" with
                  | Some len => eqNum len (inject_Z laneCount)
                  | None => false
                  end
  | None => false
  end.

Lemma keeps_loadKeybinds {A} (f : Progress -> A) laneCount data :
  keybindsAccepted laneCount data = false -> keeps f (loadKeybinds laneCount data).
Proof.
  intros Hacc. unfold loadKeybinds, keybindsAccepted in *.
  destruct (prop data "keybinds") as [kb|]; [|intros p; reflexivity].
  intros p. unfold bind, try. cbn [fst snd].
  destruct (truthy kb); [|reflexivity].
  destruct (prop kb "length") as [len|]; [|reflexivity].
  cbn [andb] in Hacc. rewrite Hacc. reflexivity.
Qed.

Lemma keeps_bind_some {A B C} (f : Progress -> A) (b : B) (k : B -> Exec C) :
  keeps f (k b) -> keeps f (bind (try (Some b)) k).
Proof. intros H p. apply H. Qed.

(** A field that only [loadKeybinds] assigns is left alone when the keybind
    value of the blob is not taken. *)
Lemma keeps_loadBody_keys {A} (f : Progress -> A) laneCount stored :
  (forall v p, f (set_totalPoints v p) = f p) ->
  (forall v p, f (set_highestLevel v p) = f p) ->
  (forall v p, f (set_upgradeLevels v p) = f p) ->
  (forall v p, f (set_levelHighScores v p) = f p) ->
  (forall v p, f (set_levelMaxCombos v p) = f p) ->
  (forall text data, stored = Item text (Some data) ->
                     keybindsAccepted laneCount data = false) ->
  keeps f (loadBody laneCount stored).
Proof.
  intros H1 H2 H3 H4 H5 Hk. unfold loadBody.
  destruct stored as [|text json]; [apply keeps_ret|].
  destruct (String.eqb text EmptyString); [apply keeps_ret|].
  destruct json as [data|]; [|intros p; reflexivity].
  apply keeps_bind_some.
  apply keeps_bind; [apply keeps_try|]. intros tp.
  apply keeps_bind; [apply keeps_assign; intros p; apply H1|]. intros _.
  apply keeps_bind; [apply keeps_try|]. intros hl.
  apply keeps_bind; [apply keeps_assign; intros p; apply H2|]. intros _.
  apply keeps_bind; [apply keeps_try|]. intros ups.
  apply keeps_bind; [apply keeps_try|]. intros items.
  apply keeps_bind; [apply keeps_forEach; intros su; now apply keeps_loadUpgrade|].
  intros _.
  apply keeps_bind; [now apply keeps_loadMap|]. intros _.
  apply keeps_bind; [now apply keeps_loadMap|]. intros _.
  apply keeps_loadKeybinds. exact (Hk text data eq_refl).
Qed.

Definition isObj (v : Value) : bool :=
  match v with Obj _ => true | _ => false end.

(** A parsed value that is not an object carries no field: on a new engine
    the loader assigns the defaults again, or raises at once on [null]. *)
Lemma loaded_not_object laneCount text v :
  isObj v = false -> loaded laneCount (Item text (Some v)) defaults = defaults.
Proof.
  intros Hv. unfold loaded, loadProgress, catch, loadBody. cbn [snd].
  destruct (String.eqb text EmptyString); [reflexivity|].
  destruct v as [| |b|q|s|items|fields]; try discriminate; vm_compute; reflexivity.
Qed.

(** C9, as the code has it.  [loadProgress] always completes: whatever the
    stored item, no exception leaves it.  An absent item, an empty text and
    a text that is not JSON leave every progression field as it was; so
    does, on a new engine, a JSON text whose value is not an object.  A
    keybind value that is missing or whose length is not the lane count is
    discarded, and the bindings stay. *)
Theorem loadProgress_never_throws (laneCount : Z) (stored : Stored) (p : Progress) :
  fst (loadProgress laneCount stored p) = Some tt
  /\ (stored = NoItem -> loaded laneCount stored p = p)
  /\ (forall json, stored = Item EmptyString json -> loaded laneCount stored p = p)
  /\ (forall text, stored = Item text None -> loaded laneCount stored p = p)
  /\ (forall text v, stored = Item text (Some v) -> isObj v = false ->
                     loaded laneCount stored defaults = defaults)
  /\ (forall text data, stored = Item text (Some data) ->
                        keybindsAccepted laneCount data = false ->
                        keybinds (loaded laneCount stored p) = keybinds p
                        /\ laneKeys (loaded laneCount stored p) = laneKeys p).
Proof.
  split; [reflexivity|].
  split; [intros ->; reflexivity|].
  split; [intros json ->; reflexivity|].
  split.
  { intros text ->. unfold loaded, loadProgress, catch, loadBody. cbn [snd].
    destruct (String.eqb text EmptyString); reflexivity. }
  split; [intros text v -> Hv; now apply loaded_not_object|].
  intros text data -> Hk.
  unfold loaded, loadProgress, catch. cbn [snd].
  split; apply keeps_loadBody_keys; try reflexivity;
    intros t d [= _ <-]; exact Hk.
Qed.

(** The double quote character, and a key of a JSON text. *)
Definition dq : string := String (Ascii.ascii_of_nat 34) EmptyString.
Definition quoted (s : string) : string := (dq ++ s ++ dq)%string.

(** The text {"totalPoints":7,"upgrades":5} and its parse. *)
Definition mismatchedText : string :=
  ("{" ++ quoted "totalPoints" ++ ":7," ++ quoted "upgrades" ++ ":5}")%string.

Definition mismatched : Stored :=
  Item mismatchedText (Some (Obj [("totalPoints"%string, Num 7);
                                  ("upgrades"%string, Num 5)])).

Lemma loadProgress_never_throws_witness :
  fst (loadProgress 4 (Item "not json" None) defaults) = Some tt
  /\ loaded 4 (Item "not json" None) defaults = defaults
  /\ loaded 4 (Item "[1,2,3]" (Some (Arr [Num 1; Num 2; Num 3]))) defaults = defaults
  /\ keybinds (loaded 4 mismatched defaults) = keybinds defaults.
Proof.
  split; [apply (loadProgress_never_throws 4 (Item "not json" None) defaults)|].
  split.
  { apply (loadProgress_never_throws 4 (Item "not json" None) defaults) with
      (text := "not json"%string). reflexivity. }
  split.
  { destruct (loadProgress_never_throws 4
                (Item "[1,2,3]" (Some (Arr [Num 1; Num 2; Num 3]))) defaults)
      as (_ & _ & _ & _ & H & _).
    apply (H "[1,2,3]"%string (Arr [Num 1; Num 2; Num 3])); reflexivity. }
  destruct (loadProgress_never_throws 4 mismatched defaults)
    as (_ & _ & _ & _ & _ & H).
  apply (H mismatchedText
           (Obj [("totalPoints"%string, Num 7); ("upgrades"%string, Num 5)]));
    reflexivity.
Defined.

(** C9, counterexample.  The stored text {"totalPoints":7,"upgrades":5} is
    JSON of another shape: [upgrades] is a number where a list is declared.
    The loader assigns 7 to [totalPoints], then raises on the iteration
    over 5; the handler swallows the exception and the engine is left with
    7 points instead of the default 0. *)
Lemma schema_mismatch_counterexample :
  fst (loadBody 4 mismatched defaults) = None
  /\ fst (loadProgress 4 mismatched defaults) = Some tt
  /\ totalPoints defaults = Num 0
  /\ totalPoints (loaded 4 mismatched defaults) = Num 7
  /\ loaded 4 mismatched defaults <> defaults.
Proof.
  split; [vm_compute; reflexivity|].
  split; [reflexivity|].
  split; [vm_compute; reflexivity|].
  split; [vm_compute; reflexivity|].
  intros H. apply (f_equal totalPoints) in H. vm_compute in H. discriminate.
Qed.

End StoreFacts.

(* ------------------------------------------------------------------------- *)
(** ** Events as sequences of single assignments

    Every handler of the engine is a sequence of assignments to the state.
    [Micro] lists them, each with what the code has established when it is
    executed; [Steps] is a sequence of them.  An invariant of the engine is
    then checked assignment by assignment. *)

Module Atomic.
Import QBool QBoolFacts JSArray Engine EngineFacts UpdateFacts StepFacts.

Definition upgradesOf (e : Engine.t) : list Upgrade.t := GameState.upgrades (state e).
Definition lanesOf (e : Engine.t) : list Lane.t := GameState.lanes (state e).
Definition keybindsOf (e : Engine.t) : list string := GameState.keybinds (state e).
Definition levelOf (e : Engine.t) : Z := GameState.currentLevelNum (state e).
Definition highestOf (e : Engine.t) : Z := GameState.highestLevel (state e).
Definition pointsOf (e : Engine.t) : Z := GameState.totalPoints (state e).
Definition currentScore (e : Engine.t) : Z := ScoreState.current (scoreOf e).

(** The spawning loop of a frame, run on the engine after the game time was
    advanced. *)
Definition spawnFrame (fuel : nat) (levelConfig : LevelConfig.t)
    (rng : SeededRandom.t) (e : Engine.t) :=
  let beatInterval := beatIntervalOf levelConfig in
  let travelTime := (getHitLineY e / effectiveSpeed e)%Q in
  spawnLoop fuel fuel (LevelConfig.difficulty levelConfig) beatInterval travelTime
            (GameState.gameTime (state e) + travelTime + beatInterval)%Q
            (nextBeatTime e) (notesOf e, noteIdCounter e) rng.

(** The points of a hit rated [r], from the combo and the upgrades of [e]. *)
Definition hitPoints (r : HitRating) (e : Engine.t) : Z :=
  JSNumber.floor
    (JSNumber.fmul (JSNumber.fmul (inject_Z (baseScoreOf r))
                                  (ComboState.multiplier (comboOf e)))
                   (scoreMultiplier r e)).

Inductive Micro (fuel : nat) : Engine.t -> Engine.t -> Prop :=
(* notes *)
| a_judge i d n e :
    nth_error (notesOf e) i = Some n -> unresolved n = true ->
    Micro fuel e (updNote i (judged (config e) d) e)
| a_missed i n e :
    nth_error (notesOf e) i = Some n -> unresolved n = true ->
    Micro fuel e (updNote i (fun n => Note.set_rating (Some Miss) (Note.set_missed true n)) e)
| a_y i y n e :
    nth_error (notesOf e) i = Some n -> unresolved n = true ->
    Micro fuel e (updNote i (Note.set_y y) e)
| a_spawn levelConfig rng nextBeat notes counter rng' e :
    currentLevelConfig e = Some levelConfig ->
    levelRng e = Some rng ->
    spawnFrame fuel levelConfig rng e = Some ((nextBeat, (notes, counter)), rng') ->
    Micro fuel e (modify_state (GameState.set_notes notes)
                    (set_nextBeatTime nextBeat
                       (set_noteIdCounter counter (set_levelRng (Some rng') e))))
| a_cleanUp e : Micro fuel e (cleanUp e)
(* score and combo *)
| a_count r e : Micro fuel e (updScore (countRating r) e)
| a_points r e :
    Micro fuel e (updScore (fun sc => ScoreState.set_current
                                        (ScoreState.current sc + hitPoints r e) sc) e)
| a_missCount e :
    Micro fuel e (updScore (fun sc => ScoreState.set_missCount
                                        (ScoreState.missCount sc + 1) sc) e)
| a_display d e : Micro fuel e (updScore (ScoreState.set_display d) e)
| a_bump e : Micro fuel e (updCombo bumpCombo e)
| a_reset e : Micro fuel e (updCombo resetCombo e)
(* lanes and visual effects *)
| a_pressed i b e : Micro fuel e (updLane i (Lane.set_pressed b) e)
| a_hitEffect i v e : Micro fuel e (updLane i (Lane.set_hitEffect v) e)
| a_hitEffects f e :
    Micro fuel e (modify_state
                    (fun s => GameState.set_lanes
                                (map (fun lane => Lane.set_hitEffect (f lane) lane)
                                     (GameState.lanes s)) s) e)
| a_pulse v e : Micro fuel e (modify_state (GameState.set_beatPulse v) e)
(* time, pause and screens *)
| a_time deltaTime e :
    Micro fuel e (modify_state (fun s => GameState.set_gameTime
                                           (GameState.gameTime s + deltaTime)%Q s) e)
| a_pause e :
    screenOf e = Playing ->
    Micro fuel e (modify_state (fun s => GameState.set_isPaused
                                           (negb (GameState.isPaused s)) s) e)
| a_menu e :
    screenOf e = Results -> Micro fuel e (modify_state (GameState.set_screen Menu) e)
(* the end of a level *)
| a_highScore e :
    getOrZero (levelOf e) (GameState.levelHighScores (state e)) < currentScore e ->
    Micro fuel e (modify_state
                    (fun s => GameState.set_levelHighScores
                                (mapSet (levelOf e) (currentScore e)
                                        (GameState.levelHighScores s)) s) e)
| a_maxCombo e :
    getOrZero (levelOf e) (GameState.levelMaxCombos (state e))
    < ComboState.max (comboOf e) ->
    Micro fuel e (modify_state
                    (fun s => GameState.set_levelMaxCombos
                                (mapSet (levelOf e) (ComboState.max (comboOf e))
                                        (GameState.levelMaxCombos s)) s) e)
| a_unlock e :
    highestOf e <= levelOf e -> 1000 * levelOf e <= currentScore e ->
    Micro fuel e (modify_state (GameState.set_highestLevel (levelOf e + 1)) e)
| a_award e :
    Micro fuel e (modify_state
                    (GameState.set_totalPoints (pointsOf e + currentScore e / 10)) e)
| a_results e :
    Micro fuel e (set_currentLevelConfig None
                    (modify_state (GameState.set_screen Results) e))
(* the menu *)
| a_start levelConfig e e' :
    screenOf e = Menu ->
    Levels.generateLevel fuel (levelOf e) = Some levelConfig ->
    startLevel fuel (levelOf e) e = Some e' ->
    Micro fuel e e'
| a_levelUp e : screenOf e = Menu -> Micro fuel e (levelUp e)
| a_levelDown e : screenOf e = Menu -> Micro fuel e (levelDown e)
| a_purchase i upgrade e :
    screenOf e = Menu ->
    nth_error (upgradesOf e) i = Some upgrade ->
    Upgrade.currentLevel upgrade < Upgrade.maxLevel upgrade ->
    getUpgradeCost upgrade <= pointsOf e ->
    Micro fuel e
      (modify_state
         (fun s => GameState.set_upgrades
                     (updateAt i (fun u => Upgrade.set_currentLevel
                                             (Upgrade.currentLevel u + 1) u)
                               (GameState.upgrades s))
                     (GameState.set_totalPoints
                        (GameState.totalPoints s - getUpgradeCost upgrade) s)) e)
(* the key bindings *)
| a_rebind i e :
    screenOf e = Menu -> (i < List.length (keybindsOf e))%nat ->
    Micro fuel e (modify_state (GameState.set_rebindingLane (Some i)) e)
| a_rebound lane key e :
    GameState.rebindingLane (state e) = Some lane ->
    Micro fuel e
      (modify_state (GameState.set_rebindingLane None)
         (updLane lane (Lane.set_key key)
            (modify_state
               (fun s => GameState.set_keybinds
                           (updateAt lane (fun _ => key) (GameState.keybinds s)) s) e)))
| a_cancel e :
    Micro fuel e (modify_state (GameState.set_rebindingLane None) e)
(* the canvas *)
| a_resize width height e : Micro fuel e (resize width height e).

Inductive Steps (fuel : nat) : Engine.t -> Engine.t -> Prop :=
| steps_done e : Steps fuel e e
| steps_next e e1 e2 : Micro fuel e e1 -> Steps fuel e1 e2 -> Steps fuel e e2.

Lemma Steps_trans fuel e1 e2 e3 : Steps fuel e1 e2 -> Steps fuel e2 e3 -> Steps fuel e1 e3.
Proof.
  induction 1 as [|e e1 e2 Hm _ IH]; intros H; [exact H|].
  eapply steps_next; [exact Hm | now apply IH].
Qed.

Lemma Steps_one fuel e e' : Micro fuel e e' -> Steps fuel e e'.
Proof. intros H. eapply steps_next; [exact H | apply steps_done]. Qed.

(** A property kept by every assignment is kept by every sequence. *)
Lemma Steps_invariant fuel (I : Engine.t -> Prop) :
  (forall e e', Micro fuel e e' -> I e -> I e') ->
  forall e e', Steps fuel e e' -> I e -> I e'.
Proof.
  intros Hm e e' Hs. induction Hs as [|e e1 e2 H1 _ IH]; intros HI; [exact HI|].
  apply IH. exact (Hm _ _ H1 HI).
Qed.

(** A preorder that relates the two ends of every assignment relates the
    two ends of every sequence. *)
Lemma Steps_related fuel (R : Engine.t -> Engine.t -> Prop) :
  (forall e, R e e) -> (forall e1 e2 e3, R e1 e2 -> R e2 e3 -> R e1 e3) ->
  (forall e e', Micro fuel e e' -> R e e') ->
  forall e e', Steps fuel e e' -> R e e'.
Proof.
  intros Hrefl Htrans Hm e e' Hs.
  induction Hs as [|e e1 e2 H1 _ IH]; [apply Hrefl|].
  eapply Htrans; [apply Hm; exact H1 | exact IH].
Qed.

(** [resize] moves the lanes: whatever of a lane does not depend on its
    position is as it was. *)
Lemma map_updateAt_setX {B} (g : Lane.t -> B) (x : Q) :
  (forall l, g (Lane.set_x x l) = g l) ->
  forall i l, map g (updateAt i (Lane.set_x x) l) = map g l.
Proof.
  intros Hg i l. revert i. induction l as [|a l IH]; intros [|i]; cbn; try reflexivity.
  - now rewrite Hg.
  - now rewrite IH.
Qed.

Lemma lanes_resize {B} (g : Lane.t -> B) width height e :
  (forall x l, g (Lane.set_x x l) = g l) ->
  map g (lanesOf (resize width height e)) = map g (lanesOf e).
Proof.
  intros Hg. unfold resize, updateLanePositions, lanesOf. cbn.
  generalize (seq 0 (List.length (GameState.lanes (state e)))) as idx.
  generalize (GameState.lanes (state e)) as l.
  intros l idx. revert l. induction idx as [|i idx IH]; intros l; cbn [fold_left].
  - reflexivity.
  - rewrite IH. apply map_updateAt_setX. intros l0. apply Hg.
Qed.

Lemma lanes_resize_length width height e :
  List.length (lanesOf (resize width height e)) = List.length (lanesOf e).
Proof.
  rewrite <- (length_map (fun _ => tt)), (lanes_resize (fun _ => tt)), length_map;
    reflexivity.
Qed.

(** *** The handlers as sequences *)

Ltac next_by c := eapply steps_next; [eapply c; try eassumption; try reflexivity|].

Lemma judge_fuse i r c e :
  updNote i (Note.set_rating (Some r)) (updScore c (updNote i (Note.set_hit true) e))
  = updScore c (updNote i (fun n => Note.set_rating (Some r) (Note.set_hit true n)) e).
Proof.
  unfold updNote, updScore, modify_state, set_state. cbn. do 2 f_equal.
  generalize (GameState.notes (state e)) as l. revert i.
  assert (H : forall (l : list Note.t) i,
             updateAt i (Note.set_rating (Some r)) (updateAt i (Note.set_hit true) l)
             = updateAt i (fun n => Note.set_rating (Some r) (Note.set_hit true n)) l).
  { induction l as [|a l IH]; intros [|i]; cbn; try reflexivity. now rewrite IH. }
  intros i l. unfold GameState.set_notes, GameState.set_score. cbn. now rewrite H.
Qed.

Lemma updLaneAt_Steps fuel laneIndex v e :
  Steps fuel e (updLaneAt laneIndex (Lane.set_hitEffect v) e).
Proof.
  unfold updLaneAt. destruct (0 <=? laneIndex); [|apply steps_done].
  apply Steps_one. apply a_hitEffect.
Qed.

Lemma hitNote_Steps fuel i d n e :
  nth_error (notesOf e) i = Some n -> unresolved n = true ->
  Steps fuel e (hitNote i d e).
Proof.
  intros Hn Hu. unfold hitNote. cbv zeta. rewrite !judge_fuse.
  next_by a_judge. next_by a_count. next_by a_bump.
  next_by (a_points fuel (rate (config e) d)).
  match goal with |- Steps _ ?x (modify_state _ (match ?m with _ => _ end)) =>
    assert (Hm : m = Some (judged (config e) d n))
      by (apply (CleanUpFacts.nth_error_updateAt _ _ _ _ Hn));
    rewrite Hm end.
  eapply Steps_trans; [apply (updLaneAt_Steps fuel (Note.lane (judged (config e) d n)) 1)|].
  apply Steps_one. apply a_pulse.
Qed.

Lemma tryHitNote_Steps fuel laneIndex e : Steps fuel e (tryHitNote laneIndex e).
Proof.
  unfold tryHitNote. cbv zeta.
  destruct (closest _ _ _ _ _ _) as [[i d]|] eqn:E; [|apply updLaneAt_Steps].
  destruct (closest_origin _ _ _ _ _ _ _ _ E) as [?|(n & _ & Hn & Hc & _)];
    [discriminate|].
  rewrite Nat.sub_0_r in Hn. apply (hitNote_Steps fuel i d n); [exact Hn|].
  destruct Hc as (_ & Hh & Hm). unfold unresolved. now rewrite Hh, Hm.
Qed.

Lemma missNote_Steps fuel i roll n e :
  nth_error (notesOf e) i = Some n -> unresolved n = true ->
  Steps fuel e (missNote i roll e).
Proof.
  intros Hn Hu. rewrite missNote_eq. cbv zeta.
  next_by a_missed. next_by a_missCount.
  destruct (ltb roll _); [apply steps_done|].
  apply Steps_one. apply a_reset.
Qed.

Lemma moveNote_Steps fuel speed hitLineY rolls e k i :
  Steps fuel e (fst (moveNote speed hitLineY rolls (e, k) i)).
Proof.
  unfold moveNote. fold (notesOf e).
  destruct (nth_error (notesOf e) i) as [note|] eqn:En; [|apply steps_done].
  destruct (unresolved note) eqn:Eu; [|apply steps_done].
  cbv zeta. destruct (gtb _ _); cbn [fst].
  - next_by a_y.
    eapply (missNote_Steps fuel i _ (Note.set_y _ note)).
    + apply (CleanUpFacts.nth_error_updateAt _ _ _ _ En).
    + exact Eu.
  - apply Steps_one. eapply a_y; eassumption.
Qed.

Lemma moveNotes_Steps fuel speed hitLineY rolls e :
  Steps fuel e (fst (moveNotes speed hitLineY rolls e)).
Proof.
  apply (moveNotes_preserves (Steps fuel e)); [|apply steps_done].
  intros e1 k i H. eapply Steps_trans; [exact H | apply moveNote_Steps].
Qed.

Lemma settled_Steps fuel rolls b e : Steps fuel e (settled rolls b e).
Proof.
  unfold settled.
  eapply Steps_trans; [apply moveNotes_Steps|].
  next_by a_cleanUp.
  unfold pulseOnBeat. destruct (ltb _ _); [|apply steps_done].
  apply Steps_one. apply a_pulse.
Qed.

Lemma endLevel_Steps fuel e : Steps fuel e (endLevel e).
Proof.
  unfold endLevel. cbv zeta.
  destruct (getOrZero _ (GameState.levelHighScores _) <? _) eqn:E1;
    [apply Z.ltb_lt in E1; next_by a_highScore|];
    (destruct (getOrZero _ (GameState.levelMaxCombos _) <? _) eqn:E2;
     [apply Z.ltb_lt in E2; next_by a_maxCombo|]);
    (destruct (_ && _) eqn:E3;
     [apply andb_true_iff in E3; destruct E3 as [E3 E4];
      apply Z.leb_le in E3, E4; next_by a_unlock|]);
    next_by a_award; apply Steps_one; apply a_results.
Qed.

Lemma updateDisplayScore_eq deltaTime e :
  exists d, updateDisplayScore deltaTime e = updScore (ScoreState.set_display d) e.
Proof.
  unfold updateDisplayScore, updScore, modify_state. cbv beta zeta.
  destruct (ltb _ _); eexists; reflexivity.
Qed.

Lemma effects_Steps fuel deltaTime e : Steps fuel e (effects deltaTime e).
Proof.
  unfold effects.
  destruct (updateDisplayScore_eq deltaTime e) as [d ->].
  next_by a_display. next_by a_pulse.
  apply Steps_one.
  apply (a_hitEffects fuel (fun lane => decay 5 deltaTime (Lane.hitEffect lane))).
Qed.

(** A frame of the running level: time, spawning, the loop over the notes,
    the clean-up, the pulse and the end of the level after ten misses. *)
Lemma updateGameplay_Steps fuel deltaTime rolls e e' :
  updateGameplay fuel deltaTime rolls e = Some e' -> Steps fuel e e'.
Proof.
  unfold updateGameplay.
  destruct (currentLevelConfig e) as [levelConfig|] eqn:Ec;
    [|intros [= <-]; apply steps_done].
  destruct (levelRng e) as [rng|] eqn:Er; [|intros [= <-]; apply steps_done].
  cbv zeta.
  destruct (spawnLoop _ _ _ _ _ _ _ _ _) as [[[nextBeat [notes counter]] rng']|] eqn:Es;
    [|discriminate].
  intros H.
  assert (He : e' = closeFrame (settled rolls (beatIntervalOf levelConfig)
                                  (spawned deltaTime nextBeat notes counter rng' e))).
  { unfold closeFrame, settled, missesOf, scoreOf.
    destruct (10 <=? _); injection H as <-; reflexivity. }
  subst e'. clear H.
  next_by a_time.
  eapply steps_next.
  { eapply (a_spawn fuel levelConfig rng nextBeat notes counter rng');
      [exact Ec | exact Er | exact Es]. }
  eapply Steps_trans; [apply settled_Steps|].
  unfold closeFrame. destruct (10 <=? _); [apply endLevel_Steps | apply steps_done].
Qed.

Lemma update_Steps fuel deltaTime rolls e e' :
  update fuel deltaTime rolls e = Some e' -> Steps fuel e e'.
Proof.
  intros Hu. destruct (update_cases _ _ _ _ _ Hu) as (e1 & H1 & ->).
  eapply Steps_trans; [|apply effects_Steps].
  destruct (running e); [|injection H1 as <-; apply steps_done].
  eapply updateGameplay_Steps; eassumption.
Qed.

Lemma startLevel_Steps fuel e e' :
  screenOf e = Menu -> startLevel fuel (levelOf e) e = Some e' -> Steps fuel e e'.
Proof.
  intros Hm Hs. destruct (Levels.generateLevel fuel (levelOf e)) as [lc|] eqn:E.
  - apply Steps_one. eapply a_start; eassumption.
  - unfold startLevel in Hs. rewrite E in Hs. discriminate.
Qed.

Lemma purchase_Steps fuel i e : screenOf e = Menu -> Steps fuel e (purchase i e).
Proof.
  intros Hm. unfold purchase.
  destruct (nth_error _ i) as [upgrade|] eqn:En; [|apply steps_done].
  destruct (_ <? _) eqn:E1; [|apply steps_done].
  destruct (_ <=? _) eqn:E2; [|apply steps_done].
  apply Z.ltb_lt in E1. apply Z.leb_le in E2.
  apply Steps_one. now apply a_purchase.
Qed.

Lemma buttonAt_bound panelX x y n i : buttonAt panelX x y n = Some i -> (i < n)%nat.
Proof.
  unfold buttonAt. intros H. apply find_some in H. destruct H as [H _].
  apply in_seq in H. lia.
Qed.

Lemma handleMenuClick_Steps fuel x y e e' :
  screenOf e = Menu -> handleMenuClick fuel x y e = Some e' -> Steps fuel e e'.
Proof.
  intros Hm. unfold handleMenuClick. cbv zeta.
  destruct (_ && _); [now apply startLevel_Steps|].
  destruct (_ && _); [intros [= <-]; apply Steps_one; now apply a_levelDown|].
  destruct (_ && _); [intros [= <-]; apply Steps_one; now apply a_levelUp|].
  destruct (buttonAt _ _ _ _) as [i|]; [intros [= <-]; now apply purchase_Steps|].
  destruct (buttonAt _ _ _ _) as [i|] eqn:Eb; intros [= <-]; [|apply steps_done].
  apply Steps_one. apply a_rebind; [exact Hm|].
  eapply buttonAt_bound; eassumption.
Qed.

Lemma handleKeyDown_Steps fuel key e e' :
  handleKeyDown fuel key e = Some e' -> Steps fuel e e'.
Proof.
  unfold handleKeyDown. cbv zeta.
  destruct (GameState.rebindingLane (state e)) as [lane|] eqn:Er.
  { destruct (negb _); intros [= <-]; apply Steps_one;
      [now apply a_rebound | apply a_cancel]. }
  fold (screenOf e). destruct (screenOf e) eqn:Es.
  - destruct (String.eqb key " "); [now apply startLevel_Steps|].
    destruct (_ || _); [intros [= <-]; apply Steps_one; now apply a_levelUp|].
    destruct (_ || _); intros [= <-]; [|apply steps_done].
    apply Steps_one; now apply a_levelDown.
  - intros [= <-].
    match goal with |- Steps _ _ (if _ then modify_state _ ?x else ?x) =>
      assert (Hx : Steps fuel e x /\ screenOf x = Playing) end.
    { destruct (indexOf _ _) as [laneIndex|]; [|split; [apply steps_done | exact Es]].
      destruct (nth_error _ laneIndex) as [lane|]; [|split; [apply steps_done | exact Es]].
      destruct (negb _); [|split; [apply steps_done | exact Es]].
      split.
      - next_by a_pressed. apply tryHitNote_Steps.
      - rewrite (keeps_screen _ _ (Keeps_tryHitNote _ _)). exact Es. }
    destruct Hx as [Hx Hp].
    destruct (String.eqb key "Escape"); [|exact Hx].
    eapply Steps_trans; [exact Hx|]. apply Steps_one. now apply a_pause.
  - intros [= <-]. destruct (String.eqb key " "); [|apply steps_done].
    apply Steps_one. now apply a_menu.
Qed.

(** Every event is a sequence of the assignments above. *)
Lemma step_Steps fuel ev e e' : step fuel ev e = Some e' -> Steps fuel e e'.
Proof.
  destruct ev as [deltaTime rolls|key|key|x y|width height]; cbn [step].
  - apply update_Steps.
  - apply handleKeyDown_Steps.
  - intros [= <-]. unfold handleKeyUp. cbv zeta.
    destruct (indexOf _ _); [|apply steps_done].
    apply Steps_one. apply a_pressed.
  - unfold handleClick. fold (screenOf e). destruct (screenOf e) eqn:Es.
    + now apply handleMenuClick_Steps.
    + intros [= <-]. apply steps_done.
    + intros [= <-]. apply Steps_one. now apply a_menu.
  - intros [= <-]. apply Steps_one. apply a_resize.
Qed.

Lemma run_Steps fuel evs : forall e e', run fuel evs e = Some e' -> Steps fuel e e'.
Proof.
  induction evs as [|ev evs IH]; intros e e'; cbn [run].
  - intros [= <-]. apply steps_done.
  - destruct (step fuel ev e) as [e1|] eqn:Es; [|discriminate].
    intros Hr. eapply Steps_trans; [eapply step_Steps; eassumption | now apply IH].
Qed.

End Atomic.

(* ------------------------------------------------------------------------- *)
(** ** Level selection, the combo and the points balance *)

Module ListFacts.
Import JSArray.

Lemma length_updateAt {A} (f : A -> A) (l : list A) : forall i,
  List.length (updateAt i f l) = List.length l.
Proof. induction l as [|a l IH]; intros [|i]; cbn; auto. Qed.

Lemma map_updateAt {A B} (g : A -> B) (f : A -> A) (h : B -> B) (l : list A) :
  (forall a, g (f a) = h (g a)) ->
  forall i, map g (updateAt i f l) = updateAt i h (map g l).
Proof.
  intros H. induction l as [|a l IH]; intros [|i]; cbn; try reflexivity.
  - now rewrite H.
  - now rewrite IH.
Qed.

Lemma map_updateAt_same {A B} (g : A -> B) (f : A -> A) (l : list A) :
  (forall a, g (f a) = g a) ->
  forall i, map g (updateAt i f l) = map g l.
Proof.
  intros H. induction l as [|a l IH]; intros [|i]; cbn; try reflexivity.
  - now rewrite H.
  - now rewrite IH.
Qed.

Lemma Forall_updateAt {A} (P : A -> Prop) (f : A -> A) (l : list A) :
  Forall P l ->
  forall i, (forall a, nth_error l i = Some a -> P a -> P (f a)) ->
            Forall P (updateAt i f l).
Proof.
  induction 1 as [|a l Ha Hl IH]; intros [|i] Hf; cbn; constructor; auto.
Qed.

Lemma nth_error_updateAt_other {A} (f : A -> A) (l : list A) : forall i j,
  i <> j -> nth_error (updateAt i f l) j = nth_error l j.
Proof.
  induction l as [|a l IH]; intros [|i] [|j] H; cbn; try reflexivity.
  - contradiction.
  - apply IH. congruence.
Qed.

Lemma Forall_filter {A} (P : A -> Prop) (t : A -> bool) (l : list A) :
  Forall P l -> Forall P (filter t l).
Proof.
  induction 1 as [|a l Ha Hl IH]; cbn; [constructor|].
  destruct (t a); [constructor|]; assumption.
Qed.

Lemma NoDup_map_filter {A B} (g : A -> B) (t : A -> bool) (l : list A) :
  NoDup (map g l) -> NoDup (map g (filter t l)).
Proof.
  induction l as [|a l IH]; cbn; [auto|].
  intros H. inversion H as [|x xs Hnin Hnd]; subst.
  destruct (t a); cbn; [|now apply IH].
  constructor; [|now apply IH].
  intros Hin. apply Hnin. apply in_map_iff in Hin. destruct Hin as (b & Hb & Hin).
  apply filter_In in Hin. apply in_map_iff. exists b. tauto.
Qed.

Lemma find_map {A} (p : A -> bool) (g : A -> A) (l : list A) :
  (forall a, p (g a) = p a) -> find p (map g l) = option_map g (find p l).
Proof.
  intros H. induction l as [|a l IH]; cbn; [reflexivity|].
  rewrite H. destruct (p a); [reflexivity | exact IH].
Qed.




Lemma updateAt_at {A} (f g : A -> A) (l : list A) : forall i a,
  nth_error l i = Some a -> f a = g a -> updateAt i f l = updateAt i g l.
Proof.
  induction l as [|b l IH]; intros [|i] a H E; cbn in *; try discriminate.
  - injection H as ->. now rewrite E.
  - f_equal. eapply IH; eassumption.
Qed.

Lemma find_first (test : nat -> bool) (i n : nat) :
  (forall j, (j < i)%nat -> test j = false) -> test i = true -> (i < n)%nat ->
  find test (seq 0 n) = Some i.
Proof.
  intros Hin Hat Hlt.
  assert (Hgen : forall m a, (a <= i)%nat -> (i < a + m)%nat ->
                   find test (seq a m) = Some i).
  { induction m as [|m IH]; intros a Ha Hb; [lia|]. cbn [seq find].
    destruct (Nat.eq_dec a i) as [->|Hne]; [now rewrite Hat|].
    rewrite Hin by lia. apply IH; lia. }
  apply Hgen; lia.
Qed.

End ListFacts.

(** A short session on a new engine: level 1 is started, the first note is
    hit 0.02 s before its hit time with the key of lane 3, and four more
    frames pass. *)
Module Sessions.
Import Engine Samples.

Definition session : list Event :=
  [KeyDown "ArrowUp"; KeyDown " "] ++ repeat tick 48
  ++ [KeyDown "k"; KeyUp "k"] ++ repeat tick 4.

Definition played : Engine.t :=
  Eval vm_compute in
    match run 4 session (create 800 600) with
    | Some e => e
    | None => create 800 600
    end.

Lemma session_played : run 4 session (create 800 600) = Some played.
Proof. vm_compute. reflexivity. Qed.

End Sessions.

Module PlayFacts.
Import QBool QBoolFacts JSArray Engine EngineFacts UpdateFacts StepFacts Atomic ListFacts.

(** The engine that [startLevel] returns for a generated level. *)
Lemma startLevel_fields fuel levelNum e e' :
  startLevel fuel levelNum e = Some e' ->
  levelOf e' = levelNum /\ highestOf e' = highestOf e
  /\ pointsOf e' = pointsOf e /\ upgradesOf e' = upgradesOf e
  /\ config e' = config e
  /\ scoreOf e' = ScoreState.mk 0 0 0 0 0 0
  /\ comboOf e' = ComboState.mk 0 0 1
  /\ notesOf e' = [] /\ noteIdCounter e' = noteIdCounter e
  /\ lanesOf e' = lanesOf e /\ keybindsOf e' = keybindsOf e
  /\ GameState.rebindingLane (state e') = GameState.rebindingLane (state e)
  /\ GameState.levelHighScores (state e') = GameState.levelHighScores (state e)
  /\ GameState.levelMaxCombos (state e') = GameState.levelMaxCombos (state e)
  /\ GameState.gameTime (state e') = (-2)%Q
  /\ screenOf e' = Playing.
Proof.
  unfold startLevel. destruct (Levels.generateLevel fuel levelNum); [|discriminate].
  intros [= <-]. repeat split.
Qed.

(** *** The selected level *)

Definition levelInv (e : Engine.t) : Prop := 1 <= levelOf e <= highestOf e.

Lemma levelInv_micro fuel e e' :
  Micro fuel e e' -> levelInv e -> levelInv e' /\ highestOf e <= highestOf e'.
Proof.
  unfold levelInv.
  destruct 1; intros HI;
    try match goal with
        | H : startLevel _ _ _ = Some _ |- _ =>
            destruct (startLevel_fields _ _ _ _ H) as (-> & -> & _)
        end;
    unfold levelUp, levelDown, cleanUp, levelOf, highestOf in *; cbn; lia.
Qed.

(** *** The combo *)

Definition comboRange (c : ComboState.t) : Prop :=
  0 <= ComboState.current c <= ComboState.max c.

Lemma comboRange_micro fuel e e' :
  Micro fuel e e' ->
  comboRange (comboOf e) /\ comboInv (comboOf e) ->
  comboRange (comboOf e') /\ comboInv (comboOf e').
Proof.
  unfold comboRange.
  destruct 1; intros HI; try exact HI;
    try match goal with
        | H : startLevel _ _ _ = Some _ |- _ =>
            destruct (startLevel_fields _ _ _ _ H) as (_ & _ & _ & _ & _ & _ & -> & _)
        end;
    (split; [unfold comboOf in *; cbn; lia | first [apply comboInv_bump | apply comboInv_reset
                               | apply comboInv_start]]).
Qed.

(** *** The upgrades and the points *)

(** The upgrades are those of the catalog, in its order, up to their levels. *)
Definition catalogInv (e : Engine.t) : Prop :=
  map (Upgrade.set_currentLevel 0) (upgradesOf e)
  = map (Upgrade.set_currentLevel 0) UPGRADE_DEFINITIONS.

Definition levelsInv (e : Engine.t) : Prop :=
  Forall (fun u => 0 <= Upgrade.currentLevel u <= Upgrade.maxLevel u) (upgradesOf e).

Record Economy (e : Engine.t) : Prop := mkEconomy {
  eco_catalog : catalogInv e;
  eco_levels : levelsInv e;
  eco_points : 0 <= pointsOf e;
  eco_score : 0 <= currentScore e;
  eco_combo : comboRange (comboOf e) /\ comboInv (comboOf e) }.

Lemma catalog_effect e u :
  catalogInv e -> In u (upgradesOf e) -> (0 <= Upgrade.effect u)%Q.
Proof.
  intros Hc Hin.
  assert (Hall : Forall (fun u => (0 <= Upgrade.effect u)%Q)
                        (map (Upgrade.set_currentLevel 0) UPGRADE_DEFINITIONS)).
  { repeat constructor; unfold Qle; cbn; lia. }
  rewrite <- Hc in Hall. rewrite Forall_forall in Hall.
  apply (Hall (Upgrade.set_currentLevel 0 u)). now apply in_map.
Qed.

Lemma bonus_nonneg id e b :
  catalogInv e -> levelsInv e -> upgradeBonus id e = Some b -> (0 <= b)%Q.
Proof.
  intros Hc Hl. unfold upgradeBonus, findUpgrade.
  destruct (find _ _) as [u|] eqn:Ef; [|discriminate].
  intros [= <-]. apply find_some in Ef. destruct Ef as [Hin _].
  pose proof (catalog_effect e u Hc Hin) as He.
  unfold levelsInv in Hl. rewrite Forall_forall in Hl. specialize (Hl u Hin).
  apply Qmult_le_0_compat; [|exact He].
  change 0%Q with (inject_Z 0). rewrite <- Zle_Qle. lia.
Qed.

Lemma product_nonneg id e b :
  catalogInv e -> levelsInv e -> upgradeProduct id e = Some b -> (0 <= b)%Q.
Proof.
  intros Hc Hl. unfold upgradeProduct, findUpgrade.
  destruct (find _ _) as [u|] eqn:Ef; [|discriminate].
  intros [= <-]. apply find_some in Ef. destruct Ef as [Hin _].
  pose proof (catalog_effect e u Hc Hin) as He.
  unfold levelsInv in Hl. rewrite Forall_forall in Hl. specialize (Hl u Hin).
  apply DoubleFacts.fmul_nonneg; [|exact He].
  change 0%Q with (inject_Z 0). rewrite <- Zle_Qle. lia.
Qed.

Lemma scoreMultiplier_ge_1 r e :
  catalogInv e -> levelsInv e -> (1 <= scoreMultiplier r e)%Q.
Proof.
  intros Hc Hl. unfold scoreMultiplier.
  pose proof (product_nonneg "multiplier" e) as H1.
  pose proof (product_nonneg "perfect_bonus" e) as H2.
  assert (Hm : (1 <= match upgradeProduct "multiplier" e with
                     | Some b => JSNumber.fadd 1 b
                     | None => 1
                     end)%Q).
  { destruct (upgradeProduct "multiplier" e) as [b1|]; [|apply Qle_refl].
    apply DoubleFacts.fadd_ge_1; [apply Qle_refl | exact (H1 b1 Hc Hl eq_refl)]. }
  destruct r; try exact Hm.
  destruct (upgradeProduct "perfect_bonus" e) as [b2|]; [|exact Hm].
  apply DoubleFacts.fadd_ge_1; [exact Hm | exact (H2 b2 Hc Hl eq_refl)].
Qed.

Lemma comboMultiplier_ge_1 c :
  comboRange c -> comboInv c -> (1 <= ComboState.multiplier c)%Q.
Proof.
  intros [H0 _] Hi. unfold comboInv, comboMultiplier in Hi. rewrite Hi.
  apply DoubleFacts.fadd_ge_1; [apply Qle_refl|].
  apply DoubleFacts.fmul_nonneg; [|unfold Qle; cbn; lia].
  change 0%Q with (inject_Z 0). rewrite <- Zle_Qle. apply Z.div_pos; lia.
Qed.

(** A hit is worth at least the base score of its rating. *)
Lemma hitPoints_lower r e :
  catalogInv e -> levelsInv e -> comboRange (comboOf e) -> comboInv (comboOf e) ->
  baseScoreOf r <= hitPoints r e.
Proof.
  intros Hc Hl Hr Hi. unfold hitPoints, JSNumber.floor.
  pose proof (scoreMultiplier_ge_1 r e Hc Hl) as Hs.
  pose proof (comboMultiplier_ge_1 _ Hr Hi) as Hm.
  rewrite <- (Qfloor_Z (baseScoreOf r)) at 1. apply Qfloor_resp_le.
  assert (Hb : (0 < baseScoreOf r <= 2 ^ 53)%Z) by (destruct r; cbn; lia).
  apply (DoubleFacts.fmul_ge _ _ _ Hb); [|exact Hs].
  apply (DoubleFacts.fmul_ge _ _ _ Hb); [apply Qle_refl | exact Hm].
Qed.

Lemma Economy_micro fuel e e' : Micro fuel e e' -> Economy e -> Economy e'.
Proof.
  intros Hm [Hc Hl Hp Hs Hcombo].
  pose proof (comboRange_micro fuel e e' Hm Hcombo) as Hcombo'.
  destruct Hm;
    try match goal with
        | H : startLevel _ _ _ = Some _ |- _ =>
            destruct (startLevel_fields _ _ _ _ H)
              as (_ & _ & Hp' & Hu' & _ & Hs' & _);
            constructor;
            [unfold catalogInv; now rewrite Hu'
            |unfold levelsInv; now rewrite Hu'
            |now rewrite Hp'
            |unfold currentScore; rewrite Hs'; cbn; lia
            |exact Hcombo']
        end;
    try (constructor; [exact Hc | exact Hl | exact Hp | exact Hs | exact Hcombo']).
  all: constructor; try assumption.
  - (* a rating counter *)
    unfold currentScore, scoreOf in *. cbn. destruct r; exact Hs.
  - (* the points of a hit *)
    pose proof (hitPoints_lower r e Hc Hl (proj1 Hcombo) (proj2 Hcombo)) as Hh.
    unfold currentScore, scoreOf in *.
    generalize dependent (hitPoints r e). intros points Hh. cbn.
    assert (0 <= baseScoreOf r) by (destruct r; cbn; lia). lia.
  - (* the award *)
    unfold pointsOf, currentScore in *. cbn.
    assert (0 <= ScoreState.current (scoreOf e) / 10) by (apply Z.div_pos; lia). lia.
  - (* a purchase: the catalog *)
    unfold catalogInv, upgradesOf in *. cbn.
    rewrite map_updateAt_same; [exact Hc | reflexivity].
  - (* a purchase: the levels *)
    unfold levelsInv, upgradesOf in *. cbn.
    apply Forall_updateAt; [exact Hl|].
    intros a Ha _. rewrite Ha in H0. injection H0 as <-.
    rewrite Forall_forall in Hl. specialize (Hl a (nth_error_In _ _ Ha)). cbn. lia.
  - (* a purchase: the points *)
    unfold pointsOf in *. generalize dependent (getUpgradeCost upgrade).
    intros cost Hcost. cbn. lia.
Qed.

Lemma Economy_create width height : Economy (create width height).
Proof.
  constructor.
  - reflexivity.
  - repeat constructor; cbn; lia.
  - cbn. lia.
  - cbn. lia.
  - split; [split; cbn; lia | apply comboInv_start].
Qed.

Lemma Economy_run fuel evs e e' :
  Economy e -> run fuel evs e = Some e' -> Economy e'.
Proof.
  intros HI Hr. apply run_Steps in Hr. revert HI.
  apply (Steps_invariant fuel Economy); [|exact Hr].
  intros e1 e2. apply Economy_micro.
Qed.





End PlayFacts.

(* ------------------------------------------------------------------------- *)
(** ** The notes in play *)

Module NoteFacts.
Import QBool QBoolFacts JSArray Engine EngineFacts UpdateFacts StepFacts Atomic ListFacts
       PlayFacts.

(** *** What the generator draws *)

Lemma post_next : GenFacts.post Gen.next (fun v => (0 <= v < 1)%Q).
Proof.
  intros g v g' [= <- _].
  apply SeededRandomFacts.output_range. apply SeededRandomFacts.advance_range.
Qed.

Lemma floor_lane v : (0 <= v < 1)%Q -> 0 <= JSNumber.floor (v * 4) < 4.
Proof.
  intros [H0 H1]. unfold JSNumber.floor. split.
  - rewrite <- (Qfloor_Z 0). apply Qfloor_resp_le. change (inject_Z 0) with 0%Q. lra.
  - rewrite Zlt_Qlt. apply Qle_lt_trans with (v * 4)%Q; [apply Qfloor_le|].
    change (inject_Z 4) with 4%Q. lra.
Qed.

Lemma post_nextLane : GenFacts.post Gen.nextLane (fun l => 0 <= l < 4).
Proof.
  unfold Gen.nextLane. eapply GenFacts.post_bind; [apply post_next|].
  intros v Hv. apply GenFacts.post_ret. now apply floor_lane.
Qed.

Lemma post_secondLane fuel first :
  GenFacts.post (Gen.secondLane fuel first) (fun l => 0 <= l < 4 /\ l <> first).
Proof.
  induction fuel as [|fuel IH]; cbn [Gen.secondLane]; [apply GenFacts.post_diverge|].
  eapply GenFacts.post_bind; [apply post_nextLane|].
  intros l Hl. destruct (Z.eqb_spec l first) as [E|E]; [exact IH|].
  apply GenFacts.post_ret. auto.
Qed.

(** *** What the spawning loop appends *)

Section Spawning.
(** A property of the notes and the counter that holds again when a new
    note of a lane 0..3 is pushed that is spawned [travelTime] before its
    hit time. *)
Variable travelTime : Q.
Variable P : list Note.t * Z -> Prop.
Hypothesis P_push : forall nc laneIndex hitTime,
  0 <= laneIndex < 4 -> P nc ->
  P (fst nc ++ [newNote (snd nc) laneIndex (hitTime - travelTime)%Q hitTime], snd nc + 1).

Lemma pushNotes_keeps lanes hitTime : forall nc,
  Forall (fun l => 0 <= l < 4) lanes -> P nc ->
  P (pushNotes lanes (hitTime - travelTime)%Q hitTime nc).
Proof.
  unfold pushNotes. induction lanes as [|l lanes IH]; intros nc Hl HP; cbn [fold_left];
    [exact HP|].
  inversion Hl as [|x xs Hx Hxs]; subst. apply IH; [exact Hxs|]. now apply P_push.
Qed.

Lemma spawnBeat_keeps fuel difficulty beatInterval nextBeat nc :
  P nc ->
  GenFacts.post (spawnBeat fuel difficulty beatInterval travelTime nextBeat nc) P.
Proof.
  intros HP. unfold spawnBeat.
  eapply GenFacts.post_bind; [apply GenFacts.post_true|]. intros v _.
  eapply GenFacts.post_bind with (P := P).
  - destruct (ltb v _); [|now apply GenFacts.post_ret].
    eapply GenFacts.post_bind; [apply post_nextLane|]. intros first Hfirst.
    eapply GenFacts.post_bind; [apply GenFacts.post_true|]. intros d _.
    eapply GenFacts.post_bind with (P := Forall (fun l => 0 <= l < 4)).
    + destruct (ltb d _).
      * eapply GenFacts.post_bind; [apply post_secondLane|]. intros second [Hs _].
        apply GenFacts.post_ret. cbv beta in *.
        constructor; [lia|]. constructor; [lia | constructor].
      * apply GenFacts.post_ret. cbv beta in *. constructor; [lia | constructor].
    + intros lanes Hlanes. apply GenFacts.post_ret. now apply pushNotes_keeps.
  - intros nc1 H1.
    eapply GenFacts.post_bind; [apply GenFacts.post_true|]. intros o _.
    destruct (ltb o _); [|now apply GenFacts.post_ret].
    cbv zeta.
    eapply GenFacts.post_bind; [apply post_nextLane|]. intros l Hl.
    apply GenFacts.post_ret. apply pushNotes_keeps; [|exact H1].
    cbv beta in *. constructor; [lia | constructor].
Qed.

Lemma spawnLoop_keeps fuel loopFuel difficulty beatInterval limit :
  forall nextBeat nc,
    P nc ->
    GenFacts.post (spawnLoop fuel loopFuel difficulty beatInterval travelTime limit
                             nextBeat nc)
                  (fun r => P (snd r)).
Proof.
  induction loopFuel as [|loopFuel IH]; intros nextBeat nc HP; cbn [spawnLoop].
  - apply GenFacts.post_diverge.
  - destruct (ltb nextBeat limit); [|now apply GenFacts.post_ret].
    eapply GenFacts.post_bind with (P := P).
    + destruct (gtb nextBeat 0); [now apply spawnBeat_keeps | now apply GenFacts.post_ret].
    + intros nc1 H1. now apply IH.
Qed.

End Spawning.

Lemma spawnFrame_keeps (P : list Note.t * Z -> Prop) fuel levelConfig rng e
    nextBeat notes counter rng' :
  (forall nc laneIndex hitTime,
      0 <= laneIndex < 4 -> P nc ->
      P (fst nc ++ [newNote (snd nc) laneIndex
                            (hitTime - getHitLineY e / effectiveSpeed e)%Q hitTime],
         snd nc + 1)) ->
  spawnFrame fuel levelConfig rng e = Some ((nextBeat, (notes, counter)), rng') ->
  P (notesOf e, noteIdCounter e) -> P (notes, counter).
Proof.
  unfold spawnFrame. cbv zeta. intros Hpush Hs HP.
  exact (spawnLoop_keeps _ P Hpush _ _ _ _ _ _ _ HP _ _ _ Hs).
Qed.

(** *** Identifiers *)

Definition idsOK (nc : list Note.t * Z) : Prop :=
  Forall (fun n => Note.id n < snd nc) (fst nc) /\ NoDup (map Note.id (fst nc)).

Definition idsInv (e : Engine.t) : Prop := idsOK (notesOf e, noteIdCounter e).

Lemma idsOK_push spawnTime nc laneIndex hitTime :
  0 <= laneIndex < 4 -> idsOK nc ->
  idsOK (fst nc ++ [newNote (snd nc) laneIndex spawnTime hitTime], snd nc + 1).
Proof.
  intros _ [Hlt Hnd]. unfold idsOK. cbn [fst snd]. split.
  - apply Forall_app. split.
    + eapply Forall_impl; [|exact Hlt]. cbn. intros n Hn. lia.
    + repeat constructor. cbn. lia.
  - rewrite map_app. cbn [map newNote Note.id].
    apply NoDup_app.
    + exact Hnd.
    + repeat constructor. intros [].
    + intros x Hx [<-|[]]. apply in_map_iff in Hx. destruct Hx as (n & Hid & Hin).
      rewrite Forall_forall in Hlt. specialize (Hlt n Hin). lia.
Qed.

Lemma idsInv_micro fuel e e' : Micro fuel e e' -> idsInv e -> idsInv e'.
Proof.
  unfold idsInv.
  destruct 1; intros HI; try exact HI;
    try match goal with
        | H : startLevel _ _ _ = Some _ |- _ =>
            destruct (startLevel_fields _ _ _ _ H)
              as (_ & _ & _ & _ & _ & _ & _ & -> & _);
            split; constructor
        end;
    try (destruct HI as [Hlt Hnd]; split;
         [apply Forall_updateAt; [exact Hlt | intros a _ Ha; exact Ha]
         |change (notesOf (updNote ?i ?f ?x)) with (updateAt i f (notesOf x)); cbn [fst];
          rewrite map_updateAt_same; [exact Hnd | reflexivity]]).
  - eapply (spawnFrame_keeps idsOK); [|eassumption|eassumption].
    intros nc l h. apply idsOK_push.
  - destruct HI as [Hlt Hnd]. split.
    + now apply Forall_filter.
    + now apply NoDup_map_filter.
Qed.

(** *** Lanes *)

Definition lanesInv (e : Engine.t) : Prop :=
  List.length (lanesOf e) = 4%nat /\ Forall (fun n => 0 <= Note.lane n < 4) (notesOf e).

Lemma lanesInv_micro fuel e e' : Micro fuel e e' -> lanesInv e -> lanesInv e'.
Proof.
  unfold lanesInv.
  destruct 1; intros [Hlen Hl];
    try (split; [exact Hlen | exact Hl]);
    try match goal with
        | H : startLevel _ _ _ = Some _ |- _ =>
            destruct (startLevel_fields _ _ _ _ H)
              as (_ & _ & _ & _ & _ & _ & _ & -> & _ & -> & _);
            split; [exact Hlen | constructor]
        end;
    try (split; [exact Hlen|];
         apply Forall_updateAt; [exact Hl | intros a _ Ha; exact Ha]);
    try (split; [|exact Hl]; unfold lanesOf, updLane; cbn;
         rewrite ?length_updateAt, ?length_map; exact Hlen).
  - split; [exact Hlen|].
    refine (spawnFrame_keeps (fun nc => Forall (fun n => 0 <= Note.lane n < 4) (fst nc))
              _ _ _ _ _ _ _ _ _ H1 Hl).
    intros nc l h Hlane Hall. cbn [fst]. apply Forall_app. split; [exact Hall|].
    repeat constructor; cbn; lia.
  - split; [exact Hlen|]. now apply Forall_filter.
  - split; [rewrite lanes_resize_length; exact Hlen | exact Hl].
Qed.

(** *** Flags and ratings *)

(** An unresolved note has no rating, a hit note one of Perfect, Great and
    Good, a missed note Miss; no note is both hit and missed. *)
Definition noteOK (n : Note.t) : Prop :=
  match Note.rating n with
  | None => Note.hit n = false /\ Note.missed n = false
  | Some Miss => Note.hit n = false /\ Note.missed n = true
  | Some _ => Note.hit n = true /\ Note.missed n = false
  end.

Definition flagsInv (e : Engine.t) : Prop := Forall noteOK (notesOf e).

Lemma unresolved_flags n :
  unresolved n = true -> Note.hit n = false /\ Note.missed n = false.
Proof.
  unfold unresolved. rewrite andb_true_iff, !negb_true_iff. tauto.
Qed.

Lemma flagsInv_micro fuel e e' : Micro fuel e e' -> flagsInv e -> flagsInv e'.
Proof.
  unfold flagsInv.
  destruct 1; intros HI; try exact HI;
    try match goal with
        | H : startLevel _ _ _ = Some _ |- _ =>
            destruct (startLevel_fields _ _ _ _ H)
              as (_ & _ & _ & _ & _ & _ & _ & -> & _);
            constructor
        end.
  - apply Forall_updateAt; [exact HI|]. intros a Ha _. unfold notesOf in *.
    rewrite Ha in H. injection H as <-. apply unresolved_flags in H0.
    unfold noteOK, judged, rate. cbn.
    destruct (leb d _); [tauto|]. destruct (leb d _); tauto.
  - apply Forall_updateAt; [exact HI|]. intros a Ha _. unfold notesOf in *.
    rewrite Ha in H. injection H as <-. apply unresolved_flags in H0.
    unfold noteOK. cbn. tauto.
  - apply Forall_updateAt; [exact HI|]. intros a _ Ha. exact Ha.
  - refine (spawnFrame_keeps (fun nc => Forall noteOK (fst nc))
              _ _ _ _ _ _ _ _ _ H1 HI).
    intros nc l h _ Hall. cbn [fst]. apply Forall_app. split; [exact Hall|].
    repeat constructor.
  - now apply Forall_filter.
Qed.

Lemma counter_micro fuel e e' : Micro fuel e e' -> noteIdCounter e <= noteIdCounter e'.
Proof.
  destruct 1; try (cbn; lia);
    try match goal with
        | H : startLevel _ _ _ = Some _ |- _ =>
            destruct (startLevel_fields _ _ _ _ H)
              as (_ & _ & _ & _ & _ & _ & _ & _ & -> & _); lia
        end.
  refine (spawnFrame_keeps (fun nc => noteIdCounter e <= snd nc)
            _ _ _ _ _ _ _ _ _ H1 _); [|cbn; lia].
    intros nc l h _ Hle. cbn [snd]. lia.
Qed.

(** X3.  Note identifiers are unique: on a new engine, and after any
    sequence of events from an engine where it holds, no two notes in play
    carry the same identifier and every identifier is below the counter
    [noteIdCounter], which never decreases (it is not reset when a level
    starts). *)
Theorem note_ids_unique (fuel : nat) (evs : list Event) (e e' : Engine.t) :
  (forall width height, idsInv (create width height))
  /\ (idsInv e -> run fuel evs e = Some e' ->
      NoDup (map Note.id (notesOf e'))
      /\ Forall (fun n => Note.id n < noteIdCounter e') (notesOf e')
      /\ noteIdCounter e <= noteIdCounter e').
Proof.
  split; [intros w h; split; constructor|].
  intros HI Hr. apply run_Steps in Hr.
  assert (H : idsInv e').
  { revert HI. apply (Steps_invariant fuel idsInv); [|exact Hr].
    intros e1 e2. apply idsInv_micro. }
  destruct H as [Hlt Hnd]. split; [exact Hnd|]. split; [exact Hlt|].
  apply (Steps_related fuel (fun a b => noteIdCounter a <= noteIdCounter b));
    [intros; lia | intros; lia | apply counter_micro | exact Hr].
Qed.

Lemma note_ids_unique_witness :
  NoDup (map Note.id (notesOf Sessions.played))
  /\ map Note.id (notesOf Sessions.played) = [0; 1]
  /\ noteIdCounter Sessions.played = 2.
Proof.
  destruct (note_ids_unique 4 Sessions.session (create 800 600) Sessions.played)
    as [Hnew Hrun].
  destruct (Hrun (Hnew 800%Q 600%Q) Sessions.session_played) as (Hnd & _).
  split; [exact Hnd|]. split; reflexivity.
Defined.

(** X4.  Every note belongs to one of the four lanes: on a new engine,
    and after any sequence of events from an engine with four lanes whose
    notes have lanes 0..3, the engine has four lanes and every note in play
    has a lane index 0..3, so that [state.lanes[note.lane]] is a lane
    wherever the engine or the renderer reads it. *)
Theorem note_lanes_exist (fuel : nat) (evs : list Event) (e e' : Engine.t) :
  (forall width height, lanesInv (create width height))
  /\ (lanesInv e -> run fuel evs e = Some e' ->
      List.length (lanesOf e') = 4%nat
      /\ forall n, In n (notesOf e') ->
                   0 <= Note.lane n < 4
                   /\ exists lane,
                        nth_error (lanesOf e') (Z.to_nat (Note.lane n)) = Some lane).
Proof.
  split; [intros w h; split; [reflexivity | constructor]|].
  intros HI Hr. apply run_Steps in Hr.
  assert (H : lanesInv e').
  { revert HI. apply (Steps_invariant fuel lanesInv); [|exact Hr].
    intros e1 e2. apply lanesInv_micro. }
  destruct H as [Hlen Hl]. split; [exact Hlen|].
  intros n Hin. rewrite Forall_forall in Hl. specialize (Hl n Hin).
  split; [exact Hl|].
  destruct (nth_error (lanesOf e') (Z.to_nat (Note.lane n))) as [lane|] eqn:E;
    [now exists lane|].
  apply nth_error_None in E. lia.
Qed.

Lemma note_lanes_exist_witness :
  List.length (lanesOf Sessions.played) = 4%nat
  /\ map Note.lane (notesOf Sessions.played) = [3; 0].
Proof.
  destruct (note_lanes_exist 4 Sessions.session (create 800 600) Sessions.played)
    as [Hnew Hrun].
  destruct (Hrun (Hnew 800%Q 600%Q) Sessions.session_played) as (Hlen & _).
  split; [exact Hlen | reflexivity].
Defined.

(** X5.  A note is judged at most once and its rating says how: on a
    new engine, and after any sequence of events from an engine where it
    holds, every note in play is either unresolved without a rating, or hit
    and rated Perfect, Great or Good, or missed and rated Miss; no note is
    both hit and missed. *)
Theorem note_flags_consistent (fuel : nat) (evs : list Event) (e e' : Engine.t) :
  (forall width height, flagsInv (create width height))
  /\ (flagsInv e -> run fuel evs e = Some e' ->
      forall n, In n (notesOf e') ->
        noteOK n
        /\ ~ (Note.hit n = true /\ Note.missed n = true)
        /\ (Note.rating n = None <-> unresolved n = true)
        /\ (Note.rating n = Some Miss <-> Note.missed n = true)).
Proof.
  split; [intros w h; constructor|].
  intros HI Hr. apply run_Steps in Hr.
  assert (H : flagsInv e').
  { revert HI. apply (Steps_invariant fuel flagsInv); [|exact Hr].
    intros e1 e2. apply flagsInv_micro. }
  intros n Hin. unfold flagsInv in H. rewrite Forall_forall in H. specialize (H n Hin).
  split; [exact H|].
  unfold noteOK, unresolved in *.
  destruct (Note.rating n) as [[| | |]|], (Note.hit n), (Note.missed n);
    destruct H as [H1 H2]; try discriminate;
    (split; [intros [? ?]; discriminate|]); split; split; intros ?;
    try discriminate; try reflexivity.
Qed.

Lemma note_flags_consistent_witness :
  map Note.rating (notesOf Sessions.played) = [Some Perfect; None]
  /\ Forall noteOK (notesOf Sessions.played).
Proof.
  split; [reflexivity|].
  destruct (note_flags_consistent 4 Sessions.session (create 800 600) Sessions.played)
    as [Hnew Hrun].
  apply Forall_forall. intros n Hin.
  apply (Hrun (Hnew 800%Q 600%Q) Sessions.session_played n Hin).
Defined.

End NoteFacts.

(* ------------------------------------------------------------------------- *)
(** ** Key bindings *)

Module KeyFacts.
Import QBool QBoolFacts JSArray Engine EngineFacts UpdateFacts StepFacts Atomic ListFacts
       PlayFacts.

Definition rebindingOf (e : Engine.t) : option nat := GameState.rebindingLane (state e).

(** The lanes show the bindings, there are four bindings, and a lane that
    is being rebound is one of them. *)
Definition keysInv (e : Engine.t) : Prop :=
  map Lane.key (lanesOf e) = keybindsOf e
  /\ List.length (keybindsOf e) = 4%nat
  /\ forall lane, rebindingOf e = Some lane -> (lane < 4)%nat.

Lemma keysInv_micro fuel e e' : Micro fuel e e' -> keysInv e -> keysInv e'.
Proof.
  unfold keysInv.
  destruct 1; intros (Hk & Hlen & Hr);
    try (split; [exact Hk | split; [exact Hlen | exact Hr]]);
    try match goal with
        | H : startLevel _ _ _ = Some _ |- _ =>
            destruct (startLevel_fields _ _ _ _ H)
              as (_ & _ & _ & _ & _ & _ & _ & _ & _ & Hl' & Hk' & Hr' & _);
            unfold rebindingOf; rewrite Hl', Hk', Hr'; auto
        end;
    try (split; [|split; [exact Hlen | exact Hr]];
         unfold lanesOf, keybindsOf, updLane in *; cbn;
         first [rewrite map_updateAt_same; [exact Hk | reflexivity]
               |rewrite map_map; exact Hk]).
  - (* a lane is chosen for rebinding *)
    split; [exact Hk|]. split; [exact Hlen|].
    intros lane [= <-]. rewrite <- Hlen. assumption.
  - (* the lane is rebound *)
    unfold lanesOf, keybindsOf, rebindingOf, updLane in *. cbn.
    split; [|split; [rewrite length_updateAt; exact Hlen | discriminate]].
    rewrite (map_updateAt Lane.key (Lane.set_key key) (fun _ => key));
      [now rewrite Hk | reflexivity].
  - (* the rebinding is cancelled *)
    split; [exact Hk|]. split; [exact Hlen | discriminate].
  - (* the canvas is resized *)
    split; [|split; [exact Hlen | exact Hr]].
    rewrite (lanes_resize Lane.key); [exact Hk | reflexivity].
Qed.

Lemma indexOf_first k l i :
  indexOf k l = Some i ->
  nth_error l i = Some k /\ forall j, (j < i)%nat -> nth_error l j <> Some k.
Proof.
  revert i. induction l as [|a l IH]; intros i; cbn [indexOf]; [discriminate|].
  destruct (String.eqb_spec a k) as [->|Hne].
  - intros [= <-]. split; [reflexivity | intros j Hj; lia].
  - destruct (indexOf k l) as [i'|]; [|discriminate].
    intros [= <-]. destruct (IH i' eq_refl) as [Hn Hf]. split; [exact Hn|].
    intros [|j] Hj; cbn; [congruence|]. apply Hf. lia.
Qed.



(** *** Rebinding a lane *)




(** X6.  The lanes show the bindings: on a new engine, and after any
    sequence of events from an engine where it holds, there are four key
    bindings, lane [i] carries the key [keybinds[i]], and a lane that is
    being rebound is one of the four. *)
Theorem lanes_show_bindings (fuel : nat) (evs : list Event) (e e' : Engine.t) :
  (forall width height, keysInv (create width height))
  /\ (keysInv e -> run fuel evs e = Some e' ->
      List.length (keybindsOf e') = 4%nat
      /\ map Lane.key (lanesOf e') = keybindsOf e'
      /\ (forall lane, rebindingOf e' = Some lane -> (lane < 4)%nat)).
Proof.
  split.
  { intros w h. split; [reflexivity|]. split; [reflexivity | discriminate]. }
  intros HI Hr. apply run_Steps in Hr.
  assert (H : keysInv e').
  { revert HI. apply (Steps_invariant fuel keysInv); [|exact Hr].
    intros e1 e2. apply keysInv_micro. }
  destruct H as (Hk & Hlen & Hreb). auto.
Qed.

Definition rebound : Engine.t :=
  Eval vm_compute in
    match run 4 [Click 600 250; KeyDown "d"] (create 800 600) with
    | Some e => e
    | None => create 800 600
    end.

Lemma lanes_show_bindings_witness :
  keybindsOf rebound = ["D"; "D"; "J"; "K"]%string
  /\ map Lane.key (lanesOf rebound) = keybindsOf rebound.
Proof.
  split; [reflexivity|].
  destruct (lanes_show_bindings 4 [Click 600 250; KeyDown "d"] (create 800 600) rebound)
    as [Hnew Hrun].
  apply Hrun; [apply Hnew | vm_compute; reflexivity].
Defined.

(** *** Key presses while playing *)

Lemma hitNote_bindings i d e :
  keybindsOf (hitNote i d e) = keybindsOf e
  /\ rebindingOf (hitNote i d e) = rebindingOf e
  /\ map Lane.pressed (lanesOf (hitNote i d e)) = map Lane.pressed (lanesOf e).
Proof.
  unfold hitNote. cbv zeta. destruct (nth_error _ i) as [n|].
  - unfold updLaneAt. destruct (0 <=? _).
    + unfold keybindsOf, rebindingOf, lanesOf, updLane. cbn.
      rewrite map_updateAt_same by reflexivity. auto.
    + repeat split.
  - repeat split.
Qed.

Lemma tryHitNote_bindings laneIndex e :
  keybindsOf (tryHitNote laneIndex e) = keybindsOf e
  /\ rebindingOf (tryHitNote laneIndex e) = rebindingOf e
  /\ map Lane.pressed (lanesOf (tryHitNote laneIndex e)) = map Lane.pressed (lanesOf e).
Proof.
  unfold tryHitNote. cbv zeta.
  destruct (closest _ _ _ _ _ _) as [[i d]|]; [apply hitNote_bindings|].
  unfold updLaneAt. destruct (0 <=? _); [|repeat split].
  unfold keybindsOf, rebindingOf, lanesOf, updLane. cbn.
  rewrite map_updateAt_same by reflexivity. auto.
Qed.

(** A press changes no note of another lane. *)
Lemma tryHitNote_other_lane laneIndex e idx n :
  nth_error (notesOf e) idx = Some n -> Note.lane n <> laneIndex ->
  nth_error (notesOf (tryHitNote laneIndex e)) idx = Some n.
Proof.
  intros Hn Hl. unfold tryHitNote. cbv zeta.
  destruct (closest _ _ _ _ _ _) as [[i d]|] eqn:E.
  - destruct (closest_origin _ _ _ _ _ _ _ _ E) as [?|(m & _ & Hm & Hc & _)];
      [discriminate|].
    rewrite Nat.sub_0_r in Hm. rewrite notesOf_hitNote.
    rewrite nth_error_updateAt_other; [exact Hn|].
    intros <-. fold (notesOf e) in Hm. rewrite Hn in Hm. injection Hm as <-.
    destruct Hc as [Hc _]. contradiction.
  - rewrite notesOf_updLaneAt. exact Hn.
Qed.

Lemma pressed_at (lanes lanes' : list Lane.t) j :
  map Lane.pressed lanes' = map Lane.pressed lanes ->
  option_map Lane.pressed (nth_error lanes' j) = option_map Lane.pressed (nth_error lanes j).
Proof. intros H. rewrite <- !nth_error_map. now rewrite H. Qed.

(** X8.  Nothing keeps two lanes from being bound to the same key, and
    [indexOf] finds the first: while playing, if lane [j] is bound to the
    key of an earlier lane [i], no key press marks lane [j] pressed and no
    key press changes a note of lane [j]; its notes can only be missed. *)
Theorem duplicate_binding_silences_lane (fuel : nat) (key k : string) (i j : nat)
    (e e' : Engine.t) :
  screenOf e = Playing -> rebindingOf e = None ->
  (i < j)%nat ->
  nth_error (keybindsOf e) i = Some k -> nth_error (keybindsOf e) j = Some k ->
  handleKeyDown fuel key e = Some e' ->
  (forall idx n, nth_error (notesOf e) idx = Some n -> Note.lane n = Z.of_nat j ->
                 nth_error (notesOf e') idx = Some n)
  /\ option_map Lane.pressed (nth_error (lanesOf e') j)
     = option_map Lane.pressed (nth_error (lanesOf e) j)
  /\ indexOf k (keybindsOf e') <> Some j.
Proof.
  intros Hp Hr Hij Hi Hj. unfold handleKeyDown. cbv zeta.
  unfold rebindingOf, screenOf in *. rewrite Hr, Hp. intros [= <-].
  match goal with |- context [if _ then modify_state _ ?x else ?x] =>
    assert (Hx : (forall idx n, nth_error (notesOf e) idx = Some n ->
                                Note.lane n = Z.of_nat j ->
                                nth_error (notesOf x) idx = Some n)
                 /\ map Lane.pressed (firstn 0 (lanesOf e)) = []
                 /\ option_map Lane.pressed (nth_error (lanesOf x) j)
                    = option_map Lane.pressed (nth_error (lanesOf e) j)
                 /\ keybindsOf x = keybindsOf e);
    [|destruct Hx as (Hnotes & _ & Hpressed & Hkeys);
      assert (Hgoal : (forall idx n, nth_error (notesOf e) idx = Some n ->
                                     Note.lane n = Z.of_nat j ->
                                     nth_error (notesOf x) idx = Some n)
                      /\ option_map Lane.pressed (nth_error (lanesOf x) j)
                         = option_map Lane.pressed (nth_error (lanesOf e) j)
                      /\ indexOf k (keybindsOf x) <> Some j);
      [|destruct (String.eqb key "Escape"); exact Hgoal]]
  end.
  - destruct (indexOf _ _) as [laneIndex|] eqn:Ei; [|repeat split; auto].
    destruct (nth_error _ laneIndex) as [lane|] eqn:El; [|repeat split; auto].
    destruct (negb _); [|repeat split; auto].
    assert (Hne : laneIndex <> j).
    { intros ->. destruct (indexOf_first _ _ _ Ei) as [Hn Hf].
      unfold keybindsOf in *. rewrite Hj in Hn. injection Hn as ->.
      exact (Hf i Hij Hi). }
    destruct (tryHitNote_bindings (Z.of_nat laneIndex)
                (updLane laneIndex (Lane.set_pressed true) e)) as (Hk & _ & Hpr).
    split.
    { intros idx n Hn Hl. apply tryHitNote_other_lane; [exact Hn | lia]. }
    split; [reflexivity|]. split; [|exact Hk].
    rewrite (pressed_at _ _ j Hpr). unfold lanesOf, updLane. cbn.
    rewrite nth_error_updateAt_other by exact Hne. reflexivity.
  - split; [exact Hnotes|]. split; [exact Hpressed|].
    rewrite Hkeys. intros Hidx. destruct (indexOf_first _ _ _ Hidx) as [_ Hf].
    exact (Hf i Hij Hi).
Qed.

(** The engine of the sample session with lane 3 bound to the key of lane
    2; its first note, already hit, belongs to lane 3. *)
Definition doubled : Engine.t :=
  modify_state
    (fun s => GameState.set_keybinds ["D"; "F"; "J"; "J"]%string s) Sessions.played.

Definition firstNote : Note.t :=
  Eval vm_compute in
    nth 0 (notesOf Sessions.played) (Note.mk 0 0 Normal 0 0 0 false false None).

Lemma duplicate_binding_silences_lane_witness :
  exists e',
    handleKeyDown 4 "j" doubled = Some e'
    /\ Note.lane firstNote = 3
    /\ nth_error (notesOf e') 0 = Some firstNote
    /\ option_map Lane.pressed (nth_error (lanesOf e') 3) = Some false.
Proof.
  destruct (handleKeyDown 4 "j" doubled) as [e'|] eqn:E;
    [|exfalso; vm_compute in E; inversion E].
  exists e'. split; [reflexivity|]. split; [reflexivity|].
  destruct (duplicate_binding_silences_lane 4 "j" "J" 2 3 doubled e')
    as (Hnotes & Hpressed & _); try reflexivity; [lia | exact E|].
  split.
  - apply Hnotes; reflexivity.
  - rewrite Hpressed. reflexivity.
Defined.

(** *** A key that is held down *)

Definition inputOf (e : Engine.t) : list string * option nat * list bool :=
  (keybindsOf e, rebindingOf e, map Lane.pressed (lanesOf e)).

Lemma inputOf_missNote i roll e : inputOf (missNote i roll e) = inputOf e.
Proof. rewrite missNote_eq. cbv zeta. destruct (ltb roll _); reflexivity. Qed.

Lemma inputOf_moveNotes speed hitLineY rolls e :
  inputOf (fst (moveNotes speed hitLineY rolls e)) = inputOf e.
Proof.
  apply (moveNotes_preserves (fun x => inputOf x = inputOf e)); [|reflexivity].
  intros e1 k i H.
  destruct (moveNote_cases speed hitLineY rolls e1 k i) as [->|(n & y & _ & _ & [->| ->])];
    [exact H | exact H | now rewrite inputOf_missNote].
Qed.

Lemma inputOf_endLevel e : inputOf (endLevel e) = inputOf e.
Proof.
  unfold endLevel. cbv zeta.
  destruct (getOrZero _ (GameState.levelHighScores _) <? _); cbn;
    destruct (getOrZero _ _ <? _); cbn;
    destruct (_ && _); reflexivity.
Qed.

(** A frame leaves the bindings and the pressed flags of the lanes. *)
Lemma inputOf_update fuel deltaTime rolls e e' :
  update fuel deltaTime rolls e = Some e' -> inputOf e' = inputOf e.
Proof.
  intros Hu. destruct (update_cases _ _ _ _ _ Hu) as (e1 & H1 & ->).
  transitivity (inputOf e1).
  { unfold inputOf, effects, keybindsOf, rebindingOf, lanesOf. cbn.
    now rewrite map_map. }
  destruct (running e); [|injection H1 as <-; reflexivity].
  destruct (updateGameplay_cases _ _ _ _ _ H1)
    as [[_ ->]|(lc & rng & nb & notes & c & rng' & _ & _ & _ & ->)]; [reflexivity|].
  assert (Hs : inputOf (settled rolls (beatIntervalOf lc) (spawned deltaTime nb notes c rng' e))
               = inputOf e).
  { unfold settled, pulseOnBeat. destruct (ltb _ _);
      change (inputOf (modify_state _ (cleanUp ?x))) with (inputOf x);
      change (inputOf (cleanUp ?x)) with (inputOf x);
      now rewrite inputOf_moveNotes. }
  unfold closeFrame. destruct (10 <=? _); [rewrite inputOf_endLevel|]; exact Hs.
Qed.

Lemma inputOf_frames fuel frames : forall e e',
  CleanUpFacts.framesOnly frames -> run fuel frames e = Some e' -> inputOf e' = inputOf e.
Proof.
  induction frames as [|ev frames IH]; intros e e' Hf; cbn [run].
  - now intros [= <-].
  - inversion Hf as [|x xs (dt & rolls & ->) Hrest]; subst. cbn [step].
    destruct (update fuel dt rolls e) as [e1|] eqn:Eu; [|discriminate].
    intros Hr. rewrite (IH _ _ Hrest Hr). eapply inputOf_update; eassumption.
Qed.

(** A key press of the playing screen with its lane already pressed, or
    without a lane, changes nothing. *)
Lemma handleKeyDown_held fuel key e :
  screenOf e = Playing -> rebindingOf e = None -> key <> "Escape"%string ->
  (forall laneIndex, indexOf (toUpperCase key) (keybindsOf e) = Some laneIndex ->
                     nth_error (map Lane.pressed (lanesOf e)) laneIndex <> Some false) ->
  handleKeyDown fuel key e = Some e.
Proof.
  intros Hp Hr Hne Hheld. unfold handleKeyDown. cbv zeta.
  unfold rebindingOf, screenOf in *. rewrite Hr, Hp.
  apply String.eqb_neq in Hne. rewrite Hne.
  fold (keybindsOf e).
  destruct (indexOf _ _) as [laneIndex|]; [|reflexivity].
  specialize (Hheld laneIndex eq_refl). rewrite nth_error_map in Hheld.
  fold (lanesOf e).
  destruct (nth_error (lanesOf e) laneIndex) as [lane|]; [|reflexivity].
  cbn in Hheld. destruct (Lane.pressed lane); [reflexivity | congruence].
Qed.

(** X9.  A key that stays down hits at most once: while playing, after
    a key press (other than Escape) and any number of frames, a second
    press of the same key, as the keyboard's auto-repeat sends it, changes
    nothing as long as the level goes on. *)
Theorem held_key_hits_once (fuel : nat) (key : string) (frames : list Event)
    (e e1 e2 : Engine.t) :
  screenOf e = Playing -> rebindingOf e = None -> key <> "Escape"%string ->
  handleKeyDown fuel key e = Some e1 ->
  CleanUpFacts.framesOnly frames -> run fuel frames e1 = Some e2 ->
  screenOf e2 = Playing ->
  handleKeyDown fuel key e2 = Some e2.
Proof.
  intros Hp Hr Hne Hk Hf Hrun Hp2.
  pose proof (inputOf_frames _ _ _ _ Hf Hrun) as Hin.
  assert (H1 : rebindingOf e1 = None
               /\ keybindsOf e1 = keybindsOf e
               /\ forall laneIndex,
                    indexOf (toUpperCase key) (keybindsOf e) = Some laneIndex ->
                    nth_error (map Lane.pressed (lanesOf e1)) laneIndex <> Some false).
  { revert Hk. unfold handleKeyDown. cbv zeta.
    unfold rebindingOf, screenOf in *. rewrite Hr, Hp.
    pose proof Hne as Hne'. apply String.eqb_neq in Hne'. rewrite Hne'.
    fold (keybindsOf e). fold (lanesOf e).
    destruct (indexOf _ _) as [laneIndex|] eqn:Ei.
    2:{ intros [= <-]. split; [exact Hr|]. split; [reflexivity | discriminate]. }
    destruct (nth_error (lanesOf e) laneIndex) as [lane|] eqn:El.
    2:{ intros [= <-]. split; [exact Hr|]. split; [reflexivity|].
        intros l [= <-]. rewrite nth_error_map. unfold lanesOf in *. now rewrite El. }
    destruct (Lane.pressed lane) eqn:Epr; cbn [negb].
    { intros [= <-]. split; [exact Hr|]. split; [reflexivity|].
      intros l [= <-]. rewrite nth_error_map. unfold lanesOf in *.
      rewrite El. cbn. congruence. }
    intros [= <-].
    destruct (tryHitNote_bindings (Z.of_nat laneIndex)
                (updLane laneIndex (Lane.set_pressed true) e)) as (Hkb & Hrb & Hpr).
    split; [exact (eq_trans Hrb Hr)|]. split; [exact Hkb|].
    intros l [= <-]. rewrite Hpr. rewrite nth_error_map.
    unfold lanesOf, updLane. cbn.
    unfold lanesOf in El. rewrite (CleanUpFacts.nth_error_updateAt _ _ _ _ El).
    cbn. discriminate. }
  destruct H1 as (Hr1 & Hk1 & Hpr1).
  unfold inputOf in Hin. injection Hin as Hkb2 Hrb2 Hpr2.
  apply handleKeyDown_held; [exact Hp2 | congruence | exact Hne|].
  intros laneIndex Hi. rewrite Hpr2. apply Hpr1. congruence.
Qed.

Definition pressedAgain : Engine.t :=
  Eval vm_compute in
    match handleKeyDown 4 "k" Sessions.played with
    | Some e => e
    | None => Sessions.played
    end.

Definition twoFramesLater : Engine.t :=
  Eval vm_compute in
    match run 4 [Samples.tick; Samples.tick] pressedAgain with
    | Some e => e
    | None => pressedAgain
    end.

Lemma held_key_hits_once_witness :
  handleKeyDown 4 "k" Sessions.played = Some pressedAgain
  /\ handleKeyDown 4 "k" twoFramesLater = Some twoFramesLater.
Proof.
  assert (E1 : handleKeyDown 4 "k" Sessions.played = Some pressedAgain)
    by (vm_compute; reflexivity).
  split; [exact E1|].
  apply (held_key_hits_once 4 "k" [Samples.tick; Samples.tick]
           Sessions.played pressedAgain twoFramesLater).
  - reflexivity.
  - reflexivity.
  - intros H. inversion H.
  - exact E1.
  - repeat constructor; eexists; eexists; reflexivity.
  - vm_compute. reflexivity.
  - reflexivity.
Defined.

End KeyFacts.

(* ------------------------------------------------------------------------- *)
(** ** Scores: hits, records and pauses *)

Module ScoreFacts.
Import QBool QBoolFacts JSArray Engine EngineFacts UpdateFacts StepFacts Atomic ListFacts
       PlayFacts KeyFacts.

(** *** The points of a hit *)

(** X10.  With the upgrades of the catalog at levels at least 0 and a
    combo that satisfies its invariant, a press never lowers the score,
    and a press that hits a note adds at least the base score of the
    rating it gives that note: 100 for Perfect, 75 for Great, 50 for Good,
    so at least 50 points.  The points are floored products of doubles;
    the rounding never takes them below the base score. *)
Theorem hit_worth_at_least_base (laneIndex : Z) (e : Engine.t) :
  Economy e ->
  let e' := tryHitNote laneIndex e in
  currentScore e <= currentScore e'
  /\ ((exists m, In m (notesOf e) /\ candidate laneIndex m
                 /\ (distance (getHitLineY e) m < effectiveWindow e)%Q) ->
      exists i n r,
        nth_error (notesOf e) i = Some n
        /\ r = rate (config e) (distance (getHitLineY e) n)
        /\ option_map Note.rating (nth_error (notesOf e') i) = Some (Some r)
        /\ option_map Note.hit (nth_error (notesOf e') i) = Some true
        /\ currentScore e + baseScoreOf r <= currentScore e'
        /\ (r = Perfect \/ r = Great \/ r = Good)
        /\ baseScoreOf Perfect = 100 /\ baseScoreOf Great = 75
        /\ baseScoreOf Good = 50).
Proof.
  intros [Hc Hl Hp Hs [Hcr Hci]]. cbv zeta.
  assert (Hhit : forall i d,
             currentScore e + baseScoreOf (rate (config e) d)
             <= currentScore (hitNote i d e)).
  { intros i d. unfold currentScore. rewrite scoreOf_hitNote. cbv zeta.
    cbn [ScoreState.current ScoreState.set_current].
    pose proof (hitPoints_lower (rate (config e) d) (updCombo bumpCombo e)) as Hlow.
    assert (Hr' : comboRange (bumpCombo (comboOf e)))
      by (unfold comboRange in *; cbn; lia).
    specialize (Hlow Hc Hl Hr' (comboInv_bump _)).
    unfold hitPoints, JSNumber.floor in Hlow. unfold pointsFor, comboMultiplier.
    change (comboOf (updCombo bumpCombo e)) with (bumpCombo (comboOf e)) in Hlow.
    change (scoreMultiplier ?r (updCombo bumpCombo e)) with (scoreMultiplier r e) in Hlow.
    cbn [bumpCombo ComboState.multiplier] in Hlow. lia. }
  assert (Hbase : forall d, 50 <= baseScoreOf (rate (config e) d)).
  { intros d. unfold rate. destruct (leb d _); [cbn; lia|].
    destruct (leb d _); cbn; lia. }
  split.
  - unfold tryHitNote. cbv zeta.
    destruct (closest _ _ _ _ _ _) as [[i d]|].
    + specialize (Hhit i d). specialize (Hbase d). lia.
    + unfold currentScore. rewrite scoreOf_updLaneAt. lia.
  - intros Hex.
    destruct (tryHitNote_hit laneIndex e Hex) as (i & n & Hn & _ & _ & _ & ->).
    exists i, n, (rate (config e) (distance (getHitLineY e) n)).
    split; [exact Hn|]. split; [reflexivity|].
    rewrite notesOf_hitNote, (CleanUpFacts.nth_error_updateAt _ _ _ _ Hn).
    split; [reflexivity|]. split; [reflexivity|].
    split; [apply Hhit|].
    split; [|repeat split].
    unfold rate. destruct (leb _ _); [now left|].
    destruct (leb _ _); [right; now left | right; now right].
Qed.

(** The sample session one frame before its key press: the first note is
    40 above the hit line. *)
Definition beforePress : Engine.t :=
  Eval vm_compute in
    match run 4 ([KeyDown " "] ++ repeat Samples.tick 48) (create 800 600) with
    | Some e => e
    | None => create 800 600
    end.

Lemma hit_worth_at_least_base_witness :
  currentScore beforePress = 0 /\ 50 <= currentScore (tryHitNote 3 beforePress).
Proof.
  split; [reflexivity|].
  destruct (hit_worth_at_least_base 3 beforePress) as [_ H].
  { apply (Economy_run 4 ([KeyDown " "] ++ repeat Samples.tick 48) (create 800 600));
      [apply Economy_create | vm_compute; reflexivity]. }
  destruct H as (i & n & r & _ & _ & _ & _ & Hr & Hcase & H100 & H75 & H50).
  { exists (nth 0 (notesOf beforePress) (Note.mk 0 0 Normal 0 0 0 false false None)).
    split; [left; reflexivity|]. split; [repeat split|].
    vm_compute. reflexivity. }
  change (currentScore beforePress) with 0 in Hr.
  destruct Hcase as [->|[->| ->]]; lia.
Defined.

(** *** Records *)

Lemma getOrZero_mapSet k v m l :
  getOrZero l (mapSet k v m) = if l =? k then v else getOrZero l m.
Proof.
  unfold getOrZero. induction m as [|[k' v'] m IH]; cbn [mapSet mapGet].
  - destruct (Z.eqb_spec k l) as [->|Hne].
    + now rewrite Z.eqb_refl.
    + destruct (Z.eqb_spec l k); [congruence | reflexivity].
  - destruct (Z.eqb_spec k' k) as [->|Hne]; cbn [mapGet].
    + destruct (Z.eqb_spec k l) as [->|Hne'].
      * now rewrite Z.eqb_refl.
      * destruct (Z.eqb_spec l k); [congruence | reflexivity].
    + destruct (Z.eqb_spec k' l) as [->|Hne'].
      * destruct (Z.eqb_spec l k); [congruence | reflexivity].
      * exact IH.
Qed.

Definition bestScore (l : Z) (e : Engine.t) : Z :=
  getOrZero l (GameState.levelHighScores (state e)).
Definition bestCombo (l : Z) (e : Engine.t) : Z :=
  getOrZero l (GameState.levelMaxCombos (state e)).

Definition recordsGrow (e e' : Engine.t) : Prop :=
  forall l, bestScore l e <= bestScore l e' /\ bestCombo l e <= bestCombo l e'.

Lemma recordsGrow_micro fuel e e' : Micro fuel e e' -> recordsGrow e e'.
Proof.
  unfold recordsGrow, bestScore, bestCombo.
  destruct 1; intros l;
    try (split; apply Z.le_refl);
    try match goal with
        | H : startLevel _ _ _ = Some _ |- _ =>
            destruct (startLevel_fields _ _ _ _ H)
              as (_ & _ & _ & _ & _ & _ & _ & _ & _ & _ & _ & _ & -> & -> & _);
            split; apply Z.le_refl
        end.
  - cbn. rewrite getOrZero_mapSet. split; [|apply Z.le_refl].
    destruct (Z.eqb_spec l (levelOf e)) as [->|_]; lia.
  - cbn. rewrite getOrZero_mapSet. split; [apply Z.le_refl|].
    destruct (Z.eqb_spec l (levelOf e)) as [->|_]; lia.
Qed.

Lemma endLevel_records e :
  let level := levelOf e in
  bestScore level (endLevel e) = Z.max (bestScore level e) (currentScore e)
  /\ bestCombo level (endLevel e) = Z.max (bestCombo level e) (ComboState.max (comboOf e))
  /\ (forall l, l <> level ->
        bestScore l (endLevel e) = bestScore l e
        /\ bestCombo l (endLevel e) = bestCombo l e)
  /\ pointsOf (endLevel e) = pointsOf e + currentScore e / 10.
Proof.
  cbv zeta. unfold bestScore, bestCombo, pointsOf, currentScore, levelOf, endLevel.
  cbv zeta.
  destruct (Z.ltb_spec (getOrZero (GameState.currentLevelNum (state e))
                          (GameState.levelHighScores (state e)))
                       (ScoreState.current (GameState.score (state e)))) as [H1|H1];
    cbn;
    (destruct (Z.ltb_spec (getOrZero (GameState.currentLevelNum (state e))
                             (GameState.levelMaxCombos (state e)))
                          (ComboState.max (GameState.combo (state e)))) as [H2|H2];
     cbn);
    destruct (_ && _); cbn; rewrite ?getOrZero_mapSet, ?Z.eqb_refl;
    (split; [unfold scoreOf; lia|]); (split; [unfold comboOf; lia|]);
    (split; [|reflexivity]);
    intros l Hl; rewrite ?getOrZero_mapSet;
    destruct (Z.eqb_spec l (GameState.currentLevelNum (state e)));
    try contradiction; auto.
Qed.

(** X11.  The records of a level only grow: over any sequence of events
    the best score and the best combo stored for a level never decrease.
    [endLevel] stores for the level played the larger of the stored value
    (0 if none) and the value reached, leaves the records of every other
    level, and adds floor(score / 10) to the points. *)
Theorem records_only_grow (fuel : nat) (evs : list Event) (e e' : Engine.t) :
  (run fuel evs e = Some e' ->
   forall l, bestScore l e <= bestScore l e' /\ bestCombo l e <= bestCombo l e')
  /\ bestScore (levelOf e) (endLevel e) = Z.max (bestScore (levelOf e) e) (currentScore e)
  /\ bestCombo (levelOf e) (endLevel e)
     = Z.max (bestCombo (levelOf e) e) (ComboState.max (comboOf e))
  /\ (forall l, l <> levelOf e ->
        bestScore l (endLevel e) = bestScore l e
        /\ bestCombo l (endLevel e) = bestCombo l e)
  /\ pointsOf (endLevel e) = pointsOf e + currentScore e / 10.
Proof.
  split; [|apply endLevel_records].
  intros Hr. apply run_Steps in Hr.
  apply (Steps_related fuel recordsGrow); [| |apply recordsGrow_micro | exact Hr].
  - intros x l. split; apply Z.le_refl.
  - intros x y z Hxy Hyz l. destruct (Hxy l), (Hyz l). split; lia.
Qed.

(** The sample session with a score of 2575 and nine misses: the tenth
    miss, twenty frames later, ends the level. *)
Definition lastFrames : Engine.t :=
  Eval vm_compute in
    modify_state
      (fun s => GameState.set_score (ScoreState.mk 2575 2575 20 5 1 9) s)
      Sessions.played.

Definition ended : Engine.t :=
  Eval vm_compute in
    match run 4 (repeat Samples.tick 20) lastFrames with
    | Some e => e
    | None => lastFrames
    end.

Lemma records_only_grow_witness :
  screenOf ended = Results
  /\ bestScore 1 lastFrames = 0 /\ bestScore 1 ended = 2575
  /\ pointsOf ended = 257
  /\ bestScore 1 lastFrames <= bestScore 1 ended.
Proof.
  destruct (records_only_grow 4 (repeat Samples.tick 20) lastFrames ended) as [Hrun _].
  assert (Hr : run 4 (repeat Samples.tick 20) lastFrames = Some ended)
    by (vm_compute; reflexivity).
  split; [reflexivity|]. split; [reflexivity|]. split; [reflexivity|].
  split; [reflexivity|]. apply (Hrun Hr 1).
Defined.

(** *** The pause *)

Definition setPaused (b : bool) (e : Engine.t) : Engine.t :=
  modify_state (GameState.set_isPaused b) e.

Lemma hitNote_setPaused b i d e :
  hitNote i d (setPaused b e) = setPaused b (hitNote i d e).
Proof.
  unfold hitNote, setPaused. cbv zeta.
  change (GameState.notes (state (updScore ?f (updCombo ?g (updNote ?j ?h
            (updScore ?f' (updNote ?j' ?h' (modify_state ?p e))))))))
    with (GameState.notes (state (updScore f (updCombo g (updNote j h
            (updScore f' (updNote j' h' e))))))).
  destruct (nth_error _ i) as [n|]; [|reflexivity].
  unfold updLaneAt. destruct (0 <=? _); reflexivity.
Qed.

Lemma tryHitNote_setPaused b laneIndex e :
  tryHitNote laneIndex (setPaused b e) = setPaused b (tryHitNote laneIndex e).
Proof.
  unfold tryHitNote. cbv zeta.
  change (closest laneIndex (getHitLineY (setPaused b e)) (effectiveWindow (setPaused b e))
                  0 (GameState.notes (state (setPaused b e))) None)
    with (closest laneIndex (getHitLineY e) (effectiveWindow e) 0
                  (GameState.notes (state e)) None).
  destruct (closest _ _ _ _ _ _) as [[i d]|]; [apply hitNote_setPaused|].
  unfold updLaneAt. destruct (0 <=? _); reflexivity.
Qed.

(** X12.  The pause stops the clock of the level and nothing else.  A
    frame of a paused level, or outside a level, only moves the displayed
    score and lets the visual effects decay: the game time, the notes, the
    combo, the score with its counters, the next beat and the generator
    stay.  A lane key pressed while playing does not look at the pause
    flag: it is judged as in the unpaused game, so notes can be hit while
    the game is paused. *)
Theorem pause_stops_the_clock_only (fuel : nat) (e : Engine.t) :
  (forall deltaTime rolls,
      running e = false ->
      update fuel deltaTime rolls e = Some (effects deltaTime e)
      /\ GameState.gameTime (state (effects deltaTime e)) = GameState.gameTime (state e)
      /\ notesOf (effects deltaTime e) = notesOf e
      /\ comboOf (effects deltaTime e) = comboOf e
      /\ currentScore (effects deltaTime e) = currentScore e
      /\ missesOf (effects deltaTime e) = missesOf e
      /\ nextBeatTime (effects deltaTime e) = nextBeatTime e
      /\ levelRng (effects deltaTime e) = levelRng e)
  /\ (forall key b,
        screenOf e = Playing -> rebindingOf e = None -> key <> "Escape"%string ->
        handleKeyDown fuel key (setPaused b e)
        = option_map (setPaused b) (handleKeyDown fuel key e)).
Proof.
  split.
  - intros deltaTime rolls Hrun. split.
    { unfold update. fold (screenOf e). fold (running e). rewrite Hrun. reflexivity. }
    split; [reflexivity|]. split; [reflexivity|]. split; [reflexivity|].
    split.
    { unfold currentScore, scoreOf, effects, updateDisplayScore. cbn.
      destruct (ltb _ 1); reflexivity. }
    split; [apply missesOf_effects|]. split; reflexivity.
  - intros key b Hp Hr Hne. unfold handleKeyDown. cbv zeta.
    unfold rebindingOf, screenOf in *.
    change (GameState.rebindingLane (state (setPaused b e)))
      with (GameState.rebindingLane (state e)).
    change (GameState.screen (state (setPaused b e))) with (GameState.screen (state e)).
    change (GameState.keybinds (state (setPaused b e))) with (GameState.keybinds (state e)).
    change (GameState.lanes (state (setPaused b e))) with (GameState.lanes (state e)).
    rewrite Hr, Hp. apply String.eqb_neq in Hne. rewrite Hne.
    cbn [option_map]. f_equal.
    destruct (indexOf _ _) as [laneIndex|]; [|reflexivity].
    destruct (nth_error _ laneIndex) as [lane|]; [|reflexivity].
    destruct (negb _); [|reflexivity].
    change (updLane laneIndex (Lane.set_pressed true) (setPaused b e))
      with (setPaused b (updLane laneIndex (Lane.set_pressed true) e)).
    apply tryHitNote_setPaused.
Qed.

Definition pausedBeforePress : Engine.t :=
  Eval vm_compute in setPaused true beforePress.

Lemma pause_stops_the_clock_only_witness :
  GameState.isPaused (state pausedBeforePress) = true
  /\ update 4 (1 # 10) (fun _ => 1 # 2) pausedBeforePress
     = Some (effects (1 # 10) pausedBeforePress)
  /\ (exists e', handleKeyDown 4 "k" pausedBeforePress = Some e'
                 /\ currentScore e' = 100).
Proof.
  destruct (pause_stops_the_clock_only 4 pausedBeforePress) as [Hframe _].
  destruct (pause_stops_the_clock_only 4 beforePress) as [_ Hkey].
  split; [reflexivity|].
  split; [apply Hframe; reflexivity|].
  specialize (Hkey "k"%string true eq_refl eq_refl).
  change (setPaused true beforePress) with pausedBeforePress in Hkey.
  rewrite Hkey by (intros H; inversion H).
  eexists. split; [vm_compute; reflexivity | reflexivity].
Defined.

End ScoreFacts.

(* ------------------------------------------------------------------------- *)
(** ** The menu, the canvas and the displayed score *)

Module MenuFacts.
Import QBool QBoolFacts JSArray Engine EngineFacts UpdateFacts StepFacts Atomic ListFacts
       PlayFacts.

(** *** The displayed score *)

Definition displayOf (e : Engine.t) : Q := ScoreState.display (scoreOf e).

Lemma updateDisplayScore_fields deltaTime e :
  let diff := (inject_Z (currentScore e) - displayOf e)%Q in
  currentScore (updateDisplayScore deltaTime e) = currentScore e
  /\ missesOf (updateDisplayScore deltaTime e) = missesOf e
  /\ ((Qabs diff < 1)%Q ->
      displayOf (updateDisplayScore deltaTime e) = inject_Z (currentScore e))
  /\ (~ (Qabs diff < 1)%Q ->
      displayOf (updateDisplayScore deltaTime e) = (displayOf e + diff * deltaTime * 5)%Q).
Proof.
  cbv zeta. unfold updateDisplayScore, currentScore, missesOf, displayOf, scoreOf, updScore.
  cbn. unfold abs.
  destruct (ltb _ 1) eqn:E; cbn.
  - apply ltb_lt in E. split; [reflexivity|]. split; [reflexivity|].
    split; [reflexivity | intros H; contradiction].
  - apply ltb_ge in E. split; [reflexivity|]. split; [reflexivity|].
    split; [|reflexivity].
    intros H. exfalso. exact (Qlt_not_le _ _ H E).
Qed.

(** X13.  The displayed score runs after the score and never past
    it.  [updateDisplayScore] leaves the score; within 1 of it the display
    jumps onto it; otherwise, for a frame of at most 0.2 s (the loop caps
    frames at 0.1 s), the display moves towards the score by the fraction
    5 * deltaTime of the difference, stays on its side of the score, and
    with deltaTime > 0 comes strictly closer. *)
Theorem display_follows_score (deltaTime : Q) (e : Engine.t) :
  let e' := updateDisplayScore deltaTime e in
  let target := inject_Z (currentScore e) in
  currentScore e' = currentScore e
  /\ ((Qabs (target - displayOf e) < 1)%Q -> displayOf e' = target)
  /\ ((0 <= deltaTime)%Q -> (deltaTime <= 1 # 5)%Q ->
      ((displayOf e <= target)%Q -> (displayOf e <= displayOf e' <= target)%Q)
      /\ ((target <= displayOf e)%Q -> (target <= displayOf e' <= displayOf e)%Q)
      /\ (Qabs (target - displayOf e') <= Qabs (target - displayOf e))%Q
      /\ ((0 < deltaTime)%Q -> ~ (displayOf e == target)%Q ->
          (Qabs (target - displayOf e') < Qabs (target - displayOf e))%Q)).
Proof.
  cbv zeta.
  destruct (updateDisplayScore_fields deltaTime e) as (Hs & _ & Hnear & Hfar).
  cbv zeta in Hnear, Hfar.
  set (target := inject_Z (currentScore e)) in *.
  set (d := displayOf e) in *.
  set (d' := displayOf (updateDisplayScore deltaTime e)) in *.
  split; [exact Hs|]. split; [exact Hnear|].
  intros H0 H1.
  destruct (Qlt_le_dec (Qabs (target - d)) 1) as [Hn|Hf].
  - specialize (Hnear Hn). rewrite Hnear.
    assert (Hz : (Qabs (target - target) == 0)%Q).
    { setoid_replace (target - target)%Q with 0%Q by ring. reflexivity. }
    split; [intros; split; [assumption | apply Qle_refl]|].
    split; [intros; split; [apply Qle_refl | assumption]|].
    split; [rewrite Hz; apply Qabs_nonneg|].
    intros _ Hne. rewrite Hz.
    destruct (Qle_lt_or_eq _ _ (Qabs_nonneg (target - d))) as [Hpos|Hzero];
      [exact Hpos|].
    exfalso. apply Hne.
    destruct (Qlt_le_dec (target - d) 0) as [Hlt|Hge];
      [rewrite Qabs_neg in Hzero by lra | rewrite Qabs_pos in Hzero by lra]; lra.
  - assert (Hd' : (d' == d + (target - d) * deltaTime * 5)%Q).
    { rewrite Hfar; [reflexivity|]. intros H. exact (Qlt_not_le _ _ H Hf). }
    set (t := (deltaTime * 5)%Q).
    assert (Ht : (0 <= t <= 1)%Q) by (unfold t; lra).
    assert (Hd'' : (d' == d + (target - d) * t)%Q) by (rewrite Hd'; unfold t; ring).
    assert (Hup : (d <= target)%Q ->
                  (0 <= (target - d) * t)%Q /\ ((target - d) * t <= target - d)%Q).
    { intros Hle. split.
      - apply Qmult_le_0_compat; lra.
      - setoid_replace (target - d)%Q with ((target - d) * 1)%Q at 2 by ring.
        rewrite !(Qmult_comm (target - d)).
        apply Qmult_le_compat_r; lra. }
    assert (Hdown : (target <= d)%Q ->
                    (0 <= (d - target) * t)%Q /\ ((d - target) * t <= d - target)%Q).
    { intros Hle. split.
      - apply Qmult_le_0_compat; lra.
      - setoid_replace (d - target)%Q with ((d - target) * 1)%Q at 2 by ring.
        rewrite !(Qmult_comm (d - target)).
        apply Qmult_le_compat_r; lra. }
    assert (Hneg : ((target - d) * t == - ((d - target) * t))%Q) by ring.
    split; [intros Hle; destruct (Hup Hle); lra|].
    split; [intros Hle; destruct (Hdown Hle); lra|].
    split.
    + destruct (Qlt_le_dec target d) as [Hgt|Hle].
      * destruct (Hdown (Qlt_le_weak _ _ Hgt)).
        rewrite !Qabs_neg by lra. lra.
      * destruct (Hup Hle). rewrite !Qabs_pos by lra. lra.
    + intros Hpos Hne.
      assert (Htpos : (0 < t)%Q) by (unfold t; lra).
      destruct (Qlt_le_dec target d) as [Hgt|Hle].
      * destruct (Hdown (Qlt_le_weak _ _ Hgt)).
        assert (0 < (d - target) * t)%Q by (apply Qmult_lt_0_compat; lra).
        rewrite !Qabs_neg by lra. lra.
      * destruct (Hup Hle).
        assert (Hlt : (d < target)%Q).
        { destruct (Qle_lt_or_eq _ _ Hle) as [?|Heq]; [assumption | contradiction]. }
        assert (0 < (target - d) * t)%Q by (apply Qmult_lt_0_compat; lra).
        rewrite !Qabs_pos by lra. lra.
Qed.

Lemma display_follows_score_witness :
  (displayOf Sessions.played == 9375 # 100)%Q
  /\ (displayOf Sessions.played
      <= displayOf (updateDisplayScore (1 # 10) Sessions.played) <= 100)%Q.
Proof.
  split; [unfold Qeq; vm_compute; reflexivity|].
  destruct (display_follows_score (1 # 10) Sessions.played) as (_ & _ & H).
  destruct H as (Hup & _); [unfold Qle; cbn; lia | unfold Qle; cbn; lia|].
  apply Hup. unfold Qle. vm_compute. intros H. inversion H.
Defined.

(** *** The canvas *)

Lemma fold_setX (f : nat -> Q) (n : nat) : forall (a : nat) (l : list Lane.t) i,
  nth_error
    (fold_left (fun lanes j => updateAt j (Lane.set_x (f j)) lanes) (seq a n) l) i
  = if (a <=? i)%nat && (i <? a + n)%nat
    then option_map (Lane.set_x (f i)) (nth_error l i)
    else nth_error l i.
Proof.
  induction n as [|n IH]; intros a l i; cbn [seq fold_left].
  - replace ((a <=? i)%nat && (i <? a + 0)%nat) with false; [reflexivity|].
    symmetry. apply andb_false_iff.
    destruct (Nat.leb_spec a i); [right; apply Nat.ltb_ge; lia | now left].
  - rewrite IH.
    destruct (Nat.leb_spec (S a) i) as [H1|H1]; cbn [andb].
    + destruct (Nat.ltb_spec i (S a + n)) as [H2|H2].
      * replace ((a <=? i)%nat && (i <? a + S n)%nat) with true.
        2:{ symmetry. apply andb_true_iff. split;
              [apply Nat.leb_le | apply Nat.ltb_lt]; lia. }
        rewrite nth_error_updateAt_other by lia. reflexivity.
      * replace ((a <=? i)%nat && (i <? a + S n)%nat) with false.
        2:{ symmetry. apply andb_false_iff. right. apply Nat.ltb_ge. lia. }
        rewrite nth_error_updateAt_other by lia. reflexivity.
    + destruct (Nat.eq_dec i a) as [->|Hne].
      * replace ((a <=? a)%nat && (a <? a + S n)%nat) with true.
        2:{ symmetry. apply andb_true_iff. split;
              [apply Nat.leb_le | apply Nat.ltb_lt]; lia. }
        destruct (nth_error l a) as [lane|] eqn:E.
        -- rewrite (CleanUpFacts.nth_error_updateAt _ _ _ _ E). reflexivity.
        -- cbn. apply nth_error_None. rewrite length_updateAt.
           now apply nth_error_None.
      * replace ((a <=? i)%nat && (i <? a + S n)%nat) with false.
        2:{ symmetry. apply andb_false_iff. left. apply Nat.leb_gt. lia. }
        rewrite nth_error_updateAt_other by lia. reflexivity.
Qed.

(** X14.  [resize] sets the canvas size and moves every lane to the
    place a new engine of that width gives it, lane [i] at
    (width - 80 * laneCount) / 2 + 80 * i; nothing else changes.  With four
    lanes of width 80 the lanes are side by side and as far from the left
    edge as from the right one. *)
Theorem resize_centres_lanes (width height : Q) (e : Engine.t) :
  let e' := resize width height e in
  canvasWidth e' = width /\ canvasHeight e' = height
  /\ (forall i, nth_error (lanesOf e') i
                = option_map (Lane.set_x (laneX width (GameConfig.laneCount (config e)) i))
                             (nth_error (lanesOf e) i))
  /\ GameState.set_lanes (lanesOf e) (state e') = state e
  /\ config e' = config e /\ currentLevelConfig e' = currentLevelConfig e
  /\ nextBeatTime e' = nextBeatTime e /\ levelRng e' = levelRng e
  /\ noteIdCounter e' = noteIdCounter e
  /\ (forall width0 height0,
        lanesOf (resize width height (create width0 height0))
        = lanesOf (create width height))
  /\ (forall i, (laneX width 4 (S i) == laneX width 4 i + laneWidth)%Q)
  /\ (laneX width 4 0 == width - (laneX width 4 3 + laneWidth))%Q.
Proof.
  cbv zeta. split; [reflexivity|]. split; [reflexivity|].
  split.
  { intros i. unfold resize, updateLanePositions, lanesOf. cbn.
    rewrite fold_setX. cbn [Nat.leb andb Nat.add].
    destruct (Nat.ltb_spec i (List.length (GameState.lanes (state e)))) as [H|H];
      [reflexivity|].
    apply nth_error_None in H. rewrite H. reflexivity. }
  split; [destruct e as [? ? s ? ? ? ? ?]; destruct s; reflexivity|].
  do 5 (split; [reflexivity|]).
  split; [intros w0 h0; reflexivity|].
  split.
  - intros i. unfold laneX, laneWidth. rewrite Nat2Z.inj_succ, <- Z.add_1_r, inject_Z_plus.
    change (inject_Z 1) with 1%Q. change (inject_Z 4) with 4%Q. ring.
  - unfold laneX, laneWidth. change (inject_Z 4) with 4%Q.
    change (inject_Z (Z.of_nat 0)) with 0%Q. change (inject_Z (Z.of_nat 3)) with 3%Q.
    field.
Qed.

(** *** The buttons of the menu *)

Definition inButton (panelX x y : Q) (i : nat) : Prop :=
  (panelX <= x <= panelX + 200)%Q
  /\ (180 + inject_Z (Z.of_nat i) * 58 <= y <= 230 + inject_Z (Z.of_nat i) * 58)%Q.

Lemma buttonAt_hit panelX x y n i :
  (i < n)%nat -> inButton panelX x y i -> buttonAt panelX x y n = Some i.
Proof.
  intros Hlt ((Hx1 & Hx2) & Hy1 & Hy2). unfold buttonAt.
  apply find_first; [| |exact Hlt].
  - intros j Hj. cbv zeta beta. apply andb_false_iff. right. apply leb_gt.
    assert (Hji : (inject_Z (Z.of_nat j) + 1 <= inject_Z (Z.of_nat i))%Q).
    { change 1%Q with (inject_Z 1). rewrite <- inject_Z_plus, <- Zle_Qle. lia. }
    lra.
  - cbv zeta beta. unfold geb. rewrite !andb_true_iff, !leb_le. repeat split; lra.
Qed.

Ltac halves := unfold Qdiv in *; change (/ 2)%Q with (1 # 2)%Q in *; lra.

(** X15.  On a menu wider than 730 the buttons do not overlap, and a
    click inside the [i]-th upgrade button (40..240 across, 50 high, one
    every 58 from 180 down) buys that upgrade if it can be bought: below
    its maximum level and with enough points, the cost
    floor(baseCost * 1.5^level) is taken from the points and the level
    goes up by one; otherwise nothing changes.  A click inside the PLAY
    button starts the selected level whatever else lies under it. *)
Theorem upgrade_button_buys (fuel : nat) (x y : Q) (i : nat) (upgrade : Upgrade.t)
    (e : Engine.t) :
  screenOf e = Menu ->
  nth_error (upgradesOf e) i = Some upgrade ->
  (730 < canvasWidth e)%Q ->
  inButton 40 x y i ->
  let cost := getUpgradeCost upgrade in
  let bought :=
    modify_state
      (fun s => GameState.set_upgrades
                  (updateAt i (Upgrade.set_currentLevel (Upgrade.currentLevel upgrade + 1))
                            (GameState.upgrades s))
                  (GameState.set_totalPoints (GameState.totalPoints s - cost) s)) e in
  handleClick fuel x y e
  = Some (if (Upgrade.currentLevel upgrade <? Upgrade.maxLevel upgrade)
             && (cost <=? pointsOf e)
          then bought else e)
  /\ pointsOf bought = pointsOf e - cost
  /\ nth_error (upgradesOf bought) i
     = Some (Upgrade.set_currentLevel (Upgrade.currentLevel upgrade + 1) upgrade)
  /\ (forall j, j <> i -> nth_error (upgradesOf bought) j = nth_error (upgradesOf e) j)
  /\ (forall x' y',
        (canvasWidth e / 2 - 125 <= x' <= canvasWidth e / 2 + 125)%Q ->
        (280 <= y' <= 340)%Q ->
        handleClick fuel x' y' e = startLevel fuel (levelOf e) e).
Proof.
  intros Hm Hu Hw Hb. cbv zeta.
  assert (Hi : (i < List.length (upgradesOf e))%nat).
  { apply nth_error_Some. rewrite Hu. discriminate. }
  split.
  { unfold handleClick. unfold screenOf in Hm. rewrite Hm.
    unfold handleMenuClick. cbv zeta.
    destruct Hb as ((Hx1 & Hx2) & Hy).
    assert (H1 : geb x (canvasWidth e / 2 - 250 / 2)%Q = false).
    { unfold geb. apply leb_gt. halves. }
    assert (H2 : geb x (canvasWidth e / 2 - 100)%Q = false).
    { unfold geb. apply leb_gt. halves. }
    assert (H3 : geb x (canvasWidth e / 2 + 60)%Q = false).
    { unfold geb. apply leb_gt. halves. }
    rewrite H1, H2, H3. cbn [andb].
    fold (upgradesOf e).
    rewrite (buttonAt_hit 40 x y _ i Hi); [|split; [split|]; assumption].
    unfold purchase. fold (upgradesOf e). rewrite Hu.
    fold (pointsOf e).
    destruct (_ <? _); cbn [andb]; [|reflexivity].
    destruct (_ <=? _); [|reflexivity].
    unfold modify_state. cbv beta. unfold upgradesOf in Hu.
    rewrite (updateAt_at
               (fun u => Upgrade.set_currentLevel (Upgrade.currentLevel u + 1) u)
               (Upgrade.set_currentLevel (Upgrade.currentLevel upgrade + 1))
               _ _ _ Hu eq_refl).
    reflexivity. }
  split; [reflexivity|].
  split.
  { unfold upgradesOf in *. cbn. exact (CleanUpFacts.nth_error_updateAt _ _ _ _ Hu). }
  split.
  { intros j Hj. unfold upgradesOf. cbn. apply nth_error_updateAt_other. congruence. }
  intros x' y' [Hx1 Hx2] [Hy1 Hy2].
  unfold handleClick. unfold screenOf in Hm. rewrite Hm.
  unfold handleMenuClick. cbv zeta.
  assert (H1 : geb x' (canvasWidth e / 2 - 250 / 2)%Q = true).
  { unfold geb. apply leb_le. halves. }
  assert (H2 : leb x' (canvasWidth e / 2 + 250 / 2)%Q = true) by (apply leb_le; halves).
  assert (H3 : geb y' 280 = true) by (unfold geb; apply leb_le; halves).
  assert (H4 : leb y' (280 + 60)%Q = true) by (apply leb_le; halves).
  rewrite H1, H2, H3, H4. reflexivity.
Qed.

(** A new engine with 1000 points. *)
Definition funded : Engine.t :=
  Eval vm_compute in modify_state (GameState.set_totalPoints 1000) (create 800 600).

Lemma upgrade_button_buys_witness :
  exists e',
    handleClick 4 100 250 funded = Some e'
    /\ pointsOf e' = 850
    /\ map Upgrade.currentLevel (upgradesOf e') = [0; 1; 0; 0; 0].
Proof.
  destruct (upgrade_button_buys 4 100 250 1
              (Upgrade.mk "multiplier" "Score Boost" "+15% base score" 150 10 0 (15 # 100))
              funded) as (H & _).
  - reflexivity.
  - reflexivity.
  - unfold Qlt. cbn. lia.
  - unfold inButton, Qle. cbn. lia.
  - eexists. split; [exact H|]. split; reflexivity.
Defined.

End MenuFacts.

(* ------------------------------------------------------------------------- *)
(** ** Where the notes are *)

Module TimingFacts.
Import QBool QBoolFacts JSArray Engine EngineFacts UpdateFacts StepFacts Atomic ListFacts
       PlayFacts NoteFacts.

(** *** What the upgrades can do *)

(** An upgrade of the catalog is found, with the effect and the maximum
    level of the catalog and a level within its range. *)
Lemma findUpgrade_catalog id c e :
  catalogInv e -> levelsInv e ->
  find (fun u => String.eqb (Upgrade.id u) id)
       (map (Upgrade.set_currentLevel 0) UPGRADE_DEFINITIONS) = Some c ->
  exists u, findUpgrade id e = Some u
            /\ Upgrade.effect u = Upgrade.effect c
            /\ 0 <= Upgrade.currentLevel u <= Upgrade.maxLevel c.
Proof.
  intros Hc Hl Hf. unfold findUpgrade. fold (upgradesOf e).
  rewrite <- Hc in Hf. rewrite find_map in Hf by reflexivity.
  destruct (find _ (upgradesOf e)) as [u|] eqn:E; [|discriminate].
  injection Hf as <-. exists u. split; [reflexivity|]. split; [reflexivity|].
  apply find_some in E. destruct E as [Hin _].
  unfold levelsInv in Hl. rewrite Forall_forall in Hl. exact (Hl u Hin).
Qed.

Lemma config_micro fuel e e' : Micro fuel e e' -> config e' = config e.
Proof.
  destruct 1; try reflexivity.
  unfold startLevel in *.
  destruct (Levels.generateLevel fuel (levelOf e)); [|discriminate].
  match goal with H : Some _ = Some _ |- _ => injection H as <- end.
  reflexivity.
Qed.

(** The score multiplier at the levels [l1] of Score Boost and [l2] of
    Perfect Master, on doubles. *)
Definition scoreAt (r : HitRating) (l1 l2 : Z) : Q :=
  let m := JSNumber.fadd 1 (JSNumber.fmul (inject_Z l1) (15 # 100)) in
  match r with
  | Perfect => JSNumber.fadd m (JSNumber.fmul (inject_Z l2) (2 # 10))
  | _ => m
  end.

Lemma scoreAt_bounds r l1 l2 :
  0 <= l1 <= 10 -> 0 <= l2 <= 10 -> (1 <= scoreAt r l1 l2 <= 45 # 10)%Q.
Proof.
  intros H1 H2. revert l2 H2. pattern l1. apply (upTo _ 11); [|lia].
  intros a Ha l2 H2. pattern l2. apply (upTo _ 11); [|lia]. intros b Hb.
  assert (Hall : forallb
                   (fun a => forallb
                      (fun b => Qle_bool 1 (scoreAt Perfect a b)
                                && Qle_bool (scoreAt Perfect a b) (45 # 10)
                                && Qle_bool 1 (scoreAt Good a b)
                                && Qle_bool (scoreAt Good a b) (45 # 10))
                      (map Z.of_nat (seq 0 11)))
                   (map Z.of_nat (seq 0 11)) = true) by (vm_compute; reflexivity).
  rewrite forallb_forall in Hall. specialize (Hall a Ha).
  rewrite forallb_forall in Hall. specialize (Hall b Hb).
  apply andb_prop in Hall. destruct Hall as [Hall G2].
  apply andb_prop in Hall. destruct Hall as [Hall G1].
  apply andb_prop in Hall. destruct Hall as [P1 P2].
  apply Qle_bool_iff in P1, P2, G1, G2.
  destruct r; [split; assumption| | |];
    change (1 <= scoreAt Good a b <= 45 # 10)%Q; split; assumption.
Qed.

Lemma level_bounds (level : Z) : 0 <= level <= 10 -> (0 <= inject_Z level <= 10)%Q.
Proof.
  intros [H0 H1]. split.
  - change 0%Q with (inject_Z 0). now rewrite <- Zle_Qle.
  - change 10%Q with (inject_Z 10). now rewrite <- Zle_Qle.
Qed.

(** What the upgrades can do, with the upgrades of the catalog at levels
    within their ranges. *)
Lemma effect_bounds e :
  config e = DEFAULT_CONFIG -> catalogInv e -> levelsInv e ->
  (200 <= effectiveSpeed e <= 400)%Q
  /\ (150 <= effectiveWindow e <= 300)%Q
  /\ (0 <= shieldChance e <= 8 # 10)%Q
  /\ (forall r, (1 <= scoreMultiplier r e <= 45 # 10)%Q).
Proof.
  intros Hcfg Hc Hl.
  assert (Hb : forall id c,
             find (fun u => String.eqb (Upgrade.id u) id)
                  (map (Upgrade.set_currentLevel 0) UPGRADE_DEFINITIONS) = Some c ->
             Upgrade.maxLevel c = 10 ->
             exists level, upgradeBonus id e = Some (inject_Z level * Upgrade.effect c)%Q
                           /\ (0 <= inject_Z level <= 10)%Q).
  { intros id c Hf Hmax.
    destruct (findUpgrade_catalog id c e Hc Hl Hf) as (u & Hu & He & Hlev).
    exists (Upgrade.currentLevel u). unfold upgradeBonus. rewrite Hu. cbn [option_map].
    rewrite He. split; [reflexivity|]. apply level_bounds. lia. }
  split.
  { destruct (Hb "slow_notes"%string _ eq_refl eq_refl) as (level & Hbonus & Hlev).
    unfold effectiveSpeed. rewrite Hbonus, Hcfg. cbn [GameConfig.baseNoteSpeed DEFAULT_CONFIG
      Upgrade.effect Upgrade.set_currentLevel]. lra. }
  split.
  { destruct (findUpgrade_catalog "timing"%string _ e Hc Hl eq_refl) as (u & Hu & He & Hlev).
    cbn [Upgrade.effect Upgrade.maxLevel Upgrade.set_currentLevel] in He, Hlev.
    rewrite (effectiveWindow_default e u Hcfg Hu He).
    exact (proj2 (windowAt_near _ Hlev)). }
  split.
  { destruct (Hb "combo_shield"%string _ eq_refl eq_refl) as (level & Hbonus & Hlev).
    unfold shieldChance. rewrite Hbonus. cbn [Upgrade.effect Upgrade.set_currentLevel]. lra. }
  intros r.
  destruct (findUpgrade_catalog "multiplier"%string _ e Hc Hl eq_refl)
    as (u1 & Hu1 & He1 & Hl1).
  destruct (findUpgrade_catalog "perfect_bonus"%string _ e Hc Hl eq_refl)
    as (u2 & Hu2 & He2 & Hl2).
  cbn [Upgrade.effect Upgrade.maxLevel Upgrade.set_currentLevel] in He1, Hl1, He2, Hl2.
  unfold scoreMultiplier, upgradeProduct. rewrite Hu1, Hu2. cbn [option_map].
  rewrite He1, He2.
  apply (scoreAt_bounds r (Upgrade.currentLevel u1) (Upgrade.currentLevel u2) Hl1 Hl2).
Qed.

Lemma config_run fuel evs e e' : run fuel evs e = Some e' -> config e' = config e.
Proof.
  intros Hr. apply run_Steps in Hr.
  apply (Steps_related fuel (fun a b => config b = config a));
    [reflexivity | intros; congruence | intros a b Hm; apply (config_micro fuel a b Hm)
    | exact Hr].
Qed.

(** X16.  What the upgrades can do is bounded.  After any sequence of
    events from an engine with the configuration of the game, the upgrades
    of the catalog and points and levels in range (a new engine is one),
    the note speed lies between 200 and 400 (it is never 0, so the travel
    time of a note is finite), the hit window between 150 and 300, the
    chance to keep the combo on a miss between 0 and 0.8, and the score
    multiplier of a hit between 1 and 4.5. *)
Theorem upgrade_effects_bounded (fuel : nat) (evs : list Event) (e e' : Engine.t) :
  config e = DEFAULT_CONFIG -> Economy e -> run fuel evs e = Some e' ->
  (200 <= effectiveSpeed e' <= 400)%Q
  /\ (150 <= effectiveWindow e' <= 300)%Q
  /\ (0 <= shieldChance e' <= 8 # 10)%Q
  /\ (forall r, (1 <= scoreMultiplier r e' <= 45 # 10)%Q).
Proof.
  intros Hcfg HE Hr.
  destruct (Economy_run _ _ _ _ HE Hr) as [Hc Hl _ _ _].
  apply effect_bounds; [|exact Hc | exact Hl].
  rewrite (config_run _ _ _ _ Hr). exact Hcfg.
Qed.

(** A new engine with 1000 points, after a click on the last upgrade
    button (Focus Mode, -5% note speed). *)
Definition slowed : Engine.t :=
  Eval vm_compute in
    match run 4 [Click 100 420] MenuFacts.funded with
    | Some e => e
    | None => MenuFacts.funded
    end.

Lemma upgrade_effects_bounded_witness :
  (200 <= effectiveSpeed slowed <= 400)%Q /\ (effectiveSpeed slowed == 380)%Q.
Proof.
  split; [|reflexivity].
  apply (upgrade_effects_bounded 4 [Click 100 420] MenuFacts.funded slowed).
  - reflexivity.
  - constructor.
    + reflexivity.
    + repeat constructor; cbn; lia.
    + cbn; lia.
    + cbn; lia.
    + split; [split; cbn; lia | apply comboInv_start].
  - vm_compute. reflexivity.
Defined.

(** *** The loop over the notes, note by note *)


Definition timeOf (e : Engine.t) : Q := GameState.gameTime (state e).




(** *** The schedule of a note *)
























End TimingFacts.
(* ------------------------------------------------------------------------- *)
(** ** The screens and the state behind them *)

Module ViewFacts.
Import QBool QBoolFacts JSArray Engine EngineFacts UpdateFacts StepFacts Atomic ListFacts
       PlayFacts ScoreFacts View.

(** *** The results screen *)

Lemma purchase_screen i e : screenOf (purchase i e) = screenOf e.
Proof.
  unfold purchase. destruct (nth_error _ i); [|reflexivity].
  destruct (_ <? _); [|reflexivity]. destruct (_ <=? _); reflexivity.
Qed.

(** The results screen is entered by [endLevel] only, and an event that
    stays on it changes neither the score nor the level nor its record. *)
Lemma results_step fuel ev e e' :
  step fuel ev e = Some e' -> screenOf e' = Results ->
  (screenOf e = Results /\ state e' = state e
   \/ screenOf e = Results /\ currentScore e' = currentScore e /\ levelOf e' = levelOf e
      /\ GameState.levelHighScores (state e') = GameState.levelHighScores (state e)
      /\ GameState.highestLevel (state e') = GameState.highestLevel (state e))
  \/ exists x deltaTime, screenOf x = Playing /\ e' = effects deltaTime (endLevel x).
Proof.
  intros Hs Hr. destruct (screenOf e) eqn:Ee.
  - (* menu *)
    exfalso. destruct ev as [deltaTime rolls|key|key|x y|width height]; cbn [step] in Hs.
    + destruct (update_cases _ _ _ _ _ Hs) as (e1 & H1 & ->).
      unfold running in H1. rewrite Ee in H1. cbn [andb] in H1. injection H1 as <-.
      rewrite (keeps_screen _ _ (Keeps_effects deltaTime e)), Ee in Hr. discriminate.
    + unfold handleKeyDown in Hs. cbv zeta in Hs.
      destruct (GameState.rebindingLane (state e)) as [lane|].
      { destruct (negb _); injection Hs as <-;
          change (screenOf e = Results) in Hr; congruence. }
      fold (screenOf e) in Hs. rewrite Ee in Hs.
      destruct (String.eqb key " ").
      { apply screenOf_startLevel in Hs. congruence. }
      destruct (_ || _); [injection Hs as <-; change (screenOf e = Results) in Hr; congruence|].
      destruct (_ || _); injection Hs as <-; change (screenOf e = Results) in Hr; congruence.
    + injection Hs as <-. unfold handleKeyUp in Hr. cbv zeta in Hr.
      destruct (indexOf _ _); change (screenOf e = Results) in Hr; congruence.
    + unfold handleClick in Hs. fold (screenOf e) in Hs. rewrite Ee in Hs.
      unfold handleMenuClick in Hs. cbv zeta in Hs.
      destruct (_ && _).
      { apply screenOf_startLevel in Hs. congruence. }
      destruct (_ && _); [injection Hs as <-; change (screenOf e = Results) in Hr; congruence|].
      destruct (_ && _); [injection Hs as <-; change (screenOf e = Results) in Hr; congruence|].
      destruct (buttonAt _ _ _ _).
      { injection Hs as <-. rewrite purchase_screen in Hr. congruence. }
      destruct (buttonAt _ _ _ _); injection Hs as <-;
        change (screenOf e = Results) in Hr; congruence.
    + injection Hs as <-. change (screenOf e = Results) in Hr. congruence.
  - (* playing *)
    destruct ev as [deltaTime rolls|key|key|x y|width height]; cbn [step] in Hs.
    + destruct (update_cases _ _ _ _ _ Hs) as (e1 & H1 & ->).
      rewrite (keeps_screen _ _ (Keeps_effects deltaTime e1)) in Hr.
      destruct (running e).
      2:{ injection H1 as <-. congruence. }
      destruct (updateGameplay_cases _ _ _ _ _ H1)
        as [[_ ->]|(lc & rng & nb & notes & c & rng' & _ & _ & _ & ->)]; [congruence|].
      match type of Hr with screenOf (closeFrame ?x) = _ =>
        assert (Hp2 : screenOf x = Playing)
          by (rewrite (keeps_screen _ _ (Keeps_settled _ _ _)); exact Ee);
        right; exists x, deltaTime; split; [exact Hp2|];
        unfold closeFrame in *; destruct (10 <=? missesOf x); [reflexivity | congruence]
      end.
    + rewrite (handleKeyDown_playing _ _ _ _ Ee Hs) in Hr. discriminate.
    + injection Hs as <-. unfold handleKeyUp in Hr. cbv zeta in Hr.
      destruct (indexOf _ _); change (screenOf e = Results) in Hr; congruence.
    + unfold handleClick in Hs. fold (screenOf e) in Hs. rewrite Ee in Hs.
      injection Hs as <-. congruence.
    + injection Hs as <-. change (screenOf e = Results) in Hr. congruence.
  - (* results *)
    left. destruct ev as [deltaTime rolls|key|key|x y|width height]; cbn [step] in Hs.
    + destruct (update_cases _ _ _ _ _ Hs) as (e1 & H1 & ->).
      unfold running in H1. rewrite Ee in H1. cbn [andb] in H1. injection H1 as <-.
      right. split; [reflexivity|]. split; [|repeat split; reflexivity].
      unfold currentScore, scoreOf, effects, updateDisplayScore. cbn.
      destruct (ltb _ 1); reflexivity.
    + unfold handleKeyDown in Hs. cbv zeta in Hs.
      destruct (GameState.rebindingLane (state e)) as [lane|].
      { right. destruct (negb _); injection Hs as <-; repeat split; reflexivity. }
      fold (screenOf e) in Hs. rewrite Ee in Hs. injection Hs as <-.
      destruct (String.eqb key " "); [discriminate|]. left. split; reflexivity.
    + injection Hs as <-. right. unfold handleKeyUp. cbv zeta.
      destruct (indexOf _ _); repeat split; reflexivity.
    + unfold handleClick in Hs. fold (screenOf e) in Hs. rewrite Ee in Hs.
      injection Hs as <-. discriminate.
    + injection Hs as <-. right. repeat split; reflexivity.
Qed.

(** On the results screen the score of the level is at most its record. *)
Definition resultsInv (e : Engine.t) : Prop :=
  screenOf e = Results -> currentScore e <= bestScore (levelOf e) e.

Lemma currentScore_effects deltaTime e : currentScore (effects deltaTime e) = currentScore e.
Proof.
  unfold currentScore, scoreOf, effects, updateDisplayScore. cbn.
  destruct (ltb _ 1); reflexivity.
Qed.

Lemma levelOf_endLevel e : levelOf (endLevel e) = levelOf e.
Proof.
  unfold levelOf, endLevel. cbv zeta.
  destruct (_ <? _); destruct (_ <? _); destruct (_ && _); reflexivity.
Qed.

Lemma resultsInv_step fuel ev e e' :
  step fuel ev e = Some e' -> resultsInv e -> resultsInv e'.
Proof.
  intros Hs HI Hr. unfold bestScore.
  destruct (results_step _ _ _ _ Hs Hr)
    as [[[He Hst]|(He & -> & -> & -> & _)]|(x & deltaTime & _ & ->)].
  - specialize (HI He). unfold currentScore, scoreOf, levelOf, bestScore in *.
    rewrite Hst. exact HI.
  - exact (HI He).
  - rewrite currentScore_effects.
    change (levelOf (effects deltaTime (endLevel x))) with (levelOf (endLevel x)).
    rewrite levelOf_endLevel.
    change (GameState.levelHighScores (state (effects deltaTime (endLevel x))))
      with (GameState.levelHighScores (state (endLevel x))).
    fold (bestScore (levelOf x) (endLevel x)).
    destruct (endLevel_records x) as (-> & _).
    unfold currentScore. rewrite scoreOf_endLevel. fold (currentScore x). lia.
Qed.

Lemma resultsInv_run fuel evs : forall e e',
  run fuel evs e = Some e' -> resultsInv e -> resultsInv e'.
Proof.
  induction evs as [|ev evs IH]; intros e e'; cbn [run].
  - now intros [= <-].
  - destruct (step fuel ev e) as [e1|] eqn:Es; [|discriminate].
    intros Hr HI. apply (IH _ _ Hr). eapply resultsInv_step; eassumption.
Qed.

(** X18.  The results screen never announces a new high score.
    [endLevel] stores the record before the screen is drawn, so on the
    results screen the score is never above the stored record of the
    level: [isNewHighScore] is false and the line is not drawn, on a new
    engine and after any sequence of events, also when the level has just
    set a record. *)
Theorem new_high_score_never_shown (fuel : nat) (evs : list Event) (e e' : Engine.t) :
  (forall width height, resultsInv (create width height))
  /\ (resultsInv e -> run fuel evs e = Some e' -> screenOf e' = Results ->
      isNewHighScore (state e') = false /\ newHighScoreLine (state e') = None)
  /\ (bestScore (levelOf e) e < currentScore e ->
      bestScore (levelOf e) (endLevel e) = currentScore e
      /\ newHighScoreLine (state (endLevel e)) = None).
Proof.
  split; [intros w h; unfold resultsInv; cbn; discriminate|].
  split.
  - intros HI Hr Hs. pose proof (resultsInv_run _ _ _ _ Hr HI Hs) as H.
    assert (Hn : isNewHighScore (state e') = false).
    { unfold isNewHighScore. apply Z.ltb_ge. exact H. }
    split; [exact Hn|]. unfold newHighScoreLine. now rewrite Hn.
  - intros Hlt. destruct (endLevel_records e) as (Hb & _). cbv zeta in Hb.
    split; [rewrite Hb; lia|].
    unfold newHighScoreLine, isNewHighScore.
    fold (levelOf (endLevel e)). rewrite levelOf_endLevel.
    fold (bestScore (levelOf e) (endLevel e)). rewrite Hb.
    fold (scoreOf (endLevel e)). rewrite scoreOf_endLevel. fold (currentScore e).
    replace (Z.max _ _ <? currentScore e) with false; [reflexivity|].
    symmetry. apply Z.ltb_ge. lia.
Qed.

Lemma new_high_score_never_shown_witness :
  bestScore 1 lastFrames = 0 /\ currentScore ended = 2575 /\ bestScore 1 ended = 2575
  /\ screenOf ended = Results /\ newHighScoreLine (state ended) = None.
Proof.
  split; [reflexivity|]. split; [reflexivity|]. split; [reflexivity|].
  split; [reflexivity|].
  assert (Hr : run 4 (repeat Samples.tick 20) lastFrames = Some ended)
    by (vm_compute; reflexivity).
  destruct (new_high_score_never_shown 4 (repeat Samples.tick 20) lastFrames ended)
    as (_ & H & _).
  apply H; [|exact Hr | reflexivity].
  unfold resultsInv. cbn. discriminate.
Defined.

(** *** The line on the next level *)

(** X19.  After [endLevel] the results screen draws
    'Level n+1 Unlocked!' exactly if the score reached 1000 * level and the
    level played was the highest one or the one below it, whereas
    [endLevel] raises highestLevel only for the highest one: after a replay
    of the level below the highest with such a score the line is drawn
    although nothing was unlocked.  The points drawn are the points
    [endLevel] added. *)
Theorem unlock_line_after_endLevel (e : Engine.t) :
  let level := levelOf e in
  let after := state (endLevel e) in
  (unlockedNext after = true
   <-> 1000 * level <= currentScore e /\ highestOf e <= level + 1)
  /\ (highestOf e < highestOf (endLevel e)
      <-> 1000 * level <= currentScore e /\ highestOf e <= level)
  /\ (unlockedNext after = true /\ highestOf (endLevel e) = highestOf e
      <-> 1000 * level <= currentScore e /\ highestOf e = level + 1)
  /\ (unlockLine after = None
      <-> level + 1 < highestOf e
          \/ (level + 1 = highestOf e /\ currentScore e < 1000 * level))
  /\ pointsOf (endLevel e) = pointsOf e + pointsEarned after.
Proof.
  cbv zeta.
  assert (Hh : highestOf (endLevel e)
               = if (highestOf e <=? levelOf e) && (1000 * levelOf e <=? currentScore e)
                 then levelOf e + 1 else highestOf e).
  { unfold highestOf, levelOf, currentScore, scoreOf, endLevel. cbv zeta.
    destruct (_ <? _); destruct (_ <? _); destruct (_ && _); reflexivity. }
  assert (Hu : unlockedNext (state (endLevel e))
               = (1000 * levelOf e <=? currentScore e)
                 && (highestOf (endLevel e) - 1 <=? levelOf e)).
  { unfold unlockedNext, unlockThreshold.
    fold (levelOf (endLevel e)). rewrite levelOf_endLevel.
    fold (scoreOf (endLevel e)). rewrite scoreOf_endLevel. reflexivity. }
  assert (Hl : unlockLine (state (endLevel e)) = None
               <-> unlockedNext (state (endLevel e)) = false
                   /\ levelOf e < highestOf (endLevel e)).
  { unfold unlockLine.
    fold (levelOf (endLevel e)). rewrite levelOf_endLevel.
    fold (highestOf (endLevel e)).
    destruct (unlockedNext _); [split; [discriminate | intros [? _]; discriminate]|].
    destruct (Z.leb_spec (highestOf (endLevel e)) (levelOf e)).
    - split; [discriminate | intros [_ ?]; lia].
    - split; [intros _; split; [reflexivity | assumption] | reflexivity]. }
  rewrite Hl, Hu, Hh. clear Hl Hu Hh.
  destruct (Z.leb_spec (highestOf e) (levelOf e)) as [H1|H1];
    destruct (Z.leb_spec (1000 * levelOf e) (currentScore e)) as [H2|H2];
    cbn [andb];
    repeat match goal with
           | |- context [?a <=? ?b] => destruct (Z.leb_spec a b)
           end;
    (split; [|split; [|split; [|split]]]);
    try (split; intros; try discriminate; try reflexivity; try lia;
         repeat match goal with H : _ /\ _ |- _ => destruct H end;
         try discriminate; try lia; try (split; [reflexivity | lia]);
         try (split; lia); fail).
  all: try (destruct (endLevel_records e) as (_ & _ & _ & ->);
            unfold pointsEarned; fold (scoreOf (endLevel e));
            rewrite scoreOf_endLevel; reflexivity).
Qed.

(** *** The menu *)

Lemma modify_same (f : GameState.t -> GameState.t) e :
  f (state e) = state e -> modify_state f e = e.
Proof.
  unfold modify_state, set_state. intros ->. destruct e; reflexivity.
Qed.

(** X20.  The menu shows what a click does.  The border of an
    upgrade button is cyan exactly if the upgrade is below its maximum and
    the points suffice; then the button reads the cost that [purchase]
    takes, and the purchase raises the level by one.  With any other
    border, and whenever the button reads MAXED, the purchase changes
    nothing.  With the selected level between 1 and highestLevel, a cyan
    arrow moves the level by one in its direction and a grey one changes
    nothing. *)
Theorem menu_shows_what_clicks_do (i : nat) (upgrade : Upgrade.t) (e : Engine.t) :
  nth_error (upgradesOf e) i = Some upgrade ->
  levelInv e ->
  let s := state e in
  (upgradeBorder s upgrade = NEON_COLORS.cyan
   <-> Upgrade.currentLevel upgrade < Upgrade.maxLevel upgrade
       /\ getUpgradeCost upgrade <= pointsOf e)
  /\ (upgradeBorder s upgrade = NEON_COLORS.cyan ->
      upgradeLine s upgrade
      = (NEON_COLORS.green,
         ("Cost: " ++ LevelNames.decimal (pointsOf e - pointsOf (purchase i e)))%string)
      /\ nth_error (upgradesOf (purchase i e)) i
         = Some (Upgrade.set_currentLevel (Upgrade.currentLevel upgrade + 1) upgrade))
  /\ (upgradeBorder s upgrade <> NEON_COLORS.cyan -> purchase i e = e)
  /\ (snd (upgradeLine s upgrade) = "MAXED"%string -> purchase i e = e)
  /\ (leftArrow s = NEON_COLORS.cyan -> levelOf (levelDown e) = levelOf e - 1)
  /\ (leftArrow s <> NEON_COLORS.cyan -> levelDown e = e)
  /\ (rightArrow s = NEON_COLORS.cyan -> levelOf (levelUp e) = levelOf e + 1)
  /\ (rightArrow s <> NEON_COLORS.cyan -> levelUp e = e).
Proof.
  intros Hu [Hl1 Hl2]. cbv zeta.
  assert (Hb : upgradeBorder (state e) upgrade = NEON_COLORS.cyan
               <-> Upgrade.currentLevel upgrade < Upgrade.maxLevel upgrade
                   /\ getUpgradeCost upgrade <= pointsOf e).
  { unfold upgradeBorder, isMaxed, canAfford. fold (pointsOf e).
    change (cost upgrade) with (getUpgradeCost upgrade).
    destruct (Z.leb_spec (Upgrade.maxLevel upgrade) (Upgrade.currentLevel upgrade)).
    - split; [discriminate | lia].
    - destruct (Z.leb_spec (getUpgradeCost upgrade) (pointsOf e)).
      + split; [intros _; split; assumption | reflexivity].
      + split; [discriminate | lia]. }
  assert (Hno : ~ Upgrade.currentLevel upgrade < Upgrade.maxLevel upgrade ->
                purchase i e = e).
  { intros H. unfold purchase. fold (upgradesOf e). rewrite Hu.
    destruct (Z.ltb_spec (Upgrade.currentLevel upgrade) (Upgrade.maxLevel upgrade));
      [contradiction | reflexivity]. }
  split; [exact Hb|].
  split; [|split; [|split]].
  - intros Hc. apply Hb in Hc. destruct Hc as [H1 H2].
    assert (Hp : pointsOf (purchase i e) = pointsOf e - getUpgradeCost upgrade
                 /\ nth_error (upgradesOf (purchase i e)) i
                    = Some (Upgrade.set_currentLevel (Upgrade.currentLevel upgrade + 1)
                                                     upgrade)).
    { unfold purchase. fold (upgradesOf e). rewrite Hu.
      apply Z.ltb_lt in H1. rewrite H1.
      fold (pointsOf e). apply Z.leb_le in H2. rewrite H2.
      split; [reflexivity|]. unfold upgradesOf in *. cbn.
      rewrite (CleanUpFacts.nth_error_updateAt _ _ _ _ Hu). reflexivity. }
    destruct Hp as [Hp Hn]. split; [|exact Hn].
    unfold upgradeLine, isMaxed, canAfford. fold (pointsOf e).
    change (cost upgrade) with (getUpgradeCost upgrade).
    destruct (Z.leb_spec (Upgrade.maxLevel upgrade) (Upgrade.currentLevel upgrade)); [lia|].
    destruct (Z.leb_spec (getUpgradeCost upgrade) (pointsOf e)); [|lia].
    rewrite Hp.
    replace (pointsOf e - (pointsOf e - getUpgradeCost upgrade))
      with (getUpgradeCost upgrade) by lia.
    reflexivity.
  - intros Hc.
    destruct (Z.ltb_spec (Upgrade.currentLevel upgrade) (Upgrade.maxLevel upgrade));
      [|apply Hno; lia].
    unfold purchase. fold (upgradesOf e). rewrite Hu. fold (pointsOf e).
    destruct (Z.ltb_spec (Upgrade.currentLevel upgrade) (Upgrade.maxLevel upgrade));
      [|reflexivity].
    destruct (Z.leb_spec (getUpgradeCost upgrade) (pointsOf e)); [|reflexivity].
    exfalso. apply Hc. apply Hb. split; assumption.
  - unfold upgradeLine, isMaxed.
    destruct (Z.leb_spec (Upgrade.maxLevel upgrade) (Upgrade.currentLevel upgrade)).
    + intros _. apply Hno. lia.
    + cbn [snd]. intros Hq. discriminate Hq.
  - unfold levelOf, highestOf in *.
    unfold leftArrow, rightArrow, levelDown, levelUp.
    destruct (Z.ltb_spec 1 (GameState.currentLevelNum (state e))) as [H1|H1];
      destruct (Z.ltb_spec (GameState.currentLevelNum (state e))
                           (GameState.highestLevel (state e))) as [H2|H2];
      (split; [|split; [|split]]); intros H; try discriminate; try congruence;
      try (cbn; lia);
      apply modify_same; clear Hu Hb Hno H; revert Hl1 Hl2 H1 H2;
      generalize (state e); intros st; destruct st; cbn; intros;
      unfold GameState.set_currentLevelNum; cbn; f_equal; lia.
Qed.

Lemma menu_shows_what_clicks_do_witness :
  upgradeLine (state MenuFacts.funded)
              (nth 4 UPGRADE_DEFINITIONS (Upgrade.mk "" "" "" 0 0 0 0))
  = (NEON_COLORS.green, "Cost: 120"%string)
  /\ levelDown MenuFacts.funded = MenuFacts.funded.
Proof.
  pose (d := Upgrade.mk "" "" "" 0 0 0 0).
  destruct (menu_shows_what_clicks_do 4 (nth 4 UPGRADE_DEFINITIONS d) MenuFacts.funded)
    as (_ & Hbuy & _ & _ & _ & Hleft & _).
  - reflexivity.
  - unfold levelInv. cbn. lia.
  - split.
    + destruct (Hbuy eq_refl) as [Hp _]. exact Hp.
    + apply Hleft. discriminate.
Defined.

(** *** The countdown *)

Definition forward (ev : Event) : Prop :=
  match ev with
  | Frame deltaTime _ => (0 <= deltaTime)%Q
  | _ => True
  end.

(** While playing, the game time is not before the start of the countdown. *)
Definition clockInv (e : Engine.t) : Prop :=
  screenOf e = Playing -> (-2 <= TimingFacts.timeOf e)%Q.

Lemma timeOf_endLevel e : TimingFacts.timeOf (endLevel e) = TimingFacts.timeOf e.
Proof.
  unfold TimingFacts.timeOf, endLevel. cbv zeta.
  destruct (_ <? _); destruct (_ <? _); destruct (_ && _); reflexivity.
Qed.

Ltac stays :=
  left; split;
  [reflexivity
  |let Hq := fresh "Hq" in
   intros Hq;
   first [exact Hq | discriminate Hq | congruence
         | match goal with
           | Ee : screenOf ?x = _ |- _ => change (screenOf x = Playing) in Hq; congruence
           end]].

(** What an event does to the clock of the level: nothing, or the level
    starts at -2, or a frame of the running level adds its time. *)
Lemma clock_step fuel ev e e' :
  step fuel ev e = Some e' ->
  (TimingFacts.timeOf e' = TimingFacts.timeOf e
   /\ (screenOf e' = Playing -> screenOf e = Playing))
  \/ (screenOf e' = Playing /\ TimingFacts.timeOf e' = (-2)%Q /\ screenOf e = Menu)
  \/ (exists deltaTime rolls,
         ev = Frame deltaTime rolls /\ running e = true
         /\ TimingFacts.timeOf e' = (TimingFacts.timeOf e + deltaTime)%Q).
Proof.
  unfold TimingFacts.timeOf.
  assert (Hstart : forall levelNum, startLevel fuel levelNum e = Some e' ->
             screenOf e = Menu ->
             screenOf e' = Playing /\ GameState.gameTime (state e') = (-2)%Q
             /\ screenOf e = Menu).
  { intros levelNum Hs Hm. split; [eapply screenOf_startLevel; eassumption|].
    split; [|exact Hm].
    destruct (startLevel_fields _ _ _ _ Hs)
      as (_ & _ & _ & _ & _ & _ & _ & _ & _ & _ & _ & _ & _ & _ & Ht & _).
    exact Ht. }
  destruct ev as [deltaTime rolls|key|key|x y|width height]; cbn [step]; intros Hs.
  - destruct (update_cases _ _ _ _ _ Hs) as (e1 & H1 & ->).
    rewrite (keeps_time _ _ (Keeps_effects deltaTime e1)).
    rewrite (keeps_screen _ _ (Keeps_effects deltaTime e1)).
    destruct (running e) eqn:Er.
    2:{ injection H1 as <-. stays. }
    destruct (updateGameplay_cases _ _ _ _ _ H1)
      as [[_ ->]|(lc & rng & nb & notes & c & rng' & _ & _ & _ & ->)]; [stays|].
    right. right. exists deltaTime, rolls. split; [reflexivity|]. split; [reflexivity|].
    match goal with |- GameState.gameTime (state (closeFrame ?x)) = _ =>
      assert (Hx : GameState.gameTime (state (closeFrame x)) = GameState.gameTime (state x))
    end.
    { unfold closeFrame. destruct (10 <=? _); [apply timeOf_endLevel | reflexivity]. }
    rewrite Hx. rewrite (keeps_time _ _ (Keeps_settled _ _ _)). reflexivity.
  - unfold handleKeyDown in Hs. cbv zeta in Hs.
    destruct (GameState.rebindingLane (state e)) as [lane|].
    { destruct (negb _); injection Hs as <-; stays. }
    fold (screenOf e) in Hs. destruct (screenOf e) eqn:Ee.
    + destruct (String.eqb key " "); [right; left; eapply Hstart; eauto|].
      destruct (_ || _); [injection Hs as <-; stays|].
      destruct (_ || _); injection Hs as <-; stays.
    + clear Hstart. injection Hs as <-. left. split; [|intros _; reflexivity].
      match goal with |- GameState.gameTime (state (if _ then modify_state _ ?x else ?x)) = _ =>
        assert (Hx : GameState.gameTime (state x) = GameState.gameTime (state e)) end.
      { destruct (indexOf _ _) as [laneIndex|]; [|reflexivity].
        destruct (nth_error _ laneIndex) as [lane|]; [|reflexivity].
        destruct (negb _); [|reflexivity].
        rewrite (keeps_time _ _ (Keeps_tryHitNote _ _)). reflexivity. }
      destruct (String.eqb key "Escape"); exact Hx.
    + injection Hs as <-. destruct (String.eqb key " "); stays.
  - injection Hs as <-. unfold handleKeyUp. cbv zeta.
    destruct (indexOf _ _); stays.
  - unfold handleClick in Hs. fold (screenOf e) in Hs. destruct (screenOf e) eqn:Ee.
    + unfold handleMenuClick in Hs. cbv zeta in Hs.
      destruct (_ && _); [right; left; eapply Hstart; eauto|].
      destruct (_ && _); [injection Hs as <-; stays|].
      destruct (_ && _); [injection Hs as <-; stays|].
      destruct (buttonAt _ _ _ _).
      { injection Hs as <-. left. rewrite purchase_screen. split; [|congruence].
        unfold purchase.
        destruct (nth_error _ _); [|reflexivity].
        destruct (_ <? _); [|reflexivity]. destruct (_ <=? _); reflexivity. }
      destruct (buttonAt _ _ _ _); injection Hs as <-; stays.
    + injection Hs as <-. stays.
    + injection Hs as <-. stays.
  - injection Hs as <-. left. split; [reflexivity | intros Hq; exact Hq].
Qed.

Lemma clockInv_step fuel ev e e' :
  forward ev -> step fuel ev e = Some e' -> clockInv e -> clockInv e'.
Proof.
  intros Hf Hs HI Hp.
  destruct (clock_step _ _ _ _ Hs)
    as [[Ht Hq]|[(_ & Ht & _)|(deltaTime & rolls & -> & Hr & Ht)]]; rewrite Ht.
  - exact (HI (Hq Hp)).
  - apply Qle_refl.
  - cbn [forward] in Hf.
    assert (Hpe : screenOf e = Playing).
    { unfold running in Hr. destruct (screenOf e); [discriminate | reflexivity | discriminate]. }
    specialize (HI Hpe). lra.
Qed.

Lemma clockInv_run fuel evs : forall e e',
  Forall forward evs -> run fuel evs e = Some e' -> clockInv e -> clockInv e'.
Proof.
  induction evs as [|ev evs IH]; intros e e' Hf; cbn [run].
  - now intros [= <-].
  - destruct (step fuel ev e) as [e1|] eqn:Es; [|discriminate].
    inversion Hf as [|? ? Hf1 Hf2]; subst.
    intros Hr HI. apply (IH _ _ Hf2 Hr). eapply clockInv_step; eassumption.
Qed.

Lemma countdown_cases (t : Q) :
  (t < 0)%Q -> countdownText t = Some (LevelNames.decimal (Qceiling (- t)))
               /\ 1 <= Qceiling (- t).
Proof.
  intros Ht. unfold countdownText. cbv zeta.
  destruct (ltb t 0) eqn:E; [|apply ltb_ge in E; exfalso; lra].
  assert (H1 : 1 <= Qceiling (- t)).
  { assert (H : (inject_Z 0 < inject_Z (Qceiling (- t)))%Q).
    { eapply Qlt_le_trans; [|apply Qle_ceiling]. change (inject_Z 0) with 0%Q. lra. }
    rewrite <- Zlt_Qlt in H. lia. }
  split; [|exact H1].
  destruct (Z.ltb_spec 0 (Qceiling (- t))); [reflexivity | lia].
Qed.

(** X21.  The countdown never says GO.  Whenever a countdown is
    drawn the game time is negative, so the number drawn, the ceiling of
    its opposite, is at least 1 and the branch of 'GO!' is never taken.
    On a new engine and in every run whose frames have deltaTime >= 0, the
    game time of a level being played is at least -2, so the countdown
    reads 2 or 1, and it is drawn exactly while the game time is negative. *)
Theorem countdown_never_says_go (fuel : nat) (evs : list Event) (e e' : Engine.t) :
  (forall t, countdownText t <> Some "GO!"%string)
  /\ (forall t, countdownText t = None <-> (0 <= t)%Q)
  /\ (forall width height, clockInv (create width height))
  /\ (clockInv e -> Forall forward evs -> run fuel evs e = Some e' ->
      screenOf e' = Playing -> (TimingFacts.timeOf e' < 0)%Q ->
      countdownText (TimingFacts.timeOf e') = Some "2"%string
      \/ countdownText (TimingFacts.timeOf e') = Some "1"%string).
Proof.
  split.
  { intros t. destruct (Qlt_le_dec t 0) as [Ht|Ht].
    - destruct (countdown_cases t Ht) as [-> H1].
      intros [= H]. change "GO!"%string with ("G" ++ "O!")%string in H.
      destruct (Qceiling (- t)) as [|p|p]; try lia.
      unfold LevelNames.decimal in H. cbn in H.
      destruct (Pos.to_uint p); cbn in H; discriminate.
    - unfold countdownText. destruct (ltb t 0) eqn:E; [|discriminate].
      apply ltb_lt in E. lra. }
  split.
  { intros t. unfold countdownText. cbv zeta. destruct (ltb t 0) eqn:E.
    - apply ltb_lt in E. split; [discriminate | lra].
    - apply ltb_ge in E. tauto. }
  split; [intros w h; unfold clockInv; cbn; discriminate|].
  intros HI Hf Hr Hp Ht.
  pose proof (clockInv_run _ _ _ _ Hf Hr HI Hp) as Hlow.
  destruct (countdown_cases _ Ht) as [-> H1].
  assert (H2 : Qceiling (- TimingFacts.timeOf e') <= 2).
  { assert (H : (inject_Z (Qceiling (- TimingFacts.timeOf e') - 1) < inject_Z 2)%Q).
    { eapply Qlt_le_trans; [apply Qceiling_lt|]. change (inject_Z 2) with 2%Q. lra. }
    rewrite <- Zlt_Qlt in H. lia. }
  assert (Hc : Qceiling (- TimingFacts.timeOf e') = 2 \/ Qceiling (- TimingFacts.timeOf e') = 1)
    by lia.
  destruct Hc as [-> | ->]; [left | right]; reflexivity.
Qed.

Lemma countdown_never_says_go_witness :
  TimingFacts.timeOf Samples.started = (-2)%Q
  /\ countdownText (TimingFacts.timeOf Samples.started) = Some "2"%string.
Proof.
  split; [reflexivity|].
  destruct (countdown_never_says_go 4 [] Samples.started Samples.started)
    as (_ & _ & _ & H).
  destruct H as [H|H].
  - unfold clockInv. intros _. vm_compute. discriminate.
  - constructor.
  - reflexivity.
  - reflexivity.
  - vm_compute. reflexivity.
  - exact H.
  - vm_compute in H. discriminate.
Defined.

End ViewFacts.
(* ------------------------------------------------------------------------- *)
(** ** Level names *)

Module NameFacts.
Import Engine EngineFacts Atomic PlayFacts LevelNames.

Lemma to_int_nonnil n : Z.to_int n <> Decimal.Pos Decimal.Nil /\ Z.to_int n <> Decimal.Neg Decimal.Nil.
Proof.
  destruct n as [|p|p]; cbn; split; try discriminate;
    intros [= H]; exact (Unsigned.to_uint_nonnil p H).
Qed.

Lemma decimal_inj n m : decimal n = decimal m -> n = m.
Proof.
  unfold decimal. intros H. apply DecimalZ.to_int_inj.
  destruct (to_int_nonnil n) as [Hn1 Hn2]. destruct (to_int_nonnil m) as [Hm1 Hm2].
  pose proof (NilZero.isi (Z.to_int n) Hn1 Hn2) as H1.
  pose proof (NilZero.isi (Z.to_int m) Hm1 Hm2) as H2.
  rewrite H in H1. congruence.
Qed.

Lemma names_distinct : NoDup names.
Proof.
  unfold names.
  repeat (constructor; [cbn; intuition discriminate|]). constructor.
Qed.

Lemma names_not_numbered name x : In name names -> name <> ("Level " ++ x)%string.
Proof.
  unfold names. cbn. intros H.
  repeat (destruct H as [<-|H]; [discriminate|]). contradiction.
Qed.

Lemma names_not_empty name : In name names -> name <> ""%string.
Proof.
  unfold names. cbn. intros H.
  repeat (destruct H as [<-|H]; [discriminate|]). contradiction.
Qed.

Lemma getLevelName_named n :
  1 <= n <= 16 -> getLevelName n = nth_error names (Z.to_nat (n - 1)).
Proof.
  intros H. unfold getLevelName, nameAt.
  change (Z.of_nat (List.length names)) with 16.
  destruct (Z.leb_spec n 16); [|lia].
  destruct (Z.ltb_spec (n - 1) 0); [lia | reflexivity].
Qed.

Lemma getLevelName_numbered n :
  16 < n -> getLevelName n = Some ("Level " ++ decimal n)%string.
Proof.
  intros H. unfold getLevelName.
  change (Z.of_nat (List.length names)) with 16.
  destruct (Z.leb_spec n 16); [lia | reflexivity].
Qed.

Lemma levelInv_run fuel evs e e' : levelInv e -> run fuel evs e = Some e' -> levelInv e'.
Proof.
  intros HI Hr. apply run_Steps in Hr. revert HI.
  apply (Steps_invariant fuel levelInv); [|exact Hr].
  intros e1 e2 Hm H. now destruct (levelInv_micro _ _ _ Hm H).
Qed.

(** X22.  Every level has a name of its own.  For a level number
    n >= 1, [getLevelName] returns one of the sixteen names for n <= 16 and
    'Level n' beyond; the name is not empty and different levels have
    different names.  For n <= 0 it returns [undefined]; this does not
    happen for the selected level, which is at least 1 on a new engine and
    after any sequence of events. *)
Theorem level_names_are_distinct (fuel : nat) (evs : list Event) (e e' : Engine.t)
    (n m : Z) :
  (1 <= n -> exists name, getLevelName n = Some name /\ name <> ""%string)
  /\ (1 <= n -> 1 <= m -> getLevelName n = getLevelName m -> n = m)
  /\ (n <= 0 -> getLevelName n = None)
  /\ (levelInv e -> run fuel evs e = Some e' -> getLevelName (levelOf e') <> None).
Proof.
  assert (Hsome : forall k, 1 <= k ->
             exists name, getLevelName k = Some name /\ name <> ""%string
                          /\ (k <= 16 -> In name names)).
  { intros k Hk. destruct (Z_le_gt_dec k 16) as [H16|H16].
    - rewrite getLevelName_named by lia.
      destruct (nth_error names (Z.to_nat (k - 1))) as [name|] eqn:E.
      + exists name. apply nth_error_In in E.
        split; [reflexivity|]. split; [now apply names_not_empty | intros _; exact E].
      + apply nth_error_None in E. cbn [List.length names] in E. lia.
    - rewrite getLevelName_numbered by lia. eexists. split; [reflexivity|].
      split; [discriminate | lia]. }
  split; [intros H; destruct (Hsome n H) as (name & H1 & H2 & _); eauto|].
  split.
  { intros Hn Hm.
    destruct (Z_le_gt_dec n 16) as [Hn16|Hn16]; destruct (Z_le_gt_dec m 16) as [Hm16|Hm16].
    - rewrite !getLevelName_named by lia. intros H.
      assert (Hlt : (Z.to_nat (n - 1) < List.length names)%nat)
        by (cbn [List.length names]; lia).
      pose proof (proj1 (NoDup_nth_error names) names_distinct _ _ Hlt H). lia.
    - destruct (Hsome n Hn) as (name & H1 & _ & Hin). rewrite H1.
      rewrite getLevelName_numbered by lia. intros [= H].
      exfalso. exact (names_not_numbered _ _ (Hin Hn16) H).
    - destruct (Hsome m Hm) as (name & H1 & _ & Hin). rewrite H1.
      rewrite getLevelName_numbered by lia. intros [= H].
      exfalso. symmetry in H. exact (names_not_numbered _ _ (Hin Hm16) H).
    - rewrite !getLevelName_numbered by lia. intros [= H].
      apply decimal_inj. exact H. }
  split.
  { intros H. unfold getLevelName, nameAt.
    change (Z.of_nat (List.length names)) with 16.
    destruct (Z.leb_spec n 16); [|lia].
    destruct (Z.ltb_spec (n - 1) 0); [reflexivity | lia]. }
  intros HI Hr. destruct (levelInv_run _ _ _ _ HI Hr) as [H1 _].
  destruct (Hsome _ H1) as (name & -> & _). discriminate.
Qed.

Lemma level_names_are_distinct_witness :
  getLevelName (levelOf Sessions.played) <> None
  /\ getLevelName 16 = Some "Godlike"%string /\ getLevelName 17 = Some "Level 17"%string.
Proof.
  destruct (level_names_are_distinct 4 Sessions.session (create 800 600) Sessions.played 1 1)
    as (_ & _ & _ & H).
  split; [|split; reflexivity].
  apply H; [unfold levelInv; cbn; lia | exact Sessions.session_played].
Defined.

End NameFacts.

(* ------------------------------------------------------------------------- *)
(** ** The frame loop and the clock of the level *)

Module LoopFacts.
Import QBool QBoolFacts Engine EngineFacts UpdateFacts StepFacts Atomic TimingFacts
       ViewFacts Loop.

Lemma frameDelta_cap lastTime currentTime : (frameDelta lastTime currentTime <= 1 # 10)%Q.
Proof.
  unfold frameDelta, min. destruct (leb _ _) eqn:E; [now apply leb_le in E | apply Qle_refl].
Qed.

Lemma frameDelta_elapsed lastTime currentTime :
  (frameDelta lastTime currentTime <= (currentTime - lastTime) / 1000)%Q.
Proof.
  unfold frameDelta, min. destruct (leb _ _) eqn:E; [apply Qle_refl|].
  apply leb_gt in E. now apply Qlt_le_weak.
Qed.

Lemma frameDelta_forward lastTime currentTime :
  (lastTime <= currentTime)%Q -> (0 <= frameDelta lastTime currentTime)%Q.
Proof.
  intros H. unfold frameDelta, min. destruct (leb _ _); [|discriminate].
  unfold Qdiv. change (/ 1000)%Q with (1 # 1000)%Q. lra.
Qed.

(** The time stamps of the frames do not go back. *)
Fixpoint ascending (lastTime : Q) (ticks : list (Q * (nat -> Q))) : Prop :=
  match ticks with
  | [] => True
  | (currentTime, _) :: rest => (lastTime <= currentTime)%Q /\ ascending currentTime rest
  end.

Lemma gameLoop_clock fuel currentTime rolls l l' :
  gameLoop fuel currentTime rolls l = Some l' ->
  lastTime l' = currentTime
  /\ (timeOf (engine l') = timeOf (engine l)
      \/ (running (engine l) = true
          /\ timeOf (engine l')
             = (timeOf (engine l) + frameDelta (lastTime l) currentTime)%Q)).
Proof.
  unfold gameLoop. cbv zeta.
  destruct (update fuel _ rolls (engine l)) as [e1|] eqn:Eu; [|discriminate].
  intros [= <-]. split; [reflexivity|]. cbn [engine].
  destruct (clock_step fuel (Frame (frameDelta (lastTime l) currentTime) rolls)
                       (engine l) e1 Eu)
    as [[Ht _]|[(Hp & _ & Hm)|(dt & r & [= <- <-] & Hr & Ht)]].
  - now left.
  - exfalso. destruct (update_cases _ _ _ _ _ Eu) as (e2 & H2 & ->).
    unfold running in H2. rewrite Hm in H2. cbn [andb] in H2. injection H2 as <-.
    rewrite (keeps_screen _ _ (Keeps_effects _ _)) in Hp. congruence.
  - right. split; assumption.
Qed.

Lemma frames_clock fuel ticks : forall l l',
  ascending (lastTime l) ticks -> frames fuel ticks l = Some l' ->
  (timeOf (engine l) <= timeOf (engine l'))%Q
  /\ (timeOf (engine l') - timeOf (engine l) <= (lastTime l' - lastTime l) / 1000)%Q
  /\ (timeOf (engine l') - timeOf (engine l)
      <= inject_Z (Z.of_nat (List.length ticks)) * (1 # 10))%Q.
Proof.
  induction ticks as [|[currentTime rolls] rest IH]; intros l l'; cbn [frames ascending].
  - intros _ [= <-]. split; [apply Qle_refl|]. split.
    + unfold Qdiv. change (/ 1000)%Q with (1 # 1000)%Q. lra.
    + cbn [List.length Z.of_nat]. change (inject_Z 0) with 0%Q. lra.
  - intros [Ha Hrest].
    destruct (gameLoop fuel currentTime rolls l) as [l1|] eqn:Eg; [|discriminate].
    intros Hf. destruct (gameLoop_clock _ _ _ _ _ Eg) as [Hl Ht].
    rewrite <- Hl in Hrest. destruct (IH _ _ Hrest Hf) as (I1 & I2 & I3).
    pose proof (frameDelta_cap (lastTime l) currentTime) as Hcap.
    pose proof (frameDelta_elapsed (lastTime l) currentTime) as Hel.
    pose proof (frameDelta_forward _ _ Ha) as Hfw.
    assert (Hstep : (timeOf (engine l) <= timeOf (engine l1)
                     <= timeOf (engine l) + frameDelta (lastTime l) currentTime)%Q).
    { destruct Ht as [-> | [_ ->]]; split; lra. }
    rewrite Hl in I2.
    assert (Hn : (inject_Z (Z.of_nat (List.length ((currentTime, rolls) :: rest)))
                  == inject_Z (Z.of_nat (List.length rest)) + 1)%Q).
    { cbn [List.length]. rewrite Nat2Z.inj_succ. unfold Z.succ. rewrite inject_Z_plus.
      reflexivity. }
    rewrite Hn. unfold Qdiv in *. change (/ 1000)%Q with (1 # 1000)%Q in *.
    split; [lra|]. split; lra.
Qed.

(** X23.  The clock of the level never runs ahead of the host's clock
    and never jumps.  [gameLoop] caps the time of a frame at 0.1 s, records
    the time stamp, and the game time moves by exactly that capped time in
    a frame of the running level and not at all in any other frame.  Over
    any number of frames whose time stamps do not go back, the game time
    does not go back, gains at most the elapsed time and at most 0.1 s per
    frame; the first frame after [start] has deltaTime 0. *)
Theorem game_time_is_capped (fuel : nat) (ticks : list (Q * (nat -> Q))) (l l' : Loop.t) :
  (forall lastTime currentTime, (frameDelta lastTime currentTime <= 1 # 10)%Q)
  /\ (forall now, (frameDelta now now == 0)%Q)
  /\ (forall currentTime rolls l1,
        gameLoop fuel currentTime rolls l = Some l1 ->
        lastTime l1 = currentTime
        /\ (running (engine l) = false -> timeOf (engine l1) = timeOf (engine l))
        /\ (timeOf (engine l1) = timeOf (engine l)
            \/ timeOf (engine l1)
               = (timeOf (engine l) + frameDelta (lastTime l) currentTime)%Q))
  /\ (ascending (lastTime l) ticks -> frames fuel ticks l = Some l' ->
      (timeOf (engine l) <= timeOf (engine l'))%Q
      /\ (timeOf (engine l') - timeOf (engine l) <= (lastTime l' - lastTime l) / 1000)%Q
      /\ (timeOf (engine l') - timeOf (engine l)
          <= inject_Z (Z.of_nat (List.length ticks)) * (1 # 10))%Q).
Proof.
  split; [apply frameDelta_cap|].
  split.
  { intros now. unfold frameDelta, min.
    assert (H : ((now - now) / 1000 == 0)%Q) by (unfold Qdiv; ring).
    destruct (leb _ _) eqn:E; [exact H|].
    apply leb_gt in E. rewrite H in E. lra. }
  split; [|apply frames_clock].
  intros currentTime rolls l1 Hg.
  destruct (gameLoop_clock _ _ _ _ _ Hg) as [Hl Ht].
  split; [exact Hl|]. split.
  - intros Hr. destruct Ht as [Ht|[Hr' _]]; [exact Ht | congruence].
  - destruct Ht as [Ht|[_ Ht]]; [now left | now right].
Qed.

(** The started level, a frame 16 ms after the start and one after a stall
    of five seconds. *)
Definition stalled : Loop.t :=
  Eval vm_compute in
    match frames 4 [(16%Q, fun _ : nat => (1 # 2)%Q); (5016%Q, fun _ : nat => (1 # 2)%Q)]
                 (Loop.mk Samples.started 0%Q) with
    | Some l => l
    | None => Loop.mk Samples.started 0
    end.

Lemma game_time_is_capped_witness :
  (timeOf (engine stalled) - timeOf Samples.started <= 2 * (1 # 10))%Q.
Proof.
  destruct (game_time_is_capped 4 [(16%Q, fun _ : nat => (1 # 2)%Q); (5016%Q, fun _ : nat => (1 # 2)%Q)]
                                (Loop.mk Samples.started 0%Q) stalled)
    as (_ & _ & _ & H).
  destruct H as (_ & _ & H).
  - cbn. split; [discriminate|]. split; [discriminate | exact I].
  - vm_compute. reflexivity.
  - exact H.
Defined.

End LoopFacts.
(* ------------------------------------------------------------------------- *)
(** ** Particles and floating texts *)

Module VisualFacts.
Import QBool QBoolFacts JSArray ListFacts Visuals.

(** *** Removing in place while counting down *)

Section Sweep.
Context {A : Type} (age : A -> A) (dead : A -> bool).

(** A turn of the two loops, for any element type. *)
Definition turn (l : option (list A)) (i : nat) : option (list A) :=
  match l with
  | None => None
  | Some l =>
      match nth_error l i with
      | None => None
      | Some a =>
          let a := age a in
          let l := updateAt i (fun _ => a) l in
          Some (if dead a then splice1 i l else l)
      end
  end.

Definition kept (l : list A) : list A :=
  filter (fun a => negb (dead a)) (map age l).

Lemma downFrom_S n : downFrom (S n) = n :: downFrom n.
Proof. unfold downFrom. rewrite seq_S, rev_app_distr. reflexivity. Qed.

Lemma updateAt_middle (f : A -> A) (l : list A) a rest :
  updateAt (List.length l) f (l ++ a :: rest) = l ++ f a :: rest.
Proof. induction l as [|b l IH]; cbn; [reflexivity | now rewrite IH]. Qed.

Lemma splice1_middle (l : list A) a rest :
  splice1 (List.length l) (l ++ a :: rest) = l ++ rest.
Proof.
  unfold splice1. rewrite firstn_app, Nat.sub_diag, firstn_all. cbn [firstn].
  rewrite app_nil_r.
  replace (S (List.length l)) with (List.length (l ++ [a]))
    by (rewrite length_app; cbn; lia).
  replace (l ++ a :: rest) with ((l ++ [a]) ++ rest) by (now rewrite <- app_assoc).
  rewrite skipn_app, skipn_all, Nat.sub_diag. reflexivity.
Qed.

Lemma kept_app l a : kept (l ++ [a]) = kept l ++ (if dead (age a) then [] else [age a]).
Proof.
  unfold kept. rewrite map_app, filter_app. cbn. now destruct (dead (age a)).
Qed.

(** The loop from the last index down to 0 ages every element once and
    removes the dead ones; what lies behind the part still to visit is
    not touched. *)
Lemma sweep (l : list A) : forall rest,
  fold_left turn (downFrom (List.length l)) (Some (l ++ rest)) = Some (kept l ++ rest).
Proof.
  induction l as [|a l IH] using rev_ind; intros rest; [reflexivity|].
  rewrite length_app. cbn [List.length]. rewrite Nat.add_1_r, downFrom_S.
  cbn [fold_left]. rewrite <- app_assoc. cbn [app].
  unfold turn at 2.
  rewrite nth_error_app2 by lia. rewrite Nat.sub_diag. cbn [nth_error]. cbv zeta.
  rewrite updateAt_middle, kept_app, <- app_assoc.
  destruct (dead (age a)).
  - rewrite splice1_middle. apply IH.
  - apply IH.
Qed.

End Sweep.

Definition burntOut (p : Particle.t) : bool := leb (Particle.life p) 0.


(** [while (length > cap) shift()] keeps the last [cap] elements. *)
Lemma shiftWhileOver_eq {A} cap (l : list A) :
  shiftWhileOver cap l = skipn (List.length l - cap) l.
Proof.
  induction l as [|a l IH]; [reflexivity|].
  cbn [shiftWhileOver]. destruct (Nat.ltb_spec cap (List.length (a :: l))) as [H|H].
  - rewrite IH. cbn [List.length] in *.
    replace (S (List.length l) - cap)%nat with (S (List.length l - cap)) by lia.
    reflexivity.
  - replace (List.length (a :: l) - cap)%nat with 0%nat by lia. reflexivity.
Qed.

Lemma updateParticles_eq deltaTime particles :
  updateParticles deltaTime particles
  = Some (let l := kept (ageParticle deltaTime) burntOut particles in
          skipn (List.length l - 200) l).
Proof.
  unfold updateParticles.
  change (particleTurn deltaTime) with (turn (ageParticle deltaTime) burntOut).
  rewrite <- (app_nil_r particles) at 2. rewrite sweep, app_nil_r.
  cbn [option_map]. now rewrite shiftWhileOver_eq.
Qed.

(** *** The life of a floating text *)













(** *** Particles *)

Lemma skipn_length_le {A} n (l : list A) : (List.length (skipn (List.length l - n) l) <= n)%nat.
Proof. rewrite length_skipn. lia. Qed.

Definition unit (q : Q) : Prop := (0 <= q < 1)%Q.

(** X25.  The particle queue is bounded and only holds live
    particles after an update.  [updateParticles] never reads past the
    array: it moves every particle by its velocity, adds 200 * deltaTime to
    the downward velocity, takes deltaTime from the life, removes the
    particles whose life is used up and then drops the oldest until at most
    200 are left.  [spawnHitParticles] appends twelve particles at the
    given point; with random numbers in [0, 1) their life and maxLife lie
    in [0.5, 0.8), but they are two separate random numbers, so the opacity
    life / maxLife of a new particle lies between 5/8 and 8/5 and exceeds 1
    exactly if the first is the larger. *)
Theorem particles_are_bounded (cos sin : Q -> Q) (pi : Q) (deltaTime x y : Q)
    (color : string) (rolls : nat -> Q) (particles : list Particle.t) :
  (exists particles',
      updateParticles deltaTime particles = Some particles'
      /\ (List.length particles' <= 200)%nat
      /\ (exists dropped,
             dropped ++ particles'
             = filter (fun p => negb (burntOut p)) (map (ageParticle deltaTime) particles))
      /\ (forall p', In p' particles' ->
            (0 < Particle.life p')%Q
            /\ exists p, In p particles /\ p' = ageParticle deltaTime p))
  /\ (let spawned := spawnHitParticles cos sin pi x y color rolls particles in
      List.length spawned = (List.length particles + 12)%nat
      /\ firstn (List.length particles) spawned = particles
      /\ forall i, (i < 12)%nat ->
           exists p, nth_error spawned (List.length particles + i) = Some p
             /\ Particle.x p = x /\ Particle.y p = y /\ Particle.color p = color
             /\ (unit (rolls (5 * i + 2)%nat) -> unit (rolls (5 * i + 3)%nat) ->
                 (1 # 2 <= Particle.life p < 4 # 5)%Q
                 /\ (1 # 2 <= Particle.maxLife p < 4 # 5)%Q
                 /\ (5 # 8 < alpha p < 8 # 5)%Q
                 /\ ((1 < alpha p)%Q
                     <-> (rolls (5 * i + 3)%nat < rolls (5 * i + 2)%nat)%Q))).
Proof.
  split.
  - rewrite updateParticles_eq. cbv zeta.
    set (l := kept (ageParticle deltaTime) burntOut particles).
    eexists. split; [reflexivity|].
    split; [apply skipn_length_le|].
    split.
    { exists (firstn (List.length l - 200) l). apply firstn_skipn. }
    intros p' Hin.
    assert (Hl : In p' l).
    { rewrite <- (firstn_skipn (List.length l - 200) l). apply in_or_app. now right. }
    unfold l, kept in Hl. apply filter_In in Hl. destruct Hl as [Hm Hb].
    split.
    + unfold burntOut in Hb. destruct (leb _ 0) eqn:E; [discriminate|].
      now apply leb_gt in E.
    + apply in_map_iff in Hm. destruct Hm as (p & <- & Hp). eauto.
  - cbv zeta. unfold spawnHitParticles.
    split; [rewrite length_app, length_map, length_seq; reflexivity|].
    split.
    { rewrite firstn_app, Nat.sub_diag, firstn_all. cbn [firstn]. apply app_nil_r. }
    intros i Hi.
    exists (hitParticle cos sin pi x y color rolls i).
    split.
    { rewrite nth_error_app2 by lia.
      replace (List.length particles + i - List.length particles)%nat with i by lia.
      rewrite nth_error_map. rewrite nth_error_seq.
      destruct (Nat.ltb_spec i count) as [_|H]; [reflexivity | unfold count in H; lia]. }
    split; [reflexivity|]. split; [reflexivity|]. split; [reflexivity|].
    intros [Ha1 Ha2] [Hb1 Hb2].
    unfold alpha, hitParticle. cbv zeta.
    cbn [Particle.life Particle.maxLife].
    set (a := rolls (5 * i + 2)%nat) in *. set (b := rolls (5 * i + 3)%nat) in *.
    assert (Hpos : (0 < (1 # 2) + b * (3 # 10))%Q) by lra.
    split; [lra|]. split; [lra|].
    set (N := ((1 # 2) + a * (3 # 10))%Q) in *. set (D := ((1 # 2) + b * (3 # 10))%Q) in *.
    assert (HN : (N == (1 # 2) + a * (3 # 10))%Q) by reflexivity.
    assert (HD : (D == (1 # 2) + b * (3 # 10))%Q) by reflexivity.
    assert (E : (N / D * D == N)%Q) by (field; lra).
    split.
    { split.
      - apply Qlt_shift_div_l; [exact Hpos | lra].
      - apply Qlt_shift_div_r; [exact Hpos | lra]. }
    split.
    + intros H. apply (Qmult_lt_r _ _ D Hpos) in H. rewrite E in H. lra.
    + intros H. apply Qlt_shift_div_l; [exact Hpos | lra].
Qed.

Lemma particles_are_bounded_witness :
  exists p, nth_error (spawnHitParticles (fun _ => 1%Q) (fun _ => 0%Q) 3 10 20 "#ff00ff"
                         (fun n => if Nat.eqb n 2 then (9 # 10)%Q else 0%Q) []) 0 = Some p
            /\ (1 < alpha p)%Q.
Proof.
  destruct (particles_are_bounded (fun _ => 1%Q) (fun _ => 0%Q) 3 0 10 20 "#ff00ff"
              (fun n => if Nat.eqb n 2 then (9 # 10)%Q else 0%Q) []) as [_ (_ & _ & H)].
  destruct (H 0%nat) as (p & Hp & _ & _ & _ & Hr); [lia|].
  exists p. split; [exact Hp|].
  destruct Hr as (_ & _ & _ & Hiff).
  - cbn. unfold unit. lra.
  - cbn. unfold unit. lra.
  - apply Hiff. cbn. lra.
Defined.

End VisualFacts.
(* ------------------------------------------------------------------------- *)
(** ** Saving and loading the progression *)

Module SaveFacts.
Import JSArray Engine EngineFacts UpdateFacts StepFacts Atomic PlayFacts KeyFacts
       JS Store Save.

(** *** The keys of the two record maps are distinct *)

Definition mapsInv (e : Engine.t) : Prop :=
  NoDup (map fst (GameState.levelHighScores (state e)))
  /\ NoDup (map fst (GameState.levelMaxCombos (state e))).

Lemma In_keys_mapSet x k v m :
  In x (map fst (JSArray.mapSet k v m)) -> x = k \/ In x (map fst m).
Proof.
  induction m as [|[k' v'] m IH]; cbn [JSArray.mapSet map fst].
  - intros [<-|[]]. now left.
  - destruct (Z.eqb_spec k' k) as [->|Hne]; cbn [map fst In].
    + intros [<-|H]; [now left | right; now right].
    + intros [<-|H]; [right; now left|].
      destruct (IH H) as [->|H']; [now left | right; now right].
Qed.

Lemma NoDup_mapSet k v m : NoDup (map fst m) -> NoDup (map fst (JSArray.mapSet k v m)).
Proof.
  induction m as [|[k' v'] m IH]; cbn [JSArray.mapSet map fst]; intros Hn.
  - constructor; [intros [] | constructor].
  - inversion Hn as [|? ? Hnot Hrest]; subst.
    destruct (Z.eqb_spec k' k) as [->|Hne]; cbn [map fst].
    + constructor; assumption.
    + constructor; [|now apply IH].
      intros Hin. destruct (In_keys_mapSet _ _ _ _ Hin) as [->|H]; [congruence | tauto].
Qed.

Lemma mapsInv_micro fuel e e' : Micro fuel e e' -> mapsInv e -> mapsInv e'.
Proof.
  unfold mapsInv.
  destruct 1; intros [Hs1 Hs2];
    try match goal with
        | H : startLevel _ _ _ = Some _ |- _ =>
            destruct (startLevel_fields _ _ _ _ H)
              as (_ & _ & _ & _ & _ & _ & _ & _ & _ & _ & _ & _ & -> & -> & _)
        end;
    try (split; assumption);
    try (split; [apply NoDup_mapSet; exact Hs1 | exact Hs2]);
    try (split; [exact Hs1 | apply NoDup_mapSet; exact Hs2]).
Qed.

(** What a save relies on: the upgrades of the catalog, four key bindings
    shown by the lanes, a highest level of at least 1 and record maps with
    distinct keys. *)
Record Saveable (e : Engine.t) : Prop := mkSaveable {
  sv_economy : Economy e;
  sv_keys : keysInv e;
  sv_level : levelInv e;
  sv_maps : mapsInv e }.

Lemma Saveable_create width height : Saveable (create width height).
Proof.
  constructor.
  - apply Economy_create.
  - unfold keysInv. cbn. split; [reflexivity|]. split; [reflexivity | discriminate].
  - unfold levelInv. cbn. lia.
  - split; constructor.
Qed.

Lemma Saveable_run fuel evs e e' : Saveable e -> run fuel evs e = Some e' -> Saveable e'.
Proof.
  intros HI Hr. apply run_Steps in Hr. revert HI.
  apply (Steps_invariant fuel Saveable); [|exact Hr].
  intros e1 e2 Hm [H1 H2 H3 H4]. constructor.
  - eapply Economy_micro; eassumption.
  - eapply keysInv_micro; eassumption.
  - now destruct (levelInv_micro _ _ _ Hm H3).
  - eapply mapsInv_micro; eassumption.
Qed.

(** *** The loader on a saved blob *)

Local Open Scope exec_scope.

Lemma bind_some {A B} (m : Exec A) (k : A -> Exec B) p a p' :
  m p = (Some a, p') -> bind m k p = k a p'.
Proof. unfold bind. now intros ->. Qed.

Definition savedUpgrade (u : Upgrade.t) : Value :=
  Obj [("id"%string, Str (Upgrade.id u));
       ("level"%string, num (Upgrade.currentLevel u))].

Definition levelsOf (upgrades : list Upgrade.t) : list (string * Value) :=
  map (fun u => (Upgrade.id u, Num (inject_Z (Upgrade.currentLevel u)))) upgrades.

Lemma keys_levelsOf upgrades : map fst (levelsOf upgrades) = map Upgrade.id upgrades.
Proof.
  induction upgrades as [|u l IH]; [reflexivity|].
  cbn [levelsOf map fst]. f_equal. exact IH.
Qed.

Lemma setLevel_middle k v done old rest :
  ~ In k (map fst done) ->
  setLevel (Str k) v (done ++ (k, old) :: rest) = done ++ (k, v) :: rest.
Proof.
  induction done as [|[k' v'] done IH]; cbn [app setLevel map fst In eqStr]; intros Hn.
  - now rewrite String.eqb_refl.
  - destruct (String.eqb_spec k k') as [->|Hne]; [tauto|].
    rewrite IH by tauto. reflexivity.
Qed.

Lemma hasUpgrade_middle k done old rest :
  hasUpgrade (Str k) (done ++ (k, old) :: rest) = true.
Proof.
  unfold hasUpgrade. rewrite existsb_app. cbn [existsb fst eqStr].
  rewrite String.eqb_refl. now rewrite orb_true_r.
Qed.

Lemma set_upgradeLevels_twice v w p :
  set_upgradeLevels v (set_upgradeLevels w p) = set_upgradeLevels v p.
Proof. reflexivity. Qed.

Lemma loadUpgrades upgrades : forall done todo p,
  upgradeLevels p = done ++ todo ->
  map fst todo = map Upgrade.id upgrades ->
  NoDup (map fst (done ++ todo)) ->
  forEach (map savedUpgrade upgrades) loadUpgrade p
  = (Some tt, set_upgradeLevels (done ++ levelsOf upgrades) p).
Proof.
  induction upgrades as [|u upgrades IH]; intros done todo p Hp Hk Hn.
  - destruct todo; [|discriminate]. cbn [map forEach levelsOf]. unfold ret.
    rewrite <- Hp. destruct p; reflexivity.
  - destruct todo as [|[k old] todo]; [discriminate|].
    cbn [map fst] in Hk. injection Hk as -> Hk.
    cbn [map forEach].
    assert (Hfresh : ~ In (Upgrade.id u) (map fst done)).
    { rewrite map_app in Hn. cbn [map fst] in Hn.
      apply NoDup_remove_2 in Hn. intros Hin. apply Hn. apply in_or_app. now left. }
    assert (Hone : loadUpgrade (savedUpgrade u) p
                   = (Some tt,
                      set_upgradeLevels
                        (done ++ (Upgrade.id u, num (Upgrade.currentLevel u)) :: todo) p)).
    { unfold loadUpgrade, bind, read, try, assign, ret. rewrite Hp.
      assert (Hcons : exists a l, done ++ (Upgrade.id u, old) :: todo = a :: l)
        by (destruct done; cbn; eauto).
      destruct Hcons as (a & l & Hcons). rewrite Hcons.
      cbn [savedUpgrade prop lookup String.eqb Ascii.eqb Bool.eqb].
      rewrite <- Hcons. rewrite hasUpgrade_middle.
      cbn [lookup String.eqb Ascii.eqb Bool.eqb].
      rewrite setLevel_middle by exact Hfresh. reflexivity. }
    rewrite (bind_some _ _ _ _ _ Hone).
    rewrite (IH (done ++ [(Upgrade.id u, num (Upgrade.currentLevel u))]) todo).
    + rewrite set_upgradeLevels_twice. cbn [levelsOf map]. rewrite <- app_assoc. reflexivity.
    + cbn [upgradeLevels set_upgradeLevels]. now rewrite <- app_assoc.
    + exact Hk.
    + rewrite <- app_assoc. cbn [app].
      rewrite map_app in *. cbn [map fst] in *. exact Hn.
Qed.

Lemma Qeq_bool_inject a b : Qeq_bool (inject_Z a) (inject_Z b) = (a =? b).
Proof. unfold Qeq_bool, inject_Z. cbn [Qnum Qden]. now rewrite !Z.mul_1_r. Qed.

Lemma mapSet_fresh k v done :
  ~ In k (map fst done) ->
  JS.mapSet (num k) (num v) (numEntries done) = numEntries (done ++ [(k, v)]).
Proof.
  induction done as [|[k' v'] done IH]; cbn [map fst In]; intros Hn; [reflexivity|].
  unfold numEntries in *. cbn [map app JS.mapSet fst snd sameKey]. unfold num in *.
  rewrite Qeq_bool_inject.
  destruct (Z.eqb_spec k' k) as [->|Hne]; [tauto|].
  rewrite IH by tauto. reflexivity.
Qed.

Definition entry (kv : Z * Z) : Value := Arr [num (fst kv); num (snd kv)].

Lemma mapOfItems_entries m : forall done,
  NoDup (map fst (done ++ m)) ->
  mapOfItems (map entry m) (numEntries done) = Some (numEntries (done ++ m)).
Proof.
  induction m as [|[k v] m IH]; intros done Hn; cbn [map mapOfItems].
  - now rewrite app_nil_r.
  - cbn [entry isObject index nth fst snd].
    rewrite mapSet_fresh.
    + rewrite IH; [now rewrite <- app_assoc|].
      rewrite <- app_assoc. exact Hn.
    + rewrite map_app in Hn. cbn [map fst] in Hn.
      apply NoDup_remove_2 in Hn. intros Hin. apply Hn. apply in_or_app. now left.
Qed.

Lemma newMap_entries m :
  NoDup (map fst m) -> newMap (entries m) = Some (numEntries m).
Proof.
  intros Hn. unfold newMap, entries. cbn [iterate].
  exact (mapOfItems_entries m [] Hn).
Qed.

Lemma catalog_ids e :
  catalogInv e -> map Upgrade.id (upgradesOf e) = map Upgrade.id UPGRADE_DEFINITIONS.
Proof.
  unfold catalogInv. intros H.
  apply (f_equal (map Upgrade.id)) in H. rewrite !map_map in H. exact H.
Qed.

Lemma catalog_ids_distinct : NoDup (map Upgrade.id UPGRADE_DEFINITIONS).
Proof.
  cbn. repeat (constructor; [cbn; intuition discriminate|]). constructor.
Qed.

(** The statements of [loadProgress] on the blob of [e], from the fields of
    an engine with the upgrades of the catalog and four lanes. *)
Lemma loaded_saved text e e0 :
  Saveable e -> catalogInv e0 -> List.length (lanesOf e0) = 4%nat ->
  text <> ""%string ->
  loaded 4 (Item text (Some (saveData e))) (view e0) = view e.
Proof.
  intros [[Hc _ _ _ _] (Hk & Hlen & _) [Hl1 Hl] [Hm1 Hm2]] Hc0 Hlanes Htext.
  unfold loaded, loadProgress, catch, loadBody. cbn [snd].
  apply String.eqb_neq in Htext. rewrite Htext.
  unfold saveData. cbv zeta.
  unfold upgradesOf, lanesOf, keybindsOf, levelOf, highestOf in *.
  set (s := state e) in *.
  (* totalPoints and highestLevel *)
  unfold bind at 1. unfold try at 1.
  unfold bind at 1. unfold try at 1.
  cbn [prop lookup String.eqb Ascii.eqb Bool.eqb].
  unfold bind at 1. unfold assign at 1.
  unfold bind at 1. unfold try at 1.
  unfold bind at 1. unfold assign at 1.
  unfold bind at 1. unfold try at 1.
  unfold bind at 1. unfold try at 1.
  cbn [orElse truthy iterate].
  (* the upgrades *)
  match goal with |- snd (bind (forEach ?items loadUpgrade) ?k ?p) = _ =>
    assert (Hu : forEach items loadUpgrade p
                 = (Some tt, set_upgradeLevels (levelsOf (GameState.upgrades s)) p))
  end.
  { apply (loadUpgrades (GameState.upgrades s) [] (levelsOf (GameState.upgrades (state e0)))).
    - reflexivity.
    - rewrite keys_levelsOf.
      fold (upgradesOf e0). fold (upgradesOf e).
      rewrite (catalog_ids e0 Hc0). symmetry. apply (catalog_ids e Hc).
    - cbn [app]. rewrite keys_levelsOf.
      fold (upgradesOf e0). rewrite (catalog_ids e0 Hc0). apply catalog_ids_distinct. }
  rewrite (bind_some _ _ _ _ _ Hu). clear Hu.
  (* the two maps *)
  unfold loadMap.
  unfold bind at 1. unfold bind at 1. unfold try at 1.
  cbn [prop lookup String.eqb Ascii.eqb Bool.eqb].
  cbn [truthy entries]. fold (entries (GameState.levelHighScores s)).
  unfold bind at 1. unfold try at 1. rewrite (newMap_entries _ Hm1). unfold assign at 1.
  unfold bind at 1. unfold bind at 1. unfold try at 1.
  cbn [prop lookup String.eqb Ascii.eqb Bool.eqb].
  cbn [truthy entries]. fold (entries (GameState.levelMaxCombos s)).
  unfold bind at 1. unfold try at 1. rewrite (newMap_entries _ Hm2). unfold assign at 1.
  (* the key bindings *)
  unfold loadKeybinds. unfold bind at 1. unfold try at 1.
  cbn [prop lookup String.eqb Ascii.eqb Bool.eqb truthy].
  unfold bind at 1. unfold try at 1. rewrite length_map, Hlen.
  change (eqNum (ofNat 4) (inject_Z 4)) with true. cbv iota.
  unfold view. fold s. rewrite <- Hk.
  assert (H4 : exists a b c d, GameState.lanes s = [a; b; c; d]).
  { assert (Hl4 : List.length (GameState.lanes s) = 4%nat)
      by (rewrite <- Hlen, <- Hk; now rewrite length_map).
    destruct (GameState.lanes s) as [|a [|b [|c [|d [|? ?]]]]]; try discriminate. eauto. }
  assert (H04 : exists a b c d, GameState.lanes (state e0) = [a; b; c; d]).
  { destruct (GameState.lanes (state e0)) as [|a [|b [|c [|d [|? ?]]]]];
      try discriminate. eauto. }
  destruct H4 as (a & b & c & d & ->). destruct H04 as (a0 & b0 & c0 & d0 & ->).
  unfold num.
  assert (Hp : orElse (Num (inject_Z (GameState.totalPoints s))) (Num 0)
               = Num (inject_Z (GameState.totalPoints s))).
  { unfold orElse, truthy. change 0%Q with (inject_Z 0). rewrite Qeq_bool_inject.
    destruct (Z.eqb_spec (GameState.totalPoints s) 0) as [->|]; reflexivity. }
  assert (Hh : orElse (Num (inject_Z (GameState.highestLevel s))) (Num 1)
               = Num (inject_Z (GameState.highestLevel s))).
  { unfold orElse, truthy. change 0%Q with (inject_Z 0). rewrite Qeq_bool_inject.
    destruct (Z.eqb_spec (GameState.highestLevel s) 0) as [H0|]; [lia | reflexivity]. }
  cbn. rewrite Hp, Hh. reflexivity.
Qed.

(** X26.  What is saved is what is loaded.  After any sequence of
    events from a new engine (or from any engine with the upgrades of the
    catalog, four key bindings shown by the lanes, a highest level of at
    least 1 and distinct keys in the record maps, which every event keeps),
    a successful [saveProgress] followed by the [loadProgress] of a newly
    constructed engine, with [JSON.parse] reading the written text back as
    the saved data, gives back the progression as it was: the points,
    the highest level, the level of every upgrade, the best score and the
    best combo of every level, the key bindings and the keys of the lanes. *)
Theorem saved_progress_is_restored (fuel : nat) (evs : list Event) (e e' : Engine.t)
    (text : string) (old : Stored) (width height : Q) :
  (forall w h, Saveable (create w h))
  /\ (Saveable e -> run fuel evs e = Some e' -> text <> ""%string ->
      loaded (GameConfig.laneCount (config (create width height)))
             (saveProgress true text e' old) (view (create width height))
      = view e').
Proof.
  split; [apply Saveable_create|].
  intros HI Hr Htext. cbn [saveProgress].
  apply loaded_saved; [eapply Saveable_run; eassumption | reflexivity | reflexivity
                      | exact Htext].
Qed.

Lemma saved_progress_is_restored_witness :
  loaded 4 (saveProgress true "{}" Sessions.played NoItem) defaults = view Sessions.played.
Proof.
  destruct (saved_progress_is_restored 4 Sessions.session (create 800 600)
              Sessions.played "{}" NoItem 800 600) as [Hnew H].
  apply H; [apply Hnew | exact Sessions.session_played | discriminate].
Defined.

End SaveFacts.
(* ------------------------------------------------------------------------- *)
(** ** The patterns of a generated level *)

Module PatternFacts.
Import QBool QBoolFacts JSNumber Levels GenFacts LevelsFacts NoteFacts.




(** *** Sorting *)




(** *** The loop over the beats *)

Section Beats.
Variables (fuel : nat) (beatDuration duration difficulty : Q).
Hypothesis beat_pos : (0 < beatDuration)%Q.
Hypothesis duration_pos : (0 < duration)%Q.

Let first : Q := (4 * beatDuration / duration)%Q.









End Beats.





End PatternFacts.
(* ------------------------------------------------------------------------- *)
(** ** The beat pulse during the countdown *)

Module PulseFacts.
Import QBool QBoolFacts Engine EngineFacts UpdateFacts StepFacts Atomic TimingFacts.

Definition pulseOf (e : Engine.t) : Q := GameState.beatPulse (state e).

(** [x % y] for a negative [x] and a positive [y] lies in (-y, 0]. *)
Lemma rem_negative x y : (x < 0)%Q -> (0 < y)%Q -> (- y < rem x y <= 0)%Q.
Proof.
  intros Hx Hy. unfold rem, trunc.
  assert (Hq : (x / y < 0)%Q).
  { unfold Qdiv. pose proof (Qinv_lt_0_compat _ Hy) as Hi.
    setoid_replace 0%Q with (0 * / y)%Q by ring.
    apply Qmult_lt_compat_r; assumption. }
  destruct (leb 0 (x / y)) eqn:E; [apply leb_le in E; lra|].
  pose proof (Qle_ceiling (x / y)) as H1.
  pose proof (Qceiling_lt (x / y)) as H2.
  unfold Z.sub in H2. rewrite inject_Z_plus, inject_Z_opp in H2.
  change (inject_Z 1) with 1%Q in H2.
  set (c := inject_Z (Qceiling (x / y))) in *.
  assert (E1 : (x / y * y == x)%Q) by (field; lra).
  assert (A1 : (x / y * y <= c * y)%Q) by (apply Qmult_le_compat_r; lra).
  assert (A2 : ((c - 1) * y < x / y * y)%Q) by (apply Qmult_lt_compat_r; lra).
  rewrite E1 in A1, A2. split; lra.
Qed.

(** [x % y] for [x >= 0] and a positive [y] lies in [0, y). *)
Lemma rem_nonnegative x y : (0 <= x)%Q -> (0 < y)%Q -> (0 <= rem x y < y)%Q.
Proof.
  intros Hx Hy. unfold rem, trunc.
  assert (Hq : (0 <= x / y)%Q).
  { unfold Qdiv. pose proof (Qinv_lt_0_compat _ Hy) as Hi.
    apply Qmult_le_0_compat; lra. }
  destruct (leb 0 (x / y)) eqn:E; [|apply leb_gt in E; lra].
  pose proof (Qfloor_le (x / y)) as H1.
  pose proof (Qlt_floor (x / y)) as H2.
  rewrite inject_Z_plus in H2. change (inject_Z 1) with 1%Q in H2.
  set (c := inject_Z (Qfloor (x / y))) in *.
  assert (E1 : (x / y * y == x)%Q) by (field; lra).
  assert (A1 : (c * y <= x / y * y)%Q) by (apply Qmult_le_compat_r; lra).
  assert (A2 : (x / y * y < (c + 1) * y)%Q) by (apply Qmult_lt_compat_r; lra).
  rewrite E1 in A1, A2. split; lra.
Qed.

Definition beatPhase (beatInterval : Q) (e : Engine.t) : Q :=
  (rem (timeOf e) beatInterval / beatInterval)%Q.

Lemma phase_scaled r y lo hi :
  (0 < y)%Q -> (lo * y < r)%Q -> (r <= hi * y)%Q -> (lo < r / y <= hi)%Q.
Proof.
  intros Hy H1 H2. split.
  - apply Qlt_shift_div_l; assumption.
  - apply Qle_shift_div_r; assumption.
Qed.

Lemma pulseOnBeat_countdown beatInterval e :
  (0 < beatInterval)%Q -> (timeOf e < 0)%Q ->
  (-1 < beatPhase beatInterval e <= 0)%Q
  /\ pulseOf (pulseOnBeat beatInterval e)
     = max (pulseOf e) (1 - beatPhase beatInterval e * 10)%Q.
Proof.
  intros Hb Ht. destruct (rem_negative _ _ Ht Hb) as [H1 H2].
  assert (Hp : (-1 < beatPhase beatInterval e <= 0)%Q).
  { unfold beatPhase. apply phase_scaled; [exact Hb | lra | lra]. }
  split; [exact Hp|].
  unfold pulseOnBeat. cbv zeta. fold (timeOf e). fold (beatPhase beatInterval e).
  destruct (ltb _ _) eqn:E; [reflexivity|]. apply ltb_ge in E. lra.
Qed.

Lemma pulseOnBeat_playing beatInterval e :
  (0 < beatInterval)%Q -> (0 <= timeOf e)%Q ->
  (0 <= beatPhase beatInterval e < 1)%Q
  /\ (pulseOf (pulseOnBeat beatInterval e) = pulseOf e
      \/ pulseOf (pulseOnBeat beatInterval e)
         = max (pulseOf e) (1 - beatPhase beatInterval e * 10)%Q
         /\ (0 < 1 - beatPhase beatInterval e * 10 <= 1)%Q).
Proof.
  intros Hb Ht. destruct (rem_nonnegative _ _ Ht Hb) as [H1 H2].
  assert (Hp : (0 <= beatPhase beatInterval e < 1)%Q).
  { unfold beatPhase. split.
    - apply Qle_shift_div_l; [exact Hb | lra].
    - apply Qlt_shift_div_r; [exact Hb | lra]. }
  split; [exact Hp|].
  unfold pulseOnBeat. cbv zeta. fold (timeOf e). fold (beatPhase beatInterval e).
  destruct (ltb _ _) eqn:E; [|now left]. apply ltb_lt in E.
  right. split; [reflexivity | lra].
Qed.

Lemma pulseOf_endLevel e : pulseOf (endLevel e) = pulseOf e.
Proof.
  unfold pulseOf, endLevel. cbv zeta.
  destruct (_ <? _); destruct (_ <? _); destruct (_ && _); reflexivity.
Qed.

Lemma max_ge_r x y : (y <= max x y)%Q.
Proof. unfold max. destruct (leb x y) eqn:E; [apply Qle_refl|]. apply leb_gt in E. lra. Qed.

(** X28.  During the countdown the beat pulse overshoots.  The
    remainder of a negative game time takes its sign, so in every frame of
    a running level that ends before time 0 the beat phase lies in
    (-1, 0], the pulse is set to at least 1 - 10 * phase, a value between 1
    and 11, and after the decay of the frame it is still at least
    1 - 10 * phase - 4 * deltaTime.  From time 0 on the phase lies in
    [0, 1) and the value a beat sets is at most 1. *)
Theorem beat_pulse_overshoots_in_countdown (fuel : nat) (deltaTime : Q) (rolls : nat -> Q)
    (levelConfig : LevelConfig.t) (e e' : Engine.t) :
  running e = true ->
  currentLevelConfig e = Some levelConfig -> levelRng e <> None ->
  0 < LevelConfig.bpm levelConfig ->
  (0 <= deltaTime)%Q ->
  update fuel deltaTime rolls e = Some e' ->
  let beatInterval := beatIntervalOf levelConfig in
  let phase := (rem (timeOf e + deltaTime) beatInterval / beatInterval)%Q in
  timeOf e' = (timeOf e + deltaTime)%Q
  /\ ((timeOf e' < 0)%Q ->
      (-1 < phase <= 0)%Q
      /\ (1 <= 1 - phase * 10 < 11)%Q
      /\ (1 - phase * 10 - 4 * deltaTime <= pulseOf e')%Q)
  /\ ((0 <= timeOf e')%Q -> (0 <= phase < 1)%Q).
Proof.
  intros Hrun Hc Hr Hbpm Hdt Hu. cbv zeta.
  destruct (update_cases _ _ _ _ _ Hu) as (e1 & H1 & ->). rewrite Hrun in H1.
  destruct (updateGameplay_cases _ _ _ _ _ H1)
    as [[[Hn|Hn] _]|(lc & rng & nb & notes & c & rng' & Hc' & _ & _ & ->)];
    [congruence | congruence |].
  assert (lc = levelConfig) by congruence. subst lc.
  set (x := settled rolls (beatIntervalOf levelConfig)
                    (spawned deltaTime nb notes c rng' e)).
  assert (Hb : (0 < beatIntervalOf levelConfig)%Q).
  { unfold beatIntervalOf, Qdiv.
    assert (Hq : (0 < inject_Z (LevelConfig.bpm levelConfig))%Q)
      by (change 0%Q with (inject_Z 0); rewrite <- Zlt_Qlt; exact Hbpm).
    pose proof (Qinv_lt_0_compat _ Hq). lra. }
  set (y := cleanUp (fst (moveNotes (effectiveSpeed (spawned deltaTime nb notes c rng' e))
                                    (getHitLineY (spawned deltaTime nb notes c rng' e))
                                    rolls (spawned deltaTime nb notes c rng' e)))).
  assert (Hty : timeOf y = (timeOf e + deltaTime)%Q).
  { unfold y, timeOf.
    rewrite (keeps_time _ _ (Keeps_cleanUp _)), (keeps_time _ _ (Keeps_moveNotes _ _ _ _)).
    reflexivity. }
  assert (Htx : timeOf (effects deltaTime (closeFrame x)) = (timeOf e + deltaTime)%Q).
  { unfold timeOf. rewrite (keeps_time _ _ (Keeps_effects _ _)).
    assert (Hcf : GameState.gameTime (state (closeFrame x)) = GameState.gameTime (state x)).
    { unfold closeFrame. destruct (10 <=? _); [apply ViewFacts.timeOf_endLevel | reflexivity]. }
    rewrite Hcf. unfold x.
    rewrite (keeps_time _ _ (Keeps_settled _ _ _)). reflexivity. }
  split; [exact Htx|]. rewrite Htx.
  split.
  - intros Hneg.
    assert (Hneg' : (timeOf y < 0)%Q) by (rewrite Hty; exact Hneg).
    destruct (pulseOnBeat_countdown _ y Hb Hneg') as [Hphase Hpulse].
    unfold beatPhase in Hphase, Hpulse. rewrite Hty in Hphase, Hpulse.
    set (phase := (rem (timeOf e + deltaTime) (beatIntervalOf levelConfig)
                   / beatIntervalOf levelConfig)%Q) in *.
    split; [exact Hphase|]. split; [lra|].
    assert (Hx : pulseOf (closeFrame x) = max (pulseOf y) (1 - phase * 10)%Q).
    { unfold closeFrame. destruct (10 <=? _); [rewrite pulseOf_endLevel|]; exact Hpulse. }
    assert (He : pulseOf (effects deltaTime (closeFrame x))
                 = decay 4 deltaTime (pulseOf (closeFrame x))) by reflexivity.
    rewrite He, Hx. pose proof (max_ge_r (pulseOf y) (1 - phase * 10)) as Hm.
    unfold decay. destruct (gtb _ 0) eqn:E.
    + unfold max at 1. destruct (leb 0 _) eqn:E2.
      * lra.
      * apply leb_gt in E2. lra.
    + unfold gtb in E. apply ltb_ge in E. lra.
  - intros Hpos.
    assert (Hpos' : (0 <= timeOf y)%Q) by (rewrite Hty; exact Hpos).
    destruct (pulseOnBeat_playing _ y Hb Hpos') as [Hphase _].
    unfold beatPhase in Hphase. rewrite Hty in Hphase. exact Hphase.
Qed.

(** The started level after its first frame of 0.1 s. *)
Definition firstFrame : Engine.t :=
  Eval vm_compute in
    match update 4 (1 # 10) (fun _ => 1 # 2) Samples.started with
    | Some e => e
    | None => Samples.started
    end.

Lemma beat_pulse_overshoots_in_countdown_witness : (1 < pulseOf firstFrame)%Q.
Proof.
  assert (Hu : update 4 (1 # 10) (fun _ => 1 # 2) Samples.started = Some firstFrame)
    by (vm_compute; reflexivity).
  assert (Hc : exists lc, currentLevelConfig Samples.started = Some lc
                          /\ LevelConfig.bpm lc = 85).
  { eexists. split; reflexivity. }
  destruct Hc as (lc & Hc & Hbpm).
  destruct (beat_pulse_overshoots_in_countdown 4 (1 # 10) (fun _ => 1 # 2) lc
              Samples.started firstFrame) as (_ & H & _).
  - reflexivity.
  - exact Hc.
  - discriminate.
  - rewrite Hbpm. reflexivity.
  - discriminate.
  - exact Hu.
  - destruct H as (_ & H1 & H2); [vm_compute; reflexivity|].
    eapply Qlt_le_trans; [|exact H2].
    unfold beatIntervalOf. rewrite Hbpm. vm_compute. reflexivity.
Defined.

End PulseFacts.
